(* ===== verification/_CoqProject ===== *)
-Q . S2P
Prelude.v
Sys.v
Hash.v
Float64.v
Parse.v
Heap.v
Repr.v
ListObj.v
Types.v
AsList.v
Dict.v
Offload.v
Interp.v
StrProcs.v
ListProcs.v
CoreProcs.v
Strm.v
FdOps.v
FdProcs.v
Prompt.v
Switch.v
Sockets.v
Streams.v
SysProcs.v
Ffi.v
Zlib.v
Fds.v
Owned.v
Ledger.v
Counted.v
Eval.v
Sched.v
Quiet.v
Frames.v
Words.v
Calls.v
Sources.v
Balanced.v
Threads.v
Dues.v
Payments.v
IoDues.v
Solvent.v
Together.v
Leaks.v
Control.v
Fuel.v
Scripts.v
IoScripts.v
