(* ===== verification/Prelude.v ===== *)
(** * b6b: a verification development for the b6b interpreter

    b6b is an interpreter for a small Tcl-like language: a program is a list of
    statements, a statement a list of words, and a word a literal, a variable
    ([$name]) or a statement in brackets. Everything is an object that converts
    between list, string, integer and float on demand; memory is managed by
    reference counts; threads are cooperative and switch inside the evaluator
    with [swapcontext].

    ** The parts, and the files that model them

    - Prelude.v: bytes, machine integers, the outcome type and the state monad
      of code that never switches threads, and lemmas shared by all files.
    - Hash.v: include/b6b/hash.h, src/b6b_hash.c.
    - Float64.v: binary64 numbers and what the source uses of the C library
      ([strtod], the formats of [asprintf], [floor], [remainder]).
    - Parse.v: the text of a list and back, as functions on bytes: the joining
      loop of [b6b_as_str] (src/b6b_str.c) and the tokeniser [b6b_do_as_list]
      (src/b6b_list.c), which is the parser of programs too.
    - Heap.v: include/b6b/obj.h and src/b6b_obj.c: objects, [b6b_ref],
      [b6b_unref], [b6b_destroy].
    - Repr.v: the conversions between the representations of an object
      ([b6b_as_str], [b6b_as_int], [b6b_as_float], [b6b_as_list]), hashes,
      comparison and truth.
    - ListObj.v: the list primitives and the argument parser
      [b6b_list_vparse] of src/b6b_list.c.
    - Dict.v: src/b6b_dict.c: dictionaries are lists of keys and values.
    - Interp.v: the state of an interpreter (include/b6b/interp.h, thread.h,
      frame.h): threads, frames, variables, return values, argument checking.
    - StrProcs.v, ListProcs.v, CoreProcs.v: the procedures of src/b6b_str.c,
      b6b_list.c, b6b_dict.c, b6b_rand.c, b6b_math.c, b6b_logic.c and
      b6b_core.c that run no code.
    - Sys.v: the calls of the operating system and of libraries, the answers a
      run is given, and what calls open and close.
    - Types.v: what the argument parser promises of its arguments. AsList.v:
      what [b6b_as_list] does to an object on the heap.
    - Strm.v: the reading and writing of src/b6b_strm.c, over a record of
      operations and in any monad.
    - FdOps.v: src/b6b_fdops.c and the tables of semaphores, timers and signals.
    - FdProcs.v: src/b6b_sem.c, b6b_timer.c, b6b_signal.c, b6b_sh.c, b6b_path.c
      and b6b_linenoise.c, the constructor of src/b6b_poll.c, and the objects
      of streams ([b6b_strm_new]).
    - Switch.v: resumptions, [b6b_yield], [b6b_start] and [b6b_offload] of
      src/b6b_interp.c and src/b6b_thread.c.
    - Sockets.v: src/b6b_socket.c.
    - Streams.v: the rest of src/b6b_strm.c, src/b6b_stdio.c, src/b6b_file.c.
    - SysProcs.v: src/b6b_syscall.c, b6b_time.c, and the object of
      src/b6b_poll.c.
    - Ffi.v: src/b6b_ffi.c. Zlib.v: src/b6b_zlib.c.
    - Offload.v: src/b6b_offload.c, the protocol between the interpreter and
      the system thread that makes blocking calls, as a step relation.
    - Eval.v: [b6b_eval], [b6b_stmt_call], [b6b_call] of src/b6b_interp.c and
      the procedures that run code (src/b6b_loop.c, b6b_exc.c, b6b_proc.c,
      [if], [call], [eval], [spawn], [source]); the dispatch to all procedures.
    - Sched.v: start and end of an interpreter, the tables of procedures
      ([__b6b_ext]) and init functions ([__b6b_init]) of all files, among them
      the scripts of src/b6b_co.c, b6b_evloop.c and b6b_ffi.c, [main] around a
      script, and the machine that switches threads.
    - Prompt.v: what src/b6b.c does around the vendored linenoise: completion,
      hints, and the options of [main].
    - Fds.v, Owned.v: theorems on what is opened and closed.
    - Ledger.v, Counted.v: bookkeeping of references, for the heap and for an
      interpreter, and the effect of each procedure on it.
    - Dues.v, Payments.v, IoDues.v, Solvent.v: the same bookkeeping for code
      that can be suspended, from the calls of the system up to the evaluator.
    - Quiet.v, Frames.v: what code leaves as it was, and the frames of threads.
    - Words.v, Calls.v: statements made of words, and the calls of procedures
      that the program defines.
    - Sources.v: the streams on descriptors meet the contract of Strm.v.
    - Balanced.v, Threads.v, Together.v, Leaks.v, Control.v, Fuel.v, Scripts.v,
      IoScripts.v: theorems on whole runs.

    ** How the model is built

    The heap is a finite map from addresses to objects, one field per field of
    [struct b6b_obj]; list nodes have addresses of their own, so that an
    iterator that outlives its node is seen. Code that does not switch threads
    is in a state monad whose outcomes are a result, [Ub] (undefined behaviour
    of the C program: an access to freed memory, out of bounds or through NULL,
    a failed assertion) or [Oof] (more steps than the fuel allows). Code of the
    evaluator is a resumption: it returns, or is suspended in the state in which
    another thread takes over, with the rest of its run as a function of the
    state it is resumed in. The machine of Sched.v stores and resumes the rests
    of all threads, as [swapcontext] does with their stacks.

    Fuel: a single bound [n] limits the depth of calls and the rounds of each
    loop of the evaluator, [k] the number of switches; a result within some
    bounds is the result within all larger ones ([Fuel.main_fuel_irrelevant]),
    so it is a parameter of a run and not of its meaning. Loops of code that
    does not call the evaluator compute their own fuel, and the theorems on them
    show that it is enough: the number of objects for [b6b_unref] and for
    [b6b_as_str], the length of the text for the tokeniser and the string
    procedures. [list.extend] is the exception: it does not end when a list is
    added to itself.

    The system: a run is given the list of the answers of the calls whose
    result the program looks at, takes one at each such call, and logs all calls
    in their order (the heap carries both, since destructors make calls too). A
    theorem for all runs is for all answers; one that needs the documented
    behaviour of a call states it of the answers. A run that uses up its answers
    has the outcome [Oof]. What [b6b_offload] runs is a piece of code that makes
    its calls when the offload thread is woken up; when it is done is an answer
    too, asked for after each switch.

    Code outside the repository that is not computed and is no call is the class
    [Env] of Interp.v: [mbrtowc], [rand_r], the contents of files that are
    sourced, [strerror_r]. Allocation never fails, as in the default build
    ([B6B_OPTIMISTIC_ALLOC]); threads, offload threads and the floating-point
    environment are on, as in the default build. Integers have the sizes of an
    LP64 little-endian machine.

    ** What the theorems show

    - Memory: on a heap whose counts are right, [b6b_unref] never touches freed
      memory, keeps what the program refers to and leaks nothing but cycles
      (Heap.v); adding, popping, extending and the dictionary operations keep
      the counts right (ListObj.v, Dict.v). When [main] returns, whatever the
      script did and whichever calls failed, the only objects left are in cycles
      of lists or held by them (Leaks.v).
    - Data: [b6b_as_str] computes the text of an object and changes nothing
      else, and integers up to [2^53] survive the way through text (Repr.v);
      printing and parsing lists are inverse exactly on the texts [item_ok]
      describes (Parse.v); dictionaries implement lookup, update and removal on
      association lists (Dict.v); [range], [choice] and [randint] give what
      they should within the bounds they have (ListProcs.v); the string
      procedures do what they say, with the inputs on which they do not
      (StrProcs.v); the hash tells strings apart that differ in one byte
      (Hash.v); turning an object into a list is the parser of Parse.v on its
      text, and leaves nothing behind when the text has an error (AsList.v).
    - Calls: arguments are bound to their numbers, variables are looked up from
      the innermost frame outwards (Interp.v); a statement of words calls the
      procedure that its first word gives with the values of all of them, in a
      frame of its own (Words.v); a procedure of the program runs its body with
      its arguments, their numbers and itself bound in that frame (Calls.v).
    - Types: the argument parser returns objects of the types its format asks
      for (Types.v).
    - Resources: destroying objects closes exactly what they own, constructors
      leak nothing whichever call fails, a stream is closed once (Fds.v,
      Owned.v); the procedures that run without interruption leave all reference
      counts right (Counted.v); the modes of files are the table's (Streams.v); what [ffi.pack]
      lays out [ffi.unpack] gives back (Ffi.v); [gunzip] finds what [gzip]
      frames (Zlib.v).
    - Threads: at every switch of every script the thread list is well formed,
      a call gives its thread its frames back, nesting stays within
      [B6B_MAX_NESTING], and threads that yield take turns (Frames.v,
      Balanced.v, Threads.v). The offload protocol makes no call twice and none too early in
      every interleaving, whichever system calls fail, and without failures it has
      no lost wake-up and no deadlock (Offload.v).
    - Control flow: which results calls, loops and procedures can return
      (Control.v), and that fuel does not matter (Fuel.v).
    - Streams: reading and writing lose and invent nothing, over every source
      and sink that keeps its promises, which are type classes; a source may fail,
      and then what was read before is lost, as in the code (Strm.v). The tables
      of sh, semaphores, timers, signals and sockets are such sources, and never
      see their end (Sources.v); numbers survive a semaphore (FdOps.v).
    - Tests, by evaluation: scripts of the repository's tests and scripts that
      reach the defects of the source (Scripts.v), and scripts on files,
      sockets, events and sleeping threads with the calls they make
      (IoScripts.v).

    ** What is not modelled

    - The nested interpreter of the procedure [b6b] (src/b6b_interp.c), and with
      it the script of the interactive prompt of src/b6b.c: the state has one
      interpreter, and a second one that runs inside a call, with its own
      threads and its objects in the same heap, needs a state with a table of
      them. The maximal length of the history of linenoise.
    - The life of a child of [fork] after [exec] or [exit]: it never comes back to
      the interpreter.
    - What only several system threads can show: an offload thread writes the
      answer into the structure of its caller when it is woken up, and nothing
      of it is seen before [b6b_offload_finish].
    - A file that [b6b_unref] destroys is closed without a switch of threads.
      The text that a stream writes is the one it had at the call; the pointer
      to it is not followed after a switch.
    - NaN has one value, so that its payload is not kept by [ffi.pack].

    - The overflow of [int refc]: counts of references are unbounded; 2^31
      references take more than 40 GB of list nodes.
    - Other locales than C: [main] calls [setlocale] with the locale of the
      environment, and numbers may then have another decimal point.
    - That [b6b_offload] runs the protocol of Offload.v: the evaluator asks for
      the end of an offloaded call as for any other answer, and Offload.v shows
      of the protocol that the end it reports is one. *)
From Stdlib Require Import ZArith Lia Init.Byte Strings.Byte Strings.String.
From stdpp Require Import base option list numbers gmap.
#[local] Open Scope Z_scope.

(** ** Bytes and C strings *)

Abbreviation bytes := (list byte).

#[export] Instance byte_eq_dec : EqDecision byte.
Proof. intros x y. destruct (Byte.byte_eq_dec x y); [by left | by right]. Defined.

(** A string literal of the source as a list of bytes (without the NUL). *)
Definition lit (s : string) : bytes := String.list_byte_of_string s.

(** [(unsigned char)c] as an integer. *)
Definition uchar (c : byte) : Z := Z.of_N (Byte.to_N c).

(** [(char)z], keeping the low eight bits. *)
Definition to_byte (z : Z) : byte :=
  default Byte.x00 (Byte.of_N (Z.to_N (z mod 256))).

(** What [%s] prints of a buffer: the bytes before the first NUL. *)
Fixpoint c_str (s : bytes) : bytes :=
  match s with
  | [] => []
  | c :: s' => if decide (c = Byte.x00) then [] else c :: c_str s'
  end.

(** [strcmp(a, b) == 0], for a buffer [a] of known length and a literal. *)
Definition streq (a : bytes) (b : string) : bool :=
  bool_decide (c_str a = lit b).

(** ** Machine integers *)

Definition u8 (z : Z) : Z := z mod 2 ^ 8.
Definition u32 (z : Z) : Z := z mod 2 ^ 32.
Definition u64 (z : Z) : Z := z mod 2 ^ 64.

Definition INT_MAX : Z := 2 ^ 31 - 1.
Definition INT_MIN : Z := - 2 ^ 31.
Definition UINT_MAX : Z := 2 ^ 32 - 1.
(** [B6B_INT_MAX] of include/b6b/obj.h: [b6b_int] is [long long]. *)
Definition B6B_INT_MAX : Z := 2 ^ 63 - 1.
Definition B6B_INT_MIN : Z := - 2 ^ 63.

Definition is_b6b_int (z : Z) : Prop := B6B_INT_MIN ≤ z ≤ B6B_INT_MAX.

(** Two's complement reading of the low 64 bits. *)
Definition s64 (z : Z) : Z := (z + 2 ^ 63) mod 2 ^ 64 - 2 ^ 63.

(** ** Outcomes and the state monad of code that never switches threads *)

(** [Ub] is undefined behaviour of the C program (an access to freed or
    out-of-bounds memory, a failed assertion); [Oof] is a model that ran out
    of fuel, i.e. a run longer than the bound it was given. *)
Inductive out (A : Type) : Type :=
| Done (a : A)
| Ub
| Oof.
Arguments Done {A} a.
Arguments Ub {A}.
Arguments Oof {A}.

Definition M (S A : Type) : Type := S → out (A * S).

#[export] Instance M_ret S : MRet (M S) := λ A a s, Done (a, s).
#[export] Instance M_bind S : MBind (M S) := λ A B f m s,
  match m s with
  | Done (a, s') => f a s'
  | Ub => Ub
  | Oof => Oof
  end.

Definition ub {S A} : M S A := λ _, Ub.
Definition oof {S A} : M S A := λ _, Oof.
Definition get {S} : M S S := λ s, Done (s, s).
Definition put {S} (s : S) : M S unit := λ _, Done (tt, s).
Definition modify {S} (f : S → S) : M S unit := λ s, Done (tt, f s).
Definition gets {S A} (f : S → A) : M S A := λ s, Done (f s, s).

(** An [option] that must be present: its absence is undefined behaviour. *)
Definition deref {S A} (x : option A) : M S A :=
  match x with Some a => mret a | None => ub end.

(** Monads in which code can have undefined behaviour or run out of fuel, for
    code that is written once for several of them. *)
Class MFail (m : Type → Type) : Type := {
  m_ub : ∀ {A}, m A;
  m_oof : ∀ {A}, m A
}.
#[export] Instance M_fail S : MFail (M S) := {| m_ub := @ub S; m_oof := @oof S |}.

(** Lifts an [out] value that carries no state. *)
Definition lift_out {S A} (o : out A) : M S A := λ s,
  match o with Done a => Done (a, s) | Ub => Ub | Oof => Oof end.

(** Runs a computation on a component of the state. *)
Definition zoom {S T A} (proj : S → T) (inj : T → S → S) (m : M T A) : M S A :=
  λ s, match m (proj s) with
       | Done (a, t) => Done (a, inj t s)
       | Ub => Ub
       | Oof => Oof
       end.

Fixpoint miter {S A} (f : A → M S unit) (l : list A) : M S unit :=
  match l with
  | [] => mret tt
  | x :: l' => f x ;; miter f l'
  end.

(** ** Bytes of an integer, on a little-endian machine *)

Fixpoint le_bytes (k : nat) (u : Z) : bytes :=
  match k with O => [] | S k' => to_byte u :: le_bytes k' (u / 256) end.
Fixpoint le_value (s : bytes) : Z :=
  match s with [] => 0 | c :: s' => uchar c + 256 * le_value s' end.

(** ** Inversion lemmas for the monad *)

Lemma bind_Done {S A B} (m : M S A) (f : A → M S B) s r :
  (m ≫= f) s = Done r ↔ ∃ a s', m s = Done (a, s') ∧ f a s' = Done r.
Proof.
  unfold mbind, M_bind. destruct (m s) as [[a s']| |]; split; naive_solver.
Qed.

Lemma bind_eq {S A B} (m : M S A) (f : A → M S B) s a s' :
  m s = Done (a, s') → (m ≫= f) s = f a s'.
Proof. unfold mbind, M_bind. by intros ->. Qed.

Lemma bind_assoc {S A B C} (m : M S A) (f : A → M S B) (g : B → M S C) s :
  ((m ≫= f) ≫= g) s = (m ≫= (λ a, f a ≫= g)) s.
Proof. unfold mbind, M_bind. by destruct (m s) as [[a s']| |]. Qed.

Lemma deref_eq {S A} (a : A) (s : S) : deref (Some a) s = Done (a, s).
Proof. done. Qed.

Lemma miter_app {S A} (f : A → M S unit) l1 l2 s :
  miter f (l1 ++ l2) s = (miter f l1 ;; miter f l2) s.
Proof.
  revert s. induction l1 as [|x l1 IH]; intros s; [done|].
  simpl. rewrite bind_assoc. unfold mbind, M_bind.
  destruct (f x s) as [[[] s']| |]; [|done..]. apply IH.
Qed.

(** Takes a successful run of a monadic term apart, one bind at a time. *)
Ltac minv1 :=
  match goal with
  | H : (_ ≫= _) _ = Done _ |- _ =>
      let a := fresh "a" in let s := fresh "s" in
      let H1 := fresh "H" in
      apply bind_Done in H as (a & s & H1 & H)
  | H : mret _ _ = Done _ |- _ => unfold mret, M_ret in H; simplify_eq
  | H : ub _ = Done _ |- _ => discriminate H
  | H : oof _ = Done _ |- _ => discriminate H
  | H : get _ = Done _ |- _ => unfold get in H; simplify_eq
  | H : gets _ _ = Done _ |- _ => unfold gets in H; simplify_eq
  | H : put _ _ = Done _ |- _ => unfold put in H; simplify_eq
  | H : modify _ _ = Done _ |- _ => unfold modify in H; simplify_eq
  | H : Done _ = Done _ |- _ => injection H as H; simplify_eq
  end.
Ltac minv := repeat (minv1; simpl in * ).

(** Induction on a list of pairs. *)
Lemma list_pairs_ind {A} (P : list A → Prop) :
  P [] → (∀ a, P [a]) → (∀ a b l, P l → P (a :: b :: l)) → ∀ l, P l.
Proof. intros H0 H1 H2. fix IH 1. intros [|a [|b l]]; [done..|]. apply H2, IH. Qed.

(** ** Facts about bytes *)

Lemma uchar_range c : 0 ≤ uchar c < 256.
Proof.
  unfold uchar. pose proof (Byte.to_N_bounded c). lia.
Qed.

Lemma uchar_inj c d : uchar c = uchar d → c = d.
Proof.
  unfold uchar. intros H%N2Z.inj.
  pose proof (Byte.of_to_N c) as Hc. pose proof (Byte.of_to_N d) as Hd.
  rewrite H in Hc. congruence.
Qed.

Lemma to_byte_uchar c : to_byte (uchar c) = c.
Proof.
  unfold to_byte. rewrite Z.mod_small by apply uchar_range.
  unfold uchar. by rewrite N2Z.id, Byte.of_to_N.
Qed.

Lemma uchar_to_byte z : uchar (to_byte z) = z mod 256.
Proof.
  unfold to_byte. pose proof (Z.mod_pos_bound z 256 eq_refl) as Hz.
  destruct (Byte.of_N (Z.to_N (z mod 256))) as [c|] eqn:E; simpl.
  - unfold uchar. apply Byte.to_of_N in E. lia.
  - apply Byte.of_N_None_iff in E. lia.
Qed.

Lemma c_str_no_nul s : Byte.x00 ∉ s → c_str s = s.
Proof.
  induction s as [|c s IH]; intros H; [done|]. simpl.
  apply not_elem_of_cons in H as [H1 H2].
  rewrite decide_False by congruence. by rewrite IH.
Qed.

Lemma s64_id z : is_b6b_int z → s64 z = z.
Proof.
  unfold is_b6b_int, B6B_INT_MIN, B6B_INT_MAX, s64. intros H.
  rewrite Z.mod_small; lia.
Qed.

Lemma s64_range z : is_b6b_int (s64 z).
Proof.
  unfold is_b6b_int, B6B_INT_MIN, B6B_INT_MAX, s64.
  pose proof (Z.mod_pos_bound (z + 2 ^ 63) (2 ^ 64) eq_refl). lia.
Qed.

Lemma le_round k u : le_value (le_bytes k u) = u mod 256 ^ Z.of_nat k.
Proof.
  revert u. induction k as [|k IH]; intros u; [simpl; by rewrite Z.mod_1_r|].
  cbn [le_bytes le_value]. rewrite uchar_to_byte, IH, Nat2Z.inj_succ, Z.pow_succ_r by lia.
  by rewrite Z.rem_mul_r by lia.
Qed.

Lemma le_bytes_length k u : length (le_bytes k u) = k.
Proof. revert u. induction k as [|k IH]; intros u; simpl; auto. Qed.
