(* ===== verification/Sys.v ===== *)
(** * Calls to the operating system and to libraries

    What the program asks of the system is recorded, and what the system
    answers is given: a run has the list of the answers to come, and takes the
    next one at each call whose result it looks at. Nothing is assumed of the
    answers here; theorems that need the documented behaviour of a call state
    it of the record. *)
From Stdlib Require Import ZArith.
From stdpp Require Import base option list numbers.
From S2P Require Import Prelude.
#[local] Open Scope Z_scope.

(** An address of a socket: [struct sockaddr_storage]. *)
Inductive sockaddr : Set :=
| A_unspec
| A_in (addr : bytes) (port : Z)
| A_in6 (addr : bytes) (port : Z)
| A_un (path : bytes).

(** Calls, with their arguments but for pointers to results. Addresses of
    objects outside the program ([FILE *], handles) are numbers. *)
Inductive call : Set :=
(* descriptors *)
| C_close (fd : Z)
| C_fionread (fd : Z)
| C_read (fd len : Z)
| C_recv (fd len : Z)
| C_write (fd : Z) (buf : bytes)
| C_send (fd : Z) (buf : bytes)
| C_getfl (fd : Z)
| C_setfl (fd fl : Z)
| C_cloexec (fd : Z)
(* eventfd, timerfd, signalfd, epoll *)
| C_eventfd (n : Z)
| C_timerfd_create
| C_timerfd_settime (fd sec nsec : Z)
| C_nanosleep (sec nsec : Z)
| C_sigaddset (signo : Z)
| C_sigprocmask (block : bool) (set : list Z)
| C_signalfd (set : list Z)
| C_epoll_create
| C_epoll_del (ep fd : Z)
| C_epoll_add (ep fd events : Z)
| C_epoll_wait (ep n timeout : Z)
(* processes *)
| C_pipe2
| C_fork
| C_dup2 (fd fd2 : Z)
| C_execl (cmd : bytes)
| C_waitpid (pid : Z)
(* stdio *)
| C_fopen (path fmode : bytes)
| C_fileno (fp : Z)
| C_setbuf (fp : Z)
| C_setvbuf (fp bmode : Z)
| C_fclose (fp : Z)
| C_ftello (fp : Z)
| C_fseeko (fp off whence : Z)
| C_fread (fp len : Z)
| C_fwrite (fp : Z) (buf : bytes)
| C_ferror (fp : Z)
| C_feof (fp : Z)
| C_clearerr (fp : Z)
| C_realpath (path : bytes)
(* sockets *)
| C_socket (family socktype : Z)
| C_connect (fd : Z) (addr : sockaddr)
| C_getsockname (fd : Z)
| C_reuseaddr (fd : Z)
| C_bind (fd : Z) (addr : sockaddr)
| C_listen (fd backlog : Z)
| C_accept (fd : Z)
| C_recvfrom (fd len : Z)
| C_socketpair (socktype : Z)
| C_getaddrinfo (host service : option bytes) (socktype : Z) (passive : bool)
| C_unlink (path : bytes)
(* libffi, libdl, raw memory *)
| C_address
| C_memory (addr len : Z)
| C_dlopen (path : option bytes)
| C_dlsym (handle : Z) (name : bytes)
| C_dlerror
| C_dlclose (handle : Z)
| C_prep_cif (argc : Z)
| C_ffi_call (p : Z) (args : list Z)
(* miniz *)
| C_deflate_init (level wbits : Z)
| C_deflate_bound (len : Z)
| C_deflate (finish : bool) (input : bytes) (avail_out : Z)
| C_deflate_end
| C_inflate_init (wbits : Z)
| C_inflate (finish : bool) (input : bytes) (avail_out : Z)
| C_inflate_end
| C_crc32 (buf : bytes)
(* linenoise *)
| C_linenoise (prompt : bytes)
| C_history_add (line : bytes)
| C_history_save (path : bytes)
| C_history_load (path : bytes)
(* the start of an interpreter and its end: [sysconf], [b6b_offload_thread_start],
   [b6b_offload_thread_stop] *)
| C_pagesize
| C_offload_up (id : nat)
| C_offload_down (id : nat)
(* the offload thread *)
| C_offload_start
| C_offload_done
| C_offload_finish.

(** An answer: the result, [errno], bytes the call stored, and numbers or
    addresses it stored. *)
Record ans : Set := mkAns {
  a_ret : Z;
  a_errno : Z;
  a_out : bytes;
  a_nums : list Z;
  a_addrs : list sockaddr
}.

Definition no_ans : ans := mkAns 0 0 [] [] [].
Definition ret_ans (z : Z) : ans := mkAns z 0 [] [] [].
Definition err_ans (e : Z) : ans := mkAns (-1) e [] [] [].

(** The answers to come, and the calls made with their answers, the last one
    first. *)
Record os : Set := mkOs { os_next : list ans; os_log : list (call * ans) }.

Definition no_os : os := mkOs [] [].

(** A call whose result the program ignores takes no answer. *)
Definition os_note (cs : list call) (o : os) : os :=
  mkOs (os_next o) (reverse ((λ c, (c, no_ans)) <$> cs) ++ os_log o).

(** ** What calls open and close *)

(** Descriptors, streams of the C library and shared objects. *)
Inductive resource : Set :=
| R_fd (fd : Z)
| R_file (fp : Z)
| R_so (handle : Z).

#[export] Instance resource_eq_dec : EqDecision resource.
Proof. solve_decision. Defined.

(** What a call with this answer opens, and what it closes. *)
Definition opens (c : call) (a : ans) : list resource :=
  match c with
  | C_eventfd _ | C_timerfd_create | C_signalfd _ | C_epoll_create
  | C_socket _ _ | C_accept _ => if a_ret a <? 0 then [] else [R_fd (a_ret a)]
  | C_pipe2 | C_socketpair _ => if a_ret a <? 0 then [] else R_fd <$> a_nums a
  | C_fopen _ _ => if a_ret a =? 0 then [] else [R_file (a_ret a)]
  | C_dlopen _ => if a_ret a =? 0 then [] else [R_so (a_ret a)]
  | _ => []
  end.
Definition closes (c : call) : list resource :=
  match c with
  | C_close fd => [R_fd fd]
  | C_fclose fp => [R_file fp]
  | C_dlclose h => [R_so h]
  | _ => []
  end.

(** How often [r] was opened more than it was closed. *)
Definition count (r : resource) (l : list resource) : Z :=
  foldr (λ x n, (if decide (x = r) then 1 else 0) + n) 0 l.
Fixpoint balance (r : resource) (l : list (call * ans)) : Z :=
  match l with
  | [] => 0
  | (c, a) :: l' => count r (opens c a) - count r (closes c) + balance r l'
  end.

Lemma count_app r l1 l2 : count r (l1 ++ l2) = count r l1 + count r l2.
Proof. induction l1 as [|x l1 IH]; simpl; [done|]. rewrite IH. ring. Qed.

Lemma balance_app r l1 l2 : balance r (l1 ++ l2) = balance r l1 + balance r l2.
Proof. induction l1 as [|[c a] l1 IH]; simpl; [done|]. rewrite IH. ring. Qed.
