(* ===== verification/Hash.v ===== *)
(** * The string hash

    include/b6b/hash.h and src/b6b_hash.c: the 32-bit one-at-a-time hash that
    dictionaries and comparisons use. Each operation of the C code is written
    with its wrap-around at 32 bits. *)
From Stdlib Require Import ZArith Lia Init.Byte.
From stdpp Require Import base option list numbers.
From S2P Require Import Prelude.
#[local] Open Scope Z_scope.

Definition b6b_hash_init : Z := 0.

(** One iteration of the loop of [b6b_hash_update]. *)
Definition hash_step (hash : Z) (c : byte) : Z :=
  let hash := u32 (hash + u32 (uchar c + u32 (Z.shiftl hash 10))) in
  Z.lxor hash (Z.shiftr hash 6).

Fixpoint b6b_hash_update (hash : Z) (buf : bytes) : Z :=
  match buf with
  | [] => hash
  | c :: buf' => b6b_hash_update (hash_step hash c) buf'
  end.

Definition b6b_hash_finish (hash : Z) : Z :=
  let hash := u32 (hash + u32 (Z.shiftl hash 3)) in
  let hash := Z.lxor hash (Z.shiftr hash 11) in
  u32 (hash + u32 (Z.shiftl hash 15)).

Definition b6b_hash (buf : bytes) : Z :=
  b6b_hash_finish (b6b_hash_update b6b_hash_init buf).

(** ** 32-bit words *)

Definition is_u32 (z : Z) : Prop := 0 ≤ z < 2 ^ 32.

Lemma u32_range z : is_u32 (u32 z).
Proof. apply Z.mod_pos_bound. lia. Qed.

Lemma u32_id z : is_u32 z → u32 z = z.
Proof. apply Z.mod_small. Qed.

Lemma testbit_u32 z n : is_u32 z → 32 ≤ n → Z.testbit z n = false.
Proof.
  intros Hz Hn. destruct (decide (z = 0)) as [->|]; [apply Z.bits_0|].
  unfold is_u32 in Hz. apply Z.bits_above_log2; [lia|].
  apply Z.lt_le_trans with 32; [|lia]. apply Z.log2_lt_pow2; lia.
Qed.

Lemma lxor_shiftr_u32 z k : 0 ≤ k → is_u32 z → is_u32 (Z.lxor z (Z.shiftr z k)).
Proof.
  intros Hk Hz. unfold is_u32 in *.
  assert (0 ≤ Z.shiftr z k) by (apply Z.shiftr_nonneg; lia).
  split; [apply Z.lxor_nonneg; lia|].
  destruct (decide (Z.lxor z (Z.shiftr z k) = 0)) as [->|Hne]; [lia|].
  apply Z.log2_lt_pow2.
  { pose proof (proj2 (Z.lxor_nonneg z (Z.shiftr z k))). lia. }
  eapply Z.le_lt_trans; [apply Z.log2_lxor; lia|].
  assert (∀ w, 0 ≤ w < 2 ^ 32 → Z.log2 w < 32) as Hlog.
  { intros w Hw. destruct (decide (w = 0)) as [->|]; [done|].
    apply Z.log2_lt_pow2; lia. }
  apply Z.max_lub_lt; apply Hlog; [done|].
  rewrite Z.shiftr_div_pow2 by lia.
  split; [apply Z.div_pos; lia|].
  eapply Z.le_lt_trans; [apply Z.div_le_upper_bound with (q := z); nia|lia].
Qed.

(** [x ^= x >> k] loses nothing: the top bits are kept, and each lower bit is
    recovered from the ones above it. *)
Lemma xorshift_inj k x y :
  0 < k → is_u32 x → is_u32 y →
  Z.lxor x (Z.shiftr x k) = Z.lxor y (Z.shiftr y k) → x = y.
Proof.
  intros Hk Hx Hy H. apply Z.bits_inj'.
  enough (∀ m n, 0 ≤ n → 32 - n ≤ Z.of_nat m → Z.testbit x n = Z.testbit y n)
    as Hall by (intros n Hn; apply (Hall 32%nat n); lia).
  induction m as [|m IH]; intros n Hn Hm.
  { by rewrite !testbit_u32 by (done || lia). }
  assert (Z.testbit x (n + k) = Z.testbit y (n + k)) as E by (apply IH; lia).
  apply (f_equal (λ z, Z.testbit z n)) in H.
  rewrite !Z.lxor_spec, !Z.shiftr_spec in H by done.
  rewrite E in H. by destruct (Z.testbit x n), (Z.testbit y n), (Z.testbit y (n + k)).
Qed.

(** Multiplication by an odd constant is invertible modulo 2^32. *)
Lemma mul_odd_inj m inv x y :
  m * inv mod 2 ^ 32 = 1 → is_u32 x → is_u32 y →
  (x * m) mod 2 ^ 32 = (y * m) mod 2 ^ 32 → x = y.
Proof.
  intros Hinv Hx Hy H.
  apply (f_equal (λ z, (z * inv) mod 2 ^ 32)) in H.
  rewrite !Z.mul_mod_idemp_l, <- !Z.mul_assoc in H by lia.
  rewrite <- !(Z.mul_mod_idemp_r _ (m * inv)) in H by lia.
  rewrite Hinv, !Z.mul_1_r in H.
  by rewrite !Z.mod_small in H by done.
Qed.

Lemma u32_add_shiftl h k c :
  0 ≤ k → u32 (h + u32 (c + u32 (Z.shiftl h k))) = u32 (h * (1 + 2 ^ k) + c).
Proof.
  intros Hk. unfold u32. rewrite Z.shiftl_mul_pow2 by done.
  rewrite Z.add_mod_idemp_r by lia.
  replace (h + (c + (h * 2 ^ k) mod 2 ^ 32)) with ((h + c) + (h * 2 ^ k) mod 2 ^ 32) by lia.
  rewrite Z.add_mod_idemp_r by lia. f_equal. lia.
Qed.

Lemma hash_step_eq h c :
  hash_step h c = let w := u32 (h * 1025 + uchar c) in Z.lxor w (Z.shiftr w 6).
Proof. unfold hash_step. by rewrite u32_add_shiftl by lia. Qed.

Lemma hash_step_range h c : is_u32 (hash_step h c).
Proof. rewrite hash_step_eq. apply lxor_shiftr_u32; [lia|apply u32_range]. Qed.

Lemma hash_step_inj_state h1 h2 c :
  is_u32 h1 → is_u32 h2 → hash_step h1 c = hash_step h2 c → h1 = h2.
Proof.
  rewrite !hash_step_eq. intros H1 H2 H.
  apply xorshift_inj in H; [|lia|apply u32_range..].
  apply (mul_odd_inj 1025 3222273025); [done..|].
  unfold u32 in H. apply (f_equal (λ z, (z - uchar c) mod 2 ^ 32)) in H.
  rewrite !Zminus_mod_idemp_l in H.
  replace (h1 * 1025) with (h1 * 1025 + uchar c - uchar c) by lia.
  replace (h2 * 1025) with (h2 * 1025 + uchar c - uchar c) by lia. done.
Qed.

Lemma hash_step_inj_byte h c d : hash_step h c = hash_step h d → c = d.
Proof.
  rewrite !hash_step_eq. intros H.
  apply xorshift_inj in H; [|lia|apply u32_range..].
  unfold u32 in H. apply (f_equal (λ z, (z - h * 1025) mod 2 ^ 32)) in H.
  rewrite !Zminus_mod_idemp_l in H.
  replace (h * 1025 + uchar c - h * 1025) with (uchar c) in H by lia.
  replace (h * 1025 + uchar d - h * 1025) with (uchar d) in H by lia.
  pose proof (uchar_range c). pose proof (uchar_range d).
  rewrite !Z.mod_small in H by lia. by apply uchar_inj.
Qed.

Lemma update_range s h : is_u32 h → is_u32 (b6b_hash_update h s).
Proof.
  revert h. induction s as [|c s IH]; intros h Hh; [done|].
  apply IH, hash_step_range.
Qed.

Lemma update_app s t h :
  b6b_hash_update h (s ++ t) = b6b_hash_update (b6b_hash_update h s) t.
Proof. revert h. induction s as [|c s IH]; intros h; [done|]. apply IH. Qed.

Lemma update_inj s h1 h2 :
  is_u32 h1 → is_u32 h2 →
  b6b_hash_update h1 s = b6b_hash_update h2 s → h1 = h2.
Proof.
  revert h1 h2. induction s as [|c s IH]; intros h1 h2 H1 H2 H; [done|].
  apply IH in H; [|apply hash_step_range..]. by eapply hash_step_inj_state.
Qed.

Lemma finish_inj h1 h2 :
  is_u32 h1 → is_u32 h2 → b6b_hash_finish h1 = b6b_hash_finish h2 → h1 = h2.
Proof.
  intros H1 H2. unfold b6b_hash_finish.
  assert (∀ h k, 0 ≤ k → u32 (h + u32 (Z.shiftl h k)) = u32 (h * (1 + 2 ^ k))) as E.
  { intros h k Hk. rewrite <- (Z.add_0_r (h * (1 + 2 ^ k))), <- u32_add_shiftl by done.
    unfold u32. by rewrite Z.add_0_l, Z.mod_mod by lia. }
  rewrite !E by lia. intros H.
  apply (mul_odd_inj _ 1073709057) in H; [|done|apply lxor_shiftr_u32; [lia|apply u32_range]..].
  apply xorshift_inj in H; [|lia|apply u32_range..].
  by apply (mul_odd_inj _ 954437177) in H.
Qed.

(** ** Properties *)

(** The hash is a 32-bit word, whatever the length of the string. *)
Lemma b6b_hash_range s : 0 ≤ b6b_hash s < 2 ^ 32.
Proof. apply u32_range. Qed.

(** C39: two strings of equal length that differ in exactly one byte never
    collide: each step of the loop and the final mixing are bijections of the
    32-bit words, so a collision needs at least two differing bytes. *)
Theorem b6b_hash_one_byte p c d q :
  b6b_hash (p ++ c :: q) = b6b_hash (p ++ d :: q) ↔ c = d.
Proof.
  split; [|by intros ->]. unfold b6b_hash. rewrite !update_app. simpl. intros H.
  assert (is_u32 b6b_hash_init) as Hi by (unfold is_u32, b6b_hash_init; lia).
  apply finish_inj in H; [|apply update_range, hash_step_range..].
  apply update_inj in H; [|apply hash_step_range..].
  by eapply hash_step_inj_byte.
Qed.
