(* ===== verification/Float64.v ===== *)
(** * Binary64 numbers and the C library's conversions

    [b6b_float] is [double]. Its values are the Standard Library's
    [spec_float] at precision 53 and maximal exponent 1024, whose operations
    round to nearest, ties to even. On top of it this file models what the
    source uses of the C library: [strtod], [asprintf] with ["%.12f"] and
    ["%lld"], [floor] followed by the cast to [long long], and [remainder],
    all computed exactly and rounded once. The numeric locale is the C one; the
    sign of a NaN is not kept. *)
From Stdlib Require Import ZArith Lia Init.Byte Strings.Byte Strings.String.
From Stdlib Require Import Floats.SpecFloat.
From stdpp Require Import base option list numbers.
From S2P Require Import Prelude.
#[local] Open Scope Z_scope.
#[local] Open Scope byte_scope.

Abbreviation b6b_float := spec_float.

Definition f_prec : Z := 53.
Definition f_emax : Z := 1024.

Definition f_add : b6b_float → b6b_float → b6b_float := SFadd f_prec f_emax.
Definition f_sub : b6b_float → b6b_float → b6b_float := SFsub f_prec f_emax.
Definition f_mul : b6b_float → b6b_float → b6b_float := SFmul f_prec f_emax.
Definition f_div : b6b_float → b6b_float → b6b_float := SFdiv f_prec f_emax.
Definition f_zero : b6b_float := S754_zero false.

(** [m * 2^e], rounded. *)
Definition f_make (m e : Z) (neg_zero : bool) : b6b_float :=
  binary_normalize f_prec f_emax m e neg_zero.

(** [(double)i] *)
Definition f_of_Z (i : Z) : b6b_float := f_make i 0 false.

Definition signed (s : bool) (m : Z) : Z := if s then - m else m.

(** [floor], as an integer; nothing for an infinity or a NaN. *)
Definition f_floor (f : b6b_float) : option Z :=
  match f with
  | S754_zero _ => Some 0
  | S754_finite s m e =>
      Some (if 0 <=? e then signed s (Z.pos m * 2 ^ e)
            else signed s (Z.pos m) / 2 ^ (- e))
  | _ => None
  end.

(** [(long long)floor(f)]; [None] when the cast raises [FE_INVALID]. *)
Definition f_to_int (f : b6b_float) : option Z :=
  match f_floor f with
  | Some z =>
      if (B6B_INT_MIN <=? z) && (z <=? B6B_INT_MAX) then Some z else None
  | None => None
  end.

(** [a / b] rounded to the nearest integer, ties to even ([0 < b]). *)
Definition div_half_even (a b : Z) : Z :=
  let q := a / b in
  let r := a mod b in
  match 2 * r ?= b with
  | Lt => q
  | Gt => q + 1
  | Eq => if Z.even q then q else q + 1
  end.

(** [remainder(x, y)], with whether it signals an invalid operation. *)
Definition f_remainder (x y : b6b_float) : b6b_float * bool :=
  match x, y with
  | S754_nan, _ | _, S754_nan => (S754_nan, false)
  | S754_infinity _, _ | _, S754_zero _ => (S754_nan, true)
  | _, S754_infinity _ | S754_zero _, _ => (x, false)
  | S754_finite sx mx ex, S754_finite sy my ey =>
      let e := Z.min ex ey in
      let a := signed sx (Z.pos mx * 2 ^ (ex - e)) in
      let b := Z.pos my * 2 ^ (ey - e) in
      (f_make (a - b * div_half_even a b) e sx, false)
  end.

(** ** Decimal digits *)

Definition digit (z : Z) : byte := to_byte (uchar "0" + z).

(** The [k] low decimal digits of [z], most significant first. *)
Fixpoint digits (k : nat) (z : Z) : bytes :=
  match k with
  | O => []
  | S k' => digits k' (z / 10) ++ [digit (z mod 10)]
  end.

(** The number of decimal digits of [z], at least one. *)
Fixpoint ndigits_fuel (n : nat) (z : Z) : nat :=
  match n with
  | O => 1
  | S n' => if z <? 10 then 1%nat else S (ndigits_fuel n' (z / 10))
  end.
Definition ndigits (z : Z) : nat := ndigits_fuel (Z.to_nat (Z.log2 z)) z.

Definition dec (z : Z) : bytes := digits (ndigits z) z.

(** [asprintf(&s, "%lld", i)] *)
Definition fmt_int (i : Z) : bytes :=
  if i <? 0 then "-" :: dec (- i) else dec i.

(** [asprintf(&s, "%.12f", f)] *)
Definition fmt_float (f : b6b_float) : bytes :=
  let fixed s n := (if s : bool then ["-"] else [])
                     ++ dec (n / 10 ^ 12) ++ "." :: digits 12 (n mod 10 ^ 12) in
  match f with
  | S754_nan => lit "nan"
  | S754_infinity s => if s then lit "-inf" else lit "inf"
  | S754_zero s => fixed s 0
  | S754_finite s m e =>
      fixed s (if 0 <=? e then Z.pos m * 2 ^ e * 10 ^ 12
               else div_half_even (Z.pos m * 10 ^ 12) (2 ^ (- e)))
  end.

(** ** [strtod] *)

Definition in_range (lo hi c : byte) : bool :=
  (uchar lo <=? uchar c) && (uchar c <=? uchar hi).

(** [isspace] in the C locale *)
Definition is_cspace (c : byte) : bool :=
  bool_decide (c = " ") || in_range x09 x0d c.

Definition tolower (c : byte) : byte :=
  if in_range "A" "Z" c then to_byte (uchar c + 32) else c.

Definition dec_val (c : byte) : option Z :=
  if in_range "0" "9" c then Some (uchar c - uchar "0") else None.

Definition hex_val (c : byte) : option Z :=
  if in_range "0" "9" c then Some (uchar c - uchar "0")
  else if in_range "a" "f" (tolower c) then Some (uchar (tolower c) - uchar "a" + 10)
  else None.

Fixpoint skip_cspace (s : bytes) : bytes :=
  match s with
  | c :: s' => if is_cspace c then skip_cspace s' else s
  | [] => []
  end.

(** An optional sign. *)
Definition scan_sign (s : bytes) : bool * bytes :=
  match s with
  | c :: s' =>
      if decide (c = "-") then (true, s')
      else if decide (c = "+") then (false, s') else (false, s)
  | [] => (false, s)
  end.

(** The literal [w], in any case, as a prefix. *)
Fixpoint scan_word (w s : bytes) : option bytes :=
  match w, s with
  | [], _ => Some s
  | a :: w', c :: s' => if decide (tolower c = a) then scan_word w' s' else None
  | _ :: _, [] => None
  end.

(** Digits in base [base]: the value they extend [acc] to, how many there
    are, and what follows them. *)
Fixpoint scan_digits (val : byte → option Z) (base : Z) (s : bytes)
    (acc : Z) (n : nat) : Z * nat * bytes :=
  match s with
  | c :: s' =>
      match val c with
      | Some d => scan_digits val base s' (acc * base + d) (S n)
      | None => (acc, n, s)
      end
  | [] => (acc, n, [])
  end.

(** Digits with an optional point: mantissa, number of digits, number of
    digits after the point, and what follows. *)
Definition scan_mantissa (val : byte → option Z) (base : Z) (s : bytes)
    : Z * nat * nat * bytes :=
  let '(m, n, s1) := scan_digits val base s 0 0 in
  match s1 with
  | c :: s2 =>
      if decide (c = ".") then
        let '(m', n', s3) := scan_digits val base s2 m 0 in
        (m', (n + n')%nat, n', s3)
      else (m, n, O, s1)
  | [] => (m, n, O, s1)
  end.

(** An optional exponent introduced by [mark]: without a digit after it, the
    mark is not part of the number. *)
Definition scan_exponent (mark : byte) (s : bytes) : Z * bytes :=
  match s with
  | c :: s1 =>
      if decide (tolower c = mark) then
        let '(neg, s2) := scan_sign s1 in
        let '(e, n, s3) := scan_digits dec_val 10 s2 0 0 in
        if decide (n = O) then (0, s) else (signed neg e, s3)
      else (0, s)
  | [] => (0, s)
  end.

(** [m * 10^e] rounded once. Exponents far outside the range of the format
    are cut off first; the cut-offs do not change the result. *)
Definition f_of_dec (m e : Z) : b6b_float :=
  let mag := Z.of_nat (ndigits m) + e in
  match m with
  | Z.pos p =>
      if 310 <? mag then S754_infinity false
      else if mag <? -330 then f_zero
      else if 0 <=? e then f_make (m * 10 ^ e) 0 false
      else match 10 ^ (- e) with
           | Z.pos q =>
               let '(mz, ez, lz) := SFdiv_core_binary f_prec f_emax (Z.pos p) 0 (Z.pos q) 0 in
               binary_round_aux f_prec f_emax false mz ez lz
           | _ => f_zero
           end
  | _ => f_zero
  end.

(** [m * 2^e] rounded once. *)
Definition f_of_hex (m e : Z) : b6b_float :=
  if Z.log2 m + e <? -1100 then f_zero else f_make m e false.

Fixpoint scan_nchars (s : bytes) : option bytes :=
  match s with
  | c :: s' =>
      if decide (c = ")") then Some s'
      else if in_range "0" "9" c || in_range "a" "z" (tolower c) || bool_decide (c = "_")
      then scan_nchars s' else None
  | [] => None
  end.

Definition scan_nan (s : bytes) : bytes :=
  match s with
  | c :: s' => if decide (c = "(") then default s (scan_nchars s') else s
  | [] => s
  end.

Definition scan_dec (s : bytes) : option (b6b_float * bytes) :=
  let '(m, n, frac, s1) := scan_mantissa dec_val 10 s in
  if decide (n = O) then None
  else let '(e, s2) := scan_exponent "e" s1 in
       Some (f_of_dec m (e - Z.of_nat frac), s2).

Definition scan_hex (s : bytes) : option (b6b_float * bytes) :=
  match scan_word ["0"; "x"] s with
  | None => None
  | Some s0 =>
      let '(m, n, frac, s1) := scan_mantissa hex_val 16 s0 in
      if decide (n = O) then None
      else let '(e, s2) := scan_exponent "p" s1 in
           Some (f_of_hex m (e - 4 * Z.of_nat frac), s2)
  end.

(** The number after the sign, and what follows it. *)
Definition scan_number (s : bytes) : option (b6b_float * bytes) :=
  match scan_word (lit "inf") s with
  | Some s1 => Some (S754_infinity false, default s1 (scan_word (lit "inity") s1))
  | None =>
      match scan_word (lit "nan") s with
      | Some s1 => Some (S754_nan, scan_nan s1)
      | None =>
          match scan_hex s with
          | Some r => Some r
          | None => scan_dec s
          end
      end
  end.

(** [strtod(s, &p)]: the value and [p - s]. A string that holds no number
    gives 0 and [p = s]. The terminating NUL of [s] is never part of a number,
    so it suffices to look at the bytes before it. *)
Definition strtod (s : bytes) : b6b_float * nat :=
  let '(neg, s1) := scan_sign (skip_cspace s) in
  match scan_number s1 with
  | Some (f, rest) => (if neg then SFopp f else f, (length s - length rest)%nat)
  | None => (f_zero, O)
  end.

(** ** Decimal integers and back *)

Definition is_digit (c : byte) : Prop := ∃ d, 0 ≤ d < 10 ∧ c = digit d.

(** The ten cases of a digit. *)
Ltac digit_cases d :=
  let H := fresh in
  assert (d = 0 ∨ d = 1 ∨ d = 2 ∨ d = 3 ∨ d = 4 ∨ d = 5 ∨ d = 6 ∨ d = 7 ∨ d = 8 ∨ d = 9)
    as H by lia;
  destruct H as [->|[->|[->|[->|[->|[->|[->|[->|[->| ->]]]]]]]]].

Lemma digit_val d : 0 ≤ d < 10 → dec_val (digit d) = Some d.
Proof.
  intros Hd. by digit_cases d.
Qed.

Lemma digits_are_digits k z : Forall is_digit (digits k z).
Proof.
  revert z. induction k as [|k IH]; intros z; [constructor|]. simpl.
  apply Forall_app. split; [apply IH|]. constructor; [|constructor].
  exists (z mod 10). split; [|done]. apply Z.mod_pos_bound. lia.
Qed.

Lemma digits_length k z : length (digits k z) = k.
Proof.
  revert z. induction k as [|k IH]; intros z; [done|]. simpl. rewrite length_app, IH. simpl. lia.
Qed.

Lemma scan_digits_digits k z s acc n :
  0 ≤ z < 10 ^ Z.of_nat k →
  scan_digits dec_val 10 (digits k z ++ s) acc n =
    scan_digits dec_val 10 s (acc * 10 ^ Z.of_nat k + z) (n + k).
Proof.
  revert z s acc n. induction k as [|k IH]; intros z s acc n Hz.
  { simpl. f_equal; lia. }
  rewrite Nat2Z.inj_succ, Z.pow_succ_r in Hz |- * by lia. cbn [digits]. rewrite <- app_assoc. simpl.
  pose proof (Z.div_mod z 10) as Hdm. pose proof (Z.mod_pos_bound z 10) as Hm.
  rewrite IH by (split; [apply Z.div_pos; lia|apply Z.div_lt_upper_bound; lia]).
  simpl. rewrite digit_val by lia. f_equal; lia.
Qed.

Lemma ndigits_fuel_enough n z : 0 ≤ z < 2 ^ (Z.of_nat n + 1) → z < 10 ^ Z.of_nat (ndigits_fuel n z).
Proof.
  revert z. induction n as [|n IH]; intros z Hz; [simpl in *; lia|]. cbn [ndigits_fuel].
  destruct (Z.ltb_spec z 10); [simpl; lia|].
  rewrite Nat2Z.inj_succ, Z.pow_succ_r in * by lia.
  assert (z / 10 < 10 ^ Z.of_nat (ndigits_fuel n (z / 10))).
  { apply IH. split; [apply Z.div_pos; lia|]. apply Z.div_lt_upper_bound; [lia|].
    replace (Z.succ (Z.of_nat n) + 1) with (Z.succ (Z.of_nat n + 1)) in Hz by lia.
    rewrite Z.pow_succ_r in Hz by lia. lia. }
  pose proof (Z.div_mod z 10). pose proof (Z.mod_pos_bound z 10). lia.
Qed.

Lemma ndigits_enough z : 0 ≤ z → z < 10 ^ Z.of_nat (ndigits z).
Proof.
  intros Hz. apply ndigits_fuel_enough. split; [done|].
  rewrite Z2Nat.id by apply Z.log2_nonneg. destruct (decide (z = 0)) as [->|Hne]; [done|].
  pose proof (Z.log2_spec z ltac:(lia)). lia.
Qed.

Lemma ndigits_pos z : (0 < ndigits z)%nat.
Proof. unfold ndigits. destruct (Z.to_nat _); simpl; [lia|]. destruct (_ <? _); lia. Qed.

Lemma scan_digits_dec z :
  0 ≤ z → scan_digits dec_val 10 (dec z) 0 0 = (z, ndigits z, []).
Proof.
  intros Hz. unfold dec. rewrite <- (app_nil_r (digits _ _)).
  rewrite scan_digits_digits by (split; [done|by apply ndigits_enough]). simpl.
  done.
Qed.

Lemma dec_inj a b : 0 ≤ a → 0 ≤ b → dec a = dec b → a = b.
Proof.
  intros Ha Hb E. pose proof (scan_digits_dec a Ha) as H. rewrite E, scan_digits_dec in H by done.
  congruence.
Qed.

Lemma dec_head z : ∃ d s, 0 ≤ d < 10 ∧ dec z = digit d :: s ∧ Forall is_digit s.
Proof.
  pose proof (digits_are_digits (ndigits z) z) as H. pose proof (digits_length (ndigits z) z) as Hl.
  pose proof (ndigits_pos z). unfold dec. destruct (digits _ _) as [|c s]; [simpl in Hl; lia|].
  apply Forall_cons_1 in H as [[d [Hd ->]] H]. by exists d, s.
Qed.

(** A digit is not what other parts of a number start with. *)
Lemma digit_chars d :
  0 ≤ d < 10 →
  is_cspace (digit d) = false ∧ digit d ≠ "-" ∧ digit d ≠ "+" ∧
  tolower (digit d) ≠ "i" ∧ tolower (digit d) ≠ "n" ∧ tolower (digit d) ≠ "x".
Proof.
  intros Hd. digit_cases d; repeat split; by vm_compute.
Qed.

Lemma fmt_int_inj a b : fmt_int a = fmt_int b → a = b.
Proof.
  destruct (dec_head a) as (da & sa & Hda & Ea & _), (dec_head b) as (db & sb & Hdb & Eb & _).
  pose proof (digit_chars _ Hda) as (_ & Na & _). pose proof (digit_chars _ Hdb) as (_ & Nb & _).
  unfold fmt_int. destruct (Z.ltb_spec a 0), (Z.ltb_spec b 0); intros E.
  - injection E as E. apply dec_inj in E; lia.
  - rewrite Eb in E. injection E as E _. by destruct Nb.
  - rewrite Ea in E. injection E as E _. by destruct Na.
  - by apply dec_inj.
Qed.

Lemma scan_number_dec z : 0 ≤ z → scan_number (dec z) = Some (f_of_dec z 0, []).
Proof.
  intros Hz. destruct (dec_head z) as (d & s & Hd & E & Hs).
  pose proof (digit_chars d Hd) as (_ & _ & _ & Hi & Hn & _).
  assert (∀ w a, tolower (digit d) ≠ a → scan_word (a :: w) (dec z) = None) as Hw.
  { intros w a Ha. rewrite E. simpl. by rewrite decide_False. }
  unfold scan_number. change (lit "inf") with ["i"; "n"; "f"]%byte.
  change (lit "nan") with ["n"; "a"; "n"]%byte. rewrite !Hw by done.
  assert (scan_hex (dec z) = None) as ->.
  { unfold scan_hex. rewrite E. simpl. destruct (decide _); [|done].
    destruct s as [|c s]; [done|]. apply Forall_cons_1 in Hs as [(d2 & Hd2 & ->) _].
    rewrite decide_False by (by apply digit_chars). done. }
  unfold scan_dec, scan_mantissa. rewrite scan_digits_dec by done.
  rewrite decide_False; [done|]. pose proof (ndigits_pos z). lia.
Qed.

(** *** Integers as floats *)

Lemma digits2_size p : digits2_pos p = Pos.size p.
Proof. induction p; simpl; congruence. Qed.

Lemma digits2_shift n p : digits2_pos (shift_pos n p) = (digits2_pos p + n)%positive.
Proof.
  unfold shift_pos. induction n as [|n IH] using Pos.peano_ind; [simpl; lia|].
  rewrite Pos.iter_succ. simpl. rewrite IH. lia.
Qed.

Lemma digits2_bound p : Z.pos p < 2 ^ 53 → Z.pos (digits2_pos p) ≤ 53.
Proof.
  intros Hp. rewrite digits2_size. pose proof (Pos.size_le p) as H.
  destruct (decide (Z.pos (Pos.size p) ≤ 53)) as [|Hn]; [done|].
  assert (2 ^ 54 ≤ 2 ^ Z.pos (Pos.size p)) by (apply Z.pow_le_mono_r; lia).
  assert (2 ^ Z.pos (Pos.size p) ≤ 2 * Z.pos p); [|lia].
  rewrite <- Pos2Z.inj_pow. change (2 * Z.pos p) with (Z.pos (xO p)). by apply Pos2Z.pos_le_pos.
Qed.

Lemma iter_xO n p : Z.pos (Pos.iter xO p n) = Z.pos p * 2 ^ Z.pos n.
Proof.
  induction n as [|n IH] using Pos.peano_ind; [simpl; lia|].
  rewrite Pos.iter_succ, Pos2Z.inj_succ, Z.pow_succ_r by lia.
  change (Z.pos (Pos.iter xO p n)~0) with (2 * Z.pos (Pos.iter xO p n)). lia.
Qed.

(** A mantissa that fits the precision is stored without rounding. *)
Lemma f_make_exact p b :
  Z.pos p < 2 ^ 53 →
  ∃ m e, f_make (Z.pos p) 0 b = S754_finite false m e ∧ e ≤ 0 ∧ Z.pos m = Z.pos p * 2 ^ (- e).
Proof.
  intros Hp. pose proof (digits2_bound p Hp) as Hd.
  unfold f_make, binary_normalize, binary_round, shl_align.
  set (d := Z.pos (digits2_pos p)) in *.
  assert (fexp f_prec f_emax (d + 0) - 0 = d - 53) as ->.
  { unfold fexp, emin, f_prec, f_emax. lia. }
  assert (∀ m e, fexp f_prec f_emax (Z.pos (digits2_pos m) + e) - e = 0 → e ≤ 0 →
    binary_round_aux f_prec f_emax false (Z.pos m) e loc_Exact = S754_finite false m e) as Haux.
  { intros m e He Hle. unfold binary_round_aux, shr_fexp. simpl Zdigits2. rewrite He. simpl.
    rewrite He. simpl. unfold f_emax, f_prec. by rewrite (proj2 (Z.leb_le _ _)) by lia. }
  destruct (d - 53) as [|q|q] eqn:E; [|lia|].
  - exists p, 0. split_and!; [|lia|lia]. apply Haux; [|lia].
    unfold fexp, emin, f_prec, f_emax. fold d. lia.
  - assert (fexp f_prec f_emax (d + 0) = Z.neg q) as ->.
    { unfold fexp, emin, f_prec, f_emax. lia. }
    exists (Pos.iter xO p q), (Z.neg q). split_and!; [|lia|apply iter_xO].
    apply Haux; [|lia]. change (Pos.iter xO p q) with (shift_pos q p). rewrite digits2_shift.
    unfold fexp, emin, f_prec, f_emax. rewrite Pos2Z.inj_add. fold d. lia.
Qed.

Lemma ndigits_fuel_le n z : (ndigits_fuel n z ≤ S n)%nat.
Proof.
  revert z. induction n as [|n IH]; intros z; simpl; [lia|]. destruct (_ <? _); [lia|].
  pose proof (IH (z / 10)). lia.
Qed.

Lemma f_of_dec_exact z :
  0 ≤ z ≤ 2 ^ 53 →
  f_to_int (f_of_dec z 0) = Some z ∧ f_to_int (SFopp (f_of_dec z 0)) = Some (- z).
Proof.
  intros Hz. destruct (decide (z = 2 ^ 53)) as [->|Hne]; [split; by vm_compute|].
  destruct z as [|p|p]; [split; by vm_compute| |lia].
  destruct (f_make_exact p false) as (m & e & Em & He & Hm); [lia|].
  assert (f_of_dec (Z.pos p) 0 = S754_finite false m e) as ->.
  { unfold f_of_dec. rewrite (proj2 (Z.ltb_ge _ _)).
    - rewrite (proj2 (Z.ltb_ge _ _)) by lia. rewrite <- Em. simpl. by rewrite Pos.mul_1_r.
    - pose proof (ndigits_fuel_le (Z.to_nat (Z.log2 (Z.pos p))) (Z.pos p)) as Hn.
      pose proof (Z.log2_le_mono (Z.pos p) (2 ^ 53) ltac:(lia)) as Hl.
      rewrite Z.log2_pow2 in Hl by lia. pose proof (Z.log2_nonneg (Z.pos p)).
      unfold ndigits. lia. }
  unfold f_to_int, f_floor. simpl.
  assert (Z.pos m / 2 ^ (- e) = Z.pos p ∧ (- Z.pos m) / 2 ^ (- e) = - Z.pos p) as [E1 E2].
  { rewrite Hm, <- Z.mul_opp_l, !Z.div_mul by lia. done. }
  unfold B6B_INT_MIN, B6B_INT_MAX.
  destruct (Z.leb_spec 0 e).
  - assert (e = 0) as -> by lia. simpl in Hm. rewrite !Z.mul_1_r in *. injection Hm as ->.
    rewrite !(proj2 (Z.leb_le _ _)) by lia. done.
  - cbn [signed]. rewrite E1, E2, !(proj2 (Z.leb_le _ _)) by lia. done.
Qed.

(** Integers of magnitude up to [2^53] survive the trip through text. *)
Lemma strtod_fmt_int z :
  - 2 ^ 53 ≤ z ≤ 2 ^ 53 →
  ∃ f, strtod (fmt_int z) = (f, length (fmt_int z)) ∧ f_to_int f = Some z.
Proof.
  intros Hz. unfold fmt_int. destruct (Z.ltb_spec z 0).
  - destruct (f_of_dec_exact (- z)) as [_ E]; [lia|]. rewrite Z.opp_involutive in E.
    eexists. split; [|exact E]. unfold strtod. simpl. rewrite scan_number_dec by lia.
    done.
  - destruct (f_of_dec_exact z) as [E _]; [lia|].
    destruct (dec_head z) as (d & s & Hd & Es & _).
    pose proof (digit_chars d Hd) as (Hc & Hm & Hp & _).
    eexists. split; [|exact E]. unfold strtod.
    assert (skip_cspace (dec z) = dec z) as -> by (rewrite Es; simpl; by rewrite Hc).
    assert (scan_sign (dec z) = (false, dec z)) as ->.
    { rewrite Es. simpl. by rewrite !decide_False. }
    rewrite scan_number_dec by done. cbn [length]. by rewrite Nat.sub_0_r.
Qed.

Lemma fmt_int_nonempty z : fmt_int z ≠ [].
Proof.
  destruct (dec_head z) as (d & s & _ & E & _). unfold fmt_int.
  destruct (z <? 0); [done|]. by rewrite E.
Qed.

(** *** The first digit *)

Lemma digits_cons k z : digits (S k) z = digit (z / 10 ^ Z.of_nat k mod 10) :: digits k z.
Proof.
  revert z. induction k as [|k IH]; intros z; [simpl; by rewrite Z.div_1_r|].
  change (digits (S (S k)) z) with (digits (S k) (z / 10) ++ [digit (z mod 10)]).
  rewrite IH, Nat2Z.inj_succ, Z.pow_succ_r, Z.div_div by lia. done.
Qed.

Lemma ndigits_fuel_least n z :
  0 ≤ z → ndigits_fuel n z = 1%nat ∨ 10 ^ (Z.of_nat (ndigits_fuel n z) - 1) ≤ z.
Proof.
  revert z. induction n as [|n IH]; intros z Hz; [by left|]. cbn [ndigits_fuel].
  destruct (Z.ltb_spec z 10); [by left|right].
  pose proof (Z.div_mod z 10). pose proof (Z.mod_pos_bound z 10).
  rewrite Nat2Z.inj_succ. replace (Z.succ _ - 1) with (Z.succ (Z.of_nat (ndigits_fuel n (z / 10)) - 1)) by lia.
  destruct (IH (z / 10)) as [E|Hle]; [apply Z.div_pos; lia|rewrite E; simpl; lia|].
  assert (0 < ndigits_fuel n (z / 10))%nat.
  { destruct n; simpl; [lia|]. destruct (_ <? _); lia. }
  rewrite Z.pow_succ_r by lia. lia.
Qed.

(** No number but 0 starts with the digit 0. *)
Lemma dec_no_zero z s : 0 ≤ z → dec z = digit 0 :: s → z = 0.
Proof.
  intros Hz. unfold dec. pose proof (ndigits_pos z). pose proof (ndigits_enough z Hz) as Hlt.
  destruct (ndigits_fuel_least (Z.to_nat (Z.log2 z)) z Hz) as [E|Hle];
    fold (ndigits z) in *.
  - rewrite E in Hlt |- *. intros Hd. change (Z.of_nat 1) with 1 in Hlt.
    cbn [digits app] in Hd. injection Hd as Hd _. rewrite Z.mod_small in Hd by lia.
    apply (f_equal dec_val) in Hd. rewrite !digit_val in Hd by lia. congruence.
  - destruct (ndigits z) as [|k]; [lia|]. rewrite digits_cons. intros Hd. injection Hd as Hd _.
    rewrite Nat2Z.inj_succ in *. replace (Z.succ (Z.of_nat k) - 1) with (Z.of_nat k) in Hle by lia.
    rewrite Z.pow_succ_r in Hlt by lia.
    assert (1 ≤ z / 10 ^ Z.of_nat k) by (apply Z.div_le_lower_bound; lia).
    assert (z / 10 ^ Z.of_nat k < 10) by (apply Z.div_lt_upper_bound; lia).
    rewrite Z.mod_small in Hd by lia. apply (f_equal dec_val) in Hd.
    rewrite !digit_val in Hd by lia. injection Hd as Hd. lia.
Qed.

Lemma ndigits_bound k z : 0 ≤ z < 10 ^ Z.of_nat k → (0 < k)%nat → (ndigits z ≤ k)%nat.
Proof.
  intros Hz Hk. destruct (ndigits_fuel_least (Z.to_nat (Z.log2 z)) z) as [E|Hle]; [lia|..];
    fold (ndigits z) in *; [lia|].
  destruct (decide (ndigits z ≤ k)%nat) as [|Hn]; [done|].
  assert (10 ^ Z.of_nat k ≤ 10 ^ (Z.of_nat (ndigits z) - 1)); [|lia].
  apply Z.pow_le_mono_r; lia.
Qed.
