(* ===== verification/Parse.v ===== *)
(** * The textual form of lists

    The two conversions between a list and its text: the loop of [b6b_as_str]
    that joins the texts of the items (src/b6b_str.c), and the tokeniser
    [b6b_do_as_list] (src/b6b_list.c), which is also the parser of b6b
    programs. Both are pure functions on byte strings here; Repr.v runs them on
    the object heap. *)
From Stdlib Require Import ZArith Lia Init.Byte Strings.Byte Strings.String.
From stdpp Require Import base option list numbers.
From S2P Require Import Prelude.
#[local] Open Scope Z_scope.
#[local] Open Scope byte_scope.

Definition b6b_isspace (c : byte) : bool :=
  bool_decide (c = " ") || bool_decide (c = x09) || bool_decide (c = x0a)
  || bool_decide (c = x0d).

Fixpoint b6b_spaced (s : bytes) : bool :=
  match s with
  | [] => false
  | c :: s' => if b6b_isspace c then true else b6b_spaced s'
  end.

(** ** Printing *)

(** One iteration of the list case of [b6b_as_str]: [acc] is the text built so
    far ([None] for the initial NULL), [s] the text of the item. *)
Definition append_item (acc : option bytes) (s : bytes) : bytes :=
  match s with
  | _ :: _ =>
      if b6b_spaced s then
        match acc with
        | Some a => a ++ " " :: "{" :: s ++ ["}"]
        | None => "{" :: s ++ ["}"]
        end
      else
        match acc with
        | Some a => a ++ " " :: s
        | None => s
        end
  | [] =>
      match acc with
      | Some a => a ++ [" "; "{"; "}"]
      | None => ["{"; "}"]
      end
  end.

Fixpoint join_items (acc : option bytes) (l : list bytes) : option bytes :=
  match l with
  | [] => acc
  | s :: l' => join_items (Some (append_item acc s)) l'
  end.

(** The text of a list whose items have the texts [l]. *)
Definition list_text (l : list bytes) : bytes :=
  default ["{"; "}"] (join_items None l).

(** ** Tokenising *)

(** The scan for the closing brace, from the byte after the opening one:
    the bytes before the brace that makes [nbrac] zero, and those after it.
    [nbrac] starts at 1 and the scan stops when it reaches 0, so it never
    wraps. *)
Fixpoint scan_brac (s : bytes) (nbrac : Z) : option (bytes * bytes) :=
  match s with
  | [] => None
  | c :: s' =>
      if decide (c = "{") then prod_map (cons c) id <$> scan_brac s' (nbrac + 1)
      else if decide (c = "}") then
        if decide (nbrac - 1 = 0) then Some ([], s')
        else prod_map (cons c) id <$> scan_brac s' (nbrac - 1)
      else prod_map (cons c) id <$> scan_brac s' nbrac
  end.

(** The scan for the closing bracket, from the byte after the opening one:
    the bytes up to and including the bracket that makes [nbrak] zero outside
    braces, and those after it. Both counters are [size_t] and may wrap. *)
Fixpoint scan_brak (s : bytes) (nbrak nbrac : Z) : option (bytes * bytes) :=
  match s with
  | [] => None
  | c :: s' =>
      if decide (c = "{") then prod_map (cons c) id <$> scan_brak s' nbrak (u64 (nbrac + 1))
      else if decide (c = "}") then prod_map (cons c) id <$> scan_brak s' nbrak (u64 (nbrac - 1))
      else if decide (c = "[") then prod_map (cons c) id <$> scan_brak s' (u64 (nbrak + 1)) nbrac
      else if decide (c = "]") then
        if decide (u64 (nbrak - 1) = 0 ∧ nbrac = 0) then Some ([c], s')
        else prod_map (cons c) id <$> scan_brak s' (u64 (nbrak - 1)) nbrac
      else prod_map (cons c) id <$> scan_brak s' nbrak nbrac
  end.

(** The end of a plain token: the bytes before the first whitespace byte, and
    those after that byte. *)
Fixpoint scan_plain (s : bytes) : bytes * bytes :=
  match s with
  | [] => ([], [])
  | c :: s' => if b6b_isspace c then ([], s') else prod_map (cons c) id (scan_plain s')
  end.

(** The loop of [b6b_do_as_list] on the bytes from [s[i]] on: the tokens it
    adds, and whether it succeeds. It fails on uneven braces or brackets, with
    the tokens before them added already. Each iteration consumes at least one
    byte, so the length of the text is enough fuel. *)
Fixpoint tokens_fuel (n : nat) (s : bytes) : list bytes * bool :=
  match n with
  | O => ([], false)
  | S n' =>
      match s with
      | [] => ([], true)
      | c :: s' =>
          if decide (c = "{") then
            match scan_brac s' 1 with
            | None => ([], false)
            | Some (t, rest) => prod_map (cons t) id (tokens_fuel n' rest)
            end
          else if decide (c = "[") then
            match scan_brak s' 1 0 with
            | None => ([], false)
            | Some (t, rest) => prod_map (cons (c :: t)) id (tokens_fuel n' rest)
            end
          else if b6b_isspace c then tokens_fuel n' s'
          else
            let '(t, rest) := scan_plain s' in
            prod_map (cons (c :: t)) id (tokens_fuel n' rest)
      end
  end.

Definition b6b_do_as_list (s : bytes) : list bytes * bool :=
  tokens_fuel (S (length s)) s.

(** ** Termination of the tokeniser *)

Lemma scan_brac_length s n t rest :
  scan_brac s n = Some (t, rest) → (length t + length rest < length s)%nat.
Proof.
  revert n t rest. induction s as [|c s IH]; intros n t rest H; simpl in *; [done|].
  repeat case_decide; simplify_eq; simpl in *; [|lia|..];
    (apply fmap_Some in H as ([t' r'] & H & Heq); simplify_eq/=; apply IH in H; lia).
Qed.

Lemma scan_brak_length s n m t rest :
  scan_brak s n m = Some (t, rest) → (length t + length rest = length s)%nat.
Proof.
  revert n m t rest. induction s as [|c s IH]; intros n m t rest H; simpl in *; [done|].
  repeat case_decide; simplify_eq; simpl in *; try lia;
    (apply fmap_Some in H as ([t' r'] & H & Heq); simplify_eq/=; apply IH in H; lia).
Qed.

Lemma scan_plain_length s t rest :
  scan_plain s = (t, rest) → (length t + length rest ≤ length s)%nat.
Proof.
  revert t rest. induction s as [|c s IH]; intros t rest H; simpl in *; [by simplify_eq|].
  destruct (b6b_isspace c); simplify_eq; simpl; [lia|].
  destruct (scan_plain s) as [t' r']; simplify_eq/=. specialize (IH _ _ eq_refl). lia.
Qed.

(** More fuel than the length of the text does not change the tokens. *)
Lemma tokens_fuel_enough n m s :
  (length s < n)%nat → (length s < m)%nat → tokens_fuel n s = tokens_fuel m s.
Proof.
  revert m s. induction n as [|n IH]; intros [|m] s Hn Hm; [lia..|].
  destruct s as [|c s]; [done|]. simpl in *.
  case_decide; [|case_decide; [|destruct (b6b_isspace c)]].
  - destruct (scan_brac s 1) as [[t r]|] eqn:E; [|done].
    apply scan_brac_length in E. by rewrite (IH m) by lia.
  - destruct (scan_brak s 1 0) as [[t r]|] eqn:E; [|done].
    apply scan_brak_length in E. by rewrite (IH m) by lia.
  - apply IH; lia.
  - destruct (scan_plain s) as [t r] eqn:E.
    apply scan_plain_length in E. by rewrite (IH m) by lia.
Qed.

Lemma do_as_list_fuel n s :
  (length s < n)%nat → tokens_fuel n s = b6b_do_as_list s.
Proof. intros. apply tokens_fuel_enough; lia. Qed.

(** ** The equations of the tokeniser *)

Lemma do_as_list_cons c s :
  b6b_do_as_list (c :: s) =
    if decide (c = "{") then
      match scan_brac s 1 with
      | None => ([], false)
      | Some (t, rest) => prod_map (cons t) id (tokens_fuel (S (length s)) rest)
      end
    else if decide (c = "[") then
      match scan_brak s 1 0 with
      | None => ([], false)
      | Some (t, rest) => prod_map (cons (c :: t)) id (tokens_fuel (S (length s)) rest)
      end
    else if b6b_isspace c then b6b_do_as_list s
    else let '(t, rest) := scan_plain s in
         prod_map (cons (c :: t)) id (tokens_fuel (S (length s)) rest).
Proof. done. Qed.

Lemma do_as_list_nil : b6b_do_as_list [] = ([], true).
Proof. done. Qed.

Lemma do_as_list_space c s :
  b6b_isspace c = true → b6b_do_as_list (c :: s) = b6b_do_as_list s.
Proof.
  intros Hc. rewrite do_as_list_cons.
  rewrite decide_False by (intros ->; discriminate Hc).
  rewrite decide_False by (intros ->; discriminate Hc).
  by rewrite Hc.
Qed.

Lemma do_as_list_brac s t rest :
  scan_brac s 1 = Some (t, rest) →
  b6b_do_as_list ("{" :: s) = prod_map (cons t) id (b6b_do_as_list rest).
Proof.
  intros E. rewrite do_as_list_cons, decide_True by done.
  rewrite E.
  apply scan_brac_length in E. by rewrite do_as_list_fuel by lia.
Qed.

Lemma do_as_list_brak s t rest :
  scan_brak s 1 0 = Some (t, rest) →
  b6b_do_as_list ("[" :: s) = prod_map (cons ("[" :: t)) id (b6b_do_as_list rest).
Proof.
  intros E. rewrite do_as_list_cons, decide_False, decide_True by done.
  rewrite E.
  apply scan_brak_length in E. by rewrite do_as_list_fuel by lia.
Qed.

Lemma do_as_list_plain c s t rest :
  c ≠ "{" → c ≠ "[" → b6b_isspace c = false → scan_plain s = (t, rest) →
  b6b_do_as_list (c :: s) = prod_map (cons (c :: t)) id (b6b_do_as_list rest).
Proof.
  intros H1 H2 H3 E. rewrite do_as_list_cons, !decide_False by done. rewrite H3, E.
  apply scan_plain_length in E. by rewrite do_as_list_fuel by lia.
Qed.

(** ** Items that survive the round trip *)

(** The depth of braces never drops below zero and ends at zero. *)
Fixpoint balanced_from (depth : Z) (s : bytes) : bool :=
  match s with
  | [] => bool_decide (depth = 0)
  | c :: s' =>
      if decide (c = "{") then balanced_from (depth + 1) s'
      else if decide (c = "}") then
        if decide (depth = 0) then false else balanced_from (depth - 1) s'
      else balanced_from depth s'
  end.
Definition balanced : bytes → bool := balanced_from 0.

(** A text that can be an item: empty, with whitespace and balanced braces, or
    without whitespace and, if it opens with a bracket, closed by its last
    byte; without whitespace it must not open with a brace. *)
Definition item_ok (s : bytes) : bool :=
  match s with
  | [] => true
  | c :: s' =>
      if b6b_spaced s then balanced s
      else if decide (c = "{") then false
      else if decide (c = "[") then bool_decide (scan_brak s' 1 0 = Some (s', []))
      else true
  end.

Lemma scan_brac_balanced d s rest :
  0 ≤ d → balanced_from d s = true →
  scan_brac (s ++ "}" :: rest) (d + 1) = Some (s, rest).
Proof.
  revert d. induction s as [|c s IH]; intros d Hd H; simpl in *.
  { apply bool_decide_eq_true in H as ->. done. }
  repeat case_decide; simplify_eq; try lia.
  - by rewrite IH by (done || lia).
  - replace (d + 1 - 1) with (d - 1 + 1) by lia. by rewrite IH by (done || lia).
  - by rewrite IH by (done || lia).
Qed.

Lemma scan_brac_exact d s rest r :
  scan_brac (s ++ "}" :: rest) (d + 1) = Some (s, r) → 0 ≤ d → balanced_from d s = true.
Proof.
  revert d. induction s as [|c s IH]; intros d H Hd; simpl in *.
  - case_decide; [apply bool_decide_eq_true; lia|].
    by destruct (scan_brac rest (d + 1 - 1)) as [[]|].
  - repeat case_decide; simplify_eq; try lia;
      (apply fmap_Some in H as ([t' r'] & H & Heq); simplify_eq/=).
    + by apply IH in H; [|lia].
    + replace (d + 1 - 1) with (d - 1 + 1) in H by lia. by apply IH in H; [|lia].
    + by apply IH in H.
Qed.

Lemma scan_brak_app s n m t r rest :
  scan_brak s n m = Some (t, r) → scan_brak (s ++ rest) n m = Some (t, r ++ rest).
Proof.
  revert n m t r. induction s as [|c s IH]; intros n m t r H; simpl in *; [done|].
  repeat case_decide; simplify_eq; try done;
    (apply fmap_Some in H as ([t' r'] & H & Heq); simplify_eq/=; by rewrite (IH _ _ _ _ H)).
Qed.

Lemma scan_plain_nospace s rest :
  b6b_spaced s = false → scan_plain (s ++ " " :: rest) = (s, rest).
Proof.
  induction s as [|c s IH]; intros H; simpl in *; [done|].
  destruct (b6b_isspace c); [done|]. by rewrite IH.
Qed.

Lemma scan_plain_end s : b6b_spaced s = false → scan_plain s = (s, []).
Proof.
  induction s as [|c s IH]; intros H; simpl in *; [done|].
  destruct (b6b_isspace c); [done|]. by rewrite IH.
Qed.

(** The text of the items [l] that follow a first one. *)
Fixpoint tail_text (l : list bytes) : bytes :=
  match l with
  | [] => []
  | s :: l' => " " :: append_item None s ++ tail_text l'
  end.

Lemma append_item_Some a s : append_item (Some a) s = a ++ " " :: append_item None s.
Proof. destruct s; [done|]. unfold append_item. by destruct (b6b_spaced _). Qed.

Lemma join_items_Some a l : join_items (Some a) l = Some (a ++ tail_text l).
Proof.
  revert a. induction l as [|s l IH]; intros a; simpl; [by rewrite app_nil_r|].
  rewrite IH, append_item_Some. by rewrite <- app_assoc.
Qed.

Lemma list_text_cons s l : list_text (s :: l) = append_item None s ++ tail_text l.
Proof. unfold list_text. simpl. by rewrite join_items_Some. Qed.

Lemma tokens_item s rest ts :
  item_ok s = true →
  (rest = [] ∨ ∃ r, rest = " " :: r) →
  b6b_do_as_list rest = (ts, true) →
  b6b_do_as_list (append_item None s ++ rest) = (s :: ts, true).
Proof.
  intros Hs Hr Hts. destruct s as [|c s].
  { simpl. erewrite do_as_list_brac by done. by rewrite Hts. }
  unfold item_ok in Hs. unfold append_item.
  destruct (b6b_spaced (c :: s)) eqn:Hsp.
  - simpl. rewrite <- app_assoc. simpl.
    erewrite do_as_list_brac; [by rewrite Hts|].
    change (c :: s ++ "}" :: rest) with ((c :: s) ++ "}" :: rest).
    by apply (scan_brac_balanced 0).
  - simpl in Hsp. destruct (b6b_isspace c) eqn:Hc; [done|]. simpl.
    case_decide; [done|]. case_decide as Hk.
    + apply bool_decide_eq_true in Hs. subst c.
      erewrite do_as_list_brak by (eapply scan_brak_app; exact Hs).
      simpl. by rewrite Hts.
    + destruct Hr as [->|[r ->]].
      * rewrite app_nil_r. erewrite do_as_list_plain by eauto using scan_plain_end.
        by injection Hts as <-.
      * erewrite do_as_list_plain by eauto using scan_plain_nospace.
        rewrite do_as_list_space in Hts by done. by rewrite Hts.
Qed.

Lemma tail_text_shape l : tail_text l = [] ∨ ∃ r, tail_text l = " " :: r.
Proof. destruct l; [by left|right; by eexists]. Qed.

Lemma tokens_tail l :
  Forall (λ s, item_ok s = true) l → b6b_do_as_list (tail_text l) = (l, true).
Proof.
  induction 1 as [|s l Hs Hl IH]; [done|]. simpl.
  rewrite do_as_list_space by done.
  by apply tokens_item; [|apply tail_text_shape|].
Qed.

Lemma list_text_parses s l :
  item_ok s = true → Forall (λ s, item_ok s = true) l →
  b6b_do_as_list (list_text (s :: l)) = (s :: l, true).
Proof.
  intros Hs Hl. rewrite list_text_cons. apply tokens_item; [done|apply tail_text_shape|].
  by apply tokens_tail.
Qed.

(** ** Properties *)

(** C17: printing a non-empty list and parsing the text gives the items back,
    when each item is one that its text can represent. *)
Theorem list_text_roundtrip l :
  l ≠ [] → Forall (λ s, item_ok s = true) l →
  b6b_do_as_list (list_text l) = (l, true).
Proof.
  intros Hne Hl. destruct Hl as [|s l Hs Hl]; [done|]. by apply list_text_parses.
Qed.

Lemma list_text_roundtrip_witness :
  b6b_do_as_list (list_text [lit "a"; []; lit "b {c} d"; lit "[$+ 1]"])
    = ([lit "a"; []; lit "b {c} d"; lit "[$+ 1]"], true).
Proof.
  apply list_text_roundtrip; [discriminate|].
  repeat constructor; vm_compute; reflexivity.
Defined.

(** C18: the condition on items is exact: the text of a one-element list parses
    back to that list precisely when the item satisfies it. *)
Theorem item_ok_exact s :
  b6b_do_as_list (list_text [s]) = ([s], true) ↔ item_ok s = true.
Proof.
  split; [|intros H; by apply list_text_parses; [|constructor]].
  unfold list_text. simpl. destruct s as [|c s]; [done|].
  unfold append_item, item_ok. destruct (b6b_spaced (c :: s)) eqn:Hsp.
  - rewrite do_as_list_cons, decide_True by done. intros H.
    destruct (scan_brac _ 1) as [[t r]|] eqn:E; [|done].
    destruct (tokens_fuel _ r) as [ts ok].
    injection H as -> -> ->. by apply (scan_brac_exact 0) in E.
  - simpl in Hsp. destruct (b6b_isspace c) eqn:Hc; [done|].
    rewrite do_as_list_cons. case_decide as Hb; [|case_decide as Hk; [|done]]; intros H.
    + destruct (scan_brac s 1) as [[t r]|] eqn:E; [|done].
      destruct (tokens_fuel _ r) as [ts ok]. simplify_eq/=.
      apply scan_brac_length in E. simpl in E. lia.
    + destruct (scan_brak s 1 0) as [[t r]|] eqn:E; [|done].
      destruct (tokens_fuel _ r) as [ts ok]. simplify_eq/=.
      pose proof (scan_brak_length _ _ _ _ _ E) as Hlen.
      apply bool_decide_eq_true. do 2 f_equal.
      apply nil_length_inv. lia.
Qed.

(** The tokeniser never invents bytes: the tokens it adds, even those added
    before a syntax error, are together no longer than the text. *)
Lemma do_as_list_length s :
  (sum_list_with length (b6b_do_as_list s).1 ≤ length s)%nat.
Proof.
  unfold b6b_do_as_list. generalize (S (length s)) as n. intros n. revert s.
  induction n as [|n IH]; intros [|c s]; simpl; [lia..|].
  case_decide; [|case_decide; [|destruct (b6b_isspace c)]].
  - destruct (scan_brac s 1) as [[t r]|] eqn:E; simpl; [|lia].
    apply scan_brac_length in E. specialize (IH r). simpl. lia.
  - destruct (scan_brak s 1 0) as [[t r]|] eqn:E; simpl; [|lia].
    apply scan_brak_length in E. specialize (IH r). simpl. lia.
  - specialize (IH s). lia.
  - destruct (scan_plain s) as [t r] eqn:E. simpl.
    apply scan_plain_length in E. specialize (IH r). lia.
Qed.
