(* ===== verification/Heap.v ===== *)
(** * The object heap and reference counting

    include/b6b/obj.h and src/b6b_obj.c. An object is a record at an address;
    its list items are nodes with an address of their own, so an iterator that
    outlives its node is visible. Allocation never fails (the source is built
    with [B6B_OPTIMISTIC_ALLOC] by default) and never reuses an address. An
    access to an address that holds no object is undefined behaviour. *)
From Stdlib Require Import ZArith Lia Init.Byte Strings.String.
From stdpp Require Import base option list numbers gmap.
From S2P Require Import Prelude Sys Float64 Hash.
#[local] Open Scope Z_scope.

Abbreviation loc := N.

(** ** Data *)

(** The functions a [b6b_procf] points to. *)
Inductive b6b_procf : Set :=
| P_obj
| P_nop | P_echo | P_yield | P_return | P_continue | P_break | P_throw | P_exit
| P_local | P_global | P_export | P_eval | P_repr | P_call | P_spawn | P_source
| P_not | P_eq | P_ne | P_and | P_or | P_xor | P_if
| P_map | P_loop | P_range
| P_try
| P_proc_body | P_proc
| P_add | P_sub | P_mul | P_div | P_mod | P_band | P_bor | P_bxor
| P_lt | P_le | P_gt | P_ge
| P_str_len | P_str_index | P_str_range | P_str_join | P_str_split | P_str_ord
| P_str_chr | P_str_expand | P_str_in | P_rtrim | P_ltrim
| P_list_new | P_list_len | P_list_copy | P_list_append | P_list_extend
| P_list_index | P_list_range | P_list_in | P_list_pop
| P_dict_get | P_dict_set | P_dict_unset
| P_choice | P_randint
| P_strm
| P_open | P_sem | P_timer | P_sleep | P_signal | P_poll | P_poll_obj | P_sh | P_realpath
| P_nslookup | P_inet_client | P_un_client | P_inet_server | P_un_server | P_un_pair
| P_bswap16 | P_bswap32
| P_ffi_buf | P_ffi_buf_obj | P_ffi_memcpy | P_ffi_pack | P_ffi_unpack | P_ffi_dlopen
| P_ffi_so | P_ffi_func | P_ffi_func_obj
| P_deflate | P_compress | P_gzip | P_inflate | P_decompress | P_gunzip
| P_linenoise_read | P_linenoise_add | P_linenoise_save | P_linenoise_load.

(** The functions a [b6b_delf] points to. *)
Inductive b6b_delf : Set :=
| D_null
| D_proc    (* b6b_proc_del *)
| D_unref   (* (b6b_delf)b6b_unref *)
| D_strm    (* b6b_strm_del *)
| D_poll    (* b6b_poll_del *)
| D_pid     (* b6b_pid_del *)
| D_so      (* b6b_ffi_so_del *)
| D_func.   (* b6b_ffi_func_del *)

(** The tables of stream operations of the source. *)
Inductive b6b_strm_kind : Set :=
| K_ro_pipe | K_wo_pipe                    (* b6b_stdio.c *)
| K_ro_file | K_wo_file | K_rw_file        (* b6b_file.c *)
| K_sh_in | K_sh_out                       (* b6b_sh.c *)
| K_sem | K_timer | K_signal
| K_tcp_client | K_udp_client | K_un_stream_client | K_un_dgram_client
| K_tcp_server | K_udp_server | K_un_stream_server | K_un_dgram_server.

(** What the [priv] of a stream is. *)
Inductive b6b_strm_priv : Set :=
| S_fd (fd : Z)
| S_stdio (fp fd : Z)                      (* struct b6b_stdio_strm *)
| S_sh (pid : loc) (fd : Z)                (* struct b6b_sh *)
| S_signal (fd : Z) (set : list Z)         (* struct b6b_signal *)
| S_socket (peer addr : sockaddr) (fd : Z)  (* struct b6b_socket *)
| S_freed.                                  (* a structure that was freed *)

(** [struct b6b_strm], with the bits of its flags. *)
Record b6b_strm : Set := mkStrm {
  strm_ops : b6b_strm_kind;
  strm_priv : b6b_strm_priv;
  strm_closed : bool;   (* B6B_STRM_CLOSED *)
  strm_eof : bool       (* B6B_STRM_EOF *)
}.

(** What [priv] points to, or is. *)
Inductive b6b_priv : Set :=
| V_null
| V_proc (body priv : loc)  (* struct b6b_proc *)
| V_obj (o : loc)
| V_strm (s : b6b_strm)
| V_num (z : Z)
| V_func (rtype argc : Z) (p : Z). (* struct b6b_ffi_func *)

Record b6b_litem : Set := mkItem { li_id : N; li_o : loc }.

(** The bits of [flags]. *)
Record b6b_flags : Set := mkFlags {
  f_list : bool;    (* B6B_TYPE_LIST *)
  f_str : bool;     (* B6B_TYPE_STR *)
  f_int : bool;     (* B6B_TYPE_INT *)
  f_float : bool;   (* B6B_TYPE_FLOAT *)
  f_hashed : bool   (* B6B_OBJ_HASHED *)
}.

(** [slen] is the length of [o_s]; the buffer holds a NUL after it. *)
Record b6b_obj : Set := mkObj {
  o_l : list b6b_litem;
  o_s : bytes;
  o_i : Z;
  o_f : b6b_float;
  o_proc : b6b_procf;
  o_del : b6b_delf;
  o_priv : b6b_priv;
  o_refc : Z;
  o_hash : Z;
  o_flags : b6b_flags
}.

(** The objects, the next free address, and the system outside. *)
Record heap : Set := mkHeap { objs : gmap loc b6b_obj; next : N; h_os : os }.

Abbreviation HM := (M heap).

(** ** Field updates *)

Definition with_l (l : list b6b_litem) (x : b6b_obj) : b6b_obj :=
  mkObj l (o_s x) (o_i x) (o_f x) (o_proc x) (o_del x) (o_priv x) (o_refc x) (o_hash x) (o_flags x).
Definition with_s (s : bytes) (x : b6b_obj) : b6b_obj :=
  mkObj (o_l x) s (o_i x) (o_f x) (o_proc x) (o_del x) (o_priv x) (o_refc x) (o_hash x) (o_flags x).
Definition with_i (i : Z) (x : b6b_obj) : b6b_obj :=
  mkObj (o_l x) (o_s x) i (o_f x) (o_proc x) (o_del x) (o_priv x) (o_refc x) (o_hash x) (o_flags x).
Definition with_f (f : b6b_float) (x : b6b_obj) : b6b_obj :=
  mkObj (o_l x) (o_s x) (o_i x) f (o_proc x) (o_del x) (o_priv x) (o_refc x) (o_hash x) (o_flags x).
Definition with_proc (p : b6b_procf) (x : b6b_obj) : b6b_obj :=
  mkObj (o_l x) (o_s x) (o_i x) (o_f x) p (o_del x) (o_priv x) (o_refc x) (o_hash x) (o_flags x).
Definition with_del (d : b6b_delf) (v : b6b_priv) (x : b6b_obj) : b6b_obj :=
  mkObj (o_l x) (o_s x) (o_i x) (o_f x) (o_proc x) d v (o_refc x) (o_hash x) (o_flags x).
Definition with_refc (r : Z) (x : b6b_obj) : b6b_obj :=
  mkObj (o_l x) (o_s x) (o_i x) (o_f x) (o_proc x) (o_del x) (o_priv x) r (o_hash x) (o_flags x).
Definition with_hash (h : Z) (x : b6b_obj) : b6b_obj :=
  mkObj (o_l x) (o_s x) (o_i x) (o_f x) (o_proc x) (o_del x) (o_priv x) (o_refc x) h (o_flags x).
Definition with_flags (g : b6b_flags → b6b_flags) (x : b6b_obj) : b6b_obj :=
  mkObj (o_l x) (o_s x) (o_i x) (o_f x) (o_proc x) (o_del x) (o_priv x) (o_refc x) (o_hash x) (g (o_flags x)).

Definition set_list (v : bool) (g : b6b_flags) : b6b_flags :=
  mkFlags v (f_str g) (f_int g) (f_float g) (f_hashed g).
Definition set_str (v : bool) (g : b6b_flags) : b6b_flags :=
  mkFlags (f_list g) v (f_int g) (f_float g) (f_hashed g).
Definition set_int (v : bool) (g : b6b_flags) : b6b_flags :=
  mkFlags (f_list g) (f_str g) v (f_float g) (f_hashed g).
Definition set_float (v : bool) (g : b6b_flags) : b6b_flags :=
  mkFlags (f_list g) (f_str g) (f_int g) v (f_hashed g).
Definition set_hashed (v : bool) (g : b6b_flags) : b6b_flags :=
  mkFlags (f_list g) (f_str g) (f_int g) (f_float g) v.
Definition no_flags : b6b_flags := mkFlags false false false false false.

(** ** Memory *)

Definition read_obj (o : loc) : HM b6b_obj := λ h,
  match objs h !! o with Some x => Done (x, h) | None => Ub end.

Definition write_obj (o : loc) (x : b6b_obj) : HM unit := λ h,
  match objs h !! o with
  | Some _ => Done (tt, mkHeap (<[o := x]> (objs h)) (next h) (h_os h))
  | None => Ub
  end.

Definition update_obj (o : loc) (f : b6b_obj → b6b_obj) : HM unit :=
  x ← read_obj o; write_obj o (f x).

(** [malloc], for an object that starts as [x]. *)
Definition malloc_obj (x : b6b_obj) : HM loc := λ h,
  Done (next h, mkHeap (<[next h := x]> (objs h)) (N.succ (next h)) (h_os h)).

(** [malloc], for a list node. *)
Definition malloc_item (o : loc) : HM b6b_litem := λ h,
  Done (mkItem (next h) o, mkHeap (objs h) (N.succ (next h)) (h_os h)).

Definition free_obj (o : loc) : HM unit := λ h,
  match objs h !! o with
  | Some _ => Done (tt, mkHeap (delete o (objs h)) (next h) (h_os h))
  | None => Ub
  end.

(** A call whose result is looked at; [Oof] when the answers that were given
    are used up. *)
Definition sys_call (c : call) : HM ans := λ h,
  match os_next (h_os h) with
  | [] => Oof
  | a :: rest =>
      Done (a, mkHeap (objs h) (next h) (mkOs rest ((c, a) :: os_log (h_os h))))
  end.

(** Calls whose results are ignored. *)
Definition sys_note (cs : list call) : HM unit := λ h,
  Done (tt, mkHeap (objs h) (next h) (os_note cs (h_os h))).

(** ** include/b6b/obj.h, src/b6b_obj.c *)

(** The fields [b6b_new] sets; the others are uninitialised there. *)
Definition new_obj : b6b_obj :=
  mkObj [] [] 0 f_zero P_obj D_null V_null 1 0 no_flags.

Definition b6b_new : HM loc := malloc_obj new_obj.

Definition b6b_ref (o : loc) : HM loc :=
  x ← read_obj o;
  if o_refc x <? 0 then ub   (* assert(o->refc >= 0) *)
  else update_obj o (with_refc (o_refc x + 1));; mret o.

Section destroy.
(** [b6b_unref], for the recursive calls. *)
Variable unref : loc → HM unit.

(** The nodes are freed, but [o->l] keeps its pointers to them. *)
Definition b6b_destroy_l_with (o : loc) : HM unit :=
  x ← read_obj o;
  miter (λ li, unref (li_o li)) (o_l x).

(** The calls that [ops->close] of a stream makes. The streams on [stdin],
    [stdout] and [stderr] are not closed; a file is closed in the offload
    thread when it is closed by name, which is [Streams.b6b_strm_close]. *)
Definition close_calls (s : b6b_strm) : list call :=
  match strm_ops s, strm_priv s with
  | (K_ro_pipe | K_wo_pipe), _ => []
  | _, S_fd fd => [C_close fd]
  | _, S_stdio fp _ => [C_fclose fp]
  | _, S_sh _ fd => [C_close fd]
  | _, S_signal fd set => [C_sigprocmask false set; C_close fd]
  | (K_un_stream_server | K_un_dgram_server), S_socket _ (A_un path) fd =>
      [C_close fd; C_unlink path]
  | _, S_socket _ _ fd => [C_close fd]
  | _, S_freed => []   (* only of a stream that is closed *)
  end.

(** The object [ops->close] drops its reference to, after them. *)
Definition close_refs (s : b6b_strm) : list loc :=
  match strm_priv s with S_sh pid _ => [pid] | _ => [] end.

(** The destructors of private data; [free] of their structures leaves
    nothing to model. *)
Definition b6b_proc_del (body priv : loc) : HM unit := unref priv;; unref body.
Definition b6b_strm_del (s : b6b_strm) : HM unit :=
  if strm_closed s then mret tt
  else sys_note (close_calls s);; miter unref (close_refs s).
Definition b6b_poll_del (fd : Z) : HM unit := sys_note [C_close fd].
Definition b6b_pid_del (pid : Z) : HM unit :=
  if pid =? 0 then mret tt else sys_note [C_waitpid pid].
Definition b6b_ffi_so_del (h : Z) : HM unit := sys_note [C_dlclose h].
Definition b6b_ffi_func_del : HM unit := mret tt.

(** [o->del(o->priv)] *)
Definition call_del (x : b6b_obj) : HM unit :=
  match o_del x, o_priv x with
  | D_null, _ => mret tt
  | D_proc, V_proc body priv => b6b_proc_del body priv
  | D_unref, V_obj p => unref p
  | D_strm, V_strm s => b6b_strm_del s
  | D_poll, V_num fd => b6b_poll_del fd
  | D_pid, V_num pid => b6b_pid_del pid
  | D_so, V_num h => b6b_ffi_so_del h
  | D_func, V_func _ _ _ => b6b_ffi_func_del
  | _, _ => ub
  end.

Definition b6b_destroy_with (o : loc) : HM unit :=
  x ← read_obj o;
  (if f_list (o_flags x) then b6b_destroy_l_with o else mret tt);;
  call_del x;;
  free_obj o.
End destroy.

(** [b6b_unref] and, through it, [b6b_destroy] call each other; a chain of
    nested calls destroys a different object at each level. *)
Fixpoint b6b_unref_fuel (n : nat) (o : loc) : HM unit :=
  match n with
  | O => oof
  | S n' =>
      x ← read_obj o;
      if o_refc x <=? 0 then ub   (* assert(o->refc > 0) *)
      else
        update_obj o (with_refc (o_refc x - 1));;
        if o_refc x - 1 =? 0 then b6b_destroy_with (b6b_unref_fuel n') o
        else mret tt
  end.

Definition b6b_unref (o : loc) : HM unit :=
  λ h, b6b_unref_fuel (S (size (objs h))) o h.

Definition b6b_destroy_l : loc → HM unit := b6b_destroy_l_with b6b_unref.
Definition b6b_destroy : loc → HM unit := b6b_destroy_with b6b_unref.

(** ** References *)

(** The references an object holds: those of its list items, if it is a list,
    and those of its private data, in the order they are dropped. *)
Definition priv_refs (x : b6b_obj) : list loc :=
  match o_del x, o_priv x with
  | D_proc, V_proc body priv => [priv; body]
  | D_unref, V_obj p => [p]
  | D_strm, V_strm s => if strm_closed s then [] else close_refs s
  | _, _ => []
  end.
Definition list_refs (x : b6b_obj) : list loc :=
  if f_list (o_flags x) then li_o <$> o_l x else [].
Definition refs_of (x : b6b_obj) : list loc := list_refs x ++ priv_refs x.

(** [del] is NULL or fits [priv]. *)
Definition del_fits (x : b6b_obj) : bool :=
  match o_del x, o_priv x with
  | D_null, _ | D_proc, V_proc _ _ | D_unref, V_obj _ | D_strm, V_strm _
  | (D_poll | D_pid | D_so), V_num _ | D_func, V_func _ _ _ => true
  | _, _ => false
  end.
Definition del_ok (x : b6b_obj) : Prop := del_fits x = true.

Fixpoint occ (o : loc) (l : list loc) : nat :=
  match l with
  | [] => 0
  | p :: l' => (if decide (p = o) then 1 else 0) + occ o l'
  end.

(** How many references the objects of [m] hold to [o]. *)
Definition heap_refs (m : gmap loc b6b_obj) (o : loc) : nat :=
  map_fold (λ _ x n, occ o (refs_of x) + n)%nat O m.

#[export] Instance del_ok_dec x : Decision (del_ok x).
Proof. unfold del_ok. apply _. Defined.

(** The heap is well counted, when the program holds the references [R]
    outside the heap: every object's count is the number of references to it,
    no count is zero, and nothing refers to an address without an object. *)
Record well_counted (R : list loc) (m : gmap loc b6b_obj) : Prop := {
  wc_refc : ∀ o x, m !! o = Some x →
    o_refc x = Z.of_nat (occ o R + heap_refs m o) ∧ 0 < o_refc x ∧ del_ok x;
  wc_live : ∀ o, m !! o = None → (occ o R + heap_refs m o = 0)%nat
}.

(** ** Counting references *)

Lemma occ_app o l1 l2 : occ o (l1 ++ l2) = (occ o l1 + occ o l2)%nat.
Proof. induction l1 as [|p l1 IH]; simpl; lia. Qed.

Lemma occ_elem o l : o ∈ l ↔ (0 < occ o l)%nat.
Proof.
  induction l as [|p l IH]; simpl.
  - split; [by intros ?%not_elem_of_nil|lia].
  - rewrite elem_of_cons, IH. case_decide; split; intros; naive_solver lia.
Qed.

Lemma heap_refs_delete m o x p :
  m !! o = Some x →
  heap_refs m p = (occ p (refs_of x) + heap_refs (delete o m) p)%nat.
Proof.
  intros Hm. unfold heap_refs.
  rewrite (map_fold_delete_L _ _ o x m); [done| |done]. intros. lia.
Qed.

Lemma heap_refs_insert_None m o x p :
  m !! o = None →
  heap_refs (<[o := x]> m) p = (occ p (refs_of x) + heap_refs m p)%nat.
Proof.
  intros Hm. rewrite (heap_refs_delete _ o x) by apply lookup_insert_eq.
  by rewrite delete_insert_id.
Qed.

Lemma heap_refs_insert m o x x' p :
  m !! o = Some x →
  (heap_refs (<[o := x']> m) p + occ p (refs_of x) =
     heap_refs m p + occ p (refs_of x'))%nat.
Proof.
  intros Hm. rewrite (heap_refs_delete _ o x' p) by apply lookup_insert_eq.
  rewrite (heap_refs_delete m o x p) by done.
  rewrite delete_insert_eq. lia.
Qed.

Lemma heap_refs_insert_same m o x x' p :
  m !! o = Some x → refs_of x' = refs_of x →
  heap_refs (<[o := x']> m) p = heap_refs m p.
Proof.
  intros Hm Hr. pose proof (heap_refs_insert m o x x' p Hm) as E.
  rewrite Hr in E. lia.
Qed.

(** An update that changes neither the references an object holds nor its
    count keeps the heap well counted. *)
Lemma well_counted_update R m o x x' :
  well_counted R m → m !! o = Some x →
  refs_of x' = refs_of x → o_refc x' = o_refc x → del_ok x' →
  well_counted R (<[o := x']> m).
Proof.
  intros [Hc Hl] Ho Hrefs Hcnt Hdel.
  assert (∀ p, heap_refs (<[o := x']> m) p = heap_refs m p) as E.
  { intros p. by apply heap_refs_insert_same with x. }
  split.
  - intros p y. rewrite lookup_insert, E. case_decide; [|by apply Hc].
    intros [= <-]. subst p. rewrite Hcnt. apply Hc in Ho. naive_solver.
  - intros p. rewrite lookup_insert, E. case_decide; [done|apply Hl].
Qed.

(** Dropping one of several references. *)
Lemma well_counted_drop R m o x :
  well_counted (o :: R) m → m !! o = Some x → o_refc x ≠ 1 →
  well_counted R (<[o := with_refc (o_refc x - 1) x]> m).
Proof.
  intros [Hc Hl] Ho Hne.
  assert (∀ p, heap_refs (<[o := with_refc (o_refc x - 1) x]> m) p = heap_refs m p) as E.
  { intros p. by apply heap_refs_insert_same with x. }
  split.
  - intros p y. rewrite lookup_insert, E. case_decide.
    + intros [= <-]. subst p. destruct (Hc o x Ho) as (H1 & H2 & H3).
      simpl in *. rewrite decide_True in H1 by done. repeat split; [lia..|done].
    + intros Hp. destruct (Hc p y Hp) as (H1 & H2 & H3).
      simpl in H1. rewrite decide_False in H1 by done. done.
  - intros p. rewrite lookup_insert, E. case_decide; [done|].
    intros Hp. specialize (Hl p Hp). simpl in Hl. lia.
Qed.

(** Dropping the last reference leaves the references of the object to be
    dropped in turn. *)
Lemma well_counted_last R m o x :
  well_counted (o :: R) m → m !! o = Some x → o_refc x = 1 →
  well_counted (refs_of x ++ R) (delete o m).
Proof.
  intros [Hc Hl] Ho Hone.
  assert (occ o R = O ∧ heap_refs m o = O) as [H1 H2].
  { destruct (Hc o x Ho) as (H1 & _). simpl in H1.
    rewrite decide_True in H1 by done. lia. }
  pose proof (λ p, heap_refs_delete m o x p Ho) as E.
  split.
  - intros p y Hp. apply lookup_delete_Some in Hp as [Hne Hp].
    destruct (Hc p y Hp) as (H3 & H4 & H5). simpl in H3.
    rewrite decide_False in H3 by done. rewrite occ_app.
    specialize (E p). repeat split; [lia..|done].
  - intros p Hp. rewrite occ_app. specialize (E p).
    destruct (decide (p = o)) as [->|Hne]; [lia|].
    rewrite lookup_delete_ne in Hp by done. specialize (Hl p Hp). simpl in Hl. lia.
Qed.

(** Taking a new reference. *)
Lemma well_counted_take R m o x :
  well_counted R m → m !! o = Some x →
  well_counted (o :: R) (<[o := with_refc (o_refc x + 1) x]> m).
Proof.
  intros [Hc Hl] Ho.
  assert (∀ p, heap_refs (<[o := with_refc (o_refc x + 1) x]> m) p = heap_refs m p) as E.
  { intros p. by apply heap_refs_insert_same with x. }
  split.
  - intros p y. rewrite lookup_insert, E. simpl. case_decide.
    + intros [= <-]. subst p. destruct (Hc o x Ho) as (H1 & H2 & H3).
      simpl. repeat split; [lia..|done].
    + intros Hp. by apply Hc.
  - intros p. rewrite lookup_insert, E. simpl. case_decide; [done|].
    intros Hp. specialize (Hl p Hp). lia.
Qed.

(** Allocating an object that holds no reference. *)
Lemma well_counted_alloc R m o x :
  well_counted R m → m !! o = None → refs_of x = [] → o_refc x = 1 → del_ok x →
  well_counted (o :: R) (<[o := x]> m).
Proof.
  intros [Hc Hl] Ho Hr H1 Hd.
  assert (∀ p, heap_refs (<[o := x]> m) p = heap_refs m p) as E.
  { intros p. by rewrite heap_refs_insert_None, Hr. }
  split.
  - intros p y. rewrite lookup_insert, E. simpl. case_decide.
    + intros [= <-]. subst p. specialize (Hl o Ho). repeat split; [lia..|done].
    + intros Hp. by apply Hc.
  - intros p. rewrite lookup_insert, E. simpl. case_decide; [done|].
    intros Hp. specialize (Hl p Hp). lia.
Qed.

Lemma well_counted_perm R R' m :
  (∀ o, occ o R = occ o R') → well_counted R m → well_counted R' m.
Proof.
  intros HR [Hc Hl]. split.
  - intros o x. rewrite <- HR. apply Hc.
  - intros o. rewrite <- HR. apply Hl.
Qed.

(** A referenced object is there. *)
Lemma well_counted_root R m o :
  well_counted R m → o ∈ R → ∃ x, m !! o = Some x ∧ 0 < o_refc x.
Proof.
  intros [Hc Hl] Ho%occ_elem. destruct (m !! o) as [x|] eqn:E.
  - exists x. split; [done|]. by apply Hc in E as (_ & ? & _).
  - specialize (Hl o E). lia.
Qed.

(** ** Destruction *)

(** The objects that are not being destroyed. *)
Definition live (D : list loc) (m : gmap loc b6b_obj) : gmap loc b6b_obj :=
  foldr delete m D.

(** [m'] has no object that [m] has not, and its objects differ from those of
    [m] in their count only. *)
Definition shrinks (m m' : gmap loc b6b_obj) : Prop :=
  ∀ o x', m' !! o = Some x' →
    ∃ x, m !! o = Some x ∧ x' = with_refc (o_refc x') x.

Lemma shrinks_refl m : shrinks m m.
Proof. intros o [] H. eexists. split; [exact H|done]. Qed.

Lemma shrinks_trans m1 m2 m3 : shrinks m1 m2 → shrinks m2 m3 → shrinks m1 m3.
Proof.
  intros H1 H2 o x3 H. apply H2 in H as (x2 & H & E2).
  apply H1 in H as (x1 & H & E1). exists x1. split; [done|].
  rewrite E2, E1. done.
Qed.

Lemma shrinks_with_refc m o x r :
  m !! o = Some x → shrinks m (<[o := with_refc r x]> m).
Proof.
  intros Ho p y. rewrite lookup_insert. case_decide as Hp.
  - intros [= <-]. subst p. by exists x.
  - intros H. by apply shrinks_refl.
Qed.

Lemma shrinks_delete m o : shrinks m (delete o m).
Proof.
  intros p y [_ Hp]%lookup_delete_Some. by apply shrinks_refl.
Qed.

Lemma live_lookup D m o : o ∉ D → live D m !! o = m !! o.
Proof. apply lookup_foldr_delete_not_elem_of. Qed.

Lemma live_Some D m o x : live D m !! o = Some x → o ∉ D ∧ m !! o = Some x.
Proof.
  intros H. destruct (decide (o ∈ D)) as [Hin|Hin].
  - unfold live in H. by rewrite lookup_foldr_delete in H.
  - by rewrite live_lookup in H.
Qed.

Lemma live_insert D m o x : o ∉ D → live D (<[o := x]> m) = <[o := x]> (live D m).
Proof. apply foldr_delete_insert_notin. Qed.

Lemma live_insert_dead D m o x : o ∈ D → live D (<[o := x]> m) = live D m.
Proof. apply foldr_delete_insert_in. Qed.

Lemma live_delete D m o : live D (delete o m) = delete o (live D m).
Proof.
  induction D as [|d D IH]; [done|]. unfold live in *. simpl. rewrite IH.
  apply delete_delete.
Qed.

Lemma live_shrinks D m m' : shrinks m m' → shrinks (live D m) (live D m').
Proof.
  intros H o x' [Hin Ho]%live_Some. apply H in Ho as (x & Ho & E).
  exists x. by rewrite live_lookup.
Qed.

Lemma shrinks_size m m' : shrinks m m' → (size m' ≤ size m)%nat.
Proof.
  intros H. rewrite <- !size_dom. apply subseteq_size. intros o Ho.
  apply elem_of_dom in Ho as [x' Ho]. apply H in Ho as (x & Ho & _).
  apply elem_of_dom. by exists x.
Qed.

(** What dropping references leaves: the references [R] remain, the objects in
    [D], which are being destroyed further up the call chain, are untouched,
    and nothing else than counts changes. *)
Definition dropped (D R : list loc) (h h' : heap) : Prop :=
  well_counted R (live D (objs h')) ∧ next h' = next h ∧
  (∀ d, d ∈ D → objs h' !! d = objs h !! d) ∧ shrinks (objs h) (objs h').

Lemma dropped_trans D R R' h1 h2 h3 :
  dropped D R h1 h2 → dropped D R' h2 h3 → dropped D R' h1 h3.
Proof.
  intros (_ & N1 & D1 & S1) (W2 & N2 & D2 & S2). split_and!; [done|congruence| |].
  - intros d Hd. by rewrite D2, D1.
  - by eapply shrinks_trans.
Qed.

Definition unref_ok (n : nat) (unref : loc → HM unit) : Prop :=
  ∀ D R o h, (size (live D (objs h)) < n)%nat →
    well_counted (o :: R) (live D (objs h)) →
    ∃ h', unref o h = Done (tt, h') ∧ dropped D R h h'.

Lemma miter_unref_ok n unref l D R h :
  unref_ok n unref → (size (live D (objs h)) < n)%nat →
  well_counted (l ++ R) (live D (objs h)) →
  ∃ h', miter unref l h = Done (tt, h') ∧ dropped D R h h'.
Proof.
  intros Hun. revert h. induction l as [|o l IH]; intros h Hn Hwc.
  { exists h. split; [done|]. split_and!; [done..|apply shrinks_refl]. }
  destruct (Hun D (l ++ R) o h Hn Hwc) as (h1 & E1 & Hd).
  pose proof Hd as (W1 & _ & _ & S1).
  destruct (IH h1) as (h2 & E2 & Hd2); [|done|].
  { apply (live_shrinks D), shrinks_size in S1. lia. }
  exists h2. split; [|by eapply dropped_trans]. simpl. by rewrite (bind_eq _ _ _ _ _ E1).
Qed.

Lemma miter_fmap {S A B} (f : B → M S unit) (g : A → B) l s :
  miter f (g <$> l) s = miter (λ x, f (g x)) l s.
Proof.
  revert s. induction l as [|x l IH]; intros s; [done|]. simpl.
  unfold mbind, M_bind. destruct (f (g x) s) as [[? s']| |]; [apply IH|done..].
Qed.

(** The system calls of a destructor. *)
Definition del_calls (x : b6b_obj) : list call :=
  match o_del x, o_priv x with
  | D_strm, V_strm s => if strm_closed s then [] else close_calls s
  | D_poll, V_num fd => [C_close fd]
  | D_pid, V_num pid => if pid =? 0 then [] else [C_waitpid pid]
  | D_so, V_num h => [C_dlclose h]
  | _, _ => []
  end.

(** The heap after calls were noted. *)
Definition noted (cs : list call) (h : heap) : heap :=
  mkHeap (objs h) (next h) (os_note cs (h_os h)).

Lemma noted_nil h : noted [] h = h.
Proof. by destruct h as [? ? []]. Qed.

(** A destructor makes its calls and then drops its references. *)
Lemma call_del_refs unref x h :
  del_ok x → call_del unref x h = miter unref (priv_refs x) (noted (del_calls x) h).
Proof.
  unfold del_ok, del_fits, call_del, b6b_proc_del, b6b_strm_del, b6b_pid_del, priv_refs, del_calls.
  destruct (o_del x), (o_priv x); try done; intros _; rewrite ?noted_nil; try done.
  - simpl. unfold mbind, M_bind. destruct (unref _ h) as [[[] h']| |]; [|done..].
    by destruct (unref _ h') as [[[] h'']| |].
  - simpl. unfold mbind, M_bind. by destruct (unref _ h) as [[[] h']| |].
  - destruct (strm_closed s); [by rewrite noted_nil|done].
  - destruct (_ =? 0); [by rewrite noted_nil|done].
Qed.

Lemma read_obj_eq o x h : objs h !! o = Some x → read_obj o h = Done (x, h).
Proof. unfold read_obj. by intros ->. Qed.

Lemma update_obj_eq o x f h :
  objs h !! o = Some x →
  update_obj o f h = Done (tt, mkHeap (<[o := f x]> (objs h)) (next h) (h_os h)).
Proof.
  intros E. unfold update_obj. rewrite (bind_eq _ _ _ _ _ (read_obj_eq _ _ _ E)).
  unfold write_obj. by rewrite E.
Qed.

Lemma free_obj_eq o x h :
  objs h !! o = Some x →
  free_obj o h = Done (tt, mkHeap (delete o (objs h)) (next h) (h_os h)).
Proof. unfold free_obj. by intros ->. Qed.

(** Destroying an object whose references are [refs_of x ++ R] in the rest of
    the heap. *)
Lemma destroy_ok n unref o x D R h :
  unref_ok n unref → o ∉ D → objs h !! o = Some x → del_ok x →
  (size (live (o :: D) (objs h)) < n)%nat →
  well_counted (refs_of x ++ R) (live (o :: D) (objs h)) →
  ∃ h', b6b_destroy_with unref o h = Done (tt, h') ∧ dropped D R h h'.
Proof.
  intros Hun HoD Ho Hdel Hn Hwc. unfold refs_of in Hwc. rewrite <- app_assoc in Hwc.
  (* the list items *)
  assert (∃ h1, (if f_list (o_flags x) then b6b_destroy_l_with unref o else mret tt) h
      = Done (tt, h1) ∧ well_counted (priv_refs x ++ R) (live (o :: D) (objs h1)) ∧
      next h1 = next h ∧ (∀ d, d ∈ D → objs h1 !! d = objs h !! d) ∧
      is_Some (objs h1 !! o) ∧ shrinks (objs h) (delete o (objs h1)))
    as (h1 & E1 & W1 & N1 & D1 & O1 & S1).
  { unfold list_refs in Hwc. destruct (f_list (o_flags x)).
    - destruct (miter_unref_ok n unref (li_o <$> o_l x) (o :: D) (priv_refs x ++ R) h)
        as (h1 & E1 & W1 & N1 & D1 & S1); [done..|].
      pose proof (D1 o ltac:(left)) as O1. rewrite Ho in O1.
      eexists. split; [|split_and!].
      + unfold b6b_destroy_l_with. rewrite (bind_eq _ _ _ _ _ (read_obj_eq _ _ _ Ho)).
        by rewrite miter_fmap in E1.
      + done.
      + done.
      + intros d Hd. apply D1. by right.
      + by eexists.
      + eapply shrinks_trans; [exact S1|apply shrinks_delete].
    - exists h. split_and!; try done; apply shrinks_delete. }
  (* the private data *)
  assert (size (live (o :: D) (objs h1)) ≤ size (live (o :: D) (objs h)))%nat as Hn1.
  { apply shrinks_size. apply (live_shrinks (o :: D)) in S1.
    rewrite live_delete in S1. simpl in S1 |- *. by rewrite delete_delete_eq in S1. }
  destruct (miter_unref_ok n unref (priv_refs x) (o :: D) R (noted (del_calls x) h1))
    as (h2 & E2 & W2 & N2 & D2 & S2); [done|simpl in *; lia|done|].
  simpl in N2, D2, S2.
  pose proof (D2 o ltac:(left)) as O2. destruct O1 as [x1 O1]. rewrite O1 in O2.
  eexists. split.
  - unfold b6b_destroy_with. rewrite (bind_eq _ _ _ _ _ (read_obj_eq _ _ _ Ho)).
    rewrite (bind_eq _ _ _ _ _ E1).
    rewrite <- (call_del_refs unref x h1 Hdel) in E2. rewrite (bind_eq _ _ _ _ _ E2).
    by apply free_obj_eq with x1.
  - split_and!; simpl.
    + rewrite live_delete. exact W2.
    + congruence.
    + intros d Hd. rewrite lookup_delete_ne by congruence.
      rewrite D2 by (by right). by apply D1.
    + eapply shrinks_trans; [exact S1|]. intros p y [Hne Hp]%lookup_delete_Some.
      apply S2 in Hp as (y1 & Hp & E). exists y1. by rewrite lookup_delete_ne.
Qed.

Lemma unref_fuel_ok n : unref_ok n (b6b_unref_fuel n).
Proof.
  induction n as [|n IH]; intros D R o h Hn Hwc; [lia|].
  destruct (well_counted_root _ _ o Hwc ltac:(left)) as (x & [HoD Ho]%live_Some & Hpos).
  pose proof Ho as Hl. rewrite <- (live_lookup D) in Hl by done.
  simpl. rewrite (bind_eq _ _ _ _ _ (read_obj_eq _ _ _ Ho)).
  rewrite (proj2 (Z.leb_gt _ _)) by lia.
  rewrite (bind_eq _ _ _ _ _ (update_obj_eq _ _ _ _ Ho)).
  destruct (decide (o_refc x = 1)) as [Hone|Hone].
  - rewrite (proj2 (Z.eqb_eq _ _)) by lia.
    pose proof (wc_refc _ _ Hwc _ _ Hl) as (_ & _ & Hdel).
    apply well_counted_last with (x := x) in Hwc; [|done..].
    set (h1 := mkHeap _ _ _).
    assert (live (o :: D) (objs h1) = delete o (live D (objs h))) as El.
    { simpl. by rewrite live_insert, delete_insert_eq. }
    destruct (destroy_ok n (b6b_unref_fuel n) o (with_refc (o_refc x - 1) x) D R h1)
      as (h2 & E2 & W2 & N2 & D2 & S2); [done..|apply lookup_insert_eq|done| |by rewrite El|].
    { rewrite El, map_size_delete_Some by (by eexists).
      assert (size (live D (objs h)) ≠ O); [|lia].
      apply map_size_ne_0_lookup. exists o. by eexists. }
    exists h2. split; [done|]. split_and!; [done..| |].
    + intros d Hd. rewrite D2 by done. simpl. by rewrite lookup_insert_ne by congruence.
    + eapply shrinks_trans; [|exact S2]. by apply shrinks_with_refc.
  - rewrite (proj2 (Z.eqb_neq _ _)) by lia.
    eexists. split; [done|]. split_and!; simpl.
    + rewrite live_insert by done. by apply well_counted_drop.
    + done.
    + intros d Hd. by rewrite lookup_insert_ne by congruence.
    + by apply shrinks_with_refc.
Qed.

(** ** Dropping references leaves the rest of the heap alone *)

Definition only_shrinks (f : loc → HM unit) : Prop :=
  ∀ o h h', f o h = Done (tt, h') → shrinks (objs h) (objs h').

Lemma miter_only_shrinks f l h h' :
  only_shrinks f → miter f l h = Done (tt, h') → shrinks (objs h) (objs h').
Proof.
  intros Hf. revert h. induction l as [|o l IH]; intros h Hr; simpl in *.
  { injection Hr as <-. apply shrinks_refl. }
  apply bind_Done in Hr as ([] & h1 & H1 & H2).
  eapply shrinks_trans; [by eapply Hf|by apply IH].
Qed.

Lemma read_obj_inv o h x h' : read_obj o h = Done (x, h') → h' = h ∧ objs h !! o = Some x.
Proof. unfold read_obj. destruct (objs h !! o); naive_solver. Qed.

Lemma update_obj_inv o f h r :
  update_obj o f h = Done r →
  ∃ x, objs h !! o = Some x ∧ r = (tt, mkHeap (<[o := f x]> (objs h)) (next h) (h_os h)).
Proof.
  unfold update_obj. intros H. apply bind_Done in H as (x & h1 & H1 & H).
  apply read_obj_inv in H1 as [-> Hx]. unfold write_obj in H. rewrite Hx in H.
  exists x. split; [done|congruence].
Qed.

(** The references are dropped in the order of [refs_of], with the calls of
    the destructor between those of the list and those of the private data. *)
Definition drop_all (unref : loc → HM unit) (x : b6b_obj) : HM unit :=
  miter unref (list_refs x);; sys_note (del_calls x);; miter unref (priv_refs x).

Lemma destroy_with_eq unref o x h :
  objs h !! o = Some x → del_ok x →
  b6b_destroy_with unref o h = (drop_all unref x ;; free_obj o) h.
Proof.
  intros Hx Hd. unfold b6b_destroy_with, drop_all, list_refs.
  rewrite (bind_eq _ _ _ _ _ (read_obj_eq _ _ _ Hx)).
  assert ((if f_list (o_flags x) then b6b_destroy_l_with unref o else mret tt) h =
    miter unref (if f_list (o_flags x) then li_o <$> o_l x else []) h) as Hl.
  { destruct (f_list (o_flags x)); [|done]. unfold b6b_destroy_l_with.
    by rewrite (bind_eq _ _ _ _ _ (read_obj_eq _ _ _ Hx)), <- miter_fmap. }
  rewrite bind_assoc. unfold mbind at 1 3, M_bind at 1 3. rewrite Hl.
  destruct (miter unref _ h) as [[[] h1]| |]; [|done..].
  rewrite bind_assoc. unfold mbind at 1 2, M_bind at 1 2. simpl.
  rewrite (call_del_refs unref x h1 Hd). unfold noted, mbind, M_bind.
  by destruct (miter unref (priv_refs x) _) as [[[] h2]| |].
Qed.

Lemma unref_fuel_only_shrinks n : only_shrinks (b6b_unref_fuel n).
Proof.
  induction n as [|n IH]; intros o h h' H; [done|]. simpl in H.
  apply bind_Done in H as (x & h1 & H1 & H). apply read_obj_inv in H1 as [-> Hx].
  destruct (o_refc x <=? 0); [done|].
  apply bind_Done in H as ([] & h1 & H1 & H).
  apply update_obj_inv in H1 as (x2 & Hx2 & Heq). rewrite Hx in Hx2.
  injection Hx2 as <-. injection Heq as ->.
  eapply shrinks_trans; [by apply shrinks_with_refc|].
  destruct (_ =? 0); [|injection H as <-; apply shrinks_refl].
  unfold b6b_destroy_with in H. apply bind_Done in H as (y & h1 & H1 & H).
  apply read_obj_inv in H1 as [-> Hy].
  apply bind_Done in H as ([] & h1 & H1 & H). apply bind_Done in H as ([] & h2 & H2 & H).
  eapply (shrinks_trans _ (objs h1)); [|eapply (shrinks_trans _ (objs h2))].
  - destruct (f_list _); [|injection H1 as <-; apply shrinks_refl].
    unfold b6b_destroy_l_with in H1. apply bind_Done in H1 as (z & h3 & H3 & H1).
    apply read_obj_inv in H3 as [-> _]. rewrite <- miter_fmap in H1.
    exact (miter_only_shrinks _ _ _ _ IH H1).
  - destruct (decide (del_ok y)) as [Hd|Hd].
    + rewrite call_del_refs in H2 by done. exact (miter_only_shrinks _ _ _ _ IH H2).
    + unfold del_ok, del_fits, call_del in *. by destruct (o_del y), (o_priv y).
  - unfold free_obj in H. destruct (objs h2 !! o); [|done].
    injection H as <-. apply shrinks_delete.
Qed.

Lemma drop_all_shrinks unref x h h' :
  only_shrinks unref → drop_all unref x h = Done (tt, h') → shrinks (objs h) (objs h').
Proof.
  unfold drop_all. intros Hu H. apply bind_Done in H as ([] & h1 & H1 & H).
  apply bind_Done in H as ([] & h2 & [= <-] & H).
  eapply shrinks_trans; [exact (miter_only_shrinks _ _ _ _ Hu H1)|].
  exact (miter_only_shrinks _ _ _ _ Hu H).
Qed.

Lemma unref_only_shrinks : only_shrinks b6b_unref.
Proof. intros o h. apply unref_fuel_only_shrinks. Qed.

Lemma destroy_del_ok unref o h h' x :
  b6b_destroy_with unref o h = Done (tt, h') → objs h !! o = Some x → del_ok x.
Proof.
  intros H Hx. unfold b6b_destroy_with in H.
  rewrite (bind_eq _ _ _ _ _ (read_obj_eq _ _ _ Hx)) in H.
  apply bind_Done in H as ([] & h1 & _ & H). apply bind_Done in H as ([] & h2 & H & _).
  unfold del_ok, del_fits, call_del in *. by destruct (o_del x), (o_priv x).
Qed.

(** The same heap, but for the nodes of the list [d]. *)
Definition same_but_list (d : loc) (l : list b6b_litem) (h1 h2 : heap) : Prop :=
  ∃ x, objs h1 !! d = Some x ∧
    h2 = mkHeap (<[d := with_l l x]> (objs h1)) (next h1) (h_os h1).

Definition frames_list (f : loc → HM unit) : Prop :=
  ∀ d l o h1 h2 h1', same_but_list d l h1 h2 → f o h1 = Done (tt, h1') →
    is_Some (objs h1' !! d) → ∃ h2', f o h2 = Done (tt, h2') ∧ same_but_list d l h1' h2'.

Lemma miter_frames_list f d l os h1 h2 h1' :
  only_shrinks f → frames_list f →
  same_but_list d l h1 h2 → miter f os h1 = Done (tt, h1') →
  is_Some (objs h1' !! d) →
  ∃ h2', miter f os h2 = Done (tt, h2') ∧ same_but_list d l h1' h2'.
Proof.
  intros Hsh Hf. revert h1 h2. induction os as [|o os IH]; intros h1 h2 Hs Hr Hd; simpl in *.
  { injection Hr as <-. by exists h2. }
  apply bind_Done in Hr as ([] & h3 & H3 & Hr).
  assert (is_Some (objs h3 !! d)) as Hd3.
  { destruct Hd as [x Hd]. apply (miter_only_shrinks _ _ _ _ Hsh Hr) in Hd as (? & ? & _).
    by eexists. }
  destruct (Hf d l o h1 h2 h3 Hs H3 Hd3) as (h4 & H4 & Hs4).
  destruct (IH h3 h4 Hs4 Hr Hd) as (h5 & H5 & Hs5).
  exists h5. by rewrite (bind_eq _ _ _ _ _ H4).
Qed.

Lemma drop_all_frames_list f x d l h1 h2 h1' :
  only_shrinks f → frames_list f →
  same_but_list d l h1 h2 → drop_all f x h1 = Done (tt, h1') →
  is_Some (objs h1' !! d) →
  ∃ h2', drop_all f x h2 = Done (tt, h2') ∧ same_but_list d l h1' h2'.
Proof.
  intros Hsh Hf Hs H Hd. unfold drop_all in *.
  apply bind_Done in H as ([] & h3 & H3 & H). apply bind_Done in H as ([] & h4 & H4 & H).
  injection H4 as <-.
  assert (is_Some (objs h3 !! d)) as Hd3.
  { destruct Hd as [y Hd]. apply (miter_only_shrinks _ _ _ _ Hsh H) in Hd as (? & ? & _).
    by eexists. }
  destruct (miter_frames_list _ _ _ _ _ _ _ Hsh Hf Hs H3 Hd3) as (h5 & H5 & (xd & Hxd & ->)).
  destruct (miter_frames_list f d l (priv_refs x) (noted (del_calls x) h3)
    (noted (del_calls x) (mkHeap (<[d := with_l l xd]> (objs h3)) (next h3) (h_os h3))) h1')
    as (h6 & H6 & Hs6); [done|done|by exists xd|done|done|].
  exists h6. rewrite (bind_eq _ _ _ _ _ H5). split; [exact H6|exact Hs6].
Qed.

(** The objects that a change of the nodes of [d] leaves, and that it commutes
    with a change of a count. *)
Lemma same_but_list_lookup d l o h xd x r :
  objs h !! d = Some xd → objs h !! o = Some x →
  let h' := mkHeap (<[d := with_l l xd]> (objs h)) (next h) (h_os h) in
  ∃ x', objs h' !! o = Some x' ∧ o_refc x' = o_refc x ∧
    same_but_list d l
      (mkHeap (<[o := with_refc r x]> (objs h)) (next h) (h_os h))
      (mkHeap (<[o := with_refc r x']> (objs h')) (next h) (h_os h)) ∧
    (o ≠ d → x' = x).
Proof.
  intros Hxd Hx h'. subst h'. cbn [objs]. rewrite lookup_insert. case_decide as Hod.
  - subst o. rewrite Hxd in Hx. injection Hx as <-.
    eexists. split_and!; [done|done| |done].
    eexists. simpl. rewrite lookup_insert_eq. split; [done|].
    by rewrite !insert_insert_eq.
  - exists x. split_and!; [done|done| |done]. exists xd. simpl.
    rewrite lookup_insert_ne by done. split; [done|].
    by rewrite insert_insert_ne by done.
Qed.

(** A destruction that goes through had a destructor that fits its data. *)
Lemma destroyed_del_ok f o x h h' :
  objs h !! o = Some x → b6b_destroy_with f o h = Done (tt, h') → del_ok x.
Proof.
  intros Hx H. destruct (decide (del_ok x)) as [|Hdel]; [done|exfalso].
  unfold b6b_destroy_with in H. apply bind_Done in H as (y & h3 & H3 & H).
  apply read_obj_inv in H3 as [-> Hy]. rewrite Hx in Hy. injection Hy as <-.
  apply bind_Done in H as ([] & h3 & H3 & H). apply bind_Done in H as ([] & h4 & H4 & H).
  unfold del_ok, del_fits, call_del in *. by destruct (o_del x), (o_priv x).
Qed.

(** [b6b_unref] does not look at the nodes of a list that survives it. *)
Lemma unref_fuel_frames_list n : frames_list (b6b_unref_fuel n).
Proof.
  induction n as [|n IH]; intros d l o h1 h2 h1' (xd & Hxd & ->) H Hd; [done|].
  simpl in H |- *. apply bind_Done in H as (x & h3 & H3 & H).
  apply read_obj_inv in H3 as [-> Hx].
  destruct (o_refc x <=? 0) eqn:Epos; [done|].
  apply bind_Done in H as ([] & h3 & H3 & H).
  apply update_obj_inv in H3 as (x2 & Hx2 & Heq). rewrite Hx in Hx2.
  injection Hx2 as <-. injection Heq as ->.
  destruct (same_but_list_lookup d l o h1 xd x (o_refc x - 1) Hxd Hx)
    as (x' & Hx' & Hr' & Hs & Hne).
  cbn [objs] in Hx', Hs. set (m2 := <[d := with_l l xd]> (objs h1)) in *.
  rewrite (bind_eq _ _ _ x' (mkHeap m2 (next h1) (h_os h1)) (read_obj_eq o x' (mkHeap m2 (next h1) (h_os h1)) Hx')).
  rewrite Hr', Epos.
  rewrite (bind_eq _ _ _ _ _ (update_obj_eq o x' _ (mkHeap m2 (next h1) (h_os h1)) Hx')). simpl.
  destruct (o_refc x - 1 =? 0) eqn:Ez; [|injection H as <-; by eexists].
  assert (del_ok (with_refc (o_refc x - 1) x)) as Hdel
    by (eapply destroyed_del_ok; [|exact H]; apply lookup_insert_eq).
  rewrite (destroy_with_eq _ o (with_refc (o_refc x - 1) x)) in H
    by (done || apply lookup_insert_eq).
  apply bind_Done in H as ([] & h3 & H3 & H). unfold free_obj in H.
  destruct (objs h3 !! o) as [x3|] eqn:Ex3; [|done]. injection H as <-. simpl in Hd.
  destruct (decide (o = d)) as [->|Hod].
  { rewrite lookup_delete_eq in Hd. by destruct Hd. }
  rewrite lookup_delete_ne in Hd by done. rewrite (Hne Hod) in *.
  destruct (drop_all_frames_list _ _ _ _ _ _ _ (unref_fuel_only_shrinks n) IH Hs H3 Hd)
    as (h4 & H4 & (xd' & Hxd' & ->)).
  rewrite (destroy_with_eq _ o (with_refc (o_refc x - 1) x)) by (done || apply lookup_insert_eq).
  rewrite (bind_eq _ _ _ _ _ H4). unfold free_obj. simpl.
  rewrite lookup_insert_ne, Ex3 by done. eexists. split; [done|].
  exists xd'. simpl. rewrite lookup_delete_ne by done. split; [done|].
  by rewrite delete_insert_ne by done.
Qed.

Lemma unref_frames_list : frames_list b6b_unref.
Proof.
  intros d l o h1 h2 h1' Hs H Hd. unfold b6b_unref in *.
  destruct (unref_fuel_frames_list _ d l o h1 h2 h1' Hs H Hd) as (h2' & H2 & Hs').
  exists h2'. split; [|done]. destruct Hs as (x & Hx & ->). cbn [objs].
  by rewrite map_size_insert_Some by (by eexists).
Qed.

(** ** A checker for closed heaps *)

Definition wc_check (R : list loc) (m : gmap loc b6b_obj) : bool :=
  let kvs := map_to_list m in
  forallb (λ kv,
    bool_decide (o_refc kv.2 = Z.of_nat (occ kv.1 R + heap_refs m kv.1))
    && (0 <? o_refc kv.2)
    && del_fits kv.2) kvs
  && forallb (λ o, bool_decide (is_Some (m !! o))) (R ++ concat (refs_of ∘ snd <$> kvs)).

Lemma heap_refs_pos m o :
  (0 < heap_refs m o)%nat → ∃ p x, m !! p = Some x ∧ o ∈ refs_of x.
Proof.
  induction m as [|p x m Hp IH] using map_ind.
  { unfold heap_refs. rewrite map_fold_empty. lia. }
  rewrite heap_refs_insert_None by done. intros Hpos.
  destruct (decide (o ∈ refs_of x)) as [Hin|Hin].
  - exists p, x. by rewrite lookup_insert_eq.
  - assert (occ o (refs_of x) = O) as E.
    { rewrite occ_elem in Hin. lia. }
    destruct IH as (q & y & Hq & Hy); [lia|].
    exists q, y. rewrite lookup_insert_ne by naive_solver. done.
Qed.

Lemma wc_check_sound R m : wc_check R m = true → well_counted R m.
Proof.
  unfold wc_check. rewrite andb_true_iff, !forallb_forall. intros [H1 H2].
  assert (∀ o, o ∈ R ∨ (∃ p x, m !! p = Some x ∧ o ∈ refs_of x) → is_Some (m !! o)) as Hl.
  { intros o Ho. apply (bool_decide_unpack _). rewrite (H2 o); [done|].
    apply list_elem_of_In, elem_of_app. destruct Ho as [|(p & x & Hp & Ho)]; [by left|right].
    apply list_elem_of_In, in_concat. exists (refs_of x). rewrite <- !list_elem_of_In.
    split; [|done]. apply list_elem_of_fmap. exists (p, x). split; [done|].
    by apply elem_of_map_to_list. }
  split.
  - intros o x Ho. specialize (H1 (o, x)). simpl in H1.
    rewrite !andb_true_iff, bool_decide_eq_true, Z.ltb_lt in H1.
    destruct H1 as [[H3 H4] H5]; [by apply list_elem_of_In, elem_of_map_to_list|].
    by split_and!.
  - intros o Ho.
    destruct (decide (0 < occ o R)%nat) as [H3%occ_elem|H3].
    { destruct (Hl o) as [? ?]; [by left|congruence]. }
    destruct (decide (0 < heap_refs m o)%nat) as [H4%heap_refs_pos|H4]; [|lia].
    destruct (Hl o) as [? ?]; [by right|congruence].
Qed.

(** ** [b6b_unref] on a well-counted heap *)

Lemma unref_total R o h :
  well_counted (o :: R) (objs h) →
  ∃ h', b6b_unref o h = Done (tt, h') ∧ well_counted R (objs h') ∧
    next h' = next h ∧ shrinks (objs h) (objs h').
Proof.
  intros Hwc. destruct (unref_fuel_ok (S (size (objs h))) [] R o h)
    as (h' & E & W & N & _ & S1); [simpl; lia|done|].
  by exists h'.
Qed.

(** The objects an object refers to are there. *)
Lemma well_counted_closed R m o x p :
  well_counted R m → m !! o = Some x → p ∈ refs_of x → is_Some (m !! p).
Proof.
  intros Hwc Ho Hp%occ_elem. destruct (m !! p) eqn:E; [done|].
  pose proof (wc_live _ _ Hwc p E) as H. rewrite (heap_refs_delete m o x p Ho) in H. lia.
Qed.

(** References of the program become references of the object at [l]. *)
Lemma well_counted_give R m os l x x' :
  well_counted (os ++ R) m → m !! l = Some x →
  (∀ p, occ p (refs_of x') = (occ p os + occ p (refs_of x))%nat) →
  o_refc x' = o_refc x → del_ok x' →
  well_counted R (<[l := x']> m).
Proof.
  intros [Hc Hl] Hx Hr Hcnt Hdel.
  assert (∀ p, (occ p R + heap_refs (<[l := x']> m) p = occ p (os ++ R) + heap_refs m p)%nat) as E.
  { intros p. pose proof (heap_refs_insert m l x x' p Hx) as E. rewrite Hr in E.
    rewrite occ_app. lia. }
  split.
  - intros p y. rewrite lookup_insert, E. case_decide; [|by apply Hc].
    intros [= <-]. subst p. rewrite Hcnt. destruct (Hc l x Hx) as (H1 & H2 & _). done.
  - intros p. rewrite lookup_insert, E. case_decide; [done|apply Hl].
Qed.

Lemma well_counted_put R m o l x x' :
  well_counted (o :: R) m → m !! l = Some x →
  (∀ p, occ p (refs_of x') = (occ p [o] + occ p (refs_of x))%nat) →
  o_refc x' = o_refc x → del_ok x' →
  well_counted R (<[l := x']> m).
Proof. exact (well_counted_give R m [o] l x x'). Qed.

(** ... and back. *)
Lemma well_counted_get R m o l x x' :
  well_counted R m → m !! l = Some x →
  (∀ p, occ p (refs_of x) = (occ p [o] + occ p (refs_of x'))%nat) →
  o_refc x' = o_refc x → del_ok x' →
  well_counted (o :: R) (<[l := x']> m).
Proof.
  intros [Hc Hl] Hx Hr Hcnt Hdel.
  assert (∀ p, (occ p (o :: R) + heap_refs (<[l := x']> m) p = occ p R + heap_refs m p)%nat) as E.
  { intros p. pose proof (heap_refs_insert m l x x' p Hx) as E. rewrite Hr in E.
    simpl in E |- *. lia. }
  split.
  - intros p y. rewrite lookup_insert, E. case_decide; [|by apply Hc].
    intros [= <-]. subst p. rewrite Hcnt. destruct (Hc l x Hx) as (H1 & H2 & _). done.
  - intros p. rewrite lookup_insert, E. case_decide; [done|apply Hl].
Qed.

Lemma ref_eq o x h :
  objs h !! o = Some x → 0 ≤ o_refc x →
  b6b_ref o h = Done (o, mkHeap (<[o := with_refc (o_refc x + 1) x]> (objs h)) (next h) (h_os h)).
Proof.
  intros Hx Hr. unfold b6b_ref. rewrite (bind_eq _ _ _ _ _ (read_obj_eq _ _ _ Hx)).
  rewrite (proj2 (Z.ltb_ge _ _)) by lia.
  by rewrite (bind_eq _ _ _ _ _ (update_obj_eq _ _ _ _ Hx)).
Qed.

(** A list (at 0) that holds a string (at 1) twice, while the program refers to
    both; and the same list alone. *)
Definition sample_heap (outside : Z) : heap :=
  mkHeap {[ 0%N := with_flags (set_list true) (with_l [mkItem 2 1; mkItem 3 1] new_obj);
            1%N := with_refc (2 + outside)
                     (with_flags (set_str true) (with_s (lit "x") new_obj)) ]} 4 no_os.

(** ** Properties *)

(** C9: dropping a reference the program holds never touches freed memory and
    always finishes; the heap stays well counted for the references that are
    left, and no object changes otherwise. *)
Theorem b6b_unref_safe R o h :
  well_counted (o :: R) (objs h) →
  ∃ h', b6b_unref o h = Done (tt, h') ∧ well_counted R (objs h') ∧
    next h' = next h ∧ shrinks (objs h) (objs h').
Proof. apply unref_total. Qed.

(** C30: an object the program still refers to survives any [b6b_unref], with all
    its fields but the count. *)
Theorem b6b_unref_keeps R o h h' p x :
  well_counted (o :: R) (objs h) → b6b_unref o h = Done (tt, h') →
  p ∈ R → objs h !! p = Some x →
  ∃ r, objs h' !! p = Some (with_refc r x) ∧ 0 < r.
Proof.
  intros Hwc E Hp Hx. destruct (unref_total R o h Hwc) as (h2 & E2 & W & _ & S1).
  rewrite E in E2. injection E2 as <-.
  destruct (well_counted_root _ _ _ W Hp) as (x' & Hx' & Hpos).
  destruct (S1 p x' Hx') as (y & Hy & Heq). rewrite Hx in Hy. injection Hy as <-.
  exists (o_refc x'). by rewrite <- Heq.
Qed.

(** C29: no leak: once the program has dropped its last reference, every object
    that is left is referred to by an object that is left, so that only
    reference cycles survive. *)
Theorem b6b_unref_frees o h h' :
  well_counted [o] (objs h) → b6b_unref o h = Done (tt, h') →
  ∀ p x, objs h' !! p = Some x →
    ∃ q y, objs h' !! q = Some y ∧ p ∈ refs_of y.
Proof.
  intros Hwc E p x Hp. destruct (unref_total [] o h Hwc) as (h2 & E2 & W & _ & _).
  rewrite E in E2. injection E2 as <-.
  destruct (wc_refc _ _ W p x Hp) as (H1 & H2 & _). simpl in H1.
  apply heap_refs_pos. lia.
Qed.

Lemma b6b_unref_safe_witness :
  ∃ h', b6b_unref 0%N (sample_heap 1) = Done (tt, h') ∧ well_counted [1%N] (objs h') ∧
    next h' = 4%N ∧ shrinks (objs (sample_heap 1)) (objs h').
Proof.
  apply (b6b_unref_safe [1%N] 0%N (sample_heap 1)).
  apply wc_check_sound. vm_compute. reflexivity.
Defined.

Lemma b6b_unref_keeps_witness :
  ∃ h', b6b_unref 0%N (sample_heap 1) = Done (tt, h') ∧
    ∃ r, objs h' !! 1%N = Some (with_refc r
      (with_flags (set_str true) (with_s (lit "x") (with_refc 3 new_obj)))) ∧ 0 < r.
Proof.
  eexists. split; [vm_compute; reflexivity|].
  apply (b6b_unref_keeps [1%N] 0%N (sample_heap 1)).
  - apply wc_check_sound. vm_compute. reflexivity.
  - vm_compute. reflexivity.
  - apply list_elem_of_here.
  - vm_compute. reflexivity.
Defined.

Lemma b6b_unref_frees_witness :
  ∃ h', b6b_unref 0%N (sample_heap 0) = Done (tt, h') ∧ objs h' = ∅ ∧
    ∀ p x, objs h' !! p = Some x → ∃ q y, objs h' !! q = Some y ∧ p ∈ refs_of y.
Proof.
  eexists. split; [vm_compute; reflexivity|]. split; [vm_compute; reflexivity|].
  apply (b6b_unref_frees 0%N (sample_heap 0)).
  - apply wc_check_sound. vm_compute. reflexivity.
  - vm_compute. reflexivity.
Defined.
