(* ===== verification/Repr.v ===== *)
(** * The representations of an object

    An object has up to four representations (list, string, integer, float) and
    converts between them on demand, caching the result: src/b6b_str.c,
    src/b6b_int.c, src/b6b_float.c, the conversion half of src/b6b_list.c, and
    the comparisons of include/b6b/obj.h and src/b6b_obj.c. *)
From Stdlib Require Import ZArith Lia Init.Byte Strings.Byte Strings.String.
From Stdlib Require Import Floats.SpecFloat.
From stdpp Require Import base option list numbers gmap.
From S2P Require Import Prelude Sys Float64 Hash Parse Heap.
#[local] Open Scope Z_scope.
#[local] Open Scope byte_scope.

(** ** Constructors *)

Definition new_str (s : bytes) : b6b_obj :=
  with_flags (λ _, set_str true no_flags) (with_s s new_obj).
Definition new_int (i : Z) : b6b_obj :=
  with_flags (λ _, set_int true no_flags) (with_i i new_obj).
Definition new_float (f : b6b_float) : b6b_obj :=
  with_flags (λ _, set_float true no_flags) (with_f f new_obj).
Definition new_list : b6b_obj :=
  with_flags (λ _, set_list true no_flags) new_obj.

Definition b6b_str_new (s : bytes) : HM loc :=
  o ← b6b_new;
  update_obj o (with_s s);;
  update_obj o (with_flags (λ _, set_str true no_flags));;
  mret o.

(** [b6b_str_copy(s, len)] copies exactly the [len] bytes it is given. *)
Definition b6b_str_copy (s : bytes) : HM loc := b6b_str_new s.

Definition b6b_int_new (i : Z) : HM loc :=
  o ← b6b_new;
  update_obj o (with_i i);;
  update_obj o (with_flags (λ _, set_int true no_flags));;
  mret o.

Definition b6b_float_new (f : b6b_float) : HM loc :=
  o ← b6b_new;
  update_obj o (with_f f);;
  update_obj o (with_flags (λ _, set_float true no_flags));;
  mret o.

Definition b6b_list_new : HM loc :=
  o ← b6b_new;
  update_obj o (with_l []);;
  update_obj o (with_flags (λ _, set_list true no_flags));;
  mret o.

(** [b6b_list_do_add]: appends a node that refers to [o]. *)
Definition b6b_list_do_add (l o : loc) : HM bool :=
  li ← malloc_item o;
  b6b_ref o;;
  update_obj l (λ x, with_l (o_l x ++ [li]) x);;
  mret true.

(** ** To a string *)

(** The loop that strips trailing zeros of a float, from its last byte
    ([rev s] is given), and the point before them. *)
Fixpoint strip_zeros (r : bytes) : bytes :=
  match r with
  | [] => []
  | c :: r' =>
      if decide (c = "0") then strip_zeros r'
      else if decide (c = ".") then r' else r
  end.

Definition float_text (f : b6b_float) : bytes := rev (strip_zeros (rev (fmt_float f))).

Section as_str.
(** [b6b_as_str], for the items of a list. *)
Variable as_str : loc → HM bool.

(** The loop over the items: the text built so far, or [None] when an item
    has no text. *)
Fixpoint as_str_items (l : list b6b_litem) (acc : option bytes) : HM (option (option bytes)) :=
  match l with
  | [] => mret (Some acc)
  | li :: l' =>
      ok ← as_str (li_o li);
      if negb ok then mret None
      else
        x ← read_obj (li_o li);
        as_str_items l' (Some (append_item acc (o_s x)))
  end.
End as_str.

Definition set_text (o : loc) (s : bytes) : HM unit :=
  update_obj o (λ x, with_flags (set_str true) (with_s s x)).

Fixpoint b6b_as_str_fuel (n : nat) (o : loc) : HM bool :=
  match n with
  | O => oof
  | S n' =>
      x ← read_obj o;
      if f_str (o_flags x) then mret true
      else if f_list (o_flags x) then
        r ← as_str_items (b6b_as_str_fuel n') (o_l x) None;
        match r with
        | None => mret false
        | Some acc => set_text o (default (lit "{}") acc);; mret true
        end
      else if f_float (o_flags x) then
        set_text o (float_text (o_f x));; mret true
      else
        set_text o (fmt_int (o_i x));; mret true
  end.

(** The recursion descends into list items. Its depth is at most the number of
    objects, unless a list contains itself, where the C code does not return
    either. *)
Definition b6b_as_str (o : loc) : HM bool :=
  λ h, b6b_as_str_fuel (S (size (objs h))) o h.

(** The text of an object known to be a string. *)
Definition text (o : loc) : HM bytes := x ← read_obj o; mret (o_s x).

(** ** To a float and to an integer *)

Definition b6b_as_float (o : loc) : HM bool :=
  x ← read_obj o;
  if f_float (o_flags x) then mret true
  else
    let from_text (s : bytes) : HM bool :=
      match s with
      | [] => mret false
      | _ =>
          let '(f, n) := strtod s in
          update_obj o (with_f f);;
          if negb (bool_decide (n = length s)) then mret false
          else update_obj o (with_flags (set_float true));; mret true
      end in
    if f_str (o_flags x) then from_text (o_s x)
    else if f_list (o_flags x) then
      ok ← b6b_as_str o;
      if negb ok then mret false else s ← text o; from_text s
    else
      update_obj o (with_f (f_of_Z (o_i x)));;
      update_obj o (with_flags (set_float true));;
      mret true.

Definition b6b_as_int (o : loc) : HM bool :=
  x ← read_obj o;
  if f_int (o_flags x) then mret true
  else
    ok ← b6b_as_float o;
    if negb ok then mret false
    else
      y ← read_obj o;
      match f_to_int (o_f y) with
      | None => mret false
      | Some i =>
          update_obj o (with_i i);;
          update_obj o (with_flags (set_int true));;
          mret true
      end.

(** ** To a list *)

(** Adds the tokens as new string objects. *)
Fixpoint add_tokens (o : loc) (ts : list bytes) : HM unit :=
  match ts with
  | [] => mret tt
  | t :: ts' =>
      item ← b6b_str_copy t;
      b6b_list_do_add o item;;
      b6b_unref item;;
      add_tokens o ts'
  end.

(** [b6b_do_as_list] on an object: on a syntax error the tokens added so far
    are dropped again. *)
Definition b6b_do_as_list_obj (o : loc) (s : bytes) : HM bool :=
  let '(ts, ok) := b6b_do_as_list s in
  add_tokens o ts;;
  if ok : bool then mret true
  else b6b_destroy_l o;; mret false.

Definition b6b_as_list (o : loc) : HM bool :=
  x ← read_obj o;
  if f_list (o_flags x) then mret true
  else
    ok ← b6b_as_str o;
    if negb ok then mret false
    else
      update_obj o (with_l []);;
      s ← text o;
      ok ← b6b_do_as_list_obj o s;
      if negb ok then mret false
      else update_obj o (with_flags (set_list true));; mret true.

Definition b6b_list_from (s : bytes) : HM (option loc) :=
  o ← b6b_list_new;
  ok ← b6b_do_as_list_obj o s;
  if negb ok then b6b_destroy o;; mret None else mret (Some o).

(** ** Hash, equality, truth *)

Definition b6b_obj_hash (o : loc) : HM bool :=
  x ← read_obj o;
  if f_hashed (o_flags x) then mret true
  else
    ok ← b6b_as_str o;
    if negb ok then mret false
    else
      s ← text o;
      update_obj o (λ y, with_flags (set_hashed true) (with_hash (b6b_hash s) y));;
      mret true.

(** [b6b_obj_eq]: hash, length, then the bytes. *)
Definition b6b_obj_eq (x y : b6b_obj) : bool :=
  (o_hash x =? o_hash y)%Z
  && bool_decide (length (o_s x) = length (o_s y))
  && bool_decide (o_s x = o_s y).

Definition b6b_obj_isnull (x : b6b_obj) : bool :=
  if f_str (o_flags x) then match o_s x with [] => true | _ => false end
  else if f_list (o_flags x) then match o_l x with [] => true | _ => false end
  else false.

Definition f_nonzero (f : b6b_float) : bool := negb (SFeqb f f_zero).

Definition b6b_obj_istrue (x : b6b_obj) : bool :=
  if f_list (o_flags x) then match o_l x with [] => false | _ => true end
  else if f_str (o_flags x) then
    match o_s x with
    | [] => false
    | s =>
        let '(d, n) := strtod s in
        (* *p is the NUL at the end, or one inside the string *)
        match drop n s with
        | c :: _ => if decide (c = x00) then f_nonzero d else true
        | [] => f_nonzero d
        end
    end
  else if f_int (o_flags x) then negb (o_i x =? 0)%Z
  else f_nonzero (o_f x).

(** ** [decode] *)

Section decode.
(** [mbrtowc(NULL, s, len, &ps)] on the remaining bytes, in the locale of the
    process: the number of bytes of the next character, or nothing for the
    results 0, -1 and -2. The conversion state is the initial one between
    characters. *)
Variable mbrtowc : bytes → option nat.

Fixpoint b6b_str_decode_fuel (n : nat) (l : loc) (s : bytes) : HM (option loc) :=
  match n with
  | O => oof
  | S n' =>
      match mbrtowc s with
      | None => b6b_destroy l;; mret None
      | Some out =>
          c ← b6b_str_copy (take out s);
          b6b_list_do_add l c;;
          b6b_unref c;;
          match drop out s with
          | [] => mret (Some l)
          | s' => b6b_str_decode_fuel n' l s'
          end
      end
  end.

Definition b6b_str_decode (s : bytes) : HM (option loc) :=
  l ← b6b_list_new;
  match s with
  | [] => mret (Some l)
  | _ => b6b_str_decode_fuel (length s) l s
  end.
End decode.

(** ** The text of an object, as a specification *)

(** The string an object stands for, descending at most [n] levels into
    lists. *)
Fixpoint sval (n : nat) (m : gmap loc b6b_obj) (o : loc) : option bytes :=
  match n with
  | O => None
  | S n' =>
      x ← m !! o;
      if f_str (o_flags x) then Some (o_s x)
      else if f_list (o_flags x) then
        list_text <$> mapM (λ li, sval n' m (li_o li)) (o_l x)
      else if f_float (o_flags x) then Some (float_text (o_f x))
      else Some (fmt_int (o_i x))
  end.

Definition text_of (m : gmap loc b6b_obj) (o : loc) (s : bytes) : Prop :=
  ∃ n, sval n m o = Some s.

(** A cached hash is the hash of a cached text. *)
Definition hash_ok (x : b6b_obj) : Prop :=
  f_hashed (o_flags x) = true →
  f_str (o_flags x) = true ∧ o_hash x = b6b_hash (o_s x).

(** [x'] is the object [x] at [o], with possibly its text and hash cached. *)
Record obj_ext (m : gmap loc b6b_obj) (o : loc) (x x' : b6b_obj) : Prop := {
  oe_rest : ∃ s hs fs fh,
    x' = mkObj (o_l x) s (o_i x) (o_f x) (o_proc x) (o_del x) (o_priv x) (o_refc x) hs
           (mkFlags (f_list (o_flags x)) fs (f_int (o_flags x)) (f_float (o_flags x)) fh);
  oe_str : f_str (o_flags x) = true → f_str (o_flags x') = true ∧ o_s x' = o_s x;
  oe_new : f_str (o_flags x) = false → f_str (o_flags x') = true → text_of m o (o_s x');
  oe_hash : hash_ok x → hash_ok x';
  oe_hashed : f_hashed (o_flags x) = true → f_hashed (o_flags x') = true
}.

(** [m'] is [m] with more texts and hashes cached. *)
Definition ext (m m' : gmap loc b6b_obj) : Prop :=
  ∀ o, match m !! o, m' !! o with
       | Some x, Some x' => obj_ext m o x x'
       | None, None => True
       | _, _ => False
       end.

Lemma sval_S n m o :
  sval (S n) m o =
    x ← m !! o;
    if f_str (o_flags x) then Some (o_s x)
    else if f_list (o_flags x) then list_text <$> mapM (λ li, sval n m (li_o li)) (o_l x)
    else if f_float (o_flags x) then Some (float_text (o_f x))
    else Some (fmt_int (o_i x)).
Proof. done. Qed.

Lemma mapM_impl {A B} (f g : A → option B) l r :
  (∀ x y, x ∈ l → f x = Some y → g x = Some y) → mapM f l = Some r → mapM g l = Some r.
Proof.
  intros Hfg H. apply mapM_Some in H. apply mapM_Some.
  induction H as [|x y l r Hx H IH]; [done|]. constructor.
  - apply Hfg; [by left|done].
  - apply IH. intros. apply Hfg; [by right|done].
Qed.

Lemma sval_mono n n' m o s : (n ≤ n')%nat → sval n m o = Some s → sval n' m o = Some s.
Proof.
  revert n' o s. induction n as [|n IH]; intros [|n'] o s Hn H; [done|done|lia|].
  rewrite sval_S in *. destruct (m !! o) as [x|]; [|done]. simpl in *.
  destruct (f_str _); [done|]. destruct (f_list _); [|done].
  apply fmap_Some in H as (ts & H & ->). apply fmap_Some. exists ts. split; [|done].
  eapply mapM_impl; [|exact H]. intros li t _. apply IH. lia.
Qed.

Lemma text_of_det m o s t : text_of m o s → text_of m o t → s = t.
Proof.
  intros [n Hn] [k Hk].
  apply (sval_mono n (max n k)) in Hn; [|lia].
  apply (sval_mono k (max n k)) in Hk; [|lia]. congruence.
Qed.

(** If [o] cannot be evaluated with fuel [n], no evaluation with that fuel
    visits it. *)
Lemma sval_avoid n m o p t :
  sval n m o = None → sval n m p = Some t → sval n (delete o m) p = Some t.
Proof.
  revert p t. induction n as [|n IH]; intros p t Ho Hp; [done|].
  assert (p ≠ o) by congruence.
  rewrite sval_S in Hp |- *. rewrite lookup_delete_ne by done.
  destruct (m !! p) as [x|]; [|done]. simpl in Hp |- *.
  destruct (f_str _); [done|]. destruct (f_list _); [|done].
  apply fmap_Some in Hp as (ts & Hm & ->). apply fmap_Some. exists ts. split; [|done].
  eapply mapM_impl; [|exact Hm]. intros li u _ Hu. apply IH; [|done].
  destruct (sval n m o) as [v|] eqn:E; [|done].
  apply (sval_mono n (S n)) in E; [congruence|lia].
Qed.

Lemma sval_delete n m o p t : sval n (delete o m) p = Some t → sval n m p = Some t.
Proof.
  revert p t. induction n as [|n IH]; intros p t Hp; [done|].
  rewrite sval_S in *. destruct (delete o m !! p) as [x|] eqn:E; [|done].
  apply lookup_delete_Some in E as [_ ->]. simpl in *.
  destruct (f_str _); [done|]. destruct (f_list _); [|done].
  apply fmap_Some in Hp as (ts & H & ->). apply fmap_Some. exists ts. split; [|done].
  eapply mapM_impl; [|exact H]. intros li u _. apply IH.
Qed.

(** A new object changes no text. *)
Lemma sval_insert_fresh n m p y o s :
  m !! p = None → sval n m o = Some s → sval n (<[p := y]> m) o = Some s.
Proof.
  intros Hp. revert o s. induction n as [|n IH]; intros o s H; [done|]. rewrite sval_S in H |- *.
  destruct (m !! o) as [x|] eqn:E; [|done]. rewrite lookup_insert_ne, E by congruence. simpl in *.
  destruct (f_str _); [done|]. destruct (f_list _); [|done].
  apply fmap_Some in H as (ts & H & ->). apply fmap_Some. exists ts. split; [|done].
  eapply mapM_impl; [|exact H]. intros li t _. apply IH.
Qed.

(** The number of objects bounds the depth of an object that has a text. *)
Lemma sval_enough m o s : text_of m o s → sval (S (size m)) m o = Some s.
Proof.
  remember (size m) as k eqn:Hk. revert m o s Hk.
  induction k as [k IH] using lt_wf_ind. intros m o s -> [n Hn].
  induction n as [|n IHn]; [done|].
  destruct (sval n m o) as [v|] eqn:Ev.
  { apply IHn. pose proof (sval_mono n (S n) m o v ltac:(lia) Ev). congruence. }
  clear IHn. rewrite sval_S in Hn |- *.
  destruct (m !! o) as [x|] eqn:Ex; [|done]. simpl in *.
  destruct (f_str _); [done|]. destruct (f_list _); [|done].
  apply fmap_Some in Hn as (ts & H & ->). apply fmap_Some. exists ts. split; [|done].
  assert (size m = S (size (delete o m))) as Hsz.
  { rewrite map_size_delete_Some by (by eexists).
    assert (size m ≠ O) by (apply map_size_ne_0_lookup; exists o; by eexists). lia. }
  eapply mapM_impl; [|exact H]. intros li u _ Hu.
  apply (sval_avoid _ _ _ _ _ Ev) in Hu. rewrite Hsz.
  apply (sval_delete _ _ o). eapply (IH (size (delete o m))); [lia|done|by exists n].
Qed.

Lemma int_new_eq z h :
  b6b_int_new z h =
    Done (next h, mkHeap (<[next h := new_int z]> (objs h)) (N.succ (next h)) (h_os h)).
Proof.
  unfold b6b_int_new, b6b_new, malloc_obj.
  erewrite bind_eq by reflexivity.
  erewrite bind_eq by (apply update_obj_eq; simpl; apply lookup_insert_eq).
  erewrite bind_eq by (apply update_obj_eq; simpl; apply lookup_insert_eq).
  simpl. by rewrite !insert_insert_eq.
Qed.

(** ** Caching is transparent *)

Lemma obj_ext_refl m o x : obj_ext m o x x.
Proof.
  split; [|done|congruence|done..].
  exists (o_s x), (o_hash x), (f_str (o_flags x)), (f_hashed (o_flags x)).
  by destruct x as [???????? ? []].
Qed.

Lemma ext_refl m : ext m m.
Proof. intros o. destruct (m !! o); [apply obj_ext_refl|done]. Qed.

Lemma ext_lookup m m' o x :
  ext m m' → m !! o = Some x → ∃ x', m' !! o = Some x' ∧ obj_ext m o x x'.
Proof.
  intros H Hx. specialize (H o). rewrite Hx in H.
  destruct (m' !! o) as [x'|]; [|done]. by exists x'.
Qed.

Lemma ext_lookup_inv m m' o x' :
  ext m m' → m' !! o = Some x' → ∃ x, m !! o = Some x ∧ obj_ext m o x x'.
Proof.
  intros H Hx. specialize (H o). rewrite Hx in H.
  destruct (m !! o) as [x|]; [|done]. by exists x.
Qed.

Lemma ext_sval n m m' o s : ext m m' → sval n m o = Some s → sval n m' o = Some s.
Proof.
  intros He. revert o s. induction n as [|n IH]; intros o s H; [done|].
  pose proof H as Hs. rewrite sval_S in H |- *.
  destruct (m !! o) as [x|] eqn:Ex; [|done].
  destruct (ext_lookup _ _ _ _ He Ex) as (x' & -> & [(t & hs & fs & fh & Hx') Hstr Hnew _ _]).
  simpl in *. destruct (f_str (o_flags x)) eqn:Ef.
  { destruct (Hstr eq_refl) as [-> ->]. done. }
  destruct (f_str (o_flags x')) eqn:Ef'.
  { f_equal. eapply text_of_det; [by apply Hnew|by exists (S n)]. }
  subst x'. simpl. destruct (f_list _); [|done].
  apply fmap_Some in H as (ts & H & ->). apply fmap_Some. exists ts. split; [|done].
  eapply mapM_impl; [|exact H]. intros. by apply IH.
Qed.

Lemma ext_text m m' o s : ext m m' → text_of m o s → text_of m' o s.
Proof. intros He [n Hn]. exists n. by eapply ext_sval. Qed.

Lemma text_of_list m o x ts :
  m !! o = Some x → f_str (o_flags x) = false → f_list (o_flags x) = true →
  Forall2 (λ li t, text_of m (li_o li) t) (o_l x) ts → text_of m o (list_text ts).
Proof.
  intros Hx H1 H2 HF.
  assert (∃ n, mapM (λ li, sval n m (li_o li)) (o_l x) = Some ts) as [n Hn].
  { induction HF as [|li t l ts [n Hn] HF [k IH]]; [by exists O|].
    exists (max n k). apply mapM_Some. constructor.
    - eapply sval_mono; [|exact Hn]. lia.
    - apply mapM_Some in IH. eapply Forall2_impl; [exact IH|].
      intros ?? H. eapply sval_mono; [|exact H]. lia. }
  exists (S n). rewrite sval_S, Hx. simpl. by rewrite H1, H2, Hn.
Qed.

Lemma ext_text_inv m m' o s : ext m m' → text_of m' o s → text_of m o s.
Proof.
  intros He [n Hn]. revert o s Hn. induction n as [|n IH]; intros o s H; [done|].
  rewrite sval_S in H. destruct (m' !! o) as [x'|] eqn:Ex'; [|done].
  destruct (ext_lookup_inv _ _ _ _ He Ex') as (x & Ex & [(t & hs & fs & fh & Hx') Hstr Hnew _ _]).
  simpl in H. destruct (f_str (o_flags x)) eqn:Ef.
  { destruct (Hstr eq_refl) as [Hs1 Hs2]. rewrite Hs1 in H. injection H as <-.
    exists 1%nat. rewrite sval_S, Ex. simpl. rewrite Ef. congruence. }
  destruct (f_str (o_flags x')) eqn:Ef'.
  { injection H as <-. by apply Hnew. }
  subst x'. simpl in H. destruct (f_list _) eqn:El.
  - apply fmap_Some in H as (ts & H & ->). apply mapM_Some in H.
    eapply text_of_list; [done..|]. eapply Forall2_impl; [exact H|].
    intros li u Hu. by apply IH.
  - exists 1%nat. rewrite sval_S, Ex. simpl. by rewrite Ef, El.
Qed.

Lemma ext_trans m1 m2 m3 : ext m1 m2 → ext m2 m3 → ext m1 m3.
Proof.
  intros H12 H23 o. destruct (m1 !! o) as [x1|] eqn:E1.
  - destruct (ext_lookup _ _ _ _ H12 E1) as (x2 & E2 & A).
    destruct (ext_lookup _ _ _ _ H23 E2) as (x3 & E3 & B). rewrite E3.
    destruct A as [(s & hs & fs & fh & A1) A2 A3 A4 A5].
    destruct B as [(s' & hs' & fs' & fh' & B1) B2 B3 B4 B5]. split.
    + exists s', hs', fs', fh'. by subst x2.
    + intros [F1 F2]%A2. apply B2 in F1 as [F3 F4]. split; congruence.
    + intros F1 F3. destruct (f_str (o_flags x2)) eqn:F2.
      * destruct (B2 eq_refl) as [_ ->]. by apply A3.
      * eapply ext_text_inv; [exact H12|]. by apply B3.
    + intros F. by apply B4, A4.
    + intros F. by apply B5, A5.
  - specialize (H12 o). rewrite E1 in H12. destruct (m2 !! o) eqn:E2; [done|].
    specialize (H23 o). by rewrite E2 in H23.
Qed.

#[export] Instance ext_preorder : PreOrder ext.
Proof. split; [exact ext_refl|exact ext_trans]. Qed.

#[export] Instance text_of_proper : Proper (ext ==> eq ==> eq ==> iff) text_of.
Proof.
  intros m m' He o ? <- s ? <-.
  split; [by apply ext_text|by apply ext_text_inv].
Qed.

(** [o] has the text [s] cached. *)
Definition holds_text (m : gmap loc b6b_obj) (o : loc) (s : bytes) : Prop :=
  ∃ x, m !! o = Some x ∧ f_str (o_flags x) = true ∧ o_s x = s.

Lemma holds_text_of m o s : holds_text m o s → text_of m o s.
Proof.
  intros (x & Hx & Hf & <-). exists 1%nat. by rewrite sval_S, Hx; simpl; rewrite Hf.
Qed.

Lemma ext_holds m m' o s : ext m m' → holds_text m o s → holds_text m' o s.
Proof.
  intros He (x & Hx & Hf & <-). destruct (ext_lookup _ _ _ _ He Hx) as (x' & Hx' & Ho).
  destruct (oe_str _ _ _ _ Ho Hf). by exists x'.
Qed.

Lemma ext_insert m o x x' :
  m !! o = Some x → obj_ext m o x x' → ext m (<[o := x']> m).
Proof.
  intros Hx He p. rewrite lookup_insert. case_decide as Hp.
  - subst p. by rewrite Hx.
  - destruct (m !! p); [apply obj_ext_refl|done].
Qed.

Lemma set_text_ok h o x s :
  objs h !! o = Some x → text_of (objs h) o s →
  ∃ h', set_text o s h = Done (tt, h') ∧ ext (objs h) (objs h') ∧
    next h' = next h ∧ holds_text (objs h') o s.
Proof.
  intros Hx Ht. eexists. split; [by apply update_obj_eq|]. simpl. split_and!.
  - apply ext_insert with x; [done|]. split; simpl.
    + by eexists _, _, true, _.
    + intros Hf. split; [done|]. eapply text_of_det; [exact Ht|].
      apply holds_text_of. by exists x.
    + done.
    + unfold hash_ok. simpl. intros Hok Hh. destruct (Hok Hh) as [Hf ->].
      split; [done|]. f_equal. symmetry. eapply text_of_det; [exact Ht|].
      apply holds_text_of. by exists x.
    + done.
  - done.
  - eexists. rewrite lookup_insert_eq. done.
Qed.

(** What a conversion to string achieves. *)
Definition as_str_ok (h : heap) (o : loc) (s : bytes) (h' : heap) : Prop :=
  ext (objs h) (objs h') ∧ next h' = next h ∧ holds_text (objs h') o s.

Lemma as_str_items_ok as_str n l ts acc h :
  (∀ o s h, sval n (objs h) o = Some s →
     ∃ h', as_str o h = Done (true, h') ∧ as_str_ok h o s h') →
  Forall2 (λ li t, sval n (objs h) (li_o li) = Some t) l ts →
  ∃ h', as_str_items as_str l acc h = Done (Some (join_items acc ts), h') ∧
    ext (objs h) (objs h') ∧ next h' = next h.
Proof.
  intros Has HF. revert ts acc h HF.
  induction l as [|li l IH]; intros ts acc h HF; inversion HF as [|? t ? ts' Ht HF']; subst.
  { exists h. by split_and!. }
  destruct (Has (li_o li) t h Ht) as (h1 & E1 & X1 & N1 & x & Hx & Hf & Hs).
  destruct (IH ts' (Some (append_item acc t)) h1) as (h2 & E2 & X2 & N2).
  { eapply Forall2_impl; [exact HF'|]. intros. by eapply ext_sval. }
  exists h2. simpl. rewrite (bind_eq _ _ _ _ _ E1). simpl.
  rewrite (bind_eq _ _ _ _ _ (read_obj_eq _ _ _ Hx)), Hs. rewrite E2.
  split_and!; [done|by etrans|congruence].
Qed.

Lemma as_str_fuel_ok n o s h :
  sval n (objs h) o = Some s →
  ∃ h', b6b_as_str_fuel n o h = Done (true, h') ∧ as_str_ok h o s h'.
Proof.
  revert o s h. induction n as [|n IH]; intros o s h Hs; [done|].
  pose proof Hs as Hs'. rewrite sval_S in Hs'.
  destruct (objs h !! o) as [x|] eqn:Hx; [|done]. simpl in Hs'.
  assert (text_of (objs h) o s) as Ht by (by exists (S n)).
  assert (∀ h1 x1 acc, ext (objs h) (objs h1) → next h1 = next h → objs h1 !! o = Some x1 →
    acc = s →
    ∃ h', (set_text o acc ;; mret true) h1 = Done (true, h') ∧ as_str_ok h o s h') as Hset.
  { intros h1 x1 ? X1 N1 Hx1 ->. destruct (set_text_ok h1 o x1 s Hx1) as (h2 & E2 & X2 & N2 & T2).
    { by eapply ext_text. }
    exists h2. rewrite (bind_eq _ _ _ _ _ E2). split; [done|].
    split_and!; [by etrans|congruence|done]. }
  cbn [b6b_as_str_fuel]. rewrite (bind_eq _ _ _ _ _ (read_obj_eq _ _ _ Hx)).
  destruct (f_str (o_flags x)) eqn:Hf.
  { injection Hs' as <-. exists h. split; [done|]. split_and!; [done|done|]. by exists x. }
  destruct (f_list (o_flags x)) eqn:Hl; [|destruct (f_float (o_flags x))].
  - apply fmap_Some in Hs' as (ts & Hts & ->). apply mapM_Some in Hts.
    destruct (as_str_items_ok (b6b_as_str_fuel n) n (o_l x) ts None h IH Hts)
      as (h1 & E1 & X1 & N1).
    rewrite (bind_eq _ _ _ _ _ E1). destruct (ext_lookup _ _ _ _ X1 Hx) as (x1 & Hx1 & _).
    by eapply Hset.
  - injection Hs' as <-. eapply Hset; [done..|exact Hx|done].
  - injection Hs' as <-. eapply Hset; [done..|exact Hx|done].
Qed.

Lemma as_str_total o s h :
  text_of (objs h) o s → ∃ h', b6b_as_str o h = Done (true, h') ∧ as_str_ok h o s h'.
Proof. intros Ht. by apply as_str_fuel_ok, sval_enough. Qed.

Lemma text_eq o s h : holds_text (objs h) o s → text o h = Done (s, h).
Proof.
  intros (x & Hx & _ & <-). unfold text. by rewrite (bind_eq _ _ _ _ _ (read_obj_eq _ _ _ Hx)).
Qed.

Definition hashes_ok (m : gmap loc b6b_obj) : Prop :=
  ∀ o x, m !! o = Some x → hash_ok x.

Lemma ext_hashes_ok m m' : ext m m' → hashes_ok m → hashes_ok m'.
Proof.
  intros He Hm o x' Hx'. destruct (ext_lookup_inv _ _ _ _ He Hx') as (x & Hx & Ho).
  by eapply oe_hash, Hm.
Qed.

#[export] Instance hash_ok_dec x : Decision (hash_ok x).
Proof. unfold hash_ok. apply _. Defined.

Definition hashes_check (m : gmap loc b6b_obj) : bool :=
  forallb (λ p, bool_decide (hash_ok (snd p))) (map_to_list m).

Lemma hashes_check_sound m : hashes_check m = true → hashes_ok m.
Proof.
  unfold hashes_check. rewrite forallb_forall. intros H o x Hx.
  assert (In (o, x) (map_to_list m)) as Hin.
  { apply list_elem_of_In. by apply elem_of_map_to_list. }
  exact (bool_decide_eq_true_1 _ (H _ Hin)).
Qed.

(** [o] has the text [s] and its hash cached. *)
Definition holds_hash (m : gmap loc b6b_obj) (o : loc) (s : bytes) : Prop :=
  ∃ x, m !! o = Some x ∧ f_str (o_flags x) = true ∧ o_s x = s ∧
    f_hashed (o_flags x) = true ∧ o_hash x = b6b_hash s.

Lemma obj_hash_total o s h :
  hashes_ok (objs h) → text_of (objs h) o s →
  ∃ h', b6b_obj_hash o h = Done (true, h') ∧ ext (objs h) (objs h') ∧
    next h' = next h ∧ holds_hash (objs h') o s.
Proof.
  intros Hok Ht. destruct (as_str_total o s h Ht) as (h1 & E1 & X1 & N1 & T1).
  assert (∃ x, objs h !! o = Some x) as [x Hx].
  { destruct T1 as (x1 & Hx1 & _).
    destruct (ext_lookup_inv _ _ _ _ X1 Hx1) as (x & ? & _). by exists x. }
  unfold b6b_obj_hash. rewrite (bind_eq _ _ _ _ _ (read_obj_eq _ _ _ Hx)).
  destruct (f_hashed (o_flags x)) eqn:Hh.
  { destruct (Hok o x Hx Hh) as [Hf Hhash].
    assert (o_s x = s) as <-.
    { eapply text_of_det; [|exact Ht]. apply holds_text_of. by exists x. }
    exists h. split_and!; [done..|]. by exists x. }
  rewrite (bind_eq _ _ _ _ _ E1). simpl. rewrite (bind_eq _ _ _ _ _ (text_eq _ _ _ T1)).
  destruct T1 as (x1 & Hx1 & Hf1 & Hs1).
  rewrite (bind_eq _ _ _ _ _ (update_obj_eq _ _ _ _ Hx1)).
  eexists. split; [done|]. simpl. split_and!; [|done|].
  - etrans; [exact X1|]. apply ext_insert with x1; [done|]. split; simpl.
    + by eexists _, _, _, true.
    + by intros.
    + congruence.
    + unfold hash_ok. simpl. intros _ _. by rewrite Hs1.
    + done.
  - eexists. rewrite lookup_insert_eq. by split_and!.
Qed.

(** Two objects with their hashes cached. *)
Lemma obj_eq_spec x y :
  o_hash x = b6b_hash (o_s x) → o_hash y = b6b_hash (o_s y) →
  b6b_obj_eq x y = bool_decide (o_s x = o_s y).
Proof.
  intros Hx Hy. unfold b6b_obj_eq. rewrite Hx, Hy.
  destruct (decide (o_s x = o_s y)) as [->|Hne].
  - by rewrite Z.eqb_refl, !bool_decide_true.
  - rewrite (bool_decide_false (o_s x = o_s y)) by done. by rewrite andb_false_r.
Qed.

(** Caching texts and hashes moves no reference. *)
Lemma heap_refs_fmap m m' o :
  refs_of <$> m = refs_of <$> m' → heap_refs m o = heap_refs m' o.
Proof.
  intros Hr. unfold heap_refs.
  assert (∀ m0 : gmap loc b6b_obj,
    map_fold (λ _ x n, (occ o (refs_of x) + n)%nat) O m0 =
    map_fold (λ _ r n, (occ o r + n)%nat) O (refs_of <$> m0)) as Hf.
  { intros m0. by rewrite map_fold_fmap. }
  by rewrite !Hf, Hr.
Qed.

Lemma ext_well_counted R m m' : ext m m' → well_counted R m → well_counted R m'.
Proof.
  intros He [Hc Hl].
  assert (∀ o, heap_refs m' o = heap_refs m o) as Hr.
  { intros o. apply heap_refs_fmap. apply map_eq. intros p. rewrite !lookup_fmap.
    specialize (He p). destruct (m !! p) as [x|], (m' !! p) as [x'|]; try done.
    destruct He as [(? & ? & ? & ? & ->) _ _ _ _]. done. }
  split.
  - intros o x' Hx'. destruct (ext_lookup_inv _ _ _ _ He Hx') as (x & Hx & [(? & ? & ? & ? & ->) _ _ _ _]).
    rewrite Hr. by apply (Hc o x).
  - intros o Ho. rewrite Hr. apply Hl. specialize (He o).
    rewrite Ho in He. by destruct (m !! o).
Qed.

(** ** Properties *)

(** C15: converting an object to a string always finishes for an object that
    has a text (a list that does not contain itself), yields exactly that
    text, and is otherwise unobservable: every object of the heap keeps its
    text and the heap stays well counted. *)
Theorem b6b_as_str_correct R o s h :
  text_of (objs h) o s → well_counted R (objs h) →
  ∃ h', b6b_as_str o h = Done (true, h') ∧ holds_text (objs h') o s ∧
    (∀ p t, text_of (objs h') p t ↔ text_of (objs h) p t) ∧
    well_counted R (objs h').
Proof.
  intros Ht Hwc. destruct (as_str_total o s h Ht) as (h' & E & X & N & T).
  exists h'. split_and!; [done..| |by eapply ext_well_counted].
  intros p t. split; [by apply ext_text_inv|by apply ext_text].
Qed.

(** C31: an integer of magnitude up to [2^53] that became text is the same
    integer when [b6b_as_int] reads it back, with the text kept. (Beyond, the
    detour through [double] rounds it.) *)
Theorem int_text_roundtrip z o x h :
  - 2 ^ 53 ≤ z ≤ 2 ^ 53 → objs h !! o = Some x → o_s x = fmt_int z →
  f_str (o_flags x) = true → f_float (o_flags x) = false → f_int (o_flags x) = false →
  ∃ x', b6b_as_int o h = Done (true, mkHeap (<[o := x']> (objs h)) (next h) (h_os h)) ∧
    f_int (o_flags x') = true ∧ o_i x' = z ∧ f_str (o_flags x') = true ∧ o_s x' = o_s x.
Proof.
  intros Hz Hx Hs Hfs Hff Hfi.
  destruct (strtod_fmt_int z Hz) as (f & Ef & Ei). rewrite <- Hs in Ef.
  assert (o_s x ≠ []) as Hne by (rewrite Hs; apply fmt_int_nonempty).
  set (x1 := with_flags (set_float true) (with_f f x)).
  assert (b6b_as_float o h = Done (true, mkHeap (<[o := x1]> (objs h)) (next h) (h_os h))) as E1.
  { unfold b6b_as_float. rewrite (bind_eq _ _ _ _ _ (read_obj_eq _ _ _ Hx)), Hff, Hfs.
    destruct (o_s x) as [|c s]; [done|].
    rewrite Ef, (bind_eq _ _ _ _ _ (update_obj_eq _ _ _ _ Hx)), bool_decide_true by done.
    cbn [negb]. erewrite bind_eq by (apply update_obj_eq; simpl; apply lookup_insert_eq).
    simpl. by rewrite insert_insert_eq. }
  exists (with_flags (set_int true) (with_i z x1)). split.
  - unfold b6b_as_int. rewrite (bind_eq _ _ _ _ _ (read_obj_eq _ _ _ Hx)), Hfi.
    rewrite (bind_eq _ _ _ _ _ E1). cbn [negb].
    erewrite bind_eq by (apply read_obj_eq; simpl; apply lookup_insert_eq).
    change (f_to_int (o_f x1)) with (f_to_int f). rewrite Ei.
    erewrite bind_eq by (apply update_obj_eq; simpl; apply lookup_insert_eq).
    erewrite bind_eq by (apply update_obj_eq; simpl; apply lookup_insert_eq).
    simpl. by rewrite !insert_insert_eq.
  - by destruct x as [???????? ? []].
Qed.

Lemma int_text_roundtrip_witness :
  let h := mkHeap {[ 0%N := new_str (lit "-9007199254740992") ]} 1 no_os in
  ∃ x', b6b_as_int 0 h = Done (true, mkHeap (<[0%N := x']> (objs h)) (next h) (h_os h)) ∧
    f_int (o_flags x') = true ∧ o_i x' = - 2 ^ 53 ∧ f_str (o_flags x') = true ∧
    o_s x' = lit "-9007199254740992".
Proof.
  apply (int_text_roundtrip (- 2 ^ 53) 0%N (new_str (lit "-9007199254740992")));
    vm_compute; (reflexivity || (split; discriminate)).
Defined.

Lemma b6b_as_str_correct_witness :
  ∃ h', b6b_as_str 0%N (sample_heap 1) = Done (true, h') ∧
    holds_text (objs h') 0%N (lit "x x") ∧
    (∀ p t, text_of (objs h') p t ↔ text_of (objs (sample_heap 1)) p t) ∧
    well_counted [0%N; 1%N] (objs h').
Proof.
  apply (b6b_as_str_correct [0%N; 1%N]).
  - exists 2%nat. vm_compute. reflexivity.
  - apply wc_check_sound. vm_compute. reflexivity.
Defined.
