(* ===== verification/ListObj.v ===== *)
(** * List objects

    The list primitives of src/b6b_list.c that the interpreter itself uses:
    iteration, adding, extending, removing, and the argument parser
    [b6b_list_vparse]. An iterator is the address of a list node. *)
From Stdlib Require Import ZArith Lia Init.Byte Strings.Byte Strings.String.
From stdpp Require Import base option list numbers gmap.
From S2P Require Import Prelude Sys Float64 Hash Parse Heap Repr.
#[local] Open Scope Z_scope.
#[local] Open Scope byte_scope.

(** ** Iteration (include/b6b/obj.h) *)

Fixpoint find_item (id : N) (l : list b6b_litem) : option (b6b_litem * list b6b_litem) :=
  match l with
  | [] => None
  | li :: l' => if decide (li_id li = id) then Some (li, l') else find_item id l'
  end.

Definition b6b_list_empty (o : loc) : HM bool :=
  x ← read_obj o; mret (match o_l x with [] => true | _ => false end).

Definition b6b_list_first (o : loc) : HM (option N) :=
  x ← read_obj o; mret (li_id <$> head (o_l x)).

(** [b6b_list_next(li)], for a node [li] of the list [o]: a node that is no
    longer in the list was freed. *)
Definition b6b_list_next (o : loc) (li : N) : HM (option N) :=
  x ← read_obj o;
  '(_, rest) ← deref (find_item li (o_l x));
  mret (li_id <$> head rest).

(** [li->o] *)
Definition item_obj (o : loc) (li : N) : HM loc :=
  x ← read_obj o;
  '(it, _) ← deref (find_item li (o_l x));
  mret (li_o it).

(** [b6b_list_remove(l, li)] *)
Definition b6b_list_remove (l : loc) (li : N) : HM unit :=
  update_obj l (λ x, with_l (filter (λ it, li_id it ≠ li) (o_l x)) x).

(** ** src/b6b_list.c *)

Definition b6b_list_flush (l : loc) : HM unit :=
  update_obj l (with_flags (λ g, mkFlags (f_list g) false false false false)).

Definition b6b_list_add (l o : loc) : HM bool :=
  ok ← b6b_list_do_add l o;
  if negb ok then mret false
  else b6b_list_flush l;; mret true.

Fixpoint add_all (l : loc) (os : list loc) : HM unit :=
  match os with
  | [] => mret tt
  | o :: os' => b6b_list_do_add l o;; add_all l os'
  end.

Definition b6b_list_build (os : list loc) : HM loc :=
  l ← b6b_list_new;
  add_all l os;;
  mret l.

Definition b6b_list_copy (l : loc) : HM loc :=
  l2 ← b6b_list_new;
  x ← read_obj l;
  add_all l2 (li_o <$> o_l x);;
  mret l2.

(** The loop of [b6b_list_extend] follows the nodes of [l2] while it appends
    to [l]: it does not end when both are the same list. *)
Fixpoint extend_loop (n : nat) (l l2 : loc) (li : option N) : HM unit :=
  match li with
  | None => mret tt
  | Some i =>
      match n with
      | O => oof
      | S n' =>
          o ← item_obj l2 i;
          b6b_list_do_add l o;;
          nx ← b6b_list_next l2 i;
          extend_loop n' l l2 nx
      end
  end.

Definition b6b_list_extend (l l2 : loc) : HM bool :=
  x2 ← read_obj l2;
  li ← b6b_list_first l2;
  extend_loop (length (o_l x2)) l l2 li;;
  b6b_list_flush l;;
  mret true.

Definition b6b_list_pop (l : loc) (li : option N) : HM (option loc) :=
  x ← read_obj l;
  match (match li with Some i => Some i | None => li_id <$> last (o_l x) end) with
  | None => mret None
  | Some i =>
      o ← item_obj l i;
      b6b_list_remove l i;;
      b6b_list_flush l;;
      mret (Some o)
  end.

(** ** [b6b_list_vparse] *)

(** What a pointer argument receives. *)
Inductive varg : Set :=
| A_obj (o : loc)
| A_item (li : N).

(** The conversion a format character asks for; [None] for a character that
    is not one. *)
Definition parse_conv (c : byte) (o : loc) : option (HM bool) :=
  if decide (c = "o") then Some (mret true)
  else if decide (c = "s") then Some (b6b_as_str o)
  else if decide (c = "l") then Some (b6b_as_list o)
  else if decide (c = "i") then Some (b6b_as_int o)
  else if decide (c = "f") then Some (b6b_as_float o)
  else None.

(** [fmt] is the rest of the format, [items] the rest of the list, [ap] says
    for each remaining pointer argument whether it is not NULL. The result is
    the returned count with what was stored through the pointers. *)
Fixpoint vparse_loop (fmt : bytes) (items : list b6b_litem) (ap : list bool)
    (opt : bool) (n : Z) (outs : list varg) : HM (Z * list varg) :=
  match fmt with
  | [] => mret (match items with [] => n | _ => 0 end, outs)
  | c :: fmt' =>
      if decide (c = "|") then vparse_loop fmt' items ap true n outs
      else
        match items with
        | [] => mret (if opt then n else 0, outs)
        | li :: items' =>
            match ap with
            | [] => ub
            | false :: ap' => vparse_loop fmt' items' ap' opt (n + 1) outs
            | true :: ap' =>
                if decide (c = "*") then mret (n + 1, outs ++ [A_item (li_id li)])
                else
                  match parse_conv c (li_o li) with
                  | None => mret (0, outs)
                  | Some conv =>
                      ok ← conv;
                      if negb ok then mret (0, outs)
                      else vparse_loop fmt' items' ap' opt (n + 1) (outs ++ [A_obj (li_o li)])
                  end
            end
        end
  end.

Definition b6b_list_vparse (l : loc) (fmt : string) (ap : list bool) : HM (Z * list varg) :=
  x ← read_obj l;
  vparse_loop (lit fmt) (o_l x) ap false 0 [].

(** ** Lists that are well formed *)

(** [l] is the list object [x], and its nodes have addresses of their own. *)
Record list_at (h : heap) (l : loc) (x : b6b_obj) : Prop := {
  la_obj : objs h !! l = Some x;
  la_list : f_list (o_flags x) = true;
  la_ids : NoDup (li_id <$> o_l x);
  la_fresh : ∀ it, it ∈ o_l x → (li_id it < next h)%N
}.

(** The object [x] with the items [items] and without a cached text or hash. *)
Definition flushed (items : list b6b_litem) (x : b6b_obj) : b6b_obj :=
  with_flags (λ g, mkFlags (f_list g) false false false false) (with_l items x).

Lemma refs_of_flushed items x :
  f_list (o_flags x) = true → refs_of (flushed items x) = (li_o <$> items) ++ priv_refs x.
Proof. intros Hl. unfold refs_of, list_refs, flushed. simpl. by rewrite Hl. Qed.

Lemma refs_of_list x : f_list (o_flags x) = true → refs_of x = (li_o <$> o_l x) ++ priv_refs x.
Proof. intros Hl. unfold refs_of, list_refs. by rewrite Hl. Qed.

(** [m'] has the objects of [m], with the same contents but for those at [l]. *)
Definition same_but (l : loc) (m m' : gmap loc b6b_obj) : Prop :=
  ∀ p, p ≠ l → option_relation (λ x x', x' = with_refc (o_refc x') x) (λ _, False) (λ _, False)
    (m !! p) (m' !! p).

Lemma same_but_refl l m : same_but l m m.
Proof. intros p _. destruct (m !! p) as [[]|]; done. Qed.

Lemma same_but_trans l m1 m2 m3 : same_but l m1 m2 → same_but l m2 m3 → same_but l m1 m3.
Proof.
  intros H1 H2 p Hp. specialize (H1 p Hp). specialize (H2 p Hp).
  destruct (m1 !! p), (m2 !! p), (m3 !! p); simpl in *; try done. by rewrite H2, H1.
Qed.

Lemma same_but_insert l m x : same_but l m (<[l := x]> m).
Proof.
  intros p Hp. rewrite lookup_insert_ne by done. destruct (m !! p) as [[]|]; done.
Qed.

Lemma same_but_refc l m o x r :
  m !! o = Some x → same_but l m (<[o := with_refc r x]> m).
Proof.
  intros Hx p Hp. rewrite lookup_insert. case_decide as Ho; [subst p; by rewrite Hx|].
  destruct (m !! p) as [[]|]; done.
Qed.

(** *** Adding *)

(** [b6b_list_do_add] gives the list a reference of its own to [o]. *)
Lemma list_do_add_ok R l x o h :
  well_counted R (objs h) → list_at h l x → is_Some (objs h !! o) →
  ∃ h' r, b6b_list_do_add l o h = Done (true, h') ∧ well_counted R (objs h') ∧
    list_at h' l (with_l (o_l x ++ [mkItem (next h) o]) (with_refc r x)) ∧
    same_but l (objs h) (objs h') ∧ next h' = N.succ (next h) ∧
    (∀ y, objs h !! o = Some y → o ≠ l → objs h' !! o = Some (with_refc (o_refc y + 1) y)) ∧
    (∀ p, p ≠ l → p ≠ o → objs h' !! p = objs h !! p).
Proof.
  intros Hwc [Hx Hl Hnd Hf] [y Hy].
  pose proof (wc_refc _ _ Hwc o y Hy) as (_ & Hpos & _).
  set (h1 := mkHeap (objs h) (N.succ (next h)) (h_os h)).
  set (h2 := mkHeap (<[o := with_refc (o_refc y + 1) y]> (objs h)) (N.succ (next h)) (h_os h)).
  assert (b6b_ref o h1 = Done (o, h2)) as E1 by (apply (ref_eq o y h1 Hy); lia).
  assert (∃ r, objs h2 !! l = Some (with_refc r x)) as [r Hr].
  { simpl. rewrite lookup_insert. case_decide as Hol; [subst o; rewrite Hx in Hy|].
    - injection Hy as ->. by eexists.
    - exists (o_refc x). rewrite Hx. by destruct x. }
  set (x' := with_l (o_l x ++ [mkItem (next h) o]) (with_refc r x)).
  exists (mkHeap (<[l := x']> (objs h2)) (N.succ (next h)) (h_os h)), r.
  split_and!.
  - unfold b6b_list_do_add, malloc_item.
    rewrite (bind_eq _ _ h (mkItem (next h) o) h1) by done.
    rewrite (bind_eq _ _ _ _ _ E1), (bind_eq _ _ _ _ _ (update_obj_eq _ _ _ _ Hr)).
    by destruct x.
  - simpl. eapply (well_counted_put _ _ o); [by apply well_counted_take|exact Hr| |done|].
    + intros p. unfold x'. rewrite !refs_of_list by done. simpl.
      change (priv_refs (with_l _ (with_refc r x))) with (priv_refs x).
      change (priv_refs (with_refc r x)) with (priv_refs x).
      rewrite fmap_app, !occ_app. simpl. lia.
    + by destruct (wc_refc _ _ Hwc l x Hx) as (_ & _ & Hd).
  - split; simpl; [apply lookup_insert_eq|done| |].
    + rewrite fmap_app. apply NoDup_app. split_and!; [done| |apply NoDup_singleton].
      intros i (it & -> & Hit)%list_elem_of_fmap Hi. apply list_elem_of_singleton in Hi.
      pose proof (Hf it Hit). simpl in Hi. lia.
    + intros it [Hit|Hit]%elem_of_app; [pose proof (Hf it Hit); lia|].
      apply list_elem_of_singleton in Hit as ->. simpl. lia.
  - simpl. eapply same_but_trans; [by apply (same_but_refc l _ o y (o_refc y + 1))|].
    apply same_but_insert.
  - done.
  - intros y' Hy' Hne. rewrite Hy in Hy'. injection Hy' as <-. simpl.
    by rewrite lookup_insert_ne, lookup_insert_eq.
  - intros p Hp Hpo. simpl. by rewrite !lookup_insert_ne.
Qed.

(** [b6b_list_flush] drops the cached text and hash. *)
Lemma list_flush_ok R l x h :
  well_counted R (objs h) → list_at h l x →
  ∃ h', b6b_list_flush l h = Done (tt, h') ∧ well_counted R (objs h') ∧
    list_at h' l (flushed (o_l x) x) ∧ same_but l (objs h) (objs h') ∧ next h' = next h ∧
    ∀ o, o ≠ l → objs h' !! o = objs h !! o.
Proof.
  intros Hwc [Hx Hl Hnd Hf].
  exists (mkHeap (<[l := flushed (o_l x) x]> (objs h)) (next h) (h_os h)). split_and!.
  - unfold b6b_list_flush. rewrite (update_obj_eq _ _ _ _ Hx). by destruct x.
  - simpl. eapply well_counted_update; [done|exact Hx| |done|].
    + by rewrite refs_of_flushed, refs_of_list.
    + by destruct (wc_refc _ _ Hwc l x Hx) as (_ & _ & Hd).
  - split; simpl; [apply lookup_insert_eq|done..].
  - apply same_but_insert.
  - done.
  - intros o Ho. simpl. by rewrite lookup_insert_ne.
Qed.

Lemma list_add_ok R l x o h :
  well_counted R (objs h) → list_at h l x → is_Some (objs h !! o) →
  ∃ h' x', b6b_list_add l o h = Done (true, h') ∧ well_counted R (objs h') ∧
    list_at h' l x' ∧ o_l x' = o_l x ++ [mkItem (next h) o] ∧
    o_flags x' = mkFlags true false false false false ∧
    same_but l (objs h) (objs h') ∧ next h' = N.succ (next h) ∧
    (∀ y, objs h !! o = Some y → o ≠ l → objs h' !! o = Some (with_refc (o_refc y + 1) y)) ∧
    (∀ p, p ≠ l → p ≠ o → objs h' !! p = objs h !! p).
Proof.
  intros Hwc Hla Ho.
  destruct (list_do_add_ok R l x o h Hwc Hla Ho) as (h1 & r & E1 & W1 & L1 & S1 & N1 & K1 & J1).
  destruct (list_flush_ok R l _ h1 W1 L1) as (h2 & E2 & W2 & L2 & S2 & N2 & K2).
  exists h2. eexists. split_and!; [|done|exact L2|done|..].
  - unfold b6b_list_add. rewrite (bind_eq _ _ _ _ _ E1). cbn [negb].
    by rewrite (bind_eq _ _ _ _ _ E2).
  - simpl. by rewrite (la_list _ _ _ Hla).
  - by eapply same_but_trans.
  - congruence.
  - intros y Hy Hne. rewrite K2 by done. by apply K1.
  - intros p Hp Hpo. rewrite K2 by done. by apply J1.
Qed.

(** *** Removing *)

Lemma find_item_at i1 li i2 :
  NoDup (li_id <$> i1 ++ li :: i2) → find_item (li_id li) (i1 ++ li :: i2) = Some (li, i2).
Proof.
  induction i1 as [|it i1 IH]; simpl; [by rewrite decide_True|].
  intros [Hn Hnd]%NoDup_cons. rewrite decide_False; [by apply IH|]. intros E. apply Hn.
  rewrite E. apply list_elem_of_fmap_2, elem_of_app. right. by left.
Qed.

Lemma filter_item_at i1 li i2 :
  NoDup (li_id <$> i1 ++ li :: i2) →
  filter (λ it, li_id it ≠ li_id li) (i1 ++ li :: i2) = i1 ++ i2.
Proof.
  rewrite fmap_app, fmap_cons. intros (H1 & H2 & [H3 H4]%NoDup_cons)%NoDup_app.
  assert (∀ l : list b6b_litem, li_id li ∉ li_id <$> l → filter (λ it, li_id it ≠ li_id li) l = l)
    as Hid.
  { induction l as [|it l IH]; [done|]. rewrite fmap_cons, not_elem_of_cons. intros [Hn Hl].
    by rewrite filter_cons_True, IH by (done || congruence). }
  rewrite filter_app, filter_cons_False, (Hid i2) by (done || naive_solver).
  rewrite Hid; [done|]. intros Hin. apply (H2 _ Hin). by left.
Qed.

Lemma item_obj_eq l i x it rest h :
  objs h !! l = Some x → find_item i (o_l x) = Some (it, rest) →
  item_obj l i h = Done (li_o it, h).
Proof.
  intros Hx Hf. unfold item_obj. rewrite (bind_eq _ _ _ _ _ (read_obj_eq _ _ _ Hx)).
  by rewrite Hf.
Qed.

(** [b6b_list_pop] hands the reference of the node over to its caller. *)
Lemma list_pop_ok R l x i1 li i2 h :
  well_counted R (objs h) → list_at h l x → o_l x = i1 ++ li :: i2 →
  ∃ h', b6b_list_pop l (Some (li_id li)) h = Done (Some (li_o li), h') ∧
    well_counted (li_o li :: R) (objs h') ∧ list_at h' l (flushed (i1 ++ i2) x) ∧
    objs h' = <[l := flushed (i1 ++ i2) x]> (objs h) ∧ next h' = next h.
Proof.
  intros Hwc [Hx Hl Hnd Hf] Hi.
  assert (find_item (li_id li) (o_l x) = Some (li, i2)) as Hfi.
  { rewrite Hi in Hnd |- *. by apply find_item_at. }
  exists (mkHeap (<[l := flushed (i1 ++ i2) x]> (objs h)) (next h) (h_os h)). split_and!.
  - unfold b6b_list_pop. rewrite (bind_eq _ _ _ _ _ (read_obj_eq _ _ _ Hx)).
    rewrite (bind_eq _ _ _ _ _ (item_obj_eq l _ _ _ _ _ Hx Hfi)).
    unfold b6b_list_remove. rewrite (bind_eq _ _ _ _ _ (update_obj_eq _ _ _ _ Hx)).
    rewrite Hi, filter_item_at by (by rewrite <- Hi). unfold b6b_list_flush.
    erewrite bind_eq by (apply update_obj_eq; simpl; apply lookup_insert_eq).
    simpl. by rewrite insert_insert_eq.
  - simpl. eapply well_counted_get; [exact Hwc|exact Hx| |done|].
    + intros p. rewrite refs_of_flushed, refs_of_list, Hi by done.
      rewrite !fmap_app, fmap_cons, !occ_app. simpl. lia.
    + by destruct (wc_refc _ _ Hwc l x Hx) as (_ & _ & Hd).
  - rewrite Hi in Hnd. split; simpl; [apply lookup_insert_eq|done| |].
    + rewrite fmap_app, fmap_cons in Hnd. rewrite fmap_app.
      apply NoDup_app in Hnd as (H1 & H2 & [H3 H4]%NoDup_cons). apply NoDup_app.
      split_and!; [done| |done]. intros p Hp Hp2. apply (H2 p Hp). by right.
    + intros it Hit. apply Hf. rewrite Hi. apply elem_of_app in Hit as [Hit|Hit];
        apply elem_of_app; [by left|right; by right].
  - done.
  - done.
Qed.

(** [b6b_unref(b6b_list_pop(l, li))], for a list that stays alive. *)
Lemma list_drop_ok R l x i1 li i2 h :
  well_counted R (objs h) → list_at h l x → o_l x = i1 ++ li :: i2 → l ∈ R →
  ∃ h1 h' x', b6b_list_pop l (Some (li_id li)) h = Done (Some (li_o li), h1) ∧
    b6b_unref (li_o li) h1 = Done (tt, h') ∧
    well_counted R (objs h') ∧ list_at h' l x' ∧ o_l x' = i1 ++ i2 ∧
    f_hashed (o_flags x') = false ∧ shrinks (delete l (objs h)) (delete l (objs h')).
Proof.
  intros Hwc Hla Hi Hl.
  destruct (list_pop_ok R l x i1 li i2 h Hwc Hla Hi) as (h1 & E1 & W1 & [L1 L2 L3 L4] & O1 & N1).
  destruct (unref_total R (li_o li) h1 W1) as (h2 & E2 & W2 & N2 & S2).
  destruct (well_counted_root _ _ _ W2 Hl) as (x2 & Hx2 & _).
  assert (x2 = with_refc (o_refc x2) (flushed (i1 ++ i2) x)) as Ex2.
  { destruct (S2 l x2 Hx2) as (y & Hy & Hr). rewrite L1 in Hy. by injection Hy as <-. }
  exists h1, h2, x2. split_and!; [done|done|done| |by rewrite Ex2|by rewrite Ex2|].
  - rewrite Ex2 in Hx2. rewrite Ex2. split; [exact Hx2|done|done|]. intros it Hit. rewrite N2.
    by apply L4.
  - intros p w [Hne Hw]%lookup_delete_Some. destruct (S2 p w Hw) as (w0 & Hw0 & Hr).
    exists w0. rewrite O1, lookup_insert_ne in Hw0 by done. by rewrite lookup_delete_ne.
Qed.

(** *** Extending *)

Lemma same_but_is_Some l m m' o : same_but l m m' → o ≠ l → is_Some (m !! o) → is_Some (m' !! o).
Proof.
  intros Hs Ho [x Hx]. specialize (Hs o Ho). rewrite Hx in Hs.
  destruct (m' !! o); [by eexists|done].
Qed.

(** Another list only gets its count changed. *)
Lemma list_at_other l l2 h h' x :
  same_but l (objs h) (objs h') → (next h ≤ next h')%N → l2 ≠ l → list_at h l2 x →
  ∃ x', list_at h' l2 x' ∧ o_l x' = o_l x.
Proof.
  intros Hs Hn Hne [Hx Hl Hnd Hf]. specialize (Hs l2 Hne). rewrite Hx in Hs.
  destruct (objs h' !! l2) as [x'|] eqn:E; [|done]. simpl in Hs.
  exists x'. rewrite Hs. split; [|done]. split; [by rewrite E, Hs|done|done|].
  intros it Hit. specialize (Hf it Hit). lia.
Qed.

Lemma list_next_eq l i x it rest h :
  objs h !! l = Some x → find_item i (o_l x) = Some (it, rest) →
  b6b_list_next l i h = Done (li_id <$> head rest, h).
Proof.
  intros Hx Hf. unfold b6b_list_next. rewrite (bind_eq _ _ _ _ _ (read_obj_eq _ _ _ Hx)).
  by rewrite Hf.
Qed.

(** A node of a list refers to an object. *)
Lemma item_live R l x it h :
  well_counted R (objs h) → list_at h l x → it ∈ o_l x → is_Some (objs h !! li_o it).
Proof.
  intros Hwc [Hx Hl _ _] Hit. eapply well_counted_closed; [exact Hwc|exact Hx|].
  rewrite refs_of_list by done. apply elem_of_app. left. by apply list_elem_of_fmap_2.
Qed.

Lemma extend_loop_ok R l l2 x x2 front rest n h :
  l2 ≠ l → well_counted R (objs h) → list_at h l x → list_at h l2 x2 →
  o_l x2 = front ++ rest → (length rest ≤ n)%nat →
  ∃ h' x' items, extend_loop n l l2 (li_id <$> head rest) h = Done (tt, h') ∧
    well_counted R (objs h') ∧ list_at h' l x' ∧ o_l x' = o_l x ++ items ∧
    li_o <$> items = li_o <$> rest ∧ same_but l (objs h) (objs h').
Proof.
  intros Hne. revert n front x x2 h. induction rest as [|it rest IH];
    intros n front x x2 h Hwc Hl Hl2 Hx2 Hn.
  { exists h, x, []. rewrite app_nil_r. destruct n; split_and!; try done; apply same_but_refl. }
  destruct n as [|n]; [simpl in Hn; lia|].
  assert (find_item (li_id it) (o_l x2) = Some (it, rest)) as Hf.
  { rewrite Hx2. apply find_item_at. rewrite <- Hx2. apply Hl2. }
  assert (it ∈ o_l x2) as Hit by (rewrite Hx2; apply elem_of_app; right; by left).
  destruct (list_do_add_ok R l x (li_o it) h Hwc Hl (item_live R l2 x2 it h Hwc Hl2 Hit))
    as (h1 & r & E1 & W1 & L1 & S1 & N1 & _ & _).
  destruct (list_at_other l l2 h h1 x2 S1) as (x3 & L3 & I3); [lia|done|done|].
  destruct (IH n (front ++ [it]) _ x3 h1 W1 L1 L3) as (h2 & x' & items & E2 & W2 & L2 & I2 & O2 & S2).
  { by rewrite I3, Hx2, <- app_assoc. }
  { simpl in Hn. lia. }
  exists h2, x', (mkItem (next h) (li_o it) :: items). split_and!; [|done|done|..].
  - simpl. rewrite (bind_eq _ _ _ _ _ (item_obj_eq _ _ _ _ _ _ (la_obj _ _ _ Hl2) Hf)).
    rewrite (bind_eq _ _ _ _ _ E1). rewrite <- I3 in Hf.
    by rewrite (bind_eq _ _ _ _ _ (list_next_eq _ _ _ _ _ _ (la_obj _ _ _ L3) Hf)).
  - rewrite I2. simpl. by rewrite <- app_assoc.
  - by rewrite !fmap_cons, O2.
  - by eapply same_but_trans.
Qed.

Lemma head_first l x h :
  objs h !! l = Some x → b6b_list_first l h = Done (li_id <$> head (o_l x), h).
Proof. intros Hx. unfold b6b_list_first. by rewrite (bind_eq _ _ _ _ _ (read_obj_eq _ _ _ Hx)). Qed.

(** The node after a node of a list is one of the list. *)
Lemma find_item_next l i it rest :
  NoDup (li_id <$> l) → find_item i l = Some (it, rest) → rest ≠ [] →
  ∃ j jt rest', li_id <$> head rest = Some j ∧ find_item j l = Some (jt, rest').
Proof.
  intros Hnd Hf Hr. destruct rest as [|jt rest']; [done|].
  exists (li_id jt), jt, rest'. split; [done|].
  assert (∃ front, l = front ++ jt :: rest') as [front ->].
  { clear -Hf. revert Hf. induction l as [|a l IH]; [done|]. simpl. destruct (decide _).
    - intros [= <- ->]. by exists [a].
    - intros [front ->]%IH. by exists (a :: front). }
  by apply find_item_at.
Qed.

Lemma extend_self_loop R l n h :
  ∀ x i it rest, well_counted R (objs h) → list_at h l x →
  find_item i (o_l x) = Some (it, rest) → extend_loop n l l (Some i) h = Oof.
Proof.
  revert h. induction n as [|n IH]; intros h x i it rest Hwc Hl Hf; [done|].
  assert (it ∈ o_l x ∧ ∀ li, find_item i (o_l x ++ [li]) = Some (it, rest ++ [li])) as [Hit Hf'].
  { clear -Hf. induction (o_l x) as [|a l IH]; [done|]. simpl in *. destruct (decide _).
    - injection Hf as -> ->. split; [by left|done].
    - destruct (IH Hf) as [H1 H2]. split; [by right|done]. }
  destruct (list_do_add_ok R l x (li_o it) h Hwc Hl (item_live R l x it h Hwc Hl Hit))
    as (h1 & r & E1 & W1 & L1 & S1 & N1 & _ & _).
  simpl. rewrite (bind_eq _ _ _ _ _ (item_obj_eq _ _ _ _ _ _ (la_obj _ _ _ Hl) Hf)).
  rewrite (bind_eq _ _ _ _ _ E1).
  rewrite (bind_eq _ _ _ _ _ (list_next_eq l i _ it _ h1 (la_obj _ _ _ L1) (Hf' _))).
  destruct (find_item_next (o_l x ++ [mkItem (next h) (li_o it)]) i it
    (rest ++ [mkItem (next h) (li_o it)])) as (j & jt & rest' & -> & Hj); [apply L1|apply Hf'| |].
  { by destruct rest. }
  by apply (IH h1 _ j jt rest' W1 L1).
Qed.

(** *** Fresh objects *)

(** [malloc] has given out the addresses below [next] only. *)
Definition heap_fresh (h : heap) : Prop := ∀ o, is_Some (objs h !! o) → (o < next h)%N.

Lemma unref_shared o x h :
  objs h !! o = Some x → 1 < o_refc x →
  b6b_unref o h = Done (tt, mkHeap (<[o := with_refc (o_refc x - 1) x]> (objs h)) (next h) (h_os h)).
Proof.
  intros Hx Hr. unfold b6b_unref. simpl. rewrite (bind_eq _ _ _ _ _ (read_obj_eq _ _ _ Hx)).
  rewrite (proj2 (Z.leb_gt _ _)) by lia. rewrite (bind_eq _ _ _ _ _ (update_obj_eq _ _ _ _ Hx)).
  by rewrite (proj2 (Z.eqb_neq _ _)) by lia.
Qed.

(** A fresh object [y] is handed over to the list [l]: created with one
    reference, added, and given up by the program. *)
Lemma give_new_ok R l x y h :
  well_counted R (objs h) → heap_fresh h → list_at h l x →
  refs_of y = [] → o_refc y = 1 → del_ok y →
  let h1 := mkHeap (<[next h := y]> (objs h)) (N.succ (next h)) (h_os h) in
  ∃ h2 h3 x', b6b_list_add l (next h) h1 = Done (true, h2) ∧
    b6b_unref (next h) h2 = Done (tt, h3) ∧
    well_counted R (objs h3) ∧ heap_fresh h3 ∧ list_at h3 l x' ∧
    o_l x' = o_l x ++ [mkItem (N.succ (next h)) (next h)] ∧
    objs h3 !! next h = Some y ∧
    (∀ p, p ≠ l → p ≠ next h → objs h3 !! p = objs h !! p).
Proof.
  intros Hwc Hfr [Hx Hl Hnd Hf] Hr Hc Hd h1.
  assert (objs h !! next h = None) as Hnew.
  { destruct (objs h !! next h) eqn:E; [|done].
    assert (next h < next h)%N by (apply Hfr; by eexists). lia. }
  assert (next h ≠ l) as Hnl by congruence.
  pose proof (well_counted_alloc R _ _ y Hwc Hnew Hr Hc Hd) as W1.
  assert (list_at h1 l x) as L1.
  { split; simpl; [by rewrite lookup_insert_ne|done|done|]. intros it Hit.
    pose proof (Hf it Hit). lia. }
  destruct (list_add_ok (next h :: R) l x (next h) h1 W1 L1)
    as (h2 & x' & E2 & W2 & L2 & I2 & _ & S2 & N2 & K2 & J2).
  { simpl. rewrite lookup_insert_eq. by eexists. }
  assert (objs h2 !! next h = Some (with_refc 2 y)) as Hy2.
  { rewrite (K2 y), Hc by (done || apply lookup_insert_eq). done. }
  pose proof (unref_shared (next h) _ h2 Hy2 ltac:(simpl; lia)) as E3. simpl in E3.
  destruct (unref_total R (next h) h2 W2) as (h3 & E3' & W3 & N3 & _).
  rewrite E3 in E3'. injection E3' as <-.
  exists h2. eexists. exists x'. split_and!; [exact E2|exact E3|exact W3|..].
  - intros o Ho. simpl in *. rewrite N2. simpl. destruct (decide (o = next h)) as [->|Hne]; [lia|].
    rewrite lookup_insert_ne in Ho by done. enough (o < next h)%N by lia. apply Hfr.
    destruct (decide (o = l)) as [->|Hol]; [by eexists|].
    specialize (S2 o Hol). simpl in S2. rewrite lookup_insert_ne in S2 by done.
    destruct Ho as [z Hz]. rewrite Hz in S2. destruct (objs h !! o); [by eexists|done].
  - destruct L2 as [A1 A2 A3 A4]. split; simpl; [by rewrite lookup_insert_ne|done..].
  - done.
  - simpl. rewrite lookup_insert_eq. f_equal. destruct y. simpl in *. by subst.
  - intros p Hp Hpn. simpl. rewrite lookup_insert_ne, J2 by done. simpl.
    by rewrite lookup_insert_ne.
Qed.

(** ** Properties *)

(** C24: [b6b_list_extend] appends the objects of another list, in order, each
    with a reference of its own, drops the cached text and hash, and leaves
    all other objects alone; the heap stays well counted. *)
Theorem b6b_list_extend_correct R l l2 x x2 h :
  l2 ≠ l → well_counted R (objs h) → list_at h l x → list_at h l2 x2 →
  ∃ h' x', b6b_list_extend l l2 h = Done (true, h') ∧ well_counted R (objs h') ∧
    list_at h' l x' ∧ li_o <$> o_l x' = (li_o <$> o_l x) ++ (li_o <$> o_l x2) ∧
    f_str (o_flags x') = false ∧ f_hashed (o_flags x') = false ∧
    same_but l (objs h) (objs h').
Proof.
  intros Hne Hwc Hl Hl2.
  destruct (extend_loop_ok R l l2 x x2 [] (o_l x2) (length (o_l x2)) h Hne Hwc Hl Hl2)
    as (h1 & x1 & items & E1 & W1 & L1 & I1 & O1 & S1); [done|done|].
  destruct (list_flush_ok R l x1 h1 W1 L1) as (h2 & E2 & W2 & L2 & S2 & _).
  exists h2. eexists. split_and!; [|done|exact L2|..].
  - unfold b6b_list_extend. rewrite (bind_eq _ _ _ _ _ (read_obj_eq _ _ _ (la_obj _ _ _ Hl2))).
    rewrite (bind_eq _ _ _ _ _ (head_first _ _ _ (la_obj _ _ _ Hl2))).
    by rewrite (bind_eq _ _ _ _ _ E1), (bind_eq _ _ _ _ _ E2).
  - simpl. by rewrite I1, fmap_app, O1.
  - done.
  - done.
  - by eapply same_but_trans.
Qed.

(** C25: extending a list with itself never ends: no number of rounds is enough
    for the loop, on any list with an item. *)
Theorem extend_self_diverges R l x n h :
  well_counted R (objs h) → list_at h l x → o_l x ≠ [] →
  extend_loop n l l (li_id <$> head (o_l x)) h = Oof.
Proof.
  intros Hwc Hl Hne. destruct (o_l x) as [|it rest] eqn:E; [done|]. simpl.
  apply (extend_self_loop R l n h x _ it rest Hwc Hl). rewrite E. simpl. by rewrite decide_True.
Qed.

(** Two lists, the second with an item twice. *)
Definition sample_lists : heap :=
  mkHeap
    {[ 0%N := new_list;
       1%N := with_l [mkItem 3 2; mkItem 4 2] new_list;
       2%N := with_refc 2 (new_str (lit "x")) ]} 5 no_os.

Lemma sample_list_0 : list_at sample_lists 0 new_list.
Proof.
  split; [vm_compute; reflexivity|reflexivity|constructor|]. by intros it Hit%elem_of_nil.
Qed.
Lemma sample_list_1 : list_at sample_lists 1 (with_l [mkItem 3 2; mkItem 4 2] new_list).
Proof.
  split; [vm_compute; reflexivity|reflexivity|repeat constructor; set_solver|].
  intros it [->|[->|[]%elem_of_nil]%elem_of_cons]%elem_of_cons; simpl; lia.
Qed.

Lemma sample_lists_counted : well_counted [0; 1]%N (objs sample_lists).
Proof. apply wc_check_sound. vm_compute. reflexivity. Qed.

Lemma b6b_list_extend_correct_witness :
  ∃ h' x', b6b_list_extend 0 1 sample_lists = Done (true, h') ∧
    well_counted [0; 1]%N (objs h') ∧ list_at h' 0 x' ∧ li_o <$> o_l x' = [2; 2]%N ∧
    f_str (o_flags x') = false ∧ f_hashed (o_flags x') = false ∧
    same_but 0 (objs sample_lists) (objs h').
Proof.
  apply (b6b_list_extend_correct [0; 1]%N 0%N 1%N _ _ sample_lists (ltac:(done))
    sample_lists_counted sample_list_0 sample_list_1).
Defined.

Lemma extend_self_diverges_witness : extend_loop 1000 1 1 (Some 3%N) sample_lists = Oof.
Proof.
  apply (extend_self_diverges [0; 1]%N 1%N _ 1000 sample_lists
    sample_lists_counted sample_list_1). done.
Defined.
