(* ===== verification/Types.v ===== *)
(** * What the argument parser promises of the types of its arguments

    The conversions only add representations to the objects they are given, so
    that an argument that was converted to the type its format character asks
    for still has it when the later ones were converted. *)
From Stdlib Require Import ZArith Lia Init.Byte Strings.Byte Strings.String.
From stdpp Require Import base option list gmap.
From S2P Require Import Prelude Sys Float64 Hash Parse Heap Repr ListObj.
#[local] Open Scope Z_scope.
#[local] Open Scope byte_scope.

(** ** Objects that keep their representations *)

Record flags_le (f g : b6b_flags) : Prop := {
  fl_list : f_list f = true → f_list g = true;
  fl_str : f_str f = true → f_str g = true;
  fl_int : f_int f = true → f_int g = true;
  fl_float : f_float f = true → f_float g = true
}.

#[export] Instance flags_le_preorder : PreOrder flags_le.
Proof. split; [by split|]. intros f g h [] []. split; auto. Qed.

(** Every object of [m] is still there in [m'], with the types it had. *)
Definition types_le (m m' : gmap loc b6b_obj) : Prop :=
  ∀ o x, m !! o = Some x → ∃ x', m' !! o = Some x' ∧ flags_le (o_flags x) (o_flags x').

#[export] Instance types_le_preorder : PreOrder types_le.
Proof.
  split; [by intros m o x ?; exists x|].
  intros m1 m2 m3 H12 H23 o x Hx. destruct (H12 o x Hx) as (y & Hy & L1).
  destruct (H23 o y Hy) as (z & Hz & L2). exists z. split; [done|by etransitivity].
Qed.

Lemma types_le_insert m o x x' :
  m !! o = Some x → flags_le (o_flags x) (o_flags x') → types_le m (<[o := x']> m).
Proof.
  intros Hx Hle p y Hy. destruct (decide (p = o)) as [->|Hne].
  - rewrite lookup_insert_eq. exists x'. split; [done|]. by simplify_eq.
  - rewrite lookup_insert_ne by done. by exists y.
Qed.

Lemma types_le_new m o y : m !! o = None → types_le m (<[o := y]> m).
Proof.
  intros Ho p x Hx. exists x. split; [|done]. by rewrite lookup_insert_ne by congruence.
Qed.

(** A run of [m] that ends with a result in [Q] keeps all types. *)
Definition adds_types {A} (Q : A → Prop) (m : HM A) : Prop :=
  ∀ h a h', heap_fresh h → m h = Done (a, h') → Q a →
    heap_fresh h' ∧ types_le (objs h) (objs h').

Abbreviation always := (λ _, True).

Lemma at_ret {A} Q (a : A) : adds_types Q (mret a).
Proof. intros h b h' Hf H _. by minv. Qed.

Lemma at_weaken {A} Q (m : HM A) : adds_types always m → adds_types Q m.
Proof. intros H h a h' Hf E _. by eapply H. Qed.

Lemma at_bind {A B} Q Q' (m : HM A) (f : A → HM B) :
  adds_types Q m → (∀ a, Q a → adds_types Q' (f a)) →
  (∀ a h b h', f a h = Done (b, h') → Q' b → Q a) → adds_types Q' (m ≫= f).
Proof.
  intros Hm Hf HQ h b h' Hfr E Hb. apply bind_Done in E as (a & h1 & E1 & E2).
  pose proof (HQ _ _ _ _ E2 Hb) as Ha. destruct (Hm _ _ _ Hfr E1 Ha) as [F1 T1].
  destruct (Hf a Ha _ _ _ F1 E2 Hb) as [F2 T2]. split; [done|by etransitivity].
Qed.

(** The common case: the first part keeps types whatever it returns. *)
Lemma at_seq {A B} Q (m : HM A) (f : A → HM B) :
  adds_types always m → (∀ a, adds_types Q (f a)) → adds_types Q (m ≫= f).
Proof. intros Hm Hf. by apply (at_bind always). Qed.

Lemma at_read Q o : adds_types Q (read_obj o).
Proof. intros h x h' Hf H _. by apply read_obj_inv in H as [-> _]. Qed.

Lemma fresh_insert h o x y n s :
  heap_fresh h → objs h !! o = Some x → (next h ≤ n)%N →
  heap_fresh (mkHeap (<[o := y]> (objs h)) n s).
Proof.
  intros Hf Hx Hn p [z Hz]. simpl in *. eapply N.lt_le_trans; [|done]. apply Hf.
  destruct (decide (p = o)) as [->|Hne]; [by eexists|].
  rewrite lookup_insert_ne in Hz by done. by eexists.
Qed.

Lemma at_update Q o f :
  (∀ x, flags_le (o_flags x) (o_flags (f x))) → adds_types Q (update_obj o f).
Proof.
  intros Hle h [] h' Hf H _. apply update_obj_inv in H as (x & Hx & [= ->]).
  split; [by eapply fresh_insert|by apply (types_le_insert _ _ x)].
Qed.

Lemma at_text Q o : adds_types Q (text o).
Proof. apply at_seq; [apply at_read|intros x; apply at_ret]. Qed.

Lemma at_if {A} Q (b : bool) (m1 m2 : HM A) :
  adds_types Q m1 → adds_types Q m2 → adds_types Q (if b then m1 else m2).
Proof. by destruct b. Qed.

Create HintDb types.
#[export] Hint Resolve at_ret at_read at_text : types.

Ltac types :=
  repeat first
    [ match goal with |- adds_types _ (_ ≫= _) => apply at_seq; [|intros ?] end
    | apply at_update; intros ?; split; simpl; by auto
    | solve [eauto 1 with types]
    | apply at_if
    | case_match
    | progress cbv zeta ].

(** ** The conversions *)

Lemma at_set_text Q o s : adds_types Q (set_text o s).
Proof. unfold set_text. types. Qed.

Lemma at_str_items Q (f : loc → HM bool) l acc :
  (∀ o, adds_types always (f o)) → adds_types Q (as_str_items f l acc).
Proof.
  intros Hf. revert acc. induction l as [|li l IH]; intros acc; simpl; [types|].
  apply at_seq; [apply Hf|]. intros ok. types.
Qed.

Lemma at_as_str Q o : adds_types Q (b6b_as_str o).
Proof.
  assert (∀ n o, adds_types always (b6b_as_str_fuel n o)) as Hn.
  { clear. induction n as [|n IH]; intros o; [by intros h a h' _ [=]|]. simpl.
    apply at_seq; [apply at_read|]. intros x. do 2 (apply at_if; [apply at_ret||idtac|]).
    - apply at_seq; [by apply at_str_items|]. intros [acc|]; [|apply at_ret].
      apply at_seq; [apply at_set_text|]. intros []. apply at_ret.
    - pose proof at_set_text. types. }
  intros h a h' Hf E _. by eapply Hn.
Qed.
#[export] Hint Resolve at_set_text at_as_str : types.

Lemma at_as_float Q o : adds_types Q (b6b_as_float o).
Proof. unfold b6b_as_float. types. Qed.

Lemma at_as_int Q o : adds_types Q (b6b_as_int o).
Proof. unfold b6b_as_int. pose proof at_as_float. types. Qed.

Lemma str_copy_eq s h :
  b6b_str_copy s h =
    Done (next h, mkHeap (<[next h := new_str s]> (objs h)) (N.succ (next h)) (h_os h)).
Proof.
  unfold b6b_str_copy, b6b_str_new, b6b_new, malloc_obj.
  erewrite bind_eq by reflexivity.
  erewrite bind_eq by (apply update_obj_eq; simpl; apply lookup_insert_eq).
  erewrite bind_eq by (apply update_obj_eq; simpl; apply lookup_insert_eq).
  simpl. by rewrite !insert_insert_eq.
Qed.

Lemma fresh_none h : heap_fresh h → objs h !! next h = None.
Proof.
  intros Hf. destruct (objs h !! next h) eqn:E; [|done].
  pose proof (Hf (next h) (ex_intro _ _ E)). lia.
Qed.

Lemma at_str_copy Q s : adds_types Q (b6b_str_copy s).
Proof.
  intros h o h' Hf H _. rewrite str_copy_eq in H. injection H as <- <-.
  pose proof (fresh_none h Hf) as Hn. split; [|by apply types_le_new].
  intros p Hp. simpl in *. destruct (decide (p = next h)) as [->|Hne]; [lia|].
  rewrite lookup_insert_ne in Hp by done. specialize (Hf p Hp). lia.
Qed.

Lemma at_ref Q o : adds_types Q (b6b_ref o).
Proof. unfold b6b_ref. types. by intros ? ? ? ? [=]. Qed.

Lemma at_do_add Q l o : adds_types Q (b6b_list_do_add l o).
Proof.
  unfold b6b_list_do_add. apply at_seq; [|intros li].
  - intros h li h' Hf [= <- <-] _. split; [|done]. intros p Hp. specialize (Hf p Hp). simpl. lia.
  - pose proof at_ref. types.
Qed.

(** The new item has one more reference, that of its node. *)
Lemma do_add_refc l o y h b h' :
  b6b_list_do_add l o h = Done (b, h') → objs h !! o = Some y →
  ∃ y', objs h' !! o = Some y' ∧ o_refc y' = o_refc y + 1.
Proof.
  unfold b6b_list_do_add. intros H Hy. apply bind_Done in H as (li & h1 & [= <- <-] & H).
  apply bind_Done in H as (r & h2 & H2 & H). apply bind_Done in H as ([] & h3 & H3 & [= <- <-]).
  unfold b6b_ref in H2. apply bind_Done in H2 as (x0 & h0 & [-> Hx0]%read_obj_inv & H2).
  simpl in Hx0. assert (x0 = y) as -> by congruence.
  destruct (o_refc y <? 0); [done|]. apply bind_Done in H2 as ([] & h4 & H4 & [= <- <-]).
  apply update_obj_inv in H4 as (x & Hx & [= ->]). simpl in Hx. simplify_eq.
  apply update_obj_inv in H3 as (x' & Hx' & [= ->]). simpl in *.
  destruct (decide (l = o)) as [->|Hne].
  - rewrite lookup_insert_eq in Hx'. simplify_eq. eexists. by rewrite lookup_insert_eq.
  - rewrite lookup_insert_ne, lookup_insert_eq by done. by eexists.
Qed.

(** A token is made, given to the list and let go. *)
Lemma at_give o t :
  adds_types always (item ← b6b_str_copy t; b6b_list_do_add o item;; b6b_unref item).
Proof.
  intros h [] h' Hf H _. apply bind_Done in H as (it & h1 & H1 & H).
  apply bind_Done in H as (b & h2 & H2 & H).
  destruct (at_str_copy always t _ _ _ Hf H1 I) as [F1 T1].
  rewrite str_copy_eq in H1. injection H1 as <- <-.
  destruct (at_do_add always _ _ _ _ _ F1 H2 I) as [F2 T2].
  destruct (do_add_refc _ _ (new_str t) _ _ _ H2) as (y & Hy & Hr); [apply lookup_insert_eq|].
  rewrite (unref_shared _ _ _ Hy) in H by (rewrite Hr; simpl; lia). injection H as <-.
  split; [by eapply fresh_insert|]. etransitivity; [exact T1|]. etransitivity; [exact T2|].
  by apply (types_le_insert _ _ y).
Qed.

Lemma at_add_tokens Q o ts : adds_types Q (add_tokens o ts).
Proof.
  apply at_weaken. induction ts as [|t ts IH]; simpl; [apply at_ret|].
  intros h [] h' Hf H _.
  assert (((item ← b6b_str_copy t; b6b_list_do_add o item;; b6b_unref item) ;;
    add_tokens o ts) h = Done ((), h')) as H'.
  { rewrite bind_assoc. revert H. unfold mbind, M_bind. destruct (b6b_str_copy t h) as [[it h1]| |]; [|done..].
    destruct (b6b_list_do_add o it h1) as [[b h2]| |]; [|done..].
    by destruct (b6b_unref it h2) as [[[] h3]| |]. }
  exact (at_seq always _ (λ _, add_tokens o ts) (at_give o t) (λ _, IH) _ _ _ Hf H' I).
Qed.

(** A failure drops the tokens again; it is of no interest here. *)
Lemma at_as_list o : adds_types (eq true) (b6b_as_list o).
Proof.
  unfold b6b_as_list. apply at_seq; [apply at_read|intros x]. apply at_if; [apply at_ret|].
  apply at_seq; [apply at_as_str|intros ok]. apply at_if; [apply at_ret|].
  apply at_seq; [types|intros _]. apply at_seq; [apply at_text|intros s].
  apply (at_bind (eq true)).
  - intros h b h' Hf H <-. unfold b6b_do_as_list_obj in H. destruct (b6b_do_as_list _) as [ts b].
    apply bind_Done in H as ([] & h1 & H1 & H). destruct b; [|by minv].
    injection H as <-. by eapply (at_add_tokens always).
  - intros b <-. simpl. types.
  - intros [] h b h' H <-; [done|]. by injection H.
Qed.

(** ** [b6b_list_vparse] *)

(** The type a format character asks for. *)
Definition format_type (c : byte) : option (b6b_flags → bool) :=
  if decide (c = "o") then Some (λ _, true)
  else if decide (c = "s") then Some f_str
  else if decide (c = "l") then Some f_list
  else if decide (c = "i") then Some f_int
  else if decide (c = "f") then Some f_float
  else None.

Definition has_type (m : gmap loc b6b_obj) (c : byte) (o : loc) : Prop :=
  ∃ T x, format_type c = Some T ∧ m !! o = Some x ∧ T (o_flags x) = true.

(** [parsed m opt fmt items ap k outs]: the arguments [items] fit the format, of
    which [k] were taken, and the pointers that are not NULL received [outs],
    with the types the format asks for. *)
Inductive parsed (m : gmap loc b6b_obj)
    : bool → bytes → list b6b_litem → list bool → Z → list varg → Prop :=
| parsed_end opt ap : parsed m opt [] [] ap 0 []
| parsed_optional fmt ap : parsed m true fmt [] ap 0 []
| parsed_bar opt fmt items ap k outs :
    parsed m true fmt items ap k outs → parsed m opt (lit "|" ++ fmt) items ap k outs
| parsed_null opt c fmt li items ap k outs :
    c ≠ "|" → parsed m opt fmt items ap k outs →
    parsed m opt (c :: fmt) (li :: items) (false :: ap) (k + 1) outs
| parsed_rest opt fmt li items ap :
    parsed m opt (lit "*" ++ fmt) (li :: items) (true :: ap) 1 [A_item (li_id li)]
| parsed_arg opt c fmt li items ap k outs :
    has_type m c (li_o li) → parsed m opt fmt items ap k outs →
    parsed m opt (c :: fmt) (li :: items) (true :: ap) (k + 1) (A_obj (li_o li) :: outs).

Lemma types_le_has m m' c o : types_le m m' → has_type m c o → has_type m' c o.
Proof.
  intros Hle (T & x & HT & Hx & Hf). destruct (Hle o x Hx) as (x' & Hx' & L).
  exists T, x'. split_and!; [done..|]. unfold format_type in HT.
  destruct L. repeat case_decide; simplify_eq; auto.
Qed.

(** *** A conversion that succeeds leaves its flag set *)

Definition sets (T : b6b_flags → bool) (o : loc) (m : HM bool) : Prop :=
  ∀ h h', m h = Done (true, h') → ∃ x, objs h' !! o = Some x ∧ T (o_flags x) = true.

Lemma sets_bind {A} T o (m : HM A) (f : A → HM bool) :
  (∀ a, sets T o (f a)) → sets T o (m ≫= f).
Proof. intros Hf h h' H. apply bind_Done in H as (a & h1 & _ & H). by eapply Hf. Qed.

Lemma sets_false T o : sets T o (mret false).
Proof. intros h h' [=]. Qed.

Lemma sets_update T o f :
  (∀ x, T (o_flags (f x)) = true) → sets T o (update_obj o f;; mret true).
Proof.
  intros Hf h h' H. apply bind_Done in H as ([] & h1 & H1 & [= <-]).
  apply update_obj_inv in H1 as (x & Hx & [= ->]). exists (f x). split; [|done].
  simpl. by rewrite lookup_insert_eq.
Qed.

Lemma sets_already (T : b6b_flags → bool) o (m : b6b_obj → HM bool) :
  (∀ x, sets T o (m x)) →
  sets T o (x ← read_obj o; if T (o_flags x) then mret true else m x).
Proof.
  intros Hm h h' H. apply bind_Done in H as (x & h1 & [-> Hx]%read_obj_inv & H).
  destruct (T (o_flags x)) eqn:E; [|by eapply Hm]. injection H as <-. by exists x.
Qed.

Ltac sets :=
  repeat first
    [ apply sets_false
    | apply sets_update; intros ?; reflexivity
    | apply sets_bind; intros ?
    | progress cbv zeta
    | case_match ].

Lemma as_str_sets o : sets f_str o (b6b_as_str o).
Proof.
  intros h h' H. revert H. apply (sets_already f_str o). intros x. unfold set_text. sets.
Qed.

Lemma as_float_sets o : sets f_float o (b6b_as_float o).
Proof. apply (sets_already f_float). intros x. sets. Qed.

Lemma as_int_sets o : sets f_int o (b6b_as_int o).
Proof. apply (sets_already f_int). intros x. sets. Qed.

Lemma as_list_sets o : sets f_list o (b6b_as_list o).
Proof. apply (sets_already f_list). intros x. sets. Qed.

(** A conversion that succeeds gives its type. *)
Lemma conv_typed c o m h h' :
  parse_conv c o = Some m → heap_fresh h → is_Some (objs h !! o) → m h = Done (true, h') →
  has_type (objs h') c o ∧ heap_fresh h' ∧ types_le (objs h) (objs h').
Proof.
  intros Hc Hf Ho H.
  assert (adds_types (eq true) m) as Ha.
  { unfold parse_conv in Hc. repeat case_decide; simplify_eq;
      auto using at_ret, at_as_str, at_as_list, at_as_int, at_as_float. }
  split; [|by eapply Ha].
  destruct (Ha _ _ _ Hf H eq_refl) as [_ Hle]. destruct Ho as [x Hx].
  destruct (Hle o x Hx) as (x' & Hx' & _).
  unfold parse_conv in Hc. unfold has_type, format_type.
  repeat case_decide; simplify_eq; [by exists (λ _, true), x'|..]; eexists _, _;
    (split; [done|]);
    first [apply as_str_sets in H | apply as_list_sets in H
          | apply as_int_sets in H | apply as_float_sets in H]; naive_solver.
Qed.

Lemma vparse_loop_parsed fmt items ap opt n outs h argc res h' :
  vparse_loop fmt items ap opt n outs h = Done ((argc, res), h') → argc ≠ 0 →
  heap_fresh h → (∀ li, li ∈ items → is_Some (objs h !! li_o li)) →
  ∃ k outs', argc = n + k ∧ res = outs ++ outs' ∧
    parsed (objs h') opt fmt items ap k outs' ∧ types_le (objs h) (objs h').
Proof.
  revert items ap opt n outs h. induction fmt as [|c fmt IH];
    intros items ap opt n outs h H Hne Hf Hit; simpl in H.
  { minv. destruct items; [|done]. exists 0, []. rewrite app_nil_r, Z.add_0_r.
    split_and!; [done..|constructor|done]. }
  case_decide as Hbar; [subst c|].
  { destruct (IH _ _ _ _ _ _ H Hne Hf Hit) as (k & outs' & -> & -> & P & T).
    exists k, outs'. split_and!; [done..| |done]. by apply (parsed_bar _ opt fmt). }
  destruct items as [|li items].
  { minv. destruct opt; [|done]. exists 0, []. rewrite app_nil_r, Z.add_0_r.
    split_and!; [done..|constructor|done]. }
  destruct ap as [|[] ap]; [done| |].
  2: { destruct (IH _ _ _ _ _ _ H Hne Hf) as (k & outs' & -> & -> & P & T); [set_solver|].
       exists (k + 1), outs'. split_and!; [lia|done| |done]. by constructor. }
  case_decide as Hstar; [subst c|].
  { minv. exists 1, [A_item (li_id li)]. split_and!; [lia|done| |done].
    by apply (parsed_rest _ opt fmt). }
  destruct (parse_conv c (li_o li)) as [conv|] eqn:Hc; [|by minv].
  apply bind_Done in H as (ok & h1 & H1 & H). destruct ok; simpl in H; [|by minv].
  destruct (conv_typed _ _ _ _ _ Hc Hf (Hit li (list_elem_of_here _ _)) H1) as (Ty & F1 & T1).
  destruct (IH _ _ _ _ _ _ H Hne F1) as (k & outs' & -> & -> & P & T).
  { intros l2 Hl2. destruct (Hit l2) as [x Hx]; [set_solver|].
    destruct (T1 _ _ Hx) as (x' & Hx' & _). by eexists. }
  exists (k + 1), (A_obj (li_o li) :: outs'). split_and!; [lia|by rewrite <- app_assoc| |by etransitivity].
  constructor; [|done]. by eapply types_le_has.
Qed.

(** C13: the argument parser gives types: when it does not return 0, every object
    it stored through a pointer has, in the memory it returns with, the type
    that its format character asks for (also when converting a later argument
    converted more objects), the count is the number of arguments taken, and
    the arguments beyond a [|] may be missing. No object of the program lost
    a type it had. *)
Theorem vparse_types R l x fmt ap argc outs h h' :
  well_counted R (objs h) → heap_fresh h → objs h !! l = Some x → f_list (o_flags x) = true →
  b6b_list_vparse l fmt ap h = Done ((argc, outs), h') → argc ≠ 0 →
  parsed (objs h') false (lit fmt) (o_l x) ap argc outs ∧ types_le (objs h) (objs h').
Proof.
  intros Hwc Hf Hx Hl H Hne. unfold b6b_list_vparse in H.
  rewrite (bind_eq _ _ _ _ _ (read_obj_eq _ _ _ Hx)) in H.
  destruct (vparse_loop_parsed _ _ _ _ _ _ _ _ _ _ H Hne Hf) as (k & outs' & -> & -> & P & T).
  - intros li Hli. eapply (well_counted_closed R _ l x); [done..|]. apply elem_of_app. left.
    unfold list_refs. rewrite Hl. apply list_elem_of_fmap. by exists li.
  - by rewrite Z.add_0_l.
Qed.

Definition fresh_check (h : heap) : bool :=
  bool_decide (map_Forall (λ o _, (o < next h)%N) (objs h)).

Lemma fresh_check_sound h : fresh_check h = true → heap_fresh h.
Proof. intros H%bool_decide_eq_true_1 o [x Hx]. by apply (H o x). Qed.

(** The arguments of [$proc 7 {a b}] are parsed as an integer and a list; a
    third one is optional. *)
Definition sample_args : heap :=
  mkHeap
    {[ 0%N := with_l [mkItem 4 1; mkItem 5 2; mkItem 6 3] new_list;
       1%N := new_str (lit "proc"); 2%N := new_str (lit "7");
       3%N := new_str (lit "{a} b") ]} 7 no_os.

Lemma vparse_types_witness :
  ∃ h', b6b_list_vparse 0 "oil|s" [true; true; true; true] sample_args =
      Done ((3, [A_obj 1; A_obj 2; A_obj 3]%N), h') ∧
    parsed (objs h') false (lit "oil|s") [mkItem 4 1; mkItem 5 2; mkItem 6 3]
      [true; true; true; true] 3 [A_obj 1; A_obj 2; A_obj 3]%N ∧
    types_le (objs sample_args) (objs h').
Proof.
  eexists. split; [vm_compute; reflexivity|].
  eapply (vparse_types [0]%N 0%N (with_l [mkItem 4 1; mkItem 5 2; mkItem 6 3] new_list) "oil|s"
    [true; true; true; true] 3 [A_obj 1; A_obj 2; A_obj 3]%N sample_args).
  - apply wc_check_sound. vm_compute. reflexivity.
  - apply fresh_check_sound. vm_compute. reflexivity.
  - reflexivity.
  - reflexivity.
  - vm_compute. reflexivity.
  - done.
Defined.
