(* ===== verification/AsList.v ===== *)
(** * Parsing an object

    What [b6b_as_list] (src/b6b_list.c, with the tokeniser of Parse.v) does to
    an object with a text: the new string objects, the references to them, and
    what is left after a syntax error. *)
From Stdlib Require Import ZArith Lia Init.Byte Strings.Byte Strings.String.
From stdpp Require Import base option list numbers gmap.
From S2P Require Import Prelude Sys Float64 Hash Parse Heap Repr ListObj Types.
#[local] Open Scope Z_scope.

(** The nodes [its] refer to new objects, from the address [n] on, with the
    texts [ts]. *)
Record new_items (n : N) (h : heap) (its : list b6b_litem) (ts : list bytes) : Prop := {
  ni_texts : Forall2 (λ it t, (n ≤ li_o it)%N ∧ objs h !! li_o it = Some (new_str t)) its ts;
  ni_ids : NoDup (li_id <$> its);
  ni_objs : NoDup (li_o <$> its);
  ni_fresh : ∀ it, it ∈ its → (n ≤ li_id it < next h)%N;
  ni_only : ∀ p, (n ≤ p)%N → is_Some (objs h !! p) → p ∈ li_o <$> its
}.

(** Everything below [n] is kept, but for [o]. *)
Definition kept_below (n : N) (o : loc) (m m' : gmap loc b6b_obj) : Prop :=
  ∀ p, p ≠ o → (p < n)%N → m' !! p = m !! p.

Lemma add_token_ok R o x t h :
  well_counted R (objs h) → heap_fresh h → objs h !! o = Some x → f_list (o_flags x) = false →
  let it := mkItem (N.succ (next h)) (next h) in
  let x' := with_l (o_l x ++ [it]) x in
  let h' := mkHeap (<[next h := new_str t]> (<[o := x']> (objs h)))
              (N.succ (N.succ (next h))) (h_os h) in
  (∀ rest, add_tokens o (t :: rest) h = add_tokens o rest h') ∧
  well_counted (next h :: R) (objs h') ∧ heap_fresh h'.
Proof.
  intros Hwc Hfr Hx Hl it x' h'. pose proof (fresh_none h Hfr) as Hnew.
  assert (o ≠ next h) as Hne by congruence. split_and!.
  - intros rest. cbn [add_tokens]. rewrite (bind_eq _ _ _ _ _ (str_copy_eq t h)).
    unfold b6b_list_do_add. rewrite !bind_assoc.
    erewrite bind_eq by reflexivity. rewrite bind_assoc.
    erewrite bind_eq by (apply ref_eq; [apply lookup_insert_eq|done]).
    cbn [objs next h_os]. rewrite insert_insert_eq, bind_assoc.
    erewrite bind_eq by (apply update_obj_eq; simpl; by rewrite lookup_insert_ne).
    cbn [objs next h_os]. erewrite bind_eq by reflexivity.
    erewrite bind_eq by (apply unref_shared;
      [simpl; rewrite lookup_insert_ne by done; apply lookup_insert_eq|done]).
    cbn [objs next h_os]. f_equal. unfold h'. f_equal.
    rewrite (insert_insert_ne _ o (next h)) by done. by rewrite insert_insert_eq.
  - unfold h'. simpl. apply well_counted_alloc; [|by rewrite lookup_insert_ne|done..].
    eapply well_counted_update; [done|done| |done|].
    + unfold refs_of, list_refs, x'. simpl. by rewrite Hl.
    + by apply (wc_refc _ _ Hwc o x Hx).
  - intros p. unfold h'. simpl. rewrite lookup_insert. case_decide as Hp; [subst; lia|].
    rewrite lookup_insert. case_decide as Hpo; [subst p|];
      [pose proof (Hfr o (ex_intro _ _ Hx))|intros Hs%Hfr]; lia.
Qed.

Lemma add_tokens_ok o ts : ∀ R x h,
  well_counted R (objs h) → heap_fresh h → objs h !! o = Some x → f_list (o_flags x) = false →
  ∃ h' its, add_tokens o ts h = Done (tt, h') ∧
    well_counted ((li_o <$> its) ++ R) (objs h') ∧ heap_fresh h' ∧
    (next h ≤ next h')%N ∧ h_os h' = h_os h ∧
    objs h' !! o = Some (with_l (o_l x ++ its) x) ∧
    kept_below (next h) o (objs h) (objs h') ∧ new_items (next h) h' its ts.
Proof.
  induction ts as [|t ts IH]; intros R x h Hwc Hfr Hx Hl.
  { exists h, []. rewrite app_nil_r. split_and!; try done.
    - by destruct x.
    - split; [constructor..| |].
      + by intros it Hit%elem_of_nil.
      + intros p Hp Hs%Hfr. lia. }
  destruct (add_token_ok R o x t h Hwc Hfr Hx Hl) as (E1 & W1 & F1).
  assert (o ≠ next h) as Hne by (pose proof (Hfr o (ex_intro _ _ Hx)); lia).
  set (it := mkItem (N.succ (next h)) (next h)) in *.
  destruct (IH _ (with_l (o_l x ++ [it]) x) _ W1 F1)
    as (h' & its & E & W & F & Hn & Ho & Hx' & Hk & [N1 N2 N3 N4 N5]).
  { simpl. by rewrite lookup_insert_ne, lookup_insert_eq. }
  { done. }
  simpl in Hn, Ho. exists h', (it :: its). split_and!; [by rewrite E1| |done|lia|done| | |].
  - eapply well_counted_perm; [|exact W]. intros p. rewrite fmap_cons. cbn [app occ]. rewrite !occ_app. cbn [occ]. simpl. lia.
  - rewrite Hx'. simpl. by rewrite <- app_assoc.
  - intros p Hp Hlt. rewrite (Hk p Hp) by (simpl; lia). simpl.
    by rewrite !lookup_insert_ne by (done || lia).
  - split.
    + constructor.
      * simpl. split; [lia|]. rewrite (Hk (next h)) by (done || simpl; lia). simpl.
        by rewrite lookup_insert_eq.
      * eapply Forall2_impl; [exact N1|]. simpl. intros i s [A B]. split; [lia|done].
    + rewrite fmap_cons. constructor; [|done]. intros (i & Ei & Hi)%list_elem_of_fmap.
      pose proof (N4 i Hi) as Hb. simpl in Hb, Ei. rewrite <- Ei in Hb. lia.
    + rewrite fmap_cons. constructor; [|done]. intros (i & Ei & Hi)%list_elem_of_fmap.
      apply list_elem_of_lookup in Hi as [k Hi].
      destruct (Forall2_lookup_l _ _ _ _ _ N1 Hi) as (t' & _ & Hb & _). simpl in Hb, Ei.
      rewrite <- Ei in Hb. lia.
    + intros i [->|Hi]%elem_of_cons; [simpl; lia|]. pose proof (N4 i Hi) as Hb. simpl in Hb. lia.
    + intros p Hp Hs. rewrite fmap_cons. simpl. apply elem_of_cons.
      destruct (decide (p = next h)) as [|Hpn]; [by left|right].
      destruct (decide (p = N.succ (next h))) as [->|Hpn']; [|apply N5; [simpl; lia|done]].
      exfalso. destruct (decide (o = N.succ (next h))) as [Eo|Ho'].
      { pose proof (Hfr o (ex_intro _ _ Hx)). lia. }
      rewrite (Hk (N.succ (next h))) in Hs by (done || simpl; lia). simpl in Hs.
      rewrite !lookup_insert_ne in Hs by (done || lia). apply Hfr in Hs. lia.
Qed.

(** *** A syntax error *)

Lemma unref_new_str p t h :
  objs h !! p = Some (new_str t) →
  b6b_unref p h = Done (tt, mkHeap (delete p (objs h)) (next h) (h_os h)).
Proof.
  intros Hp. unfold b6b_unref. simpl. rewrite (bind_eq _ _ _ _ _ (read_obj_eq _ _ _ Hp)).
  simpl. rewrite (bind_eq _ _ _ _ _ (update_obj_eq _ _ _ _ Hp)). simpl.
  unfold b6b_destroy_with.
  erewrite bind_eq by (apply read_obj_eq; simpl; apply lookup_insert_eq).
  simpl. erewrite bind_eq by reflexivity. erewrite bind_eq by reflexivity.
  erewrite free_obj_eq by (simpl; apply lookup_insert_eq). simpl. by rewrite delete_insert_eq.
Qed.

Lemma Forall2_impl_elem {A B} (P Q : A → B → Prop) l k :
  Forall2 P l k → (∀ x y, x ∈ l → P x y → Q x y) → Forall2 Q l k.
Proof.
  induction 1 as [|x y l k Hx HF IH]; intros Himp; [done|]. constructor.
  - apply Himp; [by left|done].
  - apply IH. intros. apply Himp; [by right|done].
Qed.

Lemma drop_new_items R its ts : ∀ h,
  Forall2 (λ it t, objs h !! li_o it = Some (new_str t)) its ts → NoDup (li_o <$> its) →
  well_counted ((li_o <$> its) ++ R) (objs h) →
  ∃ h', miter b6b_unref (li_o <$> its) h = Done (tt, h') ∧
    next h' = next h ∧ well_counted R (objs h') ∧
    (∀ p, p ∉ li_o <$> its → objs h' !! p = objs h !! p) ∧
    (∀ p, p ∈ li_o <$> its → objs h' !! p = None).
Proof.
  revert ts. induction its as [|it its IH]; intros ts h HF Hnd Hwc.
  { exists h. split_and!; try done. by intros p Hp%elem_of_nil. }
  apply Forall2_cons_inv_l in HF as (t & ts' & Ht & HF & ->).
  rewrite fmap_cons in *. apply NoDup_cons in Hnd as [Hit Hnd].
  destruct (IH ts' (mkHeap (delete (li_o it) (objs h)) (next h) (h_os h)))
    as (h' & E & N & W & K & G); [|done|..].
  { eapply Forall2_impl_elem; [exact HF|]. intros i u Hi Hu. simpl.
    rewrite lookup_delete_ne; [done|]. intros Eq. apply Hit. rewrite Eq.
    by apply list_elem_of_fmap_2. }
  { exact (well_counted_last _ _ _ _ Hwc Ht eq_refl). }
  simpl in N. exists h'. cbn [miter]. rewrite (bind_eq _ _ _ _ _ (unref_new_str _ _ _ Ht)).
  split_and!; [done..| |].
  - intros p [Hp Hp']%not_elem_of_cons. rewrite K by done. simpl. by rewrite lookup_delete_ne.
  - intros p [->|Hp]%elem_of_cons; [|by apply G]. rewrite K by done. simpl. apply lookup_delete_eq.
Qed.

(** A list that takes over the references to its new items. *)
Lemma fill_ok R o x its h :
  well_counted ((li_o <$> its) ++ R) (objs h) → objs h !! o = Some (with_l its x) →
  f_list (o_flags x) = false →
  well_counted R (<[o := with_flags (set_list true) (with_l its x)]> (objs h)).
Proof.
  intros Hwc Hx Hl. eapply well_counted_give; [exact Hwc|exact Hx| |done|].
  - intros p. unfold refs_of, list_refs. cbn [with_flags with_l o_flags o_l set_list f_list].
    rewrite Hl. by rewrite occ_app.
  - exact (proj2 (proj2 (wc_refc _ _ Hwc o _ Hx))).
Qed.

Lemma insert_fresh h h' o x :
  heap_fresh h → is_Some (objs h !! o) → objs h' = <[o := x]> (objs h) → next h' = next h →
  heap_fresh h'.
Proof.
  intros Hfr Ho E Hn p. rewrite E, Hn, lookup_insert.
  case_decide as Hp; [subst p; intros _; by apply Hfr|apply Hfr].
Qed.

(** After [b6b_as_list] of an object [x] at [o] with the tokens [ts]. *)
Record as_list_ok (R : list loc) (o : loc) (x : b6b_obj) (ts : list bytes) (ok : bool)
    (h h' : heap) : Prop := {
  al_counted : well_counted R (objs h');
  al_fresh : heap_fresh h';
  al_next : (next h ≤ next h')%N;
  al_kept : kept_below (next h) o (objs h) (objs h');
  al_obj : ∃ its,
    objs h' !! o = Some (with_flags (set_list ok) (with_l its x)) ∧
    if ok then new_items (next h) h' its ts
    else ∀ p, (next h ≤ p)%N → objs h' !! p = None
}.

(** Dropping the items that were added before a syntax error. *)
Lemma drop_tokens_ok R n o x its ts h :
  well_counted ((li_o <$> its) ++ R) (objs h) → heap_fresh h → new_items n h its ts →
  objs h !! o = Some (with_l its x) → (o < n)%N →
  ∃ h', b6b_destroy_l o h = Done (tt, h') ∧ well_counted R (objs h') ∧ heap_fresh h' ∧
    next h' = next h ∧ (∀ p, (p < n)%N → objs h' !! p = objs h !! p) ∧
    ∀ p, (n ≤ p)%N → objs h' !! p = None.
Proof.
  intros Hwc Hfr [I1 I2 I3 I4 I5] Hx Hon.
  destruct (drop_new_items R its ts h) as (h' & E & N & W & K & G); [|done..|].
  { eapply Forall2_impl_elem; [exact I1|]. by intros it t _ [_ Ht]. }
  assert (∀ p, p ∈ li_o <$> its → (n ≤ p)%N) as Hge.
  { intros p Hp. apply list_elem_of_lookup in Hp as [k Hp].
    rewrite list_lookup_fmap in Hp. apply fmap_Some in Hp as (it & Hk & ->).
    by destruct (Forall2_lookup_l _ _ _ _ _ I1 Hk) as (t & _ & ? & _). }
  exists h'. split_and!; [|done| |done| |].
  - unfold b6b_destroy_l, b6b_destroy_l_with. rewrite (bind_eq _ _ _ _ _ (read_obj_eq _ _ _ Hx)).
    rewrite <- miter_fmap. exact E.
  - intros p Hp. rewrite N. apply Hfr. destruct (decide (p ∈ li_o <$> its)) as [Hin|Hin].
    + rewrite (G p Hin) in Hp. by destruct Hp.
    + by rewrite K in Hp.
  - intros p Hp. apply K. intros Hin%Hge. lia.
  - intros p Hp. destruct (decide (p ∈ li_o <$> its)) as [Hin|Hin]; [by apply G|].
    rewrite K by done. destruct (objs h !! p) eqn:Ep; [|done].
    destruct Hin. apply I5; [done|by eexists].
Qed.

Lemma as_list_tokens R o x h ts ok :
  well_counted R (objs h) → heap_fresh h → objs h !! o = Some (with_l [] x) →
  f_list (o_flags x) = false →
  ∃ h', (add_tokens o ts;;
         b ← (if ok : bool then mret true else b6b_destroy_l o;; mret false);
         if negb b then mret false else update_obj o (with_flags (set_list true));; mret true) h
      = Done (ok, h') ∧ as_list_ok R o x ts ok h h'.
Proof.
  intros Hwc Hfr Hx Hl. pose proof (Hfr o (ex_intro _ _ Hx)) as Hon.
  destruct (add_tokens_ok o ts R _ h Hwc Hfr Hx Hl)
    as (h1 & its & E1 & W1 & F1 & N1 & _ & Hx1 & K1 & I1).
  change (objs h1 !! o = Some (with_l its x)) in Hx1. rewrite (bind_eq _ _ _ _ _ E1).
  destruct ok.
  - erewrite bind_eq by reflexivity. cbn [negb].
    rewrite (bind_eq _ _ _ _ _ (update_obj_eq _ _ _ _ Hx1)). eexists. split; [done|].
    destruct I1 as [I1 I2 I3 I4 I5].
    split; simpl; [by eapply fill_ok|by eapply insert_fresh; [exact F1|by eexists|..]|done| |].
    + intros p Hp Hlt. rewrite lookup_insert_ne by done. by apply K1.
    + exists its. rewrite lookup_insert_eq. split; [done|]. split; [|done..|].
      * eapply Forall2_impl_elem; [exact I1|]. intros it t Hit [Hge Ht]. split; [done|].
        simpl. by rewrite lookup_insert_ne by (intros ->; lia).
      * intros p Hp. simpl. rewrite lookup_insert. case_decide; [subst p; lia|by apply I5].
  - destruct (drop_tokens_ok R _ _ _ _ _ h1 W1 F1 I1 Hx1 Hon) as (h2 & E2 & W2 & F2 & N2 & K2 & G2).
    exists h2. split; [by rewrite bind_assoc, (bind_eq _ _ _ _ _ E2)|].
    split; [done|done|lia| |].
    + intros p Hp Hlt. rewrite K2 by done. by apply K1.
    + exists its. rewrite K2, Hx1 by done. split; [|done].
      destruct x as [???????? ? []]. simpl in Hl. by subst.
Qed.

Lemma as_list_total R o x h :
  well_counted R (objs h) → heap_fresh h → objs h !! o = Some x →
  f_list (o_flags x) = false → f_str (o_flags x) = true →
  ∃ h', b6b_as_list o h = Done (snd (b6b_do_as_list (o_s x)), h') ∧
    as_list_ok R o x (fst (b6b_do_as_list (o_s x))) (snd (b6b_do_as_list (o_s x))) h h'.
Proof.
  intros Hwc Hfr Hx Hl Hs.
  set (h1 := mkHeap (<[o := with_l [] x]> (objs h)) (next h) (h_os h)).
  destruct (b6b_do_as_list (o_s x)) as [ts ok] eqn:Et.
  destruct (as_list_tokens R o x h1 ts ok) as (h' & E & [A1 A2 A3 A4 A5]); [..|done|].
  - apply (well_counted_update _ _ _ x); [done..| |done|by apply (wc_refc _ _ Hwc o x Hx)].
    unfold refs_of, list_refs. simpl. by rewrite Hl.
  - by eapply insert_fresh; [exact Hfr|by eexists|..].
  - simpl. apply lookup_insert_eq.
  - exists h'. split.
    + unfold b6b_as_list. rewrite (bind_eq _ _ _ _ _ (read_obj_eq _ _ _ Hx)), Hl.
      assert (b6b_as_str o h = Done (true, h)) as E1.
      { unfold b6b_as_str. cbn [b6b_as_str_fuel].
        by rewrite (bind_eq _ _ _ _ _ (read_obj_eq _ _ _ Hx)), Hs. }
      rewrite (bind_eq _ _ _ _ _ E1). cbn [negb].
      rewrite (bind_eq _ _ _ _ _ (update_obj_eq _ _ _ _ Hx)). fold h1.
      assert (text o h1 = Done (o_s x, h1)) as E2.
      { apply text_eq. exists (with_l [] x). unfold h1. simpl. by rewrite lookup_insert_eq. }
      rewrite (bind_eq _ _ _ _ _ E2). unfold b6b_do_as_list_obj. rewrite Et, bind_assoc. exact E.
    + split; [done..| |done]. intros p Hp Hlt. rewrite (A4 p Hp Hlt). simpl.
      by rewrite lookup_insert_ne.
Qed.

(** ** Properties *)

(** C16: an object with a text becomes the list the text stands for: new string
    objects with the tokens, held by the list alone, in new nodes. Uneven braces
    or brackets make the conversion fail, and nothing of it is left. Either way
    no other object changes and all counts are right. *)
Theorem b6b_as_list_correct R o x ts ok h :
  well_counted R (objs h) → heap_fresh h → objs h !! o = Some x →
  f_list (o_flags x) = false → f_str (o_flags x) = true →
  b6b_do_as_list (o_s x) = (ts, ok) →
  ∃ h' its, b6b_as_list o h = Done (ok, h') ∧ well_counted R (objs h') ∧
    kept_below (next h) o (objs h) (objs h') ∧
    objs h' !! o = Some (with_flags (set_list ok) (with_l its x)) ∧
    if ok then new_items (next h) h' its ts else ∀ p, (next h ≤ p)%N → objs h' !! p = None.
Proof.
  intros Hwc Hfr Hx Hl Hs Et.
  destruct (as_list_total R o x h Hwc Hfr Hx Hl Hs) as (h' & E & A). rewrite Et in E, A.
  destruct A as [A1 A2 A3 A4 (its & Hx' & A5)]. by exists h', its.
Qed.

Lemma b6b_as_list_correct_witness :
  let h := mkHeap {[ 0%N := new_str (lit "x {y z} [w]") ]} 1 no_os in
  ∃ h' its, b6b_as_list 0 h = Done (true, h') ∧ well_counted [0%N] (objs h') ∧
    kept_below (next h) 0%N (objs h) (objs h') ∧
    objs h' !! 0%N = Some (with_flags (set_list true) (with_l its (new_str (lit "x {y z} [w]")))) ∧
    new_items (next h) h' its [lit "x"; lit "y z"; lit "[w]"].
Proof.
  apply (b6b_as_list_correct [0%N] 0%N (new_str (lit "x {y z} [w]")) _ true);
    [| |reflexivity..].
  - apply wc_check_sound. vm_compute. reflexivity.
  - intros o [x Hx]. simpl in Hx. apply lookup_singleton_Some in Hx as [<- _]. done.
Defined.
