(* ===== verification/Dict.v ===== *)
(** * Dictionaries

    src/b6b_dict.c: a dictionary is a list object whose items alternate between
    keys and values; keys are compared by hash and text. *)
From Stdlib Require Import ZArith Lia Init.Byte Strings.String.
From stdpp Require Import base option list numbers gmap.
From S2P Require Import Prelude Sys Float64 Hash Parse Heap Repr ListObj.
#[local] Open Scope Z_scope.

(** [b6b_obj_eq(a, b)] on addresses. *)
Definition obj_eq_at (a b : loc) : HM bool :=
  x ← read_obj a; y ← read_obj b; mret (b6b_obj_eq x y).

(** [vli->o = v], for the node [vli] of [d]. *)
Definition set_item (d : loc) (vli : N) (v : loc) : HM unit :=
  update_obj d (λ x, with_l
    ((λ it, if decide (li_id it = vli) then mkItem vli v else it) <$> o_l x) x).

(** The outcome of the search loops: the list is malformed, the key is not
    there, or the nodes of the key and its value. *)
Inductive found : Set :=
| Malformed
| Absent
| At (kli vli : b6b_litem).

(** The loop of [b6b_dict_set]: hashes the key before it looks for the value. *)
Fixpoint dict_set_find (k : loc) (items : list b6b_litem) : HM found :=
  match items with
  | [] => mret Absent
  | kli :: rest =>
      ok ← b6b_obj_hash (li_o kli);
      if negb ok then mret Malformed
      else
        match rest with
        | [] => mret Malformed
        | vli :: rest' =>
            eq ← obj_eq_at (li_o kli) k;
            if eq : bool then mret (At kli vli) else dict_set_find k rest'
        end
  end.

Definition b6b_dict_set (d k v : loc) : HM bool :=
  ok ← b6b_obj_hash k;
  if negb ok then mret false
  else
    x ← read_obj d;
    r ← dict_set_find k (o_l x);
    match r with
    | Malformed => mret false
    | At _ vli =>
        b6b_unref (li_o vli);;
        b6b_ref v;;
        set_item d (li_id vli) v;;
        b6b_list_flush d;;
        mret true
    | Absent =>
        ok ← b6b_list_add d k;
        if negb ok then mret false
        else
          ok ← b6b_list_add d v;
          if negb ok then
            o ← b6b_list_pop d None; o ← deref o; b6b_unref o;; mret false
          else mret true
    end.

(** The loop of [b6b_dict_get] and [b6b_dict_unset]. *)
Fixpoint dict_find (k : loc) (items : list b6b_litem) : HM found :=
  match items with
  | [] => mret Absent
  | kli :: rest =>
      match rest with
      | [] => mret Malformed
      | vli :: rest' =>
          ok ← b6b_obj_hash (li_o kli);
          if negb ok then mret Malformed
          else
            eq ← obj_eq_at (li_o kli) k;
            if eq : bool then mret (At kli vli) else dict_find k rest'
      end
  end.

(** The result is the return value and what [*v] receives, when it is set. *)
Definition b6b_dict_get (d k : loc) : HM (bool * option loc) :=
  ok ← b6b_obj_hash k;
  if negb ok then mret (false, None)
  else
    x ← read_obj d;
    r ← dict_find k (o_l x);
    match r with
    | Malformed => mret (false, None)
    | At _ vli => mret (true, Some (li_o vli))
    | Absent => mret (true, None)
    end.

Definition b6b_dict_unset (d k : loc) : HM bool :=
  ok ← b6b_obj_hash k;
  if negb ok then mret false
  else
    x ← read_obj d;
    r ← dict_find k (o_l x);
    match r with
    | Malformed => mret false
    | At kli vli =>
        o ← b6b_list_pop d (Some (li_id kli)); o ← deref o; b6b_unref o;;
        o ← b6b_list_pop d (Some (li_id vli)); o ← deref o; b6b_unref o;;
        mret true
    | Absent => mret true
    end.

(** ** The abstract dictionary *)

(** [d] holds the pairs [kvs] of key texts and value objects, in order. *)
Fixpoint pairs_of (m : gmap loc b6b_obj) (items : list b6b_litem) (kvs : list (bytes * loc)) : Prop :=
  match items, kvs with
  | [], [] => True
  | kli :: vli :: rest, (s, v) :: kvs' =>
      text_of m (li_o kli) s ∧ li_o vli = v ∧ pairs_of m rest kvs'
  | _, _ => False
  end.

(** The texts of the keys do not depend on the dictionary itself. *)
Definition dict_holds (m : gmap loc b6b_obj) (d : loc) (kvs : list (bytes * loc)) : Prop :=
  ∃ x, m !! d = Some x ∧ f_list (o_flags x) = true ∧ pairs_of (delete d m) (o_l x) kvs.

(** The value of the first pair with the key [s]. *)
Fixpoint assoc (s : bytes) (kvs : list (bytes * loc)) : option loc :=
  match kvs with
  | [] => None
  | (k, v) :: kvs' => if decide (k = s) then Some v else assoc s kvs'
  end.

Lemma pairs_of_impl m m' items kvs :
  (∀ it s, it ∈ items → text_of m (li_o it) s → text_of m' (li_o it) s) →
  pairs_of m items kvs → pairs_of m' items kvs.
Proof.
  revert items. induction kvs as [|[s v] kvs IH]; intros items Ht Hp.
  - by destruct items as [|? []].
  - destruct items as [|kli [|vli rest]]; [done..|].
    destruct Hp as (H1 & H2 & H3). split_and!; [by apply Ht; [left|]|done|].
    apply IH; [|done]. intros it u Hit. apply Ht. by do 2 right.
Qed.

Lemma pairs_of_ext m m' items kvs :
  ext m m' → pairs_of m items kvs → pairs_of m' items kvs.
Proof. intros He. apply pairs_of_impl. intros it s _. by apply ext_text. Qed.

Lemma text_of_delete m d o s : text_of (delete d m) o s → text_of m o s.
Proof. intros [n Hn]. exists n. by eapply sval_delete. Qed.

Lemma pairs_of_delete m d items kvs : pairs_of (delete d m) items kvs → pairs_of m items kvs.
Proof. apply pairs_of_impl. intros it s _. apply text_of_delete. Qed.

(** Caching changes no text, also among the texts that do not depend on [d]. *)
Lemma ext_sval_delete n m m' d o s :
  ext m m' → sval n (delete d m) o = Some s → sval n (delete d m') o = Some s.
Proof.
  intros He. revert o s. induction n as [|n IH]; intros o s H; [done|].
  pose proof H as Hs. rewrite sval_S in H |- *.
  destruct (delete d m !! o) as [x|] eqn:Ex; [|done].
  apply lookup_delete_Some in Ex as [Hne Ex].
  destruct (ext_lookup _ _ _ _ He Ex) as (x' & Ex' & [(t & hs & fs & fh & Hx') Hstr Hnew _ _]).
  rewrite lookup_delete_ne, Ex' by done. simpl in *.
  destruct (f_str (o_flags x)) eqn:Ef.
  { destruct (Hstr eq_refl) as [-> ->]. done. }
  destruct (f_str (o_flags x')) eqn:Ef'.
  { f_equal. eapply text_of_det; [by apply Hnew|]. apply (text_of_delete m d). by exists (S n). }
  subst x'. simpl. destruct (f_list _); [|done].
  apply fmap_Some in H as (ts & H & ->). apply fmap_Some. exists ts. split; [|done].
  eapply mapM_impl; [|exact H]. intros. by apply IH.
Qed.

Lemma dict_holds_ext m m' d kvs : ext m m' → dict_holds m d kvs → dict_holds m' d kvs.
Proof.
  intros He (x & Hx & Hl & Hp).
  destruct (ext_lookup _ _ _ _ He Hx) as (x' & Hx' & [(? & ? & ? & ? & ->) _ _ _ _]).
  eexists. split; [exact Hx'|]. split; [done|]. eapply pairs_of_impl; [|exact Hp].
  intros it s _ [n Hn]. exists n. by eapply ext_sval_delete.
Qed.

Lemma ext_holds_hash m m' o s :
  ext m m' → holds_hash m o s → holds_hash m' o s.
Proof.
  intros He (x & Hx & Hf & Hs & Hh & Hv).
  destruct (ext_lookup _ _ _ _ He Hx) as (x' & Hx' & Ho).
  destruct (oe_str _ _ _ _ Ho Hf) as [Hf' Hs'].
  pose proof (oe_hashed _ _ _ _ Ho Hh) as Hh'.
  destruct (oe_hash _ _ _ _ Ho) as [_ Hv'].
  { intros _. by rewrite Hs. }
  { done. }
  exists x'. split_and!; congruence.
Qed.

Lemma obj_eq_at_ok a b s t h :
  holds_hash (objs h) a s → holds_hash (objs h) b t →
  obj_eq_at a b h = Done (bool_decide (s = t), h).
Proof.
  intros (x & Hx & _ & Hs & _ & Hv) (y & Hy & _ & Ht & _ & Hw). unfold obj_eq_at.
  rewrite (bind_eq _ _ _ _ _ (read_obj_eq _ _ _ Hx)).
  rewrite (bind_eq _ _ _ _ _ (read_obj_eq _ _ _ Hy)).
  unfold mret, M_ret. rewrite obj_eq_spec by congruence. by rewrite Hs, Ht.
Qed.

(** The search finds the first pair with the key, on a dictionary whose keys
    all have texts. *)
Definition find_result (items : list b6b_litem) (kvs : list (bytes * loc)) (s : bytes) : found :=
  (fix go items kvs :=
     match items, kvs with
     | kli :: vli :: rest, (k, _) :: kvs' =>
         if decide (k = s) then At kli vli else go rest kvs'
     | _, _ => Absent
     end) items kvs.

Lemma dict_find_ok k s items kvs h :
  hashes_ok (objs h) → pairs_of (objs h) items kvs → holds_hash (objs h) k s →
  ∃ h', dict_find k items h = Done (find_result items kvs s, h') ∧
    ext (objs h) (objs h') ∧ next h' = next h.
Proof.
  revert items h. induction kvs as [|[t v] kvs IH]; intros items h Hok Hp Hk.
  { destruct items as [|? []]; [|done..]. by exists h. }
  destruct items as [|kli [|vli rest]]; [done..|]. destruct Hp as (H1 & H2 & H3).
  destruct (obj_hash_total (li_o kli) t h Hok H1) as (h1 & E1 & X1 & N1 & T1).
  cbn [dict_find]. rewrite (bind_eq _ _ _ _ _ E1). cbn.
  pose proof (ext_holds_hash _ _ _ _ X1 Hk) as Hk1.
  rewrite (bind_eq _ _ _ _ _ (obj_eq_at_ok _ _ _ _ _ T1 Hk1)).
  case_bool_decide as Heq.
  - rewrite decide_True by done. by exists h1.
  - rewrite decide_False by done.
    destruct (IH rest h1) as (h2 & E2 & X2 & N2);
      [by eapply ext_hashes_ok|by eapply pairs_of_ext|done|].
    exists h2. split_and!; [done|by etrans|congruence].
Qed.

Lemma find_result_assoc items kvs s m :
  pairs_of m items kvs →
  match find_result items kvs s with
  | At kli vli => assoc s kvs = Some (li_o vli)
  | Absent => assoc s kvs = None
  | Malformed => False
  end.
Proof.
  revert items. induction kvs as [|[t v] kvs IH]; intros items Hp.
  { by destruct items as [|? []]. }
  destruct items as [|kli [|vli rest]]; [done..|]. destruct Hp as (H1 & H2 & H3).
  simpl. case_decide; [by subst|]. by apply IH.
Qed.

(** ** Storing *)

(** The dictionary after the value of the first pair with the key [s] became
    [v], or the pair was added at the end. *)
Fixpoint dict_upd (s : bytes) (v : loc) (kvs : list (bytes * loc)) : list (bytes * loc) :=
  match kvs with
  | [] => [(s, v)]
  | (k, w) :: kvs' => if decide (k = s) then (k, v) :: kvs' else (k, w) :: dict_upd s v kvs'
  end.

(** [d] is a list object with nodes of its own that holds the pairs [kvs]. *)
Definition dict_at (h : heap) (d : loc) (kvs : list (bytes * loc)) : Prop :=
  ∃ x, list_at h d x ∧ pairs_of (delete d (objs h)) (o_l x) kvs.

Lemma dict_at_holds h d kvs : dict_at h d kvs → dict_holds (objs h) d kvs.
Proof. intros (x & [] & H). by exists x. Qed.

Lemma list_at_ext h h' d x :
  ext (objs h) (objs h') → next h' = next h → list_at h d x →
  ∃ x', list_at h' d x' ∧ o_l x' = o_l x.
Proof.
  intros He Hn [L1 L2 L3 L4].
  destruct (ext_lookup _ _ _ _ He L1) as (x' & Hx' & [(? & ? & ? & ? & ->) _ _ _ _]).
  eexists. split; [split; [exact Hx'|done|done|]|done]. intros it Hit. rewrite Hn. by apply L4.
Qed.

Lemma dict_at_ext h h' d kvs :
  ext (objs h) (objs h') → next h' = next h → dict_at h d kvs → dict_at h' d kvs.
Proof.
  intros He Hn (x & Hl & Hp). destruct (list_at_ext h h' d x He Hn Hl) as (x' & Hl' & E).
  exists x'. split; [done|]. rewrite E. eapply pairs_of_impl; [|exact Hp].
  intros it s _ [n Hs]. exists n. by eapply ext_sval_delete.
Qed.

(** Texts survive a heap that shrinks but stays well counted. *)
Lemma text_kept R d m m' o s :
  well_counted R m' → shrinks (delete d m) (delete d m') → is_Some (m' !! o) →
  text_of (delete d m) o s → text_of (delete d m') o s.
Proof.
  intros Hwc Hsh Ho [n Hn]. exists n. revert o s Ho Hn.
  induction n as [|n IH]; intros o s [x' Hx'] Hn; [done|]. rewrite sval_S in Hn |- *.
  destruct (delete d m !! o) as [x|] eqn:Ex; [|done].
  pose proof Ex as [Hne _]%lookup_delete_Some.
  assert (delete d m' !! o = Some x') as Ex' by (by rewrite lookup_delete_ne).
  rewrite Ex'. destruct (Hsh o x' Ex') as (y & Hy & Hr). rewrite Ex in Hy. injection Hy as <-.
  rewrite Hr. simpl in Hn |- *. destruct (f_str _); [done|].
  destruct (f_list (o_flags x)) eqn:Hl; [|done].
  apply fmap_Some in Hn as (ts & H & ->). apply fmap_Some. exists ts. split; [|done].
  eapply mapM_impl; [|exact H]. intros it t Hit. apply IH.
  apply (well_counted_closed R m' o x'); [done..|]. rewrite Hr, refs_of_list by done.
  apply elem_of_app. left. by apply list_elem_of_fmap_2.
Qed.

Lemma pairs_kept R d x' m m' items kvs :
  well_counted R m' → m' !! d = Some x' → f_list (o_flags x') = true →
  (∀ it, it ∈ items → li_o it ∈ li_o <$> o_l x') →
  shrinks (delete d m) (delete d m') →
  pairs_of (delete d m) items kvs → pairs_of (delete d m') items kvs.
Proof.
  intros Hwc Hx' Hl Hin Hsh. apply pairs_of_impl. intros it s Hit.
  apply (text_kept R); [done..|]. apply (well_counted_closed R m' d x'); [done..|].
  rewrite refs_of_list by done. apply elem_of_app. left. by apply Hin.
Qed.

Lemma hashes_kept d m m' x' :
  hashes_ok m → shrinks (delete d m) (delete d m') → m' !! d = Some x' → hash_ok x' →
  hashes_ok m'.
Proof.
  intros Hok Hsh Hx' Hd o y Hy. destruct (decide (o = d)) as [->|Hne].
  { rewrite Hx' in Hy. by injection Hy as <-. }
  destruct (Hsh o y) as (z & Hz & ->); [by rewrite lookup_delete_ne|].
  apply lookup_delete_Some in Hz as [_ Hz]. exact (Hok o z Hz).
Qed.

Lemma same_but_shrinks l m m' : same_but l m m' → shrinks (delete l m) (delete l m').
Proof.
  intros H p x' [Hne Hx']%lookup_delete_Some. specialize (H p ltac:(done)).
  rewrite Hx' in H. destruct (m !! p) as [x|] eqn:E; [|done]. exists x.
  split; [by rewrite lookup_delete_ne|exact H].
Qed.

Lemma pairs_of_app m i1 i2 k1 k2 :
  pairs_of m i1 k1 → pairs_of m i2 k2 → pairs_of m (i1 ++ i2) (k1 ++ k2).
Proof.
  revert i1. induction k1 as [|[s v] k1 IH]; intros i1 H1 H2.
  - by destruct i1 as [|? []].
  - destruct i1 as [|a [|b i1]]; [done..|]. destruct H1 as (A & B & C).
    split_and!; [done..|by apply IH].
Qed.

(** Where the search stops, and what an update changes there. *)
Lemma find_At_split m items kvs s kli vli :
  pairs_of m items kvs → find_result items kvs s = At kli vli →
  ∃ i1 i2 k1 k2, items = i1 ++ kli :: vli :: i2 ∧ pairs_of m i1 k1 ∧ pairs_of m i2 k2 ∧
    text_of m (li_o kli) s ∧ ∀ v, dict_upd s v kvs = k1 ++ (s, v) :: k2.
Proof.
  revert items. induction kvs as [|[t w] kvs IH]; intros items Hp Hf.
  { by destruct items as [|? []]. }
  destruct items as [|a [|b items]]; [done..|]. destruct Hp as (H1 & H2 & H3).
  simpl in Hf |- *. destruct (decide (t = s)) as [->|Hts].
  - injection Hf as <- <-. by exists [], items, [], kvs.
  - destruct (IH items H3 Hf) as (i1 & i2 & k1 & k2 & -> & P1 & P2 & P3 & P4).
    exists (a :: b :: i1), i2, ((t, w) :: k1), k2. split_and!; [done..|].
    intros v. by rewrite P4.
Qed.

Lemma find_Absent_upd m items kvs s v :
  pairs_of m items kvs → find_result items kvs s = Absent → dict_upd s v kvs = kvs ++ [(s, v)].
Proof.
  revert items. induction kvs as [|[t w] kvs IH]; intros items Hp Hf; [done|].
  destruct items as [|a [|b items]]; [done..|]. destruct Hp as (_ & _ & H3).
  simpl in Hf |- *. destruct (decide (t = s)); [done|]. by rewrite (IH items).
Qed.

(** On whole pairs both search loops do the same. *)
Lemma dict_set_find_eq m k items kvs h :
  pairs_of m items kvs → dict_set_find k items h = dict_find k items h.
Proof.
  revert items h. induction kvs as [|[t w] kvs IH]; intros items h Hp.
  { by destruct items as [|? []]. }
  destruct items as [|a [|b items]]; [done..|]. destruct Hp as (_ & _ & H3).
  cbn [dict_set_find dict_find]. unfold mbind, M_bind.
  destruct (b6b_obj_hash _ _) as [[[] h1]| |]; [cbn|done..].
  destruct (obj_eq_at _ _ _) as [[[] h2]| |]; [done|by apply IH|done..].
Qed.

(** A reference to [v] taken behind the nodes of [d]. *)
Lemma take_behind (d v : loc) l y z (m : gmap loc b6b_obj) :
  m !! d = Some y → m !! v = Some z →
  ∃ z' r, <[d := with_l l y]> m !! v = Some z' ∧ o_refc z' = o_refc z ∧
    (<[v := with_refc (o_refc z + 1) z']> (<[d := with_l l y]> m)) !! d
      = Some (with_l l (with_refc r y)) ∧
    (<[v := with_refc (o_refc z + 1) z]> m) !! d = Some (with_refc r y) ∧
    ∀ w, <[d := w]> (<[v := with_refc (o_refc z + 1) z']> (<[d := with_l l y]> m))
      = <[d := w]> (<[v := with_refc (o_refc z + 1) z]> m).
Proof.
  intros Hd Hv. destruct (decide (v = d)) as [->|Hne].
  - rewrite Hd in Hv. injection Hv as <-. exists (with_l l y), (o_refc y + 1).
    rewrite !lookup_insert_eq. split_and!; [done..|].
    intros w. by rewrite !insert_insert_eq.
  - exists z, (o_refc y). rewrite lookup_insert_ne by done. split_and!; [done|done|..].
    + rewrite lookup_insert_ne, lookup_insert_eq by done. by destruct y.
    + rewrite lookup_insert_ne, Hd by done. by destruct y.
    + intros w. rewrite (insert_insert_ne _ d v) by done. rewrite insert_insert_eq.
      by rewrite (insert_insert_ne _ d v).
Qed.

(** The program refers to [v], or to an object other than [d] that does. *)
Definition held (R : list loc) (d : loc) (h : heap) (v : loc) : Prop :=
  v ∈ R ∨ ∃ a x, a ∈ R ∧ a ≠ d ∧ objs h !! a = Some x ∧ v ∈ refs_of x.

(** Every object of [h'] but [d] is one of [h], and has the same items and
    private data; no address below [next] became free to use again. *)
Definition others_kept (d : loc) (h h' : heap) : Prop :=
  (next h ≤ next h')%N ∧
  ∀ o x', o ≠ d → objs h' !! o = Some x' →
    ∃ x, objs h !! o = Some x ∧ o_l x' = o_l x ∧ refs_of x' = refs_of x ∧
      f_list (o_flags x') = f_list (o_flags x).

Lemma others_kept_trans d h1 h2 h3 :
  others_kept d h1 h2 → others_kept d h2 h3 → others_kept d h1 h3.
Proof.
  intros [N1 K1] [N2 K2]. split; [lia|]. intros o x3 Ho H3.
  destruct (K2 o x3 Ho H3) as (x2 & H2 & A2 & B2 & C2).
  destruct (K1 o x2 Ho H2) as (x1 & H1 & A1 & B1 & C1).
  exists x1. split_and!; [done|congruence..].
Qed.

Lemma others_kept_ext d h h' :
  ext (objs h) (objs h') → next h' = next h → others_kept d h h'.
Proof.
  intros He Hn. split; [lia|]. intros o x' _ Hx'.
  destruct (ext_lookup_inv _ _ _ _ He Hx') as (x & Hx & [(? & ? & ? & ? & ->) _ _ _ _]).
  by exists x.
Qed.

Lemma others_kept_shrinks d h h' :
  shrinks (delete d (objs h)) (delete d (objs h')) → (next h ≤ next h')%N → others_kept d h h'.
Proof.
  intros Hs Hn. split; [done|]. intros o x' Ho Hx'.
  destruct (Hs o x') as (x & Hx & ->); [by rewrite lookup_delete_ne|].
  apply lookup_delete_Some in Hx as [_ Hx]. by exists x.
Qed.

Lemma held_kept R d h h' v :
  well_counted R (objs h') → others_kept d h h' → held R d h v → held R d h' v.
Proof.
  intros Hwc [_ Hk] [Hv|(a & x & Ha & Hne & Hx & Hv)]; [by left|right].
  destruct (well_counted_root _ _ _ Hwc Ha) as (x' & Hx' & _).
  destruct (Hk a x' Hne Hx') as (y & Hy & _ & Hr & _). rewrite Hx in Hy. injection Hy as <-.
  exists a, x'. split_and!; [done..|congruence].
Qed.

Lemma held_live R d h v : well_counted R (objs h) → held R d h v → is_Some (objs h !! v).
Proof.
  intros Hwc [Hv|(a & x & Ha & Hne & Hx & Hv)].
  - destruct (well_counted_root _ _ _ Hwc Hv) as (y & Hy & _). by eexists.
  - exact (well_counted_closed _ _ _ _ _ Hwc Hx Hv).
Qed.

(** The node after [i1] gets the object [v]: the old one loses a reference. *)
Definition replace_value (d : loc) (vli : b6b_litem) (v : loc) : HM bool :=
  b6b_unref (li_o vli);;
  b6b_ref v;;
  set_item d (li_id vli) v;;
  b6b_list_flush d;;
  mret true.

Lemma set_item_at i1 vli i2 v :
  NoDup (li_id <$> i1 ++ vli :: i2) →
  (λ it, if decide (li_id it = li_id vli) then mkItem (li_id vli) v else it) <$> i1 ++ vli :: i2
    = i1 ++ mkItem (li_id vli) v :: i2.
Proof.
  rewrite fmap_app, fmap_cons. intros (H1 & H2 & [H3 H4]%NoDup_cons)%NoDup_app.
  set (f := λ it, if decide (li_id it = li_id vli) then mkItem (li_id vli) v else it).
  assert (∀ l : list b6b_litem, li_id vli ∉ li_id <$> l → f <$> l = l) as Hid.
  { induction l as [|it l IH]; [done|]. rewrite fmap_cons, not_elem_of_cons. intros [Hn Hl].
    rewrite fmap_cons, IH by done. unfold f. by rewrite decide_False by congruence. }
  assert (f vli = mkItem (li_id vli) v) as Hv by (unfold f; by rewrite decide_True).
  rewrite fmap_app, fmap_cons, (Hid i2), Hv by done. rewrite Hid; [done|].
  intros Hin. apply (H2 _ Hin). by left.
Qed.

(** Dropping the object of a node, seen as taking the node out first: the
    conversion of the list is not looked at. *)
Lemma unref_item R d x i1 vli i2 h :
  well_counted R (objs h) → objs h !! d = Some x → f_list (o_flags x) = true →
  o_l x = i1 ++ vli :: i2 → d ∈ R →
  ∃ h2 r, let y := with_refc r (with_l (i1 ++ i2) x) in
    b6b_unref (li_o vli) h =
      Done (tt, mkHeap (<[d := with_l (o_l x) y]> (objs h2)) (next h2) (h_os h2)) ∧
    well_counted R (objs h2) ∧ objs h2 !! d = Some y ∧ next h2 = next h ∧
    shrinks (<[d := with_l (i1 ++ i2) x]> (objs h)) (objs h2).
Proof.
  intros Hwc Hx Hl Hitems Hd. pose proof (wc_refc _ _ Hwc d x Hx) as (_ & _ & Hdel).
  set (h1 := mkHeap (<[d := with_l (i1 ++ i2) x]> (objs h)) (next h) (h_os h)).
  destruct (unref_total R (li_o vli) h1) as (h2 & E2 & W2 & N2 & S2).
  { simpl. eapply well_counted_get; [exact Hwc|exact Hx| |done|exact Hdel].
    intros p. rewrite !refs_of_list, Hitems by done. simpl.
    change (priv_refs (with_l (i1 ++ i2) x)) with (priv_refs x).
    rewrite !fmap_app, fmap_cons, !occ_app. simpl. lia. }
  destruct (well_counted_root _ _ _ W2 Hd) as (y & Hy & _).
  destruct (S2 d y Hy) as (y0 & Hy0 & Ey). simpl in Hy0. rewrite lookup_insert_eq in Hy0.
  injection Hy0 as <-. exists h2, (o_refc y). simpl. rewrite <- Ey. split_and!; try done.
  destruct (unref_frames_list d (o_l x) (li_o vli) h1 h h2) as (h3 & E3 & y' & Hy' & ->);
    [|exact E2|by eexists|].
  - eexists. simpl. rewrite lookup_insert_eq. split; [done|]. rewrite insert_insert_eq.
    rewrite insert_id; [by destruct h|]. rewrite Hx. by destruct x.
  - rewrite Hy in Hy'. by injection Hy' as <-.
Qed.

Lemma replace_value_ok R d x i1 vli i2 v h :
  well_counted R (objs h) → list_at h d x → o_l x = i1 ++ vli :: i2 → d ∈ R → held R d h v →
  ∃ h' x', replace_value d vli v h = Done (true, h') ∧ well_counted R (objs h') ∧
    list_at h' d x' ∧ o_l x' = i1 ++ mkItem (li_id vli) v :: i2 ∧
    f_hashed (o_flags x') = false ∧ shrinks (delete d (objs h)) (delete d (objs h')) ∧
    next h' = next h.
Proof.
  intros Hwc [Hx Hl Hnd Hf] Hitems Hd Hv.
  pose proof (wc_refc _ _ Hwc d x Hx) as (_ & _ & Hdel).
  destruct (unref_item R d x i1 vli i2 h) as (h2 & ry & E1 & W2 & Hy & N2 & S2); try done.
  remember (with_refc ry (with_l (i1 ++ i2) x)) as y eqn:Ey.
  assert (shrinks (delete d (objs h)) (delete d (objs h2))) as S2'.
  { intros p w [Hne Hw]%lookup_delete_Some. destruct (S2 p w Hw) as (w0 & Hw0 & Hr).
    simpl in Hw0. rewrite lookup_insert_ne in Hw0 by done. exists w0.
    by rewrite lookup_delete_ne. }
  destruct (held_live R d h2 v W2) as [z Hz].
  { eapply held_kept; [done| |exact Hv]. apply others_kept_shrinks; [done|]. by rewrite N2. }
  pose proof (wc_refc _ _ W2 v z Hz) as (_ & Hzpos & _).
  destruct (take_behind d v (o_l x) y z (objs h2) Hy Hz) as (z' & r & Z1 & Z2 & Z3 & Z4 & Z5).
  set (items := i1 ++ mkItem (li_id vli) v :: i2).
  set (x' := flushed items (with_refc r y)).
  exists (mkHeap (<[d := x']> (<[v := with_refc (o_refc z + 1) z]> (objs h2))) (next h2) (h_os h2)), x'.
  split_and!.
  - unfold replace_value. rewrite (bind_eq _ _ _ _ _ E1).
    rewrite (bind_eq _ _ _ _ _ (ref_eq v z' (mkHeap _ _ _) Z1 ltac:(lia))), Z2. unfold set_item.
    rewrite (bind_eq _ _ _ _ _ (update_obj_eq d _ _ (mkHeap _ _ _) Z3)). unfold b6b_list_flush.
    erewrite bind_eq by (apply update_obj_eq; simpl; apply lookup_insert_eq).
    simpl. rewrite insert_insert_eq, Z5. unfold mret, M_ret. do 4 f_equal.
    unfold x', flushed, items. rewrite <- set_item_at, <- Hitems by (by rewrite <- Hitems).
    by destruct y.
  - simpl. eapply (well_counted_put _ _ v); [by apply well_counted_take|exact Z4| |done|].
    + intros p. unfold x'. rewrite refs_of_flushed, refs_of_list by (by rewrite Ey).
      rewrite Ey. simpl. unfold items. rewrite !fmap_app, fmap_cons, !occ_app. simpl. lia.
    + unfold del_ok, x'. rewrite Ey. exact Hdel.
  - assert (li_id <$> items = li_id <$> o_l x) as Hids.
    { unfold items. by rewrite Hitems, !fmap_app, !fmap_cons. }
    split; simpl; [apply lookup_insert_eq|by rewrite Ey|by rewrite Hids|].
    intros it Hit%(list_elem_of_fmap_2 li_id). rewrite Hids in Hit.
    apply list_elem_of_fmap in Hit as (it' & -> & Hit'). rewrite N2. by apply Hf.
  - done.
  - done.
  - simpl. rewrite delete_insert_eq. eapply shrinks_trans; [exact S2'|].
    intros p w [Hne Hw]%lookup_delete_Some.
    destruct (shrinks_with_refc _ _ _ (o_refc z + 1) Hz p w Hw) as (w0 & Hw0 & Hwr).
    exists w0. by rewrite lookup_delete_ne.
  - done.
Qed.

(** Adding a pair. *)
Lemma add_pair_ok R d x k v s kvs h :
  well_counted R (objs h) → hashes_ok (objs h) → list_at h d x →
  pairs_of (delete d (objs h)) (o_l x) kvs → text_of (delete d (objs h)) k s →
  is_Some (objs h !! v) →
  ∃ h1 h', b6b_list_add d k h = Done (true, h1) ∧ b6b_list_add d v h1 = Done (true, h') ∧
    well_counted R (objs h') ∧ hashes_ok (objs h') ∧ dict_at h' d (kvs ++ [(s, v)]) ∧
    others_kept d h h'.
Proof.
  intros Hwc Hok Hla Hp Hk [y Hy].
  assert (is_Some (objs h !! k)) as Hks.
  { destruct Hk as [[|n] Hk]; [done|]. rewrite sval_S in Hk.
    destruct (delete d (objs h) !! k) as [z|] eqn:Ez; [|done].
    apply lookup_delete_Some in Ez as [_ Ez]. by exists z. }
  destruct (list_add_ok R d x k h Hwc Hla Hks) as (h1 & x1 & E1 & W1 & L1 & I1 & F1 & S1 & N1 & _ & _).
  assert (is_Some (objs h1 !! v)) as Hv.
  { destruct (decide (v = d)) as [->|Hne]; [rewrite (la_obj _ _ _ L1); by eexists|].
    specialize (S1 v Hne). rewrite Hy in S1. destruct (objs h1 !! v); [by eexists|done]. }
  destruct (list_add_ok R d x1 v h1 W1 L1 Hv) as (h2 & x2 & E2 & W2 & L2 & I2 & F2 & S2 & N2 & _ & _).
  pose proof (same_but_shrinks _ _ _ (same_but_trans _ _ _ _ S1 S2)) as Hsh.
  rewrite I1, <- app_assoc in I2.
  exists h1, h2. split_and!; [done|done|done|..].
  - apply (hashes_kept d (objs h) _ x2); [done|done|apply L2|]. unfold hash_ok. by rewrite F2.
  - exists x2. split; [done|]. rewrite I2. apply pairs_of_app.
    + eapply (pairs_kept R d x2); [done|apply L2|apply L2| |exact Hsh|exact Hp].
      intros it Hit. apply list_elem_of_fmap_2. rewrite I2. apply elem_of_app. by left.
    + split_and!; [|done|done]. simpl. apply (text_kept R d (objs h)); [done|done| |done].
      apply (well_counted_closed R _ d x2); [done|apply L2|].
      rewrite refs_of_list, I2, fmap_app by apply L2. apply elem_of_app. left. apply elem_of_app. right.
      by left.
  - apply others_kept_shrinks; [done|]. rewrite N2, N1. lia.
Qed.

(** Hashing the key and searching caches texts and hashes, and leaves the
    dictionary as it was. *)
Lemma search_ok R d k s kvs h :
  well_counted R (objs h) → hashes_ok (objs h) → dict_at h d kvs →
  text_of (delete d (objs h)) k s →
  ∃ h1 h2 x1 x2, b6b_obj_hash k h = Done (true, h1) ∧ objs h1 !! d = Some x1 ∧
    dict_find k (o_l x1) h1 = Done (find_result (o_l x1) kvs s, h2) ∧
    dict_set_find k (o_l x1) h1 = Done (find_result (o_l x1) kvs s, h2) ∧
    list_at h2 d x2 ∧ o_l x2 = o_l x1 ∧ well_counted R (objs h2) ∧ hashes_ok (objs h2) ∧
    pairs_of (delete d (objs h2)) (o_l x2) kvs ∧ text_of (delete d (objs h2)) k s ∧
    others_kept d h h2.
Proof.
  intros Hwc Hok Hd Hk.
  destruct (obj_hash_total k s h Hok (text_of_delete _ _ _ _ Hk)) as (h1 & E1 & X1 & N1 & T1).
  pose proof (dict_at_ext _ _ _ _ X1 N1 Hd) as (x1 & L1 & P1).
  destruct (dict_find_ok k s (o_l x1) kvs h1) as (h2 & E2 & X2 & N2);
    [by eapply ext_hashes_ok|by eapply pairs_of_delete|done|].
  assert (ext (objs h) (objs h2)) as X by (by etrans).
  destruct (list_at_ext h1 h2 d x1 X2 N2 L1) as (x2 & L2 & I2).
  exists h1, h2, x1, x2. split_and!; [done|apply L1|done| |done|done|..].
  - by rewrite (dict_set_find_eq _ k _ _ h1 P1).
  - exact (ext_well_counted R _ _ X Hwc).
  - exact (ext_hashes_ok _ _ X Hok).
  - rewrite I2. eapply pairs_of_impl; [|exact P1]. intros it t _ [n Hn]. exists n.
    exact (ext_sval_delete _ _ _ _ _ _ X2 Hn).
  - destruct Hk as [n Hn]. exists n. exact (ext_sval_delete _ _ _ _ _ _ X Hn).
  - apply others_kept_ext; [done|congruence].
Qed.

(** ** Removing *)

(** The pairs without the first one with the key [s]. *)
Fixpoint dict_del (s : bytes) (kvs : list (bytes * loc)) : list (bytes * loc) :=
  match kvs with
  | [] => []
  | (k, v) :: kvs' => if decide (k = s) then kvs' else (k, v) :: dict_del s kvs'
  end.

Lemma find_At_del m items kvs s kli vli :
  pairs_of m items kvs → find_result items kvs s = At kli vli →
  ∃ i1 i2, items = i1 ++ kli :: vli :: i2 ∧ pairs_of m (i1 ++ i2) (dict_del s kvs).
Proof.
  revert items. induction kvs as [|[t w] kvs IH]; intros items Hp Hf.
  { by destruct items as [|? []]. }
  destruct items as [|a [|b items]]; [done..|]. destruct Hp as (H1 & H2 & H3).
  simpl in Hf |- *. destruct (decide (t = s)) as [->|Hts].
  - injection Hf as <- <-. by exists [], items.
  - destruct (IH items H3 Hf) as (i1 & i2 & -> & P).
    exists (a :: b :: i1), i2. by split_and!.
Qed.

Lemma find_Absent_del m items kvs s :
  pairs_of m items kvs → find_result items kvs s = Absent → dict_del s kvs = kvs.
Proof.
  revert items. induction kvs as [|[t w] kvs IH]; intros items Hp Hf; [done|].
  destruct items as [|a [|b items]]; [done..|]. destruct Hp as (_ & _ & H3).
  simpl in Hf |- *. destruct (decide (t = s)); [done|]. by rewrite (IH items).
Qed.

Lemma dict_get_ok d k s kvs h :
  hashes_ok (objs h) → dict_holds (objs h) d kvs → text_of (objs h) k s →
  ∃ h', b6b_dict_get d k h = Done ((true, assoc s kvs), h') ∧
    ext (objs h) (objs h') ∧ next h' = next h.
Proof.
  intros Hok Hd Hk.
  destruct (obj_hash_total k s h Hok Hk) as (h1 & E1 & X1 & N1 & T1).
  pose proof (dict_holds_ext _ _ _ _ X1 Hd) as (x & Hx & Hl & Hp).
  destruct (dict_find_ok k s (o_l x) kvs h1) as (h2 & E2 & X2 & N2);
    [by eapply ext_hashes_ok|by eapply pairs_of_delete|done|].
  exists h2. split_and!; [|by etrans|congruence].
  - unfold b6b_dict_get. rewrite (bind_eq _ _ _ _ _ E1). simpl.
    rewrite (bind_eq _ _ _ _ _ (read_obj_eq _ _ _ Hx)), (bind_eq _ _ _ _ _ E2).
    pose proof (find_result_assoc _ _ s _ Hp) as Hf.
    destruct (find_result _ _ _); [done|by rewrite Hf..].
Qed.

Lemma dict_set_ok R d k v s kvs h :
  well_counted R (objs h) → hashes_ok (objs h) → dict_at h d kvs →
  text_of (delete d (objs h)) k s → d ∈ R → held R d h v →
  ∃ h', b6b_dict_set d k v h = Done (true, h') ∧ well_counted R (objs h') ∧
    hashes_ok (objs h') ∧ dict_at h' d (dict_upd s v kvs) ∧ others_kept d h h'.
Proof.
  intros Hwc Hok Hd Hk Hdr Hvr.
  destruct (search_ok R d k s kvs h Hwc Hok Hd Hk)
    as (h1 & h2 & x1 & x2 & E1 & Hx1 & _ & E2 & L2 & I2 & W2 & O2 & P2 & K2 & J2).
  unfold b6b_dict_set. rewrite (bind_eq _ _ _ _ _ E1). cbn [negb].
  rewrite (bind_eq _ _ _ _ _ (read_obj_eq _ _ _ Hx1)), (bind_eq _ _ _ _ _ E2), <- I2.
  destruct (find_result (o_l x2) kvs s) as [| |kli vli] eqn:Ef.
  - by pose proof (find_result_assoc _ _ s _ P2) as Hf; rewrite Ef in Hf.
  - destruct (add_pair_ok R d x2 k v s kvs h2) as (h3 & h4 & E3 & E4 & W4 & O4 & D4 & K4);
      [done..|by apply (held_live R d), (held_kept R d h)|].
    exists h4. rewrite (bind_eq _ _ _ _ _ E3). cbn [negb].
    rewrite (bind_eq _ _ _ _ _ E4), (find_Absent_upd _ _ _ _ v P2 Ef).
    split_and!; [done..|by eapply others_kept_trans].
  - destruct (find_At_split _ _ _ _ _ _ P2 Ef) as (i1 & i2 & k1 & k2 & Hi & Q1 & Q2 & Qk & Qu).
    destruct (replace_value_ok R d x2 (i1 ++ [kli]) vli i2 v h2)
      as (h3 & x3 & E3 & W3 & L3 & I3 & F3 & S3 & N3);
      [done|done|by rewrite Hi, <- app_assoc|done|by apply (held_kept R d h)|].
    rewrite <- app_assoc in I3. exists h3. split_and!; [exact E3|done|..].
    + apply (hashes_kept d (objs h2) _ x3); [done|done|apply L3|]. unfold hash_ok. by rewrite F3.
    + exists x3. split; [done|]. rewrite Qu, I3.
      eapply (pairs_kept R d x3 (objs h2)); [done|apply L3|apply L3| |done|].
      * intros it Hit. apply list_elem_of_fmap_2. by rewrite I3.
      * by apply pairs_of_app.
    + eapply others_kept_trans; [exact J2|]. apply others_kept_shrinks; [done|lia].
Qed.

(** ** Properties *)

(** C23: [b6b_dict_get] returns the value of the first pair whose key has the
    text of [k], and reports success without a value when there is none; the
    only effect on the heap is that texts and hashes of keys get cached. *)
Theorem b6b_dict_get_correct d k s kvs h :
  hashes_ok (objs h) → dict_holds (objs h) d kvs → text_of (objs h) k s →
  ∃ h', b6b_dict_get d k h = Done ((true, assoc s kvs), h') ∧
    ext (objs h) (objs h') ∧ dict_holds (objs h') d kvs.
Proof.
  intros Hok Hd Hk. destruct (dict_get_ok d k s kvs h Hok Hd Hk) as (h' & E & X & _).
  exists h'. split_and!; [done|done|by eapply dict_holds_ext].
Qed.

(** C5: [b6b_dict_set] gives the first pair whose key has the text of [k] the
    value [v], or adds the pair at the end; it succeeds and leaves a dictionary
    again. The references are right: the dictionary has taken one to [v] (and
    to a new key) and dropped the one to the old value, so that the heap stays
    well counted for the references of the program. *)
Theorem b6b_dict_set_correct R d k v s kvs h :
  well_counted R (objs h) → hashes_ok (objs h) → dict_at h d kvs →
  text_of (delete d (objs h)) k s → d ∈ R → held R d h v →
  ∃ h', b6b_dict_set d k v h = Done (true, h') ∧ well_counted R (objs h') ∧
    hashes_ok (objs h') ∧ dict_at h' d (dict_upd s v kvs).
Proof.
  intros Hwc Hok Hd Hk Hdr Hv.
  destruct (dict_set_ok R d k v s kvs h Hwc Hok Hd Hk Hdr Hv) as (h' & E & W & O & D & _).
  by exists h'.
Qed.

(** C22: [b6b_dict_unset] removes the first pair whose key has the text of [k],
    if there is one, and drops the dictionary's references to its key and
    value, so that the heap stays well counted. *)
Theorem b6b_dict_unset_correct R d k s kvs h :
  well_counted R (objs h) → hashes_ok (objs h) → dict_at h d kvs →
  text_of (delete d (objs h)) k s → d ∈ R →
  ∃ h', b6b_dict_unset d k h = Done (true, h') ∧ well_counted R (objs h') ∧
    hashes_ok (objs h') ∧ dict_at h' d (dict_del s kvs).
Proof.
  intros Hwc Hok Hd Hk Hdr.
  destruct (search_ok R d k s kvs h Hwc Hok Hd Hk)
    as (h1 & h2 & x1 & x2 & E1 & Hx1 & E2 & _ & L2 & I2 & W2 & O2 & P2 & _ & _).
  unfold b6b_dict_unset. rewrite (bind_eq _ _ _ _ _ E1). cbn [negb].
  rewrite (bind_eq _ _ _ _ _ (read_obj_eq _ _ _ Hx1)), (bind_eq _ _ _ _ _ E2), <- I2.
  destruct (find_result (o_l x2) kvs s) as [| |kli vli] eqn:Ef.
  - by pose proof (find_result_assoc _ _ s _ P2) as Hf; rewrite Ef in Hf.
  - exists h2. rewrite (find_Absent_del _ _ _ _ P2 Ef). split_and!; [done..|by exists x2].
  - destruct (find_At_del _ _ _ _ _ _ P2 Ef) as (i1 & i2 & Hi & Pd).
    destruct (list_drop_ok R d x2 i1 kli (vli :: i2) h2)
      as (h3 & h4 & x4 & E3 & E4 & W4 & L4 & I4 & _ & S4); [done..|].
    destruct (list_drop_ok R d x4 i1 vli i2 h4)
      as (h5 & h6 & x6 & E5 & E6 & W6 & L6 & I6 & F6 & S6); [done..|].
    pose proof (shrinks_trans _ _ _ S4 S6) as Hsh.
    exists h6. rewrite (bind_eq _ _ _ _ _ E3), (bind_eq _ _ _ _ _ (deref_eq _ _)).
    rewrite (bind_eq _ _ _ _ _ E4), (bind_eq _ _ _ _ _ E5), (bind_eq _ _ _ _ _ (deref_eq _ _)).
    rewrite (bind_eq _ _ _ _ _ E6). split_and!; [done|done|..].
    + apply (hashes_kept d (objs h2) _ x6); [done|done|apply L6|]. unfold hash_ok. by rewrite F6.
    + exists x6. split; [done|]. rewrite I6.
      eapply (pairs_kept R d x6 (objs h2)); [done|apply L6|apply L6| |done|done].
      intros it Hit. apply list_elem_of_fmap_2. by rewrite I6.
Qed.

(** A heap with a dictionary, a key and a value; the program holds a reference
    to each, and one to a key that is not in the dictionary. *)
Definition sample_dict : heap :=
  mkHeap
    {[ 0%N := with_l [mkItem 4 1; mkItem 5 2] new_list;
       1%N := with_refc 2 (new_str (lit "k"));
       2%N := with_refc 2 (new_int 7);
       3%N := new_str (lit "j") ]} 6 no_os.

Lemma b6b_dict_get_correct_witness :
  ∃ h', b6b_dict_get 0 1 sample_dict = Done ((true, Some 2%N), h') ∧
    ext (objs sample_dict) (objs h') ∧ dict_holds (objs h') 0 [(lit "k", 2%N)].
Proof.
  apply (b6b_dict_get_correct 0%N 1%N (lit "k") [(lit "k", 2%N)]).
  - apply hashes_check_sound. vm_compute. reflexivity.
  - eexists. split; [vm_compute; reflexivity|]. split; [reflexivity|].
    simpl. split_and!; [|done|done]. by exists 1%nat.
  - by exists 1%nat.
Defined.

Lemma sample_dict_at : dict_at sample_dict 0 [(lit "k", 2%N)].
Proof.
  eexists. split; [split; [vm_compute; reflexivity|reflexivity|..]|].
  - repeat constructor; set_solver.
  - intros it [->|[->|[]%elem_of_nil]%elem_of_cons]%elem_of_cons; simpl; lia.
  - simpl. split_and!; [|done|done]. by exists 1%nat.
Qed.

(** The key is there and its value is replaced; the key is not there. *)
Lemma b6b_dict_set_correct_witness :
  (∃ h', b6b_dict_set 0 1 3 sample_dict = Done (true, h') ∧
    well_counted [0; 1; 2; 3]%N (objs h') ∧ hashes_ok (objs h') ∧
    dict_at h' 0 [(lit "k", 3%N)]) ∧
  (∃ h', b6b_dict_set 0 3 2 sample_dict = Done (true, h') ∧
    well_counted [0; 1; 2; 3]%N (objs h') ∧ hashes_ok (objs h') ∧
    dict_at h' 0 [(lit "k", 2%N); (lit "j", 2%N)]).
Proof.
  split.
  - apply (b6b_dict_set_correct [0; 1; 2; 3]%N 0%N 1%N 3%N (lit "k") [(lit "k", 2%N)]).
    + apply wc_check_sound. vm_compute. reflexivity.
    + apply hashes_check_sound. vm_compute. reflexivity.
    + exact sample_dict_at.
    + by exists 1%nat.
    + set_solver.
    + left. set_solver.
  - apply (b6b_dict_set_correct [0; 1; 2; 3]%N 0%N 3%N 2%N (lit "j") [(lit "k", 2%N)]).
    + apply wc_check_sound. vm_compute. reflexivity.
    + apply hashes_check_sound. vm_compute. reflexivity.
    + exact sample_dict_at.
    + by exists 1%nat.
    + set_solver.
    + left. set_solver.
Defined.

Lemma b6b_dict_unset_correct_witness :
  ∃ h', b6b_dict_unset 0 1 sample_dict = Done (true, h') ∧
    well_counted [0; 1; 2; 3]%N (objs h') ∧ hashes_ok (objs h') ∧ dict_at h' 0 [].
Proof.
  apply (b6b_dict_unset_correct [0; 1; 2; 3]%N 0%N 1%N (lit "k") [(lit "k", 2%N)]).
  - apply wc_check_sound. vm_compute. reflexivity.
  - apply hashes_check_sound. vm_compute. reflexivity.
  - exact sample_dict_at.
  - by exists 1%nat.
  - set_solver.
Defined.
