(* ===== verification/Offload.v ===== *)
(** * The offload thread

    include/b6b/offload.h and src/b6b_offload.c: a second system thread that
    runs blocking calls for the interpreter. The two share an atomic state
    variable, the call to make, and one realtime signal, which both block and
    wait for with [sigwait]; realtime signals are queued, not merged. The model
    is a step relation between the atomic actions of the two threads, in any
    interleaving, where any call of the system may fail; nobody else sends the
    signal. Safety holds with failures; without them the protocol makes
    progress, and with them it can hang. *)
From Stdlib Require Import ZArith Lia.
From stdpp Require Import base option list relations.
From S2P Require Import Prelude.

(** ** Data *)

Inductive b6b_offload_state : Set :=
| B6B_OFFLOAD_INIT | B6B_OFFLOAD_UP | B6B_OFFLOAD_IDLE
| B6B_OFFLOAD_RUNNING | B6B_OFFLOAD_DONE.

#[export] Instance offload_state_eq_dec : EqDecision b6b_offload_state.
Proof. solve_decision. Defined.

(** Where the interpreter's thread is: in [b6b_offload_thread_start] (before
    [pthread_create], in [sigwait], before it looks at the state, before it
    stores [B6B_OFFLOAD_IDLE], before [pthread_cancel], in [pthread_join], or
    after it failed), outside, in [b6b_offload_start] (before it stores [fn] and
    [arg], before it sends the signal), between the two calls, in
    [b6b_offload_finish] (in [sigwait], before it stores the state), outside
    after one of the two failed, or in [b6b_offload_thread_stop] (in
    [pthread_join], or after it). *)
Inductive main_pc : Set :=
| M_create | M_start_wait | M_start_check | M_start_idle
| M_start_cancel | M_start_join | M_start_failed
| M_free
| M_set_call (call : nat) | M_kill
| M_busy
| M_finish_wait | M_finish_idle
| M_failed
| M_stop_join | M_stopped.

#[export] Instance main_pc_eq_dec : EqDecision main_pc.
Proof. solve_decision. Defined.

(** Where [b6b_offload_thread_routine] is: not created, before it stores
    [B6B_OFFLOAD_UP], before its first signal, in [sigwait], before it looks at
    the state, before the call, before it stores [B6B_OFFLOAD_DONE], before it
    sends the signal, or at [pthread_exit]. *)
Inductive worker_pc : Set :=
| W_none | W_init | W_up | W_wait | W_woken | W_call | W_called | W_signal | W_exit.

(** [struct b6b_offload_thread] with the signals that are queued for the two
    threads, and whether the worker was cancelled. A call is a number; [asked]
    and [made] are the calls that [b6b_offload_start] was given and that the
    worker has returned from. *)
Record offload : Set := mkOffload {
  of_state : b6b_offload_state;
  of_call : option nat;    (* fn and arg *)
  main_sigs : nat;
  worker_sigs : nat;
  cancelled : bool;
  mpc : main_pc;
  wpc : worker_pc;
  asked : list nat;
  made : list nat
}.

Definition set_state (x : b6b_offload_state) (o : offload) : offload :=
  mkOffload x (of_call o) (main_sigs o) (worker_sigs o) (cancelled o) (mpc o) (wpc o) (asked o) (made o).
Definition set_call (c : nat) (o : offload) : offload :=
  mkOffload (of_state o) (Some c) (main_sigs o) (worker_sigs o) (cancelled o) (mpc o) (wpc o) (asked o) (made o).
Definition set_main_sigs (n : nat) (o : offload) : offload :=
  mkOffload (of_state o) (of_call o) n (worker_sigs o) (cancelled o) (mpc o) (wpc o) (asked o) (made o).
Definition set_worker_sigs (n : nat) (o : offload) : offload :=
  mkOffload (of_state o) (of_call o) (main_sigs o) n (cancelled o) (mpc o) (wpc o) (asked o) (made o).
Definition cancel (o : offload) : offload :=
  mkOffload (of_state o) (of_call o) (main_sigs o) (worker_sigs o) true (mpc o) (wpc o) (asked o) (made o).
Definition main_to (p : main_pc) (o : offload) : offload :=
  mkOffload (of_state o) (of_call o) (main_sigs o) (worker_sigs o) (cancelled o) p (wpc o) (asked o) (made o).
Definition worker_to (p : worker_pc) (o : offload) : offload :=
  mkOffload (of_state o) (of_call o) (main_sigs o) (worker_sigs o) (cancelled o) (mpc o) p (asked o) (made o).
Definition ask (c : nat) (o : offload) : offload :=
  mkOffload (of_state o) (of_call o) (main_sigs o) (worker_sigs o) (cancelled o) (mpc o) (wpc o) (asked o ++ [c]) (made o).
Definition make (c : nat) (o : offload) : offload :=
  mkOffload (of_state o) (of_call o) (main_sigs o) (worker_sigs o) (cancelled o) (mpc o) (wpc o) (asked o) (made o ++ [c]).

(** [b6b_offload_thread_init] *)
Definition b6b_offload_thread_init : offload :=
  mkOffload B6B_OFFLOAD_INIT None 0 0 false M_create W_none [] [].

(** [b6b_offload_ready] and [b6b_offload_done] *)
Definition b6b_offload_ready (o : offload) : bool :=
  bool_decide (of_state o = B6B_OFFLOAD_IDLE).
Definition b6b_offload_done (o : offload) : bool :=
  bool_decide (of_state o = B6B_OFFLOAD_DONE).

(** ** The actions *)

(** The next action of [b6b_offload_thread_start]; nothing when it is blocked in
    [sigwait] or [pthread_join], or the thread is elsewhere. [ok] tells whether
    the calls of the system in this action succeed; those before
    [pthread_create] count as one with it. *)
Definition b6b_offload_thread_start (ok : bool) (o : offload) : option offload :=
  match mpc o with
  | M_create =>
      Some (if ok then main_to M_start_wait (worker_to W_init o) else main_to M_start_failed o)
  | M_start_wait =>
      if ok then
        match main_sigs o with
        | O => None
        | S n => Some (main_to M_start_check (set_main_sigs n o))
        end
      else Some (main_to M_start_cancel o)
  | M_start_check =>
      Some (main_to (if decide (of_state o = B6B_OFFLOAD_UP) then M_start_idle else M_start_wait) o)
  | M_start_idle => Some (main_to M_free (set_state B6B_OFFLOAD_IDLE o))
  | M_start_cancel => Some (main_to M_start_join (cancel o))
  | M_start_join =>
      match wpc o with W_exit => Some (main_to M_start_failed o) | _ => None end
  | _ => None
  end.

(** The next action of [b6b_offload_start(t, fn, arg)], for the call [c]. The
    interpreter calls it for a thread that is ready. *)
Definition b6b_offload_start (ok : bool) (c : nat) (o : offload) : option offload :=
  match mpc o with
  | M_free => Some (main_to (M_set_call c) (ask c (set_state B6B_OFFLOAD_RUNNING o)))
  | M_set_call c' => Some (main_to M_kill (set_call c' o))
  | M_kill =>
      Some (if ok then main_to M_busy (set_worker_sigs (S (worker_sigs o)) o)
            else main_to M_failed o)
  | _ => None
  end.

(** The next action of [b6b_offload_finish(t)]. *)
Definition b6b_offload_finish (ok : bool) (o : offload) : option offload :=
  match mpc o with
  | M_busy => Some (main_to M_finish_wait o)
  | M_finish_wait =>
      if ok then
        match main_sigs o with
        | O => None
        | S n => Some (main_to M_finish_idle (set_main_sigs n o))
        end
      else Some (main_to M_failed o)
  | M_finish_idle => Some (main_to M_free (set_state B6B_OFFLOAD_IDLE o))
  | _ => None
  end.

(** The next action of [b6b_offload_thread_stop(t)], between calls. *)
Definition b6b_offload_thread_stop (o : offload) : option offload :=
  match mpc o with
  | M_free | M_failed =>
      Some (if decide (of_state o = B6B_OFFLOAD_INIT) then main_to M_stopped o
            else main_to M_stop_join (cancel o))
  | M_stop_join =>
      match wpc o with W_exit => Some (main_to M_stopped o) | _ => None end
  | _ => None
  end.

(** The next action of [b6b_offload_thread_routine]. A call through [fn] before
    it is set is undefined: the worker is stuck there. *)
Definition b6b_offload_thread_routine (ok : bool) (o : offload) : option offload :=
  match wpc o with
  | W_init => Some (if ok then worker_to W_up (set_state B6B_OFFLOAD_UP o) else worker_to W_exit o)
  | W_up =>
      Some (if ok then worker_to W_wait (set_main_sigs (S (main_sigs o)) o) else worker_to W_exit o)
  | W_wait =>
      if ok then
        match worker_sigs o with
        | O => None
        | S n => Some (worker_to W_woken (set_worker_sigs n o))
        end
      else Some (worker_to W_exit o)
  | W_woken =>
      Some (worker_to (if decide (of_state o = B6B_OFFLOAD_RUNNING) then W_call else W_exit) o)
  | W_call => c ← of_call o; Some (worker_to W_called (make c o))
  | W_called => Some (worker_to W_signal (set_state B6B_OFFLOAD_DONE o))
  | W_signal =>
      Some (if ok then worker_to W_wait (set_main_sigs (S (main_sigs o)) o) else worker_to W_exit o)
  | W_none | W_exit => None
  end.

(** What [pthread_cancel] does: [sigwait] and the call that is made may be where
    the worker is cancelled. *)
Definition worker_cancelled (o : offload) : option offload :=
  match wpc o with
  | W_wait | W_call => if cancelled o then Some (worker_to W_exit o) else None
  | _ => None
  end.

(** The two threads, in any interleaving, with calls of the system that may
    fail if [fails]. A new call starts only on a thread that is ready, as
    [b6b_pick_thread] makes sure. *)
Inductive ostep (fails : bool) : offload → offload → Prop :=
| step_thread_start ok o o' :
    ok || fails = true → b6b_offload_thread_start ok o = Some o' → ostep fails o o'
| step_start ok c o o' :
    ok || fails = true → (mpc o = M_free → b6b_offload_ready o = true) →
    b6b_offload_start ok c o = Some o' → ostep fails o o'
| step_finish ok o o' :
    ok || fails = true → b6b_offload_finish ok o = Some o' → ostep fails o o'
| step_stop o o' : b6b_offload_thread_stop o = Some o' → ostep fails o o'
| step_worker ok o o' :
    ok || fails = true → b6b_offload_thread_routine ok o = Some o' → ostep fails o o'
| step_cancelled o o' : worker_cancelled o = Some o' → ostep fails o o'.

(** ** Invariants *)

(** The calls asked for are made, but for the last one while the state is
    [B6B_OFFLOAD_RUNNING] and the worker has not returned from it. *)
Definition owed (o : offload) : Prop :=
  match of_state o, mpc o, wpc o with
  | B6B_OFFLOAD_RUNNING, M_set_call c, _ => asked o = made o ++ [c]
  | B6B_OFFLOAD_RUNNING, _, W_called => asked o = made o
  | B6B_OFFLOAD_RUNNING, _, _ => ∃ c, of_call o = Some c ∧ asked o = made o ++ [c]
  | _, _, _ => asked o = made o
  end.

(** Where the interpreter's thread can be while the worker starts, and while it
    makes a call. *)
Definition starting (m : main_pc) : Prop :=
  m = M_start_wait ∨ m = M_start_cancel ∨ m = M_start_join.
Definition waiting (m : main_pc) : Prop := m = M_busy ∨ m = M_finish_wait.
Definition left (m : main_pc) : Prop :=
  waiting m ∨ m = M_failed ∨ m = M_stop_join ∨ m = M_stopped.

(** A worker that is in [sigwait], or is gone. *)
Definition resting (w : worker_pc) : Prop := w = W_wait ∨ w = W_exit.

(** Where the two threads can be at the same time, with the state and the queued
    signals (to the interpreter's thread, to the worker), whatever fails. *)
Inductive place : main_pc → worker_pc → b6b_offload_state → nat → nat → Prop :=
| pl_create m : m = M_create ∨ m = M_start_failed → place m W_none B6B_OFFLOAD_INIT 0 0
| pl_init m w : starting m → w = W_init ∨ w = W_exit → place m w B6B_OFFLOAD_INIT 0 0
| pl_up m w : starting m → w = W_up ∨ w = W_exit → place m w B6B_OFFLOAD_UP 0 0
| pl_sent m w : starting m → resting w → place m w B6B_OFFLOAD_UP 1 0
| pl_start_failed x n : x = B6B_OFFLOAD_INIT ∨ x = B6B_OFFLOAD_UP → place M_start_failed W_exit x n 0
| pl_check m w : m = M_start_check ∨ m = M_start_idle → resting w → place m w B6B_OFFLOAD_UP 0 0
| pl_free m w : m = M_free ∨ m = M_stop_join ∨ m = M_stopped → resting w →
    place m w B6B_OFFLOAD_IDLE 0 0
| pl_set c w : resting w → place (M_set_call c) w B6B_OFFLOAD_RUNNING 0 0
| pl_kill m w : m = M_kill ∨ m = M_failed ∨ m = M_stop_join ∨ m = M_stopped → resting w →
    place m w B6B_OFFLOAD_RUNNING 0 0
| pl_asked m w : left m → resting w → place m w B6B_OFFLOAD_RUNNING 0 1
| pl_call m w : left m → w = W_woken ∨ w = W_call ∨ w = W_called ∨ w = W_exit →
    place m w B6B_OFFLOAD_RUNNING 0 0
| pl_signal m w : left m → w = W_signal ∨ w = W_exit → place m w B6B_OFFLOAD_DONE 0 0
| pl_done m w : left m → resting w → place m w B6B_OFFLOAD_DONE 1 0
| pl_finish w : resting w → place M_finish_idle w B6B_OFFLOAD_DONE 0 0.

Record safe_inv (o : offload) : Prop := {
  si_place : place (mpc o) (wpc o) (of_state o) (main_sigs o) (worker_sigs o);
  si_owed : owed o
}.

(** The same without failures, where only [b6b_offload_thread_stop] ends the
    worker. *)
Inductive phase : main_pc → worker_pc → b6b_offload_state → nat → nat → bool → Prop :=
| ph_create : phase M_create W_none B6B_OFFLOAD_INIT 0 0 false
| ph_init : phase M_start_wait W_init B6B_OFFLOAD_INIT 0 0 false
| ph_up : phase M_start_wait W_up B6B_OFFLOAD_UP 0 0 false
| ph_sent : phase M_start_wait W_wait B6B_OFFLOAD_UP 1 0 false
| ph_check m : m = M_start_check ∨ m = M_start_idle → phase m W_wait B6B_OFFLOAD_UP 0 0 false
| ph_free : phase M_free W_wait B6B_OFFLOAD_IDLE 0 0 false
| ph_set c : phase (M_set_call c) W_wait B6B_OFFLOAD_RUNNING 0 0 false
| ph_kill : phase M_kill W_wait B6B_OFFLOAD_RUNNING 0 0 false
| ph_asked m : waiting m → phase m W_wait B6B_OFFLOAD_RUNNING 0 1 false
| ph_call m w : waiting m → w = W_woken ∨ w = W_call ∨ w = W_called →
    phase m w B6B_OFFLOAD_RUNNING 0 0 false
| ph_signal m : waiting m → phase m W_signal B6B_OFFLOAD_DONE 0 0 false
| ph_done m : waiting m → phase m W_wait B6B_OFFLOAD_DONE 1 0 false
| ph_finish : phase M_finish_idle W_wait B6B_OFFLOAD_DONE 0 0 false
| ph_stop w : resting w → phase M_stop_join w B6B_OFFLOAD_IDLE 0 0 true
| ph_stopped : phase M_stopped W_exit B6B_OFFLOAD_IDLE 0 0 true.

Record live_inv (o : offload) : Prop := {
  li_phase : phase (mpc o) (wpc o) (of_state o) (main_sigs o) (worker_sigs o) (cancelled o);
  li_owed : owed o
}.

Lemma init_safe : safe_inv b6b_offload_thread_init.
Proof. split; [constructor; auto|done]. Qed.
Lemma init_live : live_inv b6b_offload_thread_init.
Proof. split; [constructor|done]. Qed.

(** Splits disjunctions, and replaces the call that is owed. *)
Ltac cases :=
  unfold starting, left, waiting, resting in *;
  repeat match goal with
    | H : _ ∨ _ |- _ => destruct H; simplify_eq
    | H : ∃ _, _ |- _ => destruct H as (? & -> & ->)
    end.

(** The cases of a place or a phase, with the fields of the state replaced. *)
Ltac places :=
  match goal with
  | H : place _ _ _ _ _ |- _ => inversion H; clear H; subst
  | H : phase _ _ _ _ _ _ |- _ => inversion H; clear H; subst
  end; cases.

(** The actions of a thread, by where it is. *)
Ltac acts p H :=
  destruct p; simpl in H;
  repeat match type of H with context [if ?b then _ else _] => destruct b end;
  simplify_eq/=.

Ltac keeps :=
  split; unfold owed; simpl;
  [econstructor; unfold starting, left, waiting, resting; auto 7; fail
  |first [done | by eexists]].

(** The effect of an action of the thread at [p] on an invariant. *)
Ltac step_keeps p H := acts p H; places; simplify_eq/=; keeps.

Lemma step_safe fails o o' : safe_inv o → ostep fails o o' → safe_inv o'.
Proof.
  intros [Hp Ho] Hs.
  destruct Hs as [ok o o' Hf H|ok c o o' Hf Hr H|ok o o' Hf H|o o' H|ok o o' Hf H|o o' H];
    destruct o as [st cl ms ws cn mp wp ak mk]; unfold owed in Ho; simpl in *.
  - unfold b6b_offload_thread_start in H. step_keeps mp H.
  - unfold b6b_offload_start in H. step_keeps mp H.
  - unfold b6b_offload_finish in H. step_keeps mp H.
  - unfold b6b_offload_thread_stop in H. step_keeps mp H.
  - unfold b6b_offload_thread_routine in H. step_keeps wp H.
  - unfold worker_cancelled in H. step_keeps wp H.
Qed.

Lemma step_live o o' : live_inv o → ostep false o o' → live_inv o'.
Proof.
  intros [Hp Ho] Hs.
  destruct Hs as [ok o o' Hf H|ok c o o' Hf Hr H|ok o o' Hf H|o o' H|ok o o' Hf H|o o' H];
    rewrite ?orb_false_r in *; subst;
    destruct o as [st cl ms ws cn mp wp ak mk]; unfold owed in Ho; simpl in *.
  - unfold b6b_offload_thread_start in H. step_keeps mp H.
  - unfold b6b_offload_start in H. step_keeps mp H.
  - unfold b6b_offload_finish in H. step_keeps mp H.
  - unfold b6b_offload_thread_stop in H. step_keeps mp H.
  - unfold b6b_offload_thread_routine in H. step_keeps wp H.
  - unfold worker_cancelled in H. step_keeps wp H.
Qed.

(** The states of a run of the two threads. *)
Definition reachable (fails : bool) (o : offload) : Prop :=
  rtc (ostep fails) b6b_offload_thread_init o.

Lemma reachable_safe fails o : reachable fails o → safe_inv o.
Proof.
  intros H. refine (rtc_ind_r safe_inv _ init_safe _ o H).
  intros x y _ Hs Hx. by eapply step_safe.
Qed.

Lemma reachable_live o : reachable false o → live_inv o.
Proof.
  intros H. refine (rtc_ind_r live_inv _ init_live _ o H).
  intros x y _ Hs Hx. by eapply step_live.
Qed.

(** *** Progress *)

(** Every run from [o] without failures, however the two threads are
    interleaved, gets to a state with [P], and is not stuck before. *)
Inductive inevitable (P : offload → Prop) (o : offload) : Prop :=
| inev_now : P o → inevitable P o
| inev_later o' :
    ostep false o o' → (∀ o', ostep false o o' → inevitable P o') → inevitable P o.

(** The actions left until the interpreter's thread is free or has stopped the
    worker, for each side. *)
Definition worker_left (o : offload) : nat :=
  match wpc o with
  | W_none | W_exit => 0
  | W_wait => match worker_sigs o with O => if cancelled o then 1 else 0 | S _ => 5 end
  | W_up | W_signal => 1
  | W_init | W_called => 2
  | W_call => 3
  | W_woken => 4
  end.
Definition main_left (o : offload) : nat :=
  match mpc o with
  | M_create => 9
  | M_start_wait => 3
  | M_start_check | M_finish_wait => 2
  | M_start_idle | M_finish_idle | M_stop_join => 1
  | M_set_call _ => 10
  | M_kill => 9
  | M_busy => 3
  | _ => 0
  end.

(** Nothing is left to do for the interpreter's thread. *)
Definition at_rest (o : offload) : Prop := mpc o = M_free ∨ mpc o = M_stopped.

#[export] Instance at_rest_dec o : Decision (at_rest o).
Proof. unfold at_rest. apply _. Defined.

(** Each action brings the two closer to the end of the call. *)
Lemma step_progress o o' :
  live_inv o → ¬ at_rest o → ostep false o o' →
  (main_left o' + worker_left o' < main_left o + worker_left o)%nat.
Proof.
  intros [Hp Ho] Hm Hs. unfold main_left, worker_left, at_rest in *.
  destruct Hs as [ok o o' Hf H|ok c o o' Hf Hr H|ok o o' Hf H|o o' H|ok o o' Hf H|o o' H];
    rewrite ?orb_false_r in *; subst;
    destruct o as [st cl ms ws cn mp wp ak mk]; unfold owed in Ho; simpl in *.
  - unfold b6b_offload_thread_start in H. acts mp H; places; simplify_eq/=; lia.
  - unfold b6b_offload_start in H. acts mp H; places; simplify_eq/=; lia || tauto.
  - unfold b6b_offload_finish in H. acts mp H; places; simplify_eq/=; lia.
  - unfold b6b_offload_thread_stop in H. acts mp H; places; simplify_eq/=; lia || tauto.
  - unfold b6b_offload_thread_routine in H. acts wp H; places; simplify_eq/=; lia.
  - unfold worker_cancelled in H. acts wp H; places; simplify_eq/=; lia.
Qed.

Lemma not_stuck o : live_inv o → ¬ at_rest o → ∃ o', ostep false o o'.
Proof.
  intros [Hp Ho] Hm. unfold at_rest in Hm.
  destruct o as [st cl ms ws cn mp wp ak mk]; unfold owed in Ho; simpl in *.
  places; simpl in *; try tauto; cases;
    eexists; first
      [by eapply (step_thread_start _ true)
      |by eapply (step_finish _ true)
      |by eapply step_cancelled
      |by eapply step_stop
      |by eapply (step_worker _ true)
      |by eapply (step_start _ true 0)].
Qed.

(** ** Properties *)

(** C20: whatever fails and however the two threads are interleaved, the
    worker makes exactly the calls it was asked to, in order, but perhaps the last one: when
    it is about to make one, the call is set, it is the last one asked for and
    the only one not made yet, and the interpreter's thread has finished writing
    it; whenever [b6b_offload_ready] or [b6b_offload_done] holds, all calls are
    made. Without failures the worker leaves only when it is stopped. *)
Theorem offload_calls fails o :
  reachable fails o →
  (asked o = made o ∨ ∃ c, asked o = made o ++ [c]) ∧
  (wpc o = W_call → ∃ c, of_call o = Some c ∧ asked o = made o ++ [c] ∧
    ∀ c', mpc o ≠ M_set_call c') ∧
  (b6b_offload_ready o = true ∨ b6b_offload_done o = true → asked o = made o) ∧
  (fails = false → wpc o = W_exit → mpc o = M_stop_join ∨ mpc o = M_stopped).
Proof.
  intros Hr. split_and!; [..|intros ->; destruct (reachable_live o Hr) as [Hp Ho]];
    try (apply reachable_safe in Hr as [Hp Ho]); unfold owed, b6b_offload_ready, b6b_offload_done in *;
    rewrite ?bool_decide_eq_true; destruct o as [st cl ms ws cn mp wp ak mk]; simpl in *.
  - places; eauto.
  - intros ->. places; naive_solver.
  - places; naive_solver.
  - intros ->. places; auto.
Qed.

(** C10: no deadlock and no lost wake-up: from every state that is reached
    without failures, in every interleaving of the two threads, the
    interpreter's thread comes back with all calls made, to a worker that is
    ready or stopped; in particular [b6b_offload_thread_start],
    [b6b_offload_finish] and [b6b_offload_thread_stop] return. *)
Theorem offload_becomes_free o :
  reachable false o →
  inevitable (λ o', asked o' = made o' ∧
    (mpc o' = M_free ∧ b6b_offload_ready o' = true ∨ mpc o' = M_stopped ∧ wpc o' = W_exit)) o.
Proof.
  intros Hi%reachable_live. remember (main_left o + worker_left o)%nat as k eqn:Hk.
  revert o Hi Hk. induction k as [k IH] using lt_wf_ind. intros o Hi ->.
  destruct (decide (at_rest o)) as [Hm|Hm].
  - apply inev_now. destruct Hi as [Hp Ho]. unfold owed, at_rest in *.
    destruct o as [st cl ms ws cn mp wp ak mk]; simpl in *. places; auto.
  - destruct (not_stuck o Hi Hm) as [o' Ho']. apply (inev_later _ _ o' Ho').
    intros o2 Hs. eapply (IH (main_left o2 + worker_left o2)%nat); [|by eapply step_live|done].
    by apply step_progress.
Qed.

(** One action of a run. *)
Tactic Notation "goes" uconstr(c) := eapply rtc_l; [eapply c; cbv; first [reflexivity|intros; done]|].

(** The error paths of the worker do not tell the interpreter's thread: when
    the worker leaves before its first signal, or before the signal that a call
    is done, [b6b_offload_thread_start] and [b6b_offload_finish] wait for ever
    (unless their own [sigwait] fails). *)
Theorem offload_hangs :
  (∃ o, reachable true o ∧ mpc o = M_start_wait ∧ ∀ o', ¬ ostep false o o') ∧
  (∃ o, reachable true o ∧ mpc o = M_finish_wait ∧ asked o = made o ∧ ∀ o', ¬ ostep false o o').
Proof.
  split.
  - exists (mkOffload B6B_OFFLOAD_INIT None 0 0 false M_start_wait W_exit [] []). split_and!; [|done|].
    + goes (step_thread_start _ true).
      goes (step_worker _ false). apply rtc_refl.
    + intros o'. by inversion 1 as [[]|[]|[]| |[]|].
  - exists (mkOffload B6B_OFFLOAD_DONE (Some 7) 0 0 false M_finish_wait W_exit [7] [7]%nat).
    split_and!; [|done..|].
    + goes (step_thread_start _ true).
      do 2 (goes (step_worker _ true)).
      do 3 (goes (step_thread_start _ true)).
      do 3 (goes (step_start _ true 7)).
      do 4 (goes (step_worker _ true)).
      goes (step_finish _ true).
      goes (step_worker _ false). apply rtc_refl.
    + intros o'. by inversion 1 as [[]|[]|[]| |[]|].
Qed.

(** *** Witnesses *)

(** The worker is about to make the call 7. *)
Definition sample_call : offload :=
  mkOffload B6B_OFFLOAD_RUNNING (Some 7%nat) 0 0 false M_busy W_call [7%nat] [].

Lemma sample_call_reachable fails : reachable fails sample_call.
Proof.
  goes (step_thread_start _ true).
  do 2 (goes (step_worker _ true)).
  do 3 (goes (step_thread_start _ true)).
  do 3 (goes (step_start _ true 7)).
  do 2 (goes (step_worker _ true)).
  apply rtc_refl.
Qed.

Lemma offload_calls_witness :
  reachable true sample_call ∧ wpc sample_call = W_call ∧
  ∃ c, of_call sample_call = Some c ∧ asked sample_call = made sample_call ++ [c].
Proof.
  split; [exact (sample_call_reachable true)|]. split; [reflexivity|].
  destruct (offload_calls true sample_call (sample_call_reachable true)) as (_ & H & _).
  destruct (H eq_refl) as (c & H1 & H2 & _). by exists c.
Defined.

Lemma offload_becomes_free_witness :
  reachable false sample_call ∧
  inevitable (λ o', asked o' = made o' ∧
    (mpc o' = M_free ∧ b6b_offload_ready o' = true ∨ mpc o' = M_stopped ∧ wpc o' = W_exit))
    sample_call.
Proof.
  split; [exact (sample_call_reachable false)|].
  exact (offload_becomes_free sample_call (sample_call_reachable false)).
Defined.
