(* ===== verification/Interp.v ===== *)
(** * Interpreter state: threads, frames, variables and return values

    include/b6b/interp.h, thread.h and frame.h; src/b6b_frame.c, the parts of
    src/b6b_interp.c and src/b6b_thread.c that do not run b6b code, and
    [b6b_proc_get_args] of src/b6b_proc.c. A frame's fields are never assigned
    again after [b6b_frame_new], so a chain of frames is a list; the global
    frame ends every chain. *)
From Stdlib Require Import ZArith Lia Init.Byte Strings.Byte Strings.String.
From stdpp Require Import base option list numbers gmap.
From S2P Require Import Prelude Sys Float64 Hash Parse Heap Repr ListObj Dict Offload.
#[local] Open Scope Z_scope.

(** ** Code outside the repository *)

Class Env : Type := {
  (** [mbrtowc(NULL, s, len, &ps)]: the length of the next character *)
  mbrtowc : bytes → option nat;
  (** [rand_r(&seed)]: the new seed and the result *)
  rand_r : Z → Z * Z;
  (** the contents of a file, for [open], [fstat] and [read] *)
  read_file : bytes → option bytes;
  (** [strerror_r], [gai_strerror] *)
  strerror : Z → bytes;
  gai_strerror : Z → bytes
}.

(** An environment for concrete runs: characters are single bytes, random
    numbers count up, and there are no files. *)
Definition sample_env : Env := {|
  mbrtowc s := match s with [] => None | _ => Some 1%nat end;
  rand_r z := (z + 1, z);
  read_file _ := None;
  strerror e := lit "error " ++ fmt_int e;
  gai_strerror e := lit "error " ++ fmt_int e
|}.

(** ** Data *)

Inductive b6b_res : Set :=
| B6B_OK | B6B_YIELD | B6B_ERR | B6B_RET | B6B_BREAK | B6B_CONT | B6B_EXIT.

#[export] Instance b6b_res_eq_dec : EqDecision b6b_res.
Proof. solve_decision. Defined.

Definition B6B_MAX_NESTING : Z := 64.
Definition B6B_QUANT_LEN : Z := 16.

Record b6b_frame : Set := mkFrame { fr_locals : loc; fr_args : loc }.

(** [t_curr] is the chain of frames from [curr], without the global frame. *)
Record b6b_thread : Set := mkThread {
  t_id : N;
  t_curr : list b6b_frame;
  t_fn : option loc;
  t_ret : loc;          (* _ *)
  t_depth : Z;
  t_bg : bool;          (* B6B_THREAD_BG *)
  t_fg : bool;          (* B6B_THREAD_FG *)
  t_done : bool;        (* B6B_THREAD_DONE *)
  t_blocked : bool      (* B6B_THREAD_BLOCKED *)
}.

Record b6b_opts : Set := mkOpts {
  opt_raise : bool;     (* B6B_OPT_RAISE *)
  opt_trace : bool;     (* B6B_OPT_TRACE *)
  opt_nbf : bool;       (* B6B_OPT_NBF *)
  opt_no_pool : bool    (* B6B_OPT_NO_POOL *)
}.

Record b6b_interp : Set := mkInterp {
  threads : list b6b_thread;
  fg : N;               (* the [t_id] of the thread [fg] points to *)
  global : b6b_frame;
  null : loc;
  zero : loc;
  one : loc;
  dot : loc;
  at_ : loc;
  us : loc;             (* _ *)
  exit_ : Z;
  seed : Z;
  qstep : Z;
  opts : b6b_opts;
  offths : list b6b_offload_state
}.

(** The state of a run. [s_tids] is the next unused thread address and [s_err]
    what was written to [stderr]. *)
Record st : Set := mkSt {
  s_heap : heap;
  s_in : b6b_interp;
  s_tids : N;
  s_err : bytes
}.

(** What the memory of code with and without an interpreter is. *)
Class HasHeap (S : Type) : Type := heap_of : S → heap.
#[export] Instance heap_has_heap : HasHeap heap := λ h, h.
#[export] Instance st_has_heap : HasHeap st := s_heap.

(** ** Access *)

Definition on_heap {A} : HM A → M st A :=
  zoom s_heap (λ h s, mkSt h (s_in s) (s_tids s) (s_err s)).

Definition set_interp (f : b6b_interp → b6b_interp) : M st unit :=
  modify (λ s, mkSt (s_heap s) (f (s_in s)) (s_tids s) (s_err s)).

Definition with_threads (ts : list b6b_thread) (i : b6b_interp) : b6b_interp :=
  mkInterp ts (fg i) (global i) (null i) (zero i) (one i) (dot i) (at_ i) (us i)
    (exit_ i) (seed i) (qstep i) (opts i) (offths i).
Definition with_fg (f : N) (i : b6b_interp) : b6b_interp :=
  mkInterp (threads i) f (global i) (null i) (zero i) (one i) (dot i) (at_ i) (us i)
    (exit_ i) (seed i) (qstep i) (opts i) (offths i).
Definition with_exit (e : Z) (i : b6b_interp) : b6b_interp :=
  mkInterp (threads i) (fg i) (global i) (null i) (zero i) (one i) (dot i) (at_ i) (us i)
    e (seed i) (qstep i) (opts i) (offths i).
Definition with_seed (e : Z) (i : b6b_interp) : b6b_interp :=
  mkInterp (threads i) (fg i) (global i) (null i) (zero i) (one i) (dot i) (at_ i) (us i)
    (exit_ i) e (qstep i) (opts i) (offths i).
Definition with_qstep (q : Z) (i : b6b_interp) : b6b_interp :=
  mkInterp (threads i) (fg i) (global i) (null i) (zero i) (one i) (dot i) (at_ i) (us i)
    (exit_ i) (seed i) q (opts i) (offths i).
Definition with_opts (o : b6b_opts) (i : b6b_interp) : b6b_interp :=
  mkInterp (threads i) (fg i) (global i) (null i) (zero i) (one i) (dot i) (at_ i) (us i)
    (exit_ i) (seed i) (qstep i) o (offths i).
Definition with_offths (l : list b6b_offload_state) (i : b6b_interp) : b6b_interp :=
  mkInterp (threads i) (fg i) (global i) (null i) (zero i) (one i) (dot i) (at_ i) (us i)
    (exit_ i) (seed i) (qstep i) (opts i) l.

Definition with_curr (c : list b6b_frame) (d : Z) (t : b6b_thread) : b6b_thread :=
  mkThread (t_id t) c (t_fn t) (t_ret t) d (t_bg t) (t_fg t) (t_done t) (t_blocked t).
Definition with_ret (r : loc) (t : b6b_thread) : b6b_thread :=
  mkThread (t_id t) (t_curr t) (t_fn t) r (t_depth t) (t_bg t) (t_fg t) (t_done t) (t_blocked t).
Definition with_bg_fg (b f : bool) (t : b6b_thread) : b6b_thread :=
  mkThread (t_id t) (t_curr t) (t_fn t) (t_ret t) (t_depth t) b f (t_done t) (t_blocked t).
Definition with_done (t : b6b_thread) : b6b_thread :=
  mkThread (t_id t) (t_curr t) (t_fn t) (t_ret t) (t_depth t) (t_bg t) (t_fg t) true (t_blocked t).

(** [b6b_thread_block], [b6b_thread_unblock] *)
Definition with_blocked (b : bool) (t : b6b_thread) : b6b_thread :=
  mkThread (t_id t) (t_curr t) (t_fn t) (t_ret t) (t_depth t) (t_bg t) (t_fg t) (t_done t) b.

Definition find_thread (id : N) (ts : list b6b_thread) : option b6b_thread :=
  snd <$> list_find (λ t, t_id t = id) ts.

Definition map_thread (id : N) (f : b6b_thread → b6b_thread)
    (ts : list b6b_thread) : list b6b_thread :=
  (λ t, if decide (t_id t = id) then f t else t) <$> ts.

(** [interp->fg], dereferenced. *)
Definition fg_thread : M st b6b_thread :=
  s ← get; deref (find_thread (fg (s_in s)) (threads (s_in s))).

Definition update_fg (f : b6b_thread → b6b_thread) : M st unit :=
  set_interp (λ i, with_threads (map_thread (fg i) f (threads i)) i).

(** [interp->fg->curr] *)
Definition curr_frame : M st b6b_frame :=
  t ← fg_thread;
  s ← get;
  mret (default (global (s_in s)) (head (t_curr t))).

(** ** Return values *)

Definition set_ret (o : loc) : M st unit :=
  t ← fg_thread;
  on_heap (b6b_unref (t_ret t));;
  update_fg (with_ret o).

(** [b6b_return]: takes over the reference to [o]. *)
Definition b6b_return (o : loc) : M st b6b_res :=
  set_ret o;; mret B6B_OK.

(** [b6b_return(interp, b6b_ref(o))] *)
Definition return_ref (o : loc) : M st b6b_res :=
  on_heap (b6b_ref o);; b6b_return o.

Definition b6b_return_int (i : Z) : M st b6b_res :=
  o ← on_heap (b6b_int_new i); b6b_return o.
Definition b6b_return_float (f : b6b_float) : M st b6b_res :=
  o ← on_heap (b6b_float_new f); b6b_return o.
Definition b6b_return_true : M st b6b_res :=
  s ← get; return_ref (one (s_in s)).
Definition b6b_return_false : M st b6b_res :=
  s ← get; return_ref (zero (s_in s)).
Definition b6b_return_bool (b : bool) : M st b6b_res :=
  if b then b6b_return_true else b6b_return_false.
Definition b6b_return_str (s : bytes) : M st b6b_res :=
  o ← on_heap (b6b_str_copy s); b6b_return o.

(** [b6b_return_fmt], applied to the text [vasprintf] makes of its arguments. *)
Definition b6b_return_fmt (s : bytes) : M st b6b_res :=
  o ← on_heap (b6b_str_new s); b6b_return o.

(** [b6b_return_strerror]: the message becomes the return value. *)
Definition b6b_return_strerror `{Env} (e : Z) : M st b6b_res :=
  o ← on_heap (b6b_str_copy (strerror e)); set_ret o;; mret B6B_ERR.

(** ** Variables *)

Definition b6b_local (k v : loc) : M st bool :=
  f ← curr_frame; on_heap (b6b_dict_set (fr_locals f) k v).
Definition b6b_global (k v : loc) : M st bool :=
  s ← get; on_heap (b6b_dict_set (fr_locals (global (s_in s))) k v).

(** The loop of [b6b_get], from a frame to the global one: the lookup can fail
    ([None]), find the object, or reach the end of the chain. *)
Fixpoint get_loop (fs : list b6b_frame) (name : loc) : M st (option (option loc)) :=
  match fs with
  | [] => mret (Some None)
  | f :: fs' =>
      '(ok, o) ← on_heap (b6b_dict_get (fr_locals f) name);
      if negb ok then mret None
      else match o with
           | Some o => mret (Some (Some o))
           | None => get_loop fs' name
           end
  end.

Definition b6b_get (name : loc) : M st (option loc) :=
  t ← fg_thread;
  s ← get;
  ok ← on_heap (b6b_as_str name);
  if negb ok then mret None
  else
    r ← get_loop (t_curr t ++ [global (s_in s)]) name;
    match r with
    | None => mret None
    | Some (Some o) => mret (Some o)
    | Some None =>
        n ← on_heap (text name);
        b6b_return_fmt (lit "no such obj: " ++ c_str n);;
        mret None
    end.

(** [b6b_get] of a name on the stack: [b6b_str_init] on a variable that is gone
    after the call. *)
Definition b6b_get_str (s : bytes) : M st (option loc) :=
  name ← on_heap (b6b_str_new s);
  o ← b6b_get name;
  on_heap (free_obj name);;
  mret o.

(** ** src/b6b_frame.c *)

Definition b6b_frame_new : M st b6b_frame :=
  locals ← on_heap b6b_list_new;
  args ← on_heap b6b_list_new;
  mret (mkFrame locals args).

Definition b6b_frame_destroy (f : b6b_frame) : M st unit :=
  on_heap (b6b_unref (fr_args f));;
  on_heap (b6b_unref (fr_locals f)).

Definition b6b_frame_push : M st (option b6b_frame) :=
  t ← fg_thread;
  if B6B_MAX_NESTING <=? t_depth t then
    b6b_return_str (lit "call stack overflow");; mret None
  else
    f ← b6b_frame_new;
    update_fg (λ t, with_curr (f :: t_curr t) (u32 (t_depth t + 1)) t);;
    mret (Some f).

(** Without a frame of its own, the thread's chain is at the global frame,
    whose [prev] is NULL. *)
Definition b6b_frame_pop : M st unit :=
  t ← fg_thread;
  match t_curr t with
  | [] => ub
  | f :: fs =>
      b6b_frame_destroy f;;
      update_fg (λ t, with_curr fs (u32 (t_depth t - 1)) t)
  end.

(** The loop of [b6b_frame_set_args] over the items, from the position [i]. *)
Fixpoint set_args_loop (locals : loc) (items : list b6b_litem) (i : Z) : HM bool :=
  match items with
  | [] => mret true
  | li :: items' =>
      io ← b6b_int_new i;
      ok ← b6b_dict_set locals io (li_o li);
      if negb ok then b6b_destroy io;; mret false
      else b6b_unref io;; set_args_loop locals items' (i + 1)
  end.

Definition b6b_frame_set_args (f : b6b_frame) (args : loc) : M st bool :=
  ok ← on_heap (b6b_as_list args);
  if negb ok then mret false
  else
    s ← get;
    ok ← on_heap (b6b_dict_set (fr_locals f) (at_ (s_in s)) args);
    if negb ok then mret false
    else
      x ← on_heap (read_obj args);
      on_heap (set_args_loop (fr_locals f) (o_l x) 0).

(** ** [b6b_proc_get_args] *)

(** The characters of [fmt] after the first one, separated by spaces. *)
Definition expect (fmt : string) : bytes :=
  match lit fmt with
  | [] => []
  | _ :: cs => (fix go cs := match cs with
                | [] => []
                | [c] => [c]
                | c :: cs' => c :: " "%byte :: go cs'
                end) cs
  end.

Definition b6b_proc_get_args (l : loc) (fmt : string) (ap : list bool) : M st (Z * list varg) :=
  '(argc, outs) ← on_heap (b6b_list_vparse l fmt ap);
  (if argc =? 0 then
     li ← on_heap (b6b_list_first l);
     li ← deref li;
     o ← on_heap (item_obj l li);
     ok ← on_heap (b6b_as_str o);
     ok2 ← (if ok : bool then on_heap (b6b_as_str l) else mret false);
     if ok2 : bool then
       ls ← on_heap (text l);
       os ← on_heap (text o);
       b6b_return_fmt (lit "bad call: '" ++ c_str ls ++ lit "', expect '" ++
                       c_str os ++ lit " " ++ expect fmt ++ lit "'");;
       mret tt
     else mret tt
   else mret tt);;
  mret (argc, outs).

(** The arguments as addresses; [fmt] has no [*]. *)
Definition get_args (l : loc) (fmt : string) (ap : list bool) : M st (Z * list loc) :=
  '(argc, outs) ← b6b_proc_get_args l fmt ap;
  mret (argc, omap (λ a, match a with A_obj o => Some o | A_item _ => None end) outs).

(** ** Frames and variables, as a specification *)

(** The innermost binding of [s], given the bindings of the frames of a chain
    from the inside out. *)
Fixpoint lookup_chain (s : bytes) (kvss : list (list (bytes * loc))) : option loc :=
  match kvss with
  | [] => None
  | kvs :: kvss' => match assoc s kvs with Some o => Some o | None => lookup_chain s kvss' end
  end.

(** The locals of the frames [fs] hold the bindings [kvss]. *)
Definition frames_hold (h : heap) (fs : list b6b_frame) (kvss : list (list (bytes * loc))) : Prop :=
  Forall2 (λ f kvs, dict_holds (objs h) (fr_locals f) kvs) fs kvss.

Lemma on_heap_eq {A} (m : HM A) a h' s :
  m (s_heap s) = Done (a, h') →
  on_heap m s = Done (a, mkSt h' (s_in s) (s_tids s) (s_err s)).
Proof. intros E. unfold on_heap, zoom. by rewrite E. Qed.

Lemma fg_thread_eq t s :
  find_thread (fg (s_in s)) (threads (s_in s)) = Some t → fg_thread s = Done (t, s).
Proof. intros Ht. unfold fg_thread, mbind, M_bind, get. by rewrite Ht. Qed.

Lemma frames_hold_ext h h' fs kvss :
  ext (objs h) (objs h') → frames_hold h fs kvss → frames_hold h' fs kvss.
Proof.
  intros He Hf. eapply Forall2_impl; [exact Hf|]. intros f kvs. by apply dict_holds_ext.
Qed.

Lemma get_loop_ok fs name s kvss st0 :
  hashes_ok (objs (s_heap st0)) → frames_hold (s_heap st0) fs kvss →
  text_of (objs (s_heap st0)) name s →
  ∃ h', get_loop fs name st0 =
      Done (Some (lookup_chain s kvss), mkSt h' (s_in st0) (s_tids st0) (s_err st0)) ∧
    ext (objs (s_heap st0)) (objs h') ∧ next h' = next (s_heap st0).
Proof.
  intros Hok Hf Hn. revert st0 Hok Hf Hn. revert kvss.
  induction fs as [|f fs IH]; intros kvss st0 Hok Hf Hn.
  - apply Forall2_nil_inv_l in Hf as ->. exists (s_heap st0). split; [by destruct st0|done].
  - apply Forall2_cons_inv_l in Hf as (kvs & kvss' & Hkv & Hf & ->).
    destruct (dict_get_ok (fr_locals f) name s kvs (s_heap st0) Hok Hkv Hn) as (h1 & E1 & X1 & N1).
    simpl. rewrite (bind_eq _ _ _ _ _ (on_heap_eq _ _ _ _ E1)). cbn [negb].
    destruct (assoc s kvs); [by exists h1|].
    destruct (IH kvss' (mkSt h1 (s_in st0) (s_tids st0) (s_err st0))) as (h2 & E2 & X2 & N2).
    + by eapply ext_hashes_ok.
    + by eapply frames_hold_ext.
    + by eapply ext_text.
    + exists h2. split_and!; [exact E2|by etrans|by rewrite N2].
Qed.

Lemma get_ok name s kvss t o st0 :
  hashes_ok (objs (s_heap st0)) →
  find_thread (fg (s_in st0)) (threads (s_in st0)) = Some t →
  frames_hold (s_heap st0) (t_curr t ++ [global (s_in st0)]) kvss →
  text_of (objs (s_heap st0)) name s → lookup_chain s kvss = Some o →
  ∃ h', b6b_get name st0 = Done (Some o, mkSt h' (s_in st0) (s_tids st0) (s_err st0)) ∧
    ext (objs (s_heap st0)) (objs h') ∧ next h' = next (s_heap st0).
Proof.
  intros Hok Ht Hf Hn Hl.
  destruct (as_str_total name s (s_heap st0) Hn) as (h1 & E1 & X1 & N1 & _).
  destruct (get_loop_ok (t_curr t ++ [global (s_in st0)]) name s kvss
    (mkSt h1 (s_in st0) (s_tids st0) (s_err st0))) as (h2 & E2 & X2 & N2).
  - by eapply ext_hashes_ok.
  - by eapply frames_hold_ext.
  - by eapply ext_text.
  - exists h2. split_and!; [|by etrans|by rewrite N2].
    unfold b6b_get. rewrite (bind_eq _ _ _ _ _ (fg_thread_eq _ _ Ht)).
    rewrite (bind_eq _ _ st0 st0 st0) by done.
    rewrite (bind_eq _ _ _ _ _ (on_heap_eq _ _ _ _ E1)). cbn [negb].
    rewrite (bind_eq _ _ _ _ _ E2). by rewrite Hl.
Qed.

(** *** Arguments *)

(** The bindings after the arguments [os] are numbered from [i] on. *)
Fixpoint bind_args (i : Z) (os : list loc) (kvs : list (bytes * loc)) : list (bytes * loc) :=
  match os with
  | [] => kvs
  | o :: os' => bind_args (i + 1) os' (dict_upd (fmt_int i) o kvs)
  end.

Lemma assoc_upd s t v kvs :
  assoc s (dict_upd t v kvs) = if decide (t = s) then Some v else assoc s kvs.
Proof.
  induction kvs as [|[k w] kvs IH]; simpl; [done|].
  destruct (decide (k = t)) as [->|Hkt]; simpl.
  - by destruct (decide (t = s)).
  - rewrite IH. destruct (decide (k = s)) as [->|]; [|done]. by rewrite decide_False.
Qed.

Lemma assoc_bind_args_other s os : ∀ i kvs,
  (∀ j, s ≠ fmt_int j) → assoc s (bind_args i os kvs) = assoc s kvs.
Proof.
  induction os as [|o os IH]; intros i kvs Hs; simpl; [done|].
  rewrite IH, assoc_upd by done. rewrite decide_False; [done|]. intros E. by destruct (Hs i).
Qed.

Lemma assoc_bind_args_before i j os : ∀ kvs,
  j < i → assoc (fmt_int j) (bind_args i os kvs) = assoc (fmt_int j) kvs.
Proof.
  revert i. induction os as [|o os IH]; intros i kvs Hj; simpl; [done|].
  rewrite IH, assoc_upd by lia. rewrite decide_False; [done|]. intros E%fmt_int_inj. lia.
Qed.

Lemma assoc_bind_args os : ∀ i k o kvs,
  os !! k = Some o → assoc (fmt_int (i + Z.of_nat k)) (bind_args i os kvs) = Some o.
Proof.
  induction os as [|p os IH]; intros i k o kvs Hk; [done|].
  destruct k as [|k]; simpl in Hk |- *.
  - injection Hk as ->. rewrite Z.add_0_r, assoc_bind_args_before by lia.
    by rewrite assoc_upd, decide_True.
  - replace (i + Z.of_nat (S k)) with (i + 1 + Z.of_nat k) by lia.
    exact (IH (i + 1) k o _ Hk).
Qed.

(** Dropping a reference of the program does not change a dictionary it holds. *)
Lemma shrinks_delete_both d m m' : shrinks m m' → shrinks (delete d m) (delete d m').
Proof.
  intros Hs p x' [Hne Hx']%lookup_delete_Some. destruct (Hs p x' Hx') as (x & Hx & Hr).
  exists x. by rewrite lookup_delete_ne.
Qed.

Lemma dict_at_shrinks R d h h' kvs :
  well_counted R (objs h') → d ∈ R → shrinks (objs h) (objs h') → next h' = next h →
  dict_at h d kvs → dict_at h' d kvs.
Proof.
  intros Hwc Hd Hs Hn (x & [L1 L2 L3 L4] & Hp).
  destruct (well_counted_root _ _ _ Hwc Hd) as (x' & Hx' & _).
  assert (x' = with_refc (o_refc x') x) as E.
  { destruct (Hs d x' Hx') as (y & Hy & Hr). rewrite L1 in Hy. by injection Hy as <-. }
  assert (o_l x' = o_l x) as El by (by rewrite E).
  assert (f_list (o_flags x') = true) as Hl' by (by rewrite E).
  exists x'. split.
  - split; [done|done|by rewrite El|]. intros it Hit. rewrite Hn. apply L4. by rewrite <- El.
  - rewrite El. apply (pairs_kept R d x' (objs h)); [done..| |by apply shrinks_delete_both|done].
    intros it Hit. rewrite El. by apply list_elem_of_fmap_2.
Qed.

Lemma hashes_shrinks m m' : shrinks m m' → hashes_ok m → hashes_ok m'.
Proof. intros Hs Hm o x' Hx'. destruct (Hs o x' Hx') as (x & Hx & ->). exact (Hm o x Hx). Qed.

Lemma dict_at_fresh h d y kvs :
  objs h !! next h = None → dict_at h d kvs →
  dict_at (mkHeap (<[next h := y]> (objs h)) (N.succ (next h)) (h_os h)) d kvs.
Proof.
  intros Hnew (x & [L1 L2 L3 L4] & Hp). assert (d ≠ next h) as Hne by congruence.
  exists x. split.
  - split; simpl; [by rewrite lookup_insert_ne|done|done|]. intros it Hit.
    pose proof (L4 it Hit). lia.
  - simpl. rewrite delete_insert_ne by done. eapply pairs_of_impl; [|exact Hp].
    intros it s _ [n Hn]. exists n. apply sval_insert_fresh; [|done].
    by rewrite lookup_delete_ne.
Qed.

(** What the loop of [b6b_frame_set_args] needs and keeps. *)
Record args_state (R : list loc) (d : loc) (h : heap) (kvs : list (bytes * loc)) : Prop := {
  as_counted : well_counted R (objs h);
  as_hashes : hashes_ok (objs h);
  as_fresh : heap_fresh h;
  as_dict : dict_at h d kvs
}.

(** A step: a new integer becomes the key of [v]. *)
Lemma set_arg_ok R d i v kvs h :
  args_state R d h kvs → d ∈ R → held R d h v →
  ∃ h1 h2 h3, b6b_int_new i h = Done (next h, h1) ∧
    b6b_dict_set d (next h) v h1 = Done (true, h2) ∧ b6b_unref (next h) h2 = Done (tt, h3) ∧
    args_state R d h3 (dict_upd (fmt_int i) v kvs) ∧
    ∀ w, held R d h w → held R d h3 w.
Proof.
  intros [Hwc Hok Hfr Hd] Hdr Hv.
  assert (objs h !! next h = None) as Hnew.
  { destruct (objs h !! next h) eqn:E; [|done].
    assert (next h < next h)%N by (apply Hfr; by eexists). lia. }
  assert (d ≠ next h) as Hne.
  { destruct Hd as (x & [Hx _ _ _] & _). congruence. }
  set (h1 := mkHeap (<[next h := new_int i]> (objs h)) (N.succ (next h)) (h_os h)).
  assert (well_counted (next h :: R) (objs h1)) as W1 by (by apply well_counted_alloc).
  assert (∀ w, held R d h w → held (next h :: R) d h1 w) as Hheld1.
  { intros w [Hw|(a & x & Ha & Had & Hx & Hw)]; [left; by right|right]. exists a, x.
    split_and!; [by right|done| |done]. simpl. by rewrite lookup_insert_ne by congruence. }
  destruct (dict_set_ok (next h :: R) d (next h) v (fmt_int i) kvs h1)
    as (h2 & E2 & W2 & O2 & D2 & [N2 K2]); [done|..].
  - intros o x Hx. unfold h1 in Hx. simpl in Hx.
    apply lookup_insert_Some in Hx as [[<- <-]|[_ Hx]]; [done|by eapply Hok].
  - by apply dict_at_fresh.
  - exists 1%nat. rewrite sval_S. simpl. by rewrite lookup_delete_ne, lookup_insert_eq.
  - by right.
  - by apply Hheld1.
  - destruct (unref_total R (next h) h2 W2) as (h3 & E3 & W3 & N3 & S3).
    exists h1, h2, h3. split_and!; [apply int_new_eq|done|done| |].
    + split; [done|by eapply hashes_shrinks| |by eapply dict_at_shrinks].
      intros o [x3 Hx3]. destruct (S3 o x3 Hx3) as (x2 & Hx2 & _).
      rewrite N3. destruct (decide (o = d)) as [->|Ho].
      * assert (d < next h)%N; [|unfold h1 in N2; simpl in N2; lia]. apply Hfr.
        destruct Hd as (x & [Hx _ _ _] & _). by eexists.
      * destruct (K2 o x2 Ho Hx2) as (x1 & Hx1 & _). unfold h1 in Hx1, N2. simpl in Hx1, N2.
        apply lookup_insert_Some in Hx1 as [[<- _]|[_ Hx1]]; [lia|].
        assert (o < next h)%N; [apply Hfr; by eexists|lia].
    + intros w [Hw|(a & x & Ha & Had & Hx & Hw)]; [by left|right].
      destruct (well_counted_root _ _ _ W3 Ha) as (x3 & Hx3 & _).
      destruct (S3 a x3 Hx3) as (x2 & Hx2 & Hr3).
      destruct (K2 a x2 Had Hx2) as (x1 & Hx1 & _ & Hr2 & _). unfold h1 in Hx1. simpl in Hx1.
      rewrite lookup_insert_ne, Hx in Hx1 by congruence. injection Hx1 as <-.
      exists a, x3. split_and!; [done..|]. rewrite Hr3. change (refs_of (with_refc _ x2)) with (refs_of x2).
      by rewrite Hr2.
Qed.

Lemma set_args_loop_ok R d items : ∀ i kvs h,
  args_state R d h kvs → d ∈ R → (∀ it, it ∈ items → held R d h (li_o it)) →
  ∃ h', set_args_loop d items i h = Done (true, h') ∧
    args_state R d h' (bind_args i (li_o <$> items) kvs).
Proof.
  induction items as [|it items IH]; intros i kvs h Hs Hdr Hheld; [by exists h|].
  destruct (set_arg_ok R d i (li_o it) kvs h Hs Hdr) as (h1 & h2 & h3 & E1 & E2 & E3 & S3 & K3).
  { apply Hheld. by left. }
  destruct (IH (i + 1) (dict_upd (fmt_int i) (li_o it) kvs) h3 S3 Hdr) as (h4 & E4 & S4).
  { intros w Hw. apply K3, Hheld. by right. }
  exists h4. split; [|done]. cbn [set_args_loop].
  rewrite (bind_eq _ _ _ _ _ E1), (bind_eq _ _ _ _ _ E2). cbn [negb].
  by rewrite (bind_eq _ _ _ _ _ E3).
Qed.

(** ** Properties *)

(** C19: variables are looked up from the innermost frame of the running thread
    outwards, the global frame last: [b6b_get] returns the innermost binding of
    the name, and changes nothing but caches. *)
Theorem b6b_get_correct name s kvss t o st0 :
  hashes_ok (objs (s_heap st0)) →
  find_thread (fg (s_in st0)) (threads (s_in st0)) = Some t →
  frames_hold (s_heap st0) (t_curr t ++ [global (s_in st0)]) kvss →
  text_of (objs (s_heap st0)) name s → lookup_chain s kvss = Some o →
  ∃ h', b6b_get name st0 = Done (Some o, mkSt h' (s_in st0) (s_tids st0) (s_err st0)) ∧
    ext (objs (s_heap st0)) (objs h').
Proof.
  intros Hok Ht Hf Hn Hl. destruct (get_ok name s kvss t o st0 Hok Ht Hf Hn Hl) as (h' & E & X & _).
  by exists h'.
Qed.

(** C6: a call finds its arguments. After [b6b_frame_set_args] the locals of the
    frame bind the list of arguments and the number of each argument to it (the
    name of the procedure is 0), other names keep their bindings, and the heap
    stays well counted. *)
Theorem b6b_frame_set_args_correct R f args x a kvs st0 :
  let h := s_heap st0 in
  well_counted R (objs h) → hashes_ok (objs h) → heap_fresh h → dict_at h (fr_locals f) kvs →
  objs h !! args = Some x → f_list (o_flags x) = true → args ≠ fr_locals f →
  fr_locals f ∈ R → args ∈ R →
  text_of (delete (fr_locals f) (objs h)) (at_ (s_in st0)) a → (∀ i, a ≠ fmt_int i) →
  ∃ h' kvs', b6b_frame_set_args f args st0
      = Done (true, mkSt h' (s_in st0) (s_tids st0) (s_err st0)) ∧
    well_counted R (objs h') ∧ hashes_ok (objs h') ∧ dict_at h' (fr_locals f) kvs' ∧
    (∀ k o, (li_o <$> o_l x) !! k = Some o → assoc (fmt_int (Z.of_nat k)) kvs' = Some o) ∧
    assoc a kvs' = Some args ∧
    (∀ s, s ≠ a → (∀ i, s ≠ fmt_int i) → assoc s kvs' = assoc s kvs).
Proof.
  intros h Hwc Hok Hfr Hd Hx Hl Hne Hfd Hfa Ha Hai. set (d := fr_locals f) in *.
  destruct (dict_set_ok R d (at_ (s_in st0)) args a kvs h Hwc Hok Hd Ha Hfd)
    as (h1 & E1 & W1 & O1 & D1 & K1); [by left|].
  destruct (well_counted_root _ _ _ W1 Hfa) as (x1 & Hx1 & _).
  destruct (proj2 K1 args x1 Hne Hx1) as (x0 & Hx0 & Hl1 & _ & Hf1).
  assert (x0 = x) as -> by congruence.
  destruct (set_args_loop_ok R d (o_l x1) 0 (dict_upd a args kvs) h1) as (h2 & E2 & [W2 O2 _ D2]).
  - split; [done|done| |done]. intros o [y Hy]. destruct (decide (o = d)) as [->|Ho].
    + assert (d < next h)%N; [|pose proof (proj1 K1); lia]. apply Hfr.
      destruct Hd as (z & [Hz _ _ _] & _). by eexists.
    + destruct (proj2 K1 o y Ho Hy) as (z & Hz & _).
      assert (o < next h)%N; [apply Hfr; by eexists|pose proof (proj1 K1); lia].
  - done.
  - intros it Hit. right. exists args, x1. split_and!; [done..|].
    rewrite refs_of_list by congruence. apply elem_of_app. left. by apply list_elem_of_fmap_2.
  - exists h2, (bind_args 0 (li_o <$> o_l x1) (dict_upd a args kvs)). split_and!; try done.
    + unfold b6b_frame_set_args. rewrite (bind_eq _ _ st0 true st0).
      2: { unfold on_heap, zoom, b6b_as_list.
           rewrite (bind_eq _ _ _ _ _ (read_obj_eq args x (s_heap st0) Hx)), Hl. by destruct st0. }
      cbn [negb]. rewrite (bind_eq _ _ st0 st0 st0) by done.
      rewrite (bind_eq _ _ _ _ _ (on_heap_eq _ _ _ _ E1)). cbn [negb].
      rewrite (bind_eq _ _ _ _ _ (on_heap_eq (read_obj args) x1 h1
        (mkSt h1 _ _ _) (read_obj_eq args x1 h1 Hx1))).
      exact (on_heap_eq _ _ _ (mkSt h1 _ _ _) E2).
    + intros k o Hk. rewrite Hl1. exact (assoc_bind_args _ 0 k o _ Hk).
    + rewrite assoc_bind_args_other by done. by rewrite assoc_upd, decide_True.
    + intros s Hs Hsi. rewrite assoc_bind_args_other, assoc_upd by done.
      by rewrite decide_False.
Qed.

(** *** Witnesses *)

(** One frame, with the locals 0 and the global frame 1, both binding a
    variable x; the arguments 2 hold the object 3 twice. *)
Definition sample_state : st :=
  let hp := mkHeap
    {[ 0%N := with_l [mkItem 10 4; mkItem 11 3] new_list;
       1%N := with_l [mkItem 12 4; mkItem 13 5] new_list;
       2%N := with_l [mkItem 14 3; mkItem 15 3] new_list;
       3%N := with_refc 3 (new_int 7);
       4%N := with_refc 3 (new_str (lit "x"));
       5%N := new_int 8;
       6%N := new_str (lit "@") ]} 20 no_os in
  let t := mkThread 0 [mkFrame 0 2] None 4 1 false true false false in
  mkSt hp (mkInterp [t] 0 (mkFrame 1 2) 4 4 4 4 6 4 0 0 0
    (mkOpts false false false false) []) 1 [].

Lemma b6b_get_correct_witness :
  ∃ h', b6b_get 4 sample_state
      = Done (Some 3%N, mkSt h' (s_in sample_state) (s_tids sample_state) (s_err sample_state)) ∧
    ext (objs (s_heap sample_state)) (objs h').
Proof.
  eapply (b6b_get_correct 4%N (lit "x") [[(lit "x", 3%N)]; [(lit "x", 5%N)]]).
  - apply hashes_check_sound. vm_compute. reflexivity.
  - reflexivity.
  - repeat constructor; (eexists; split; [vm_compute; reflexivity|]; split; [reflexivity|]);
      (split_and!; [by exists 1%nat|done|done]).
  - by exists 1%nat.
  - reflexivity.
Defined.

Lemma b6b_frame_set_args_correct_witness :
  ∃ h' kvs', b6b_frame_set_args (mkFrame 0 2) 2 sample_state
      = Done (true, mkSt h' (s_in sample_state) (s_tids sample_state) (s_err sample_state)) ∧
    well_counted [0; 1; 2; 4; 6]%N (objs h') ∧ hashes_ok (objs h') ∧ dict_at h' 0 kvs' ∧
    assoc (lit "1") kvs' = Some 3%N ∧ assoc (lit "x") kvs' = Some 3%N.
Proof.
  destruct (b6b_frame_set_args_correct [0; 1; 2; 4; 6]%N (mkFrame 0 2) 2%N
    (with_l [mkItem 14 3; mkItem 15 3] new_list) (lit "@") [(lit "x", 3%N)] sample_state)
    as (h' & kvs' & H1 & H2 & H3 & H4 & H5 & _ & H7).
  - apply wc_check_sound. vm_compute. reflexivity.
  - apply hashes_check_sound. vm_compute. reflexivity.
  - intros o [y Hy]. simpl in Hy |- *.
    do 6 (apply lookup_insert_Some in Hy as [[<- _]|[_ Hy]]; [lia|]).
    apply lookup_singleton_Some in Hy as [<- _]. lia.
  - eexists. split; [split; [vm_compute; reflexivity|reflexivity|..]|].
    + repeat constructor; set_solver.
    + intros it [->|[->|[]%elem_of_nil]%elem_of_cons]%elem_of_cons; simpl; lia.
    + split_and!; [by exists 1%nat|done|done].
  - vm_compute. reflexivity.
  - reflexivity.
  - done.
  - set_solver.
  - set_solver.
  - by exists 1%nat.
  - intros i E. destruct (dec_head i) as (d & s & Hd & Ed & _).
    unfold fmt_int in E. destruct (i <? 0); [discriminate E|]. rewrite Ed in E.
    injection E as E _. assert (digit d ≠ "@"%byte) as Hn by (digit_cases d; by vm_compute).
    by destruct Hn.
  - exists h', kvs'. split_and!; [exact H1|exact H2|exact H3|exact H4|exact (H5 1%nat 3%N eq_refl)|].
    rewrite H7; [reflexivity|done|]. intros i E. destruct (dec_head i) as (d & s & Hd & Ed & _).
    unfold fmt_int in E. destruct (i <? 0); [discriminate E|]. rewrite Ed in E.
    injection E as E _. assert (digit d ≠ "x"%byte) as Hn by (digit_cases d; by vm_compute).
    by destruct Hn.
Defined.
