(* ===== verification/StrProcs.v ===== *)
(** * String procedures

    The procedures of src/b6b_str.c. Each has its computation on bytes as a
    function of its own, which the procedure applies to the texts of its
    arguments. A string's buffer holds a NUL after its last byte; reading
    further, or before the first byte, is undefined behaviour. *)
From Stdlib Require Import ZArith Lia Init.Byte Strings.Byte Strings.String.
From stdpp Require Import base option list numbers gmap.
From S2P Require Import Prelude Sys Float64 Hash Parse Heap Repr ListObj Dict Interp.
#[local] Open Scope Z_scope.
#[local] Open Scope byte_scope.

(** ** On bytes *)

(** The bytes at [start], ..., [end] of a string. *)
Definition slice (s : bytes) (start end_ : Z) : bytes :=
  take (Z.to_nat (end_ - start + 1)) (drop (Z.to_nat start) s).

(** [memcmp(p, d->s, d->slen) == 0], for a buffer that ends after [p]: all
    [d->slen] bytes have to be in it, whatever they are. *)
Definition memcmp_eq (p d : bytes) : option bool :=
  if decide (length p < length d)%nat then None
  else Some (bool_decide (take (length d) p = d)).

(** The loop of [b6b_str_proc_split]: [p] is the rest of the string and [prev]
    the bytes between [prev] and [p]. *)
Fixpoint split_loop (n : nat) (d prev p : bytes) : out (list bytes) :=
  match p with
  | [] => Done (match d with [] => [] | _ => [prev] end)
  | c :: p' =>
      match n with
      | O => Oof
      | S n' =>
          match d with
          | [] =>
              match split_loop n' d [] p' with
              | Done l => Done ([c] :: l)
              | r => r
              end
          | _ =>
              match memcmp_eq (p ++ [x00]) d with
              | None => Ub
              | Some false => split_loop n' d (prev ++ [c]) p'
              | Some true =>
                  (* past the end, [p] never gets equal to [end] *)
                  if decide (length p < length d)%nat then Ub
                  else match split_loop n' d [] (drop (length d) p) with
                       | Done l => Done (prev :: l)
                       | r => r
                       end
              end
          end
      end
  end.

Definition split (s d : bytes) : out (list bytes) := split_loop (length s) d [] s.

(** The outcome of an escape sequence: the byte it stands for and the rest of
    the string, or an error message. *)
Definition hex_digit (c : byte) : option Z :=
  if in_range "0" "9" c then Some (uchar c - uchar "0")
  else if in_range "a" "f" c then Some (uchar c - uchar "a" + 10)
  else if in_range "A" "F" c then Some (uchar c - uchar "A" + 10)
  else None.

Definition escape (s : bytes) : (byte * bytes) + bytes :=
  match s with
  | [] => inr (lit "bad escape")
  | c :: s' =>
      if decide (c = "0") then inl (x00, s')
      else if decide (c = "\") then inl ("\", s')
      else if decide (c = "n") then inl (x0a, s')
      else if decide (c = "t") then inl (x09, s')
      else if decide (c = "r") then inl (x0d, s')
      else if decide (c = "x") then
        match s' with
        | a :: b :: s'' =>
            match hex_digit a, hex_digit b with
            | Some hi, Some lo => inl (to_byte (Z.lor (Z.shiftl hi 4) lo), s'')
            | _, _ => inr (lit "bad hex digit")
            end
        | _ => inr (lit "bad hex escape")
        end
      else inr (lit "bad escape")
  end.

(** The loop of [b6b_str_proc_expand] from [s->s[i]] on; each round consumes at
    least a byte. *)
Fixpoint expand_loop (n : nat) (s : bytes) : bytes + bytes :=
  match n, s with
  | S n', c :: s' =>
      if decide (c = "\") then
        match escape s' with
        | inl (b, s'') => sum_map (cons b) id (expand_loop n' s'')
        | inr e => inr e
        end
      else sum_map (cons c) id (expand_loop n' s')
  | _, _ => inl []
  end.

Definition expand (s : bytes) : bytes + bytes := expand_loop (length s) s.

(** The search loop of [b6b_str_proc_in], for [i <= s->slen - sub->slen]. *)
Fixpoint in_loop (n : nat) (sub s : bytes) : bool :=
  bool_decide (take (length sub) s = sub)
  || match n, s with
     | S n', _ :: s' => in_loop n' sub s'
     | _, _ => false
     end.

(** The loop of [b6b_str_proc_rtrim] on the bytes before [i], last one first:
    it reads [s->s[-1]] when all of them are spaces. *)
Fixpoint rtrim_loop (r : bytes) : option bytes :=
  match r with
  | [] => None
  | c :: r' => if b6b_isspace c then rtrim_loop r' else Some r
  end.

Definition rtrim (s : bytes) : option bytes :=
  match s with
  | [] => Some []
  | _ => reverse <$> rtrim_loop (reverse s)
  end.

Fixpoint ltrim (s : bytes) : bytes :=
  match s with
  | c :: s' => if b6b_isspace c then ltrim s' else s
  | [] => []
  end.

(** ** Procedures *)

Definition b6b_str_proc_len (args : loc) : M st b6b_res :=
  r ← get_args args "os" [false; true];
  match r with
  | (0, _) => mret B6B_ERR
  | (_, [s]) => x ← on_heap (text s); b6b_return_int (Z.of_nat (length x))
  | _ => ub
  end.

(** [s->slen] is unsigned: the comparison converts [i->i]. *)
Definition b6b_str_proc_index (args : loc) : M st b6b_res :=
  r ← get_args args "osi" [false; true; true];
  match r with
  | (0, _) => mret B6B_ERR
  | (_, [s; i]) =>
      x ← on_heap (text s);
      i ← on_heap (read_obj i);
      if (Z.of_nat (length x) <=? u64 (o_i i)) || (o_i i <? 0) then mret B6B_ERR
      else b6b_return_str (slice x (o_i i) (o_i i))
  | _ => ub
  end.

Definition b6b_str_proc_range (args : loc) : M st b6b_res :=
  r ← get_args args "osii" [false; true; true; true];
  match r with
  | (0, _) => mret B6B_ERR
  | (_, [s; start; end_]) =>
      x ← on_heap (text s);
      a ← on_heap (read_obj start);
      b ← on_heap (read_obj end_);
      if (o_i a <? 0) || (Z.of_nat (length x) <=? u64 (o_i a))
         || (o_i b <? 0) || (Z.of_nat (length x) <=? u64 (o_i b))
         || (o_i b <? o_i a)
      then mret B6B_ERR
      else b6b_return_str (slice x (o_i a) (o_i b))
  | _ => ub
  end.

(** The loop of [b6b_str_proc_join] over the items after the first. *)
Fixpoint join_loop (d : loc) (items : list b6b_litem) (s : bytes) : HM (option bytes) :=
  match items with
  | [] => mret (Some s)
  | li :: items' =>
      ok ← b6b_as_str (li_o li);
      if negb ok then mret None
      else
        sep ← text d;
        t ← text (li_o li);
        join_loop d items' (s ++ sep ++ t)
  end.

Definition b6b_str_proc_join (args : loc) : M st b6b_res :=
  r ← get_args args "osl" [false; true; true];
  match r with
  | (0, _) => mret B6B_ERR
  | (_, [d; l]) =>
      x ← on_heap (read_obj l);
      match o_l x with
      | [] => b6b_return_str []
      | li :: items =>
          ok ← on_heap (b6b_as_str (li_o li));
          if negb ok then mret B6B_ERR
          else
            t ← on_heap (text (li_o li));
            s ← on_heap (join_loop d items t);
            match s with
            | None => mret B6B_ERR
            | Some s => o ← on_heap (b6b_str_new s); b6b_return o
            end
      end
  | _ => ub
  end.

(** Adds a copy of each string to [l]. *)
Fixpoint add_strs (l : loc) (ss : list bytes) : HM unit :=
  match ss with
  | [] => mret tt
  | s :: ss' =>
      o ← b6b_str_copy s;
      b6b_list_add l o;;
      b6b_unref o;;
      add_strs l ss'
  end.

Definition b6b_str_proc_split (args : loc) : M st b6b_res :=
  r ← get_args args "oss" [false; true; true];
  match r with
  | (0, _) => mret B6B_ERR
  | (_, [s; d]) =>
      l ← on_heap b6b_list_new;
      x ← on_heap (text s);
      y ← on_heap (text d);
      ts ← lift_out (split x y);
      on_heap (add_strs l ts);;
      b6b_return l
  | _ => ub
  end.

Definition b6b_str_proc_ord (args : loc) : M st b6b_res :=
  r ← get_args args "os" [false; true];
  match r with
  | (0, _) => mret B6B_ERR
  | (_, [s]) =>
      x ← on_heap (text s);
      match x with
      | [c] => b6b_return_int (uchar c)
      | _ => mret B6B_ERR
      end
  | _ => ub
  end.

Definition b6b_str_proc_chr (args : loc) : M st b6b_res :=
  r ← get_args args "oi" [false; true];
  match r with
  | (0, _) => mret B6B_ERR
  | (_, [n]) =>
      x ← on_heap (read_obj n);
      if (o_i x <? 0) || (255 <? o_i x) then mret B6B_ERR
      else s ← on_heap (b6b_str_new [to_byte (o_i x)]); b6b_return s
  | _ => ub
  end.

Definition b6b_str_proc_expand (args : loc) : M st b6b_res :=
  r ← get_args args "os" [false; true];
  match r with
  | (0, _) => mret B6B_ERR
  | (_, [s]) =>
      x ← on_heap (text s);
      match expand x with
      | inl t => o ← on_heap (b6b_str_new t); b6b_return o
      | inr e => b6b_return_str e;; mret B6B_ERR
      end
  | _ => ub
  end.

Definition b6b_str_proc_in (args : loc) : M st b6b_res :=
  r ← get_args args "oss" [false; true; true];
  match r with
  | (0, _) => mret B6B_ERR
  | (_, [sub; s]) =>
      x ← on_heap (text sub);
      y ← on_heap (text s);
      match x with
      | [] => mret B6B_ERR
      | _ =>
          if (length x <? length y)%nat then
            b6b_return_bool (in_loop (length y - length x) x y)
          else if (length y =? length x)%nat then
            ok ← on_heap (b6b_obj_hash s);
            if negb ok then mret B6B_ERR
            else
              ok ← on_heap (b6b_obj_hash sub);
              if negb ok then mret B6B_ERR
              else eq ← on_heap (obj_eq_at sub s); b6b_return_bool eq
          else b6b_return_bool false
      end
  | _ => ub
  end.

Definition b6b_str_proc_rtrim (args : loc) : M st b6b_res :=
  r ← get_args args "os" [false; true];
  match r with
  | (0, _) => mret B6B_ERR
  | (_, [s]) =>
      x ← on_heap (text s);
      t ← deref (rtrim x);
      b6b_return_str t
  | _ => ub
  end.

Definition b6b_str_proc_ltrim (args : loc) : M st b6b_res :=
  r ← get_args args "os" [false; true];
  match r with
  | (0, _) => mret B6B_ERR
  | (_, [s]) => x ← on_heap (text s); b6b_return_str (ltrim x)
  | _ => ub
  end.

(** ** [split] and [join] *)

(** The pieces with the delimiter between them. *)
Fixpoint join (d : bytes) (l : list bytes) : bytes :=
  match l with
  | [] => []
  | [t] => t
  | t :: l' => t ++ d ++ join d l'
  end.

(** [d] does not start before the end of [t] in [t ++ rest]. *)
Definition no_match (d t rest : bytes) : Prop :=
  ∀ i, (i < length t)%nat → take (length d) (drop i (t ++ rest)) ≠ d.

(** Each piece but the last ends at the first occurrence of the delimiter; the
    last has none. *)
Fixpoint pieces_ok (d : bytes) (l : list bytes) : Prop :=
  match l with
  | [] => False
  | [t] => no_match d t []
  | t :: l' => no_match d t (d ++ join d l') ∧ pieces_ok d l'
  end.

(** A comparison inside the buffer, for a delimiter without NUL. *)
Lemma memcmp_eq_take p d :
  x00 ∉ d → memcmp_eq (p ++ [x00]) d =
    if decide (S (length p) < length d)%nat then None
    else Some (bool_decide (take (length d) p = d)).
Proof.
  intros Hd. unfold memcmp_eq. rewrite length_app, Nat.add_1_r. case_decide; [done|].
  f_equal. apply bool_decide_ext. destruct (decide (length d ≤ length p)%nat) as [Hle|Hgt].
  { by rewrite take_app_le. }
  rewrite (take_ge (p ++ [x00])) by (rewrite length_app; simpl; lia). split.
  - intros <-. by destruct Hd; apply elem_of_app; right; left.
  - intros E%(f_equal length). rewrite length_take in E. lia.
Qed.

Lemma take_length_eq (d p : bytes) : take (length d) p = d → p = d ++ drop (length d) p.
Proof. intros H. rewrite <- H at 1. by rewrite take_drop. Qed.

(** Moving a byte to the piece being built. *)
Lemma no_match_snoc d prev c p :
  no_match d prev (c :: p) → take (length d) (c :: p) ≠ d → no_match d (prev ++ [c]) p.
Proof.
  intros H1 H2 i Hi. rewrite length_app in Hi. simpl in Hi.
  rewrite <- app_assoc. simpl. destruct (decide (i < length prev)%nat) as [Hlt|Hge].
  - by apply H1.
  - assert (i = length prev) as -> by lia. by rewrite drop_app_length.
Qed.

(** The pieces of nothing. *)
Lemma pieces_nil d l : join d l = [] → d ≠ [] → pieces_ok d l → l = [[]].
Proof.
  destruct l as [|t [|u l]]; [done|by simpl; intros ->|].
  intros J Hd. assert (t ++ d ++ join d (u :: l) = []) as E by done.
  by apply app_eq_nil in E as [_ [? _]%app_eq_nil].
Qed.

(** What is too short for the delimiter has no match. *)
Lemma no_match_short d prev p :
  no_match d prev p → (length p < length d)%nat → no_match d (prev ++ p) [].
Proof.
  intros Hm Hs i Hi. rewrite app_nil_r. destruct (decide (i < length prev)%nat); [by apply Hm|].
  intros E%(f_equal length). rewrite length_take, length_drop, !length_app in *. lia.
Qed.

(** [split] stays in its buffer: the delimiter is short, or nothing follows its
    last occurrence. *)
Definition stays_inside (d : bytes) (l : list bytes) : Prop :=
  (length d ≤ 2)%nat ∨ last l = Some [].

#[export] Instance stays_inside_dec d l : Decision (stays_inside d l).
Proof. unfold stays_inside. apply _. Defined.

Lemma split_loop_ok n d prev p :
  d ≠ [] → x00 ∉ d → (length p ≤ n)%nat → no_match d prev p →
  ∃ l, join d l = prev ++ p ∧ pieces_ok d l ∧
    split_loop n d prev p = if decide (p = [] ∨ stays_inside d l) then Done l else Ub.
Proof.
  intros Hd Hnul. revert prev p. induction n as [|n IH]; intros prev [|c p] Hn Hm;
    simpl in Hn; try lia; cbn [split_loop].
  1, 2: destruct d as [|y d]; [by destruct Hd|]; exists [prev]; rewrite app_nil_r;
    split_and!; [done|done|]; by rewrite decide_True by (by left).
  change (c :: p ++ [x00]) with ((c :: p) ++ [x00]).
  rewrite memcmp_eq_take by done. destruct d as [|y d'] eqn:Ed; [by destruct Hd|]. rewrite <- Ed in *.
  assert (0 < length d)%nat as Hlen by (rewrite Ed; simpl; lia).
  case_decide as Hout.
  { exists [prev ++ c :: p]. split_and!; [done|apply no_match_short; [done|simpl in *; lia]|].
    rewrite decide_False; [done|]. intros [?|[Hle|E]]; [done|simpl in Hout; lia|].
    injection E as E. by apply app_eq_nil in E as [_ ?]. }
  case_bool_decide as Hc.
  - pose proof (take_length_eq _ _ Hc) as Hp.
    assert (length (c :: p) = length d + length (drop (length d) (c :: p)))%nat as Hl.
    { rewrite Hp at 1. by rewrite length_app. }
    simpl in Hl. rewrite decide_False by (simpl; lia).
    destruct (IH [] (drop (length d) (c :: p))) as (l & J & P & E); [lia| |].
    { intros i Hi. simpl in Hi. lia. }
    exists (prev :: l). assert (l ≠ []) as Hl0 by (by destruct l).
    destruct l as [|t l]; [done|].
    assert (join d (prev :: t :: l) = prev ++ d ++ join d (t :: l)) as -> by done.
    rewrite J. split_and!; [by rewrite Hp at 2| |].
    + split; [|done]. rewrite J. simpl app at 2. by rewrite <- Hp.
    + rewrite E.
      assert (drop (length d) (c :: p) = [] → t :: l = [[]]) as Hnil
        by (intros Er; rewrite Er in J; by eapply pieces_nil).
      assert (stays_inside d (prev :: t :: l) ↔ stays_inside d (t :: l)) as Hst by done.
      assert (drop (length d) (c :: p) = [] → stays_inside d (t :: l)) as Hnil'
        by (intros ->%Hnil; by right).
      case_decide as Hin; case_decide as Hin'; try done; exfalso.
      * apply Hin'. right. apply Hst. destruct Hin; auto.
      * apply Hin. right. apply Hst. by destruct Hin'.
  - destruct (IH (prev ++ [c]) p) as (l & J & P & E); [lia|by apply no_match_snoc|].
    exists l. split_and!; [by rewrite J, <- app_assoc|done|]. rewrite E.
    destruct (decide (p = [])) as [->|Hne]; [|apply decide_ext; by split; (intros [?|?]; [done|by right])].
    rewrite decide_True by (by left). rewrite decide_True; [done|].
    right. left. simpl in Hout. lia.
Qed.

(** The empty delimiter separates the bytes. *)
Lemma split_loop_empty n prev p :
  (length p ≤ n)%nat → split_loop n [] prev p = Done ((λ c, [c]) <$> p).
Proof.
  revert prev p. induction n as [|n IH]; intros prev [|c p] Hn; simpl in *; try lia; try done.
  by rewrite IH by lia.
Qed.

(** ** [expand] *)

Lemma escape_length s b s' : escape s = inl (b, s') → (length s' < length s)%nat.
Proof.
  unfold escape. destruct s as [|c s]; [done|]. simpl.
  repeat case_decide; try (intros [= _ <-]; lia); try done.
  destruct s as [|a [|b' s]]; try done.
  destruct (hex_digit a), (hex_digit b'); try done. intros [= _ <-]. simpl. lia.
Qed.

(** Enough fuel: more of it changes nothing. *)
Lemma expand_loop_fuel n s :
  (length s ≤ n)%nat → expand_loop n s = expand_loop (length s) s.
Proof.
  revert s. induction n as [n IH] using lt_wf_ind. intros s Hn.
  destruct n as [|n]; [by destruct s; [|simpl in Hn; lia]|].
  destruct s as [|c s]; [done|]. simpl in *.
  case_decide; [|by rewrite IH by lia].
  destruct (escape s) as [[b s']|e] eqn:E; [|done]. apply escape_length in E as Hl.
  rewrite (IH n) by lia. by rewrite (IH (length s)) by lia.
Qed.

Lemma expand_plain c s : c ≠ "\" → expand (c :: s) = sum_map (cons c) id (expand s).
Proof. intros Hc. unfold expand. simpl. by rewrite decide_False. Qed.

Lemma expand_escape s b s' :
  escape s = inl (b, s') → expand ("\" :: s) = sum_map (cons b) id (expand s').
Proof.
  intros E. unfold expand. simpl. rewrite E. apply escape_length in E.
  by rewrite expand_loop_fuel by lia.
Qed.

Lemma expand_length n s t : expand_loop n s = inl t → (length t ≤ length s)%nat.
Proof.
  revert s t. induction n as [|n IH]; intros [|c s] t; simpl; try (by intros [= <-]; simpl; lia).
  case_decide.
  - destruct (escape s) as [[b s']|e] eqn:E; [|done]. apply escape_length in E.
    destruct (expand_loop n s') as [u|] eqn:E2; [|done]. intros [= <-].
    apply IH in E2. simpl. lia.
  - destruct (expand_loop n s) as [u|] eqn:E2; [|done]. intros [= <-].
    apply IH in E2. simpl. lia.
Qed.

(** A byte as a hexadecimal escape sequence, with lower-case digits. *)
Definition hex_char (z : Z) : byte := to_byte (if z <? 10 then 48 + z else 87 + z).
Definition hex_escape (c : byte) : bytes :=
  ["\"; "x"; hex_char (Z.shiftr (uchar c) 4); hex_char (Z.land (uchar c) 15)].

Lemma escape_hex c s : escape (tail (hex_escape c) ++ s) = inl (c, s).
Proof. by destruct c. Qed.

(** ** [in] *)

Definition infix (sub s : bytes) : Prop := ∃ a b, s = a ++ sub ++ b.

Lemma prefix_take (sub s : bytes) : take (length sub) s = sub ↔ ∃ b, s = sub ++ b.
Proof.
  split.
  - intros H. exists (drop (length sub) s). by apply take_length_eq.
  - intros [b ->]. by rewrite take_app_length.
Qed.

Lemma infix_cons c sub s :
  infix sub (c :: s) ↔ take (length sub) (c :: s) = sub ∨ infix sub s.
Proof.
  rewrite prefix_take. split.
  - intros ([|x a] & b & H); [left; by exists b|].
    right. injection H as _ ->. by exists a, b.
  - intros [[b H]|(a & b & ->)]; [by exists [], b|by exists (c :: a), b].
Qed.

Lemma infix_length sub s : infix sub s → (length sub ≤ length s)%nat.
Proof. intros (a & b & ->). rewrite !length_app. lia. Qed.

Lemma in_loop_infix n sub s :
  length s = (n + length sub)%nat → in_loop n sub s = true ↔ infix sub s.
Proof.
  revert s. induction n as [|n IH]; intros s Hs; simpl.
  - rewrite orb_false_r, bool_decide_eq_true, prefix_take. split.
    + intros [b H]. by exists [], b.
    + intros (a & b & H). destruct a; [by exists b|]. rewrite H in Hs.
      simpl in Hs. rewrite !length_app in Hs. lia.
  - destruct s as [|c s]; [simpl in Hs; lia|]. simpl in Hs.
    rewrite orb_true_iff, bool_decide_eq_true, IH by lia. by rewrite infix_cons.
Qed.

(** ** [rtrim] and [ltrim] *)

Definition spaces (s : bytes) : Prop := Forall (λ c, b6b_isspace c = true) s.

Lemma rtrim_loop_spec r :
  match rtrim_loop r with
  | None => spaces r
  | Some t => ∃ w c t', spaces w ∧ r = w ++ t ∧ t = c :: t' ∧ b6b_isspace c = false
  end.
Proof.
  induction r as [|c r IH]; simpl; [constructor|].
  destruct (b6b_isspace c) eqn:E; [|by exists [], c, r; split; [constructor|]].
  destruct (rtrim_loop r) as [t|]; [|by constructor].
  destruct IH as (w & c' & t' & H1 & -> & H2). exists (c :: w), c', t'.
  split; [by constructor|done].
Qed.

(** ** [join] on objects *)

Lemma join_loop_ok d sep items ts s h :
  holds_text (objs h) d sep →
  Forall2 (λ li t, text_of (objs h) (li_o li) t) items ts →
  ∃ h', join_loop d items s h = Done (Some (s ++ mjoin ((λ t, sep ++ t) <$> ts)), h') ∧
    ext (objs h) (objs h').
Proof.
  revert ts s h. induction items as [|li items IH]; intros ts s h Hd HF;
    inversion HF as [|? t ? ts' Ht HF']; subst; simpl.
  { exists h. by rewrite app_nil_r. }
  destruct (as_str_total _ _ _ Ht) as (h1 & E1 & X1 & _ & T1).
  rewrite (bind_eq _ _ _ _ _ E1). simpl.
  pose proof (ext_holds _ _ _ _ X1 Hd) as Hd1.
  rewrite (bind_eq _ _ _ _ _ (text_eq _ _ _ Hd1)), (bind_eq _ _ _ _ _ (text_eq _ _ _ T1)).
  destruct (IH ts' (s ++ sep ++ t) h1) as (h2 & E2 & X2); [done| |].
  { eapply Forall2_impl; [exact HF'|]. intros. by eapply ext_text. }
  exists h2. split; [|by etrans]. rewrite E2. by rewrite <- !app_assoc.
Qed.

Lemma join_mjoin d t ts : join d (t :: ts) = t ++ mjoin ((λ u, d ++ u) <$> ts).
Proof.
  revert t. induction ts as [|u ts IH]; intros t; simpl; [by rewrite app_nil_r|].
  simpl in IH. rewrite IH. by rewrite <- app_assoc.
Qed.

(** ** Properties *)

(** C32: [str.split] with a delimiter that has no NUL. The empty delimiter gives
    the bytes of the string. Any other cuts the string at the occurrences of the
    delimiter, found from the left: joined with the delimiter the pieces give
    the string, and the delimiter starts in no piece. With at most two bytes it
    stays within its buffer. With more, [memcmp] reads behind the end of the
    buffer unless the string is empty or ends with a delimiter that was cut. *)
Theorem split_correct s d :
  x00 ∉ d →
  (d = [] → split s d = Done ((λ c, [c]) <$> s)) ∧
  (d ≠ [] → ∃ l, join d l = s ∧ pieces_ok d l ∧
    split s d = if decide (stays_inside d l) then Done l else Ub).
Proof.
  intros Hn. split; [intros ->; by apply split_loop_empty|]. intros Hd.
  destruct (split_loop_ok (length s) d [] s Hd Hn) as (l & J & P & E); [lia| |].
  - intros i Hi. simpl in Hi. lia.
  - exists l. split_and!; [done|done|]. unfold split. rewrite E.
    destruct (decide (s = [])) as [->|Hs].
    + rewrite decide_True by (by left). rewrite decide_True; [done|]. right.
      by rewrite (pieces_nil d l).
    + apply decide_ext. split; [by intros [?|?]|by right].
Qed.

(** The loop of [str.join] on a list whose items have texts: it succeeds,
    the text is that of the items with the delimiter in between, and nothing
    but caches changes. *)
Theorem join_loop_correct d sep li items t ts h :
  holds_text (objs h) d sep → holds_text (objs h) (li_o li) t →
  Forall2 (λ li t, text_of (objs h) (li_o li) t) items ts →
  ∃ h', join_loop d items t h = Done (Some (join sep (t :: ts)), h') ∧
    ∀ p u, text_of (objs h') p u ↔ text_of (objs h) p u.
Proof.
  intros Hd Ht HF. destruct (join_loop_ok d sep items ts t h Hd HF) as (h' & E & X).
  exists h'. rewrite join_mjoin. split; [done|]. intros p u.
  split; [by apply ext_text_inv|by apply ext_text].
Qed.

(** The result of [str.expand] fits the buffer of [slen + 1] bytes it
    allocates for it. *)
Lemma expand_fits s t : expand s = inl t → (length t < length s + 1)%nat.
Proof. intros H. apply expand_length in H. lia. Qed.

(** C34: every string, with any bytes, can be written with [\x] escapes:
    [str.expand] undoes them. *)
Theorem expand_hex_roundtrip s : expand (mjoin (hex_escape <$> s)) = inl s.
Proof.
  induction s as [|c s IH]; [done|]. rewrite fmap_cons. cbn [mjoin list_join].
  change (hex_escape c ++ mjoin (hex_escape <$> s)) with
    ("\" :: (tail (hex_escape c) ++ mjoin (hex_escape <$> s))).
  rewrite (expand_escape _ c _ (escape_hex c _)). by rewrite IH.
Qed.

(** The search of [str.in], for a substring that is shorter than the
    string, finds it exactly when it occurs. *)
Theorem in_loop_correct sub s :
  (length sub < length s)%nat →
  in_loop (length s - length sub) sub s = true ↔ ∃ a b, s = a ++ sub ++ b.
Proof. intros Hl. apply in_loop_infix. lia. Qed.


(** [ltrim] drops the spaces at the start and nothing else. *)
Theorem ltrim_correct s :
  ∃ w, s = w ++ ltrim s ∧ spaces w ∧ ∀ c, head (ltrim s) = Some c → b6b_isspace c = false.
Proof.
  induction s as [|c s IH]; [by exists []; split_and!; [|constructor|]|]. simpl.
  destruct (b6b_isspace c) eqn:E.
  - destruct IH as (w & H1 & H2 & H3). exists (c :: w). simpl. rewrite <- H1.
    split_and!; [done|by constructor|done].
  - exists []. split_and!; [done|constructor|]. by intros x [= <-].
Qed.

(** *** Witnesses *)

Lemma split_correct_witness :
  (lit "::" = [] → split (lit "a::b:c::") (lit "::") = Done ((λ c, [c]) <$> lit "a::b:c::")) ∧
  (lit "::" ≠ [] → ∃ l, join (lit "::") l = lit "a::b:c::" ∧ pieces_ok (lit "::") l ∧
    split (lit "a::b:c::") (lit "::") = if decide (stays_inside (lit "::") l) then Done l else Ub).
Proof.
  apply (split_correct (lit "a::b:c::") (lit "::")).
  intros H. repeat (apply elem_of_cons in H as [H|H]; [discriminate H|]).
  by apply elem_of_nil in H.
Defined.

(** A delimiter of three bytes in front of a piece: out of bounds. *)
Example split_outside : split (lit "a===b") (lit "===") = Ub.
Proof. vm_compute. reflexivity. Qed.
Example split_inside : split (lit "a===b===") (lit "===") = Done [lit "a"; lit "b"; []].
Proof. vm_compute. reflexivity. Qed.

(** A delimiter, a string and an integer that has no text yet. *)
Definition sample_join : heap :=
  mkHeap {[ 0%N := new_str (lit ", "); 1%N := new_str (lit "x"); 2%N := new_int 7 ]} 9 no_os.

Lemma join_loop_correct_witness :
  ∃ h', join_loop 0 [mkItem 6 2; mkItem 7 1] (lit "x") sample_join =
      Done (Some (lit "x, 7, x"), h') ∧
    ∀ p u, text_of (objs h') p u ↔ text_of (objs sample_join) p u.
Proof.
  apply (join_loop_correct 0%N (lit ", ") (mkItem 5 1) [mkItem 6 2; mkItem 7 1]
    (lit "x") [lit "7"; lit "x"]).
  - by eexists.
  - by eexists.
  - repeat constructor; by exists 1%nat.
Defined.

Lemma expand_fits_witness :
  expand (lit "a\x41\n") = inl (lit "aA" ++ [x0a]) ∧ (3 < 8)%nat.
Proof.
  split; [vm_compute; reflexivity|].
  exact (expand_fits (lit "a\x41\n") (lit "aA" ++ [x0a]) ltac:(vm_compute; reflexivity)).
Defined.

Lemma in_loop_correct_witness :
  in_loop 3 (lit "bc") (lit "abcde") = true ↔ ∃ a b, lit "abcde" = a ++ lit "bc" ++ b.
Proof. apply (in_loop_correct (lit "bc") (lit "abcde")). vm_compute. lia. Defined.
