(* ===== verification/ListProcs.v ===== *)
(** * List, dictionary and random-choice procedures

    The procedures of src/b6b_list.c, src/b6b_dict.c, src/b6b_rand.c and
    [range] of src/b6b_loop.c. *)
From Stdlib Require Import ZArith Lia Init.Byte Strings.Byte Strings.String.
From stdpp Require Import base option list numbers gmap.
From S2P Require Import Prelude Sys Float64 Hash Parse Heap Repr ListObj Dict Interp.
#[local] Open Scope Z_scope.

(** ** Lists *)

(** The node [i] steps after the first, if there are that many. *)
Fixpoint nth_item (i : nat) (l : list b6b_litem) : option b6b_litem :=
  match l with
  | [] => None
  | li :: l' => match i with O => Some li | S i' => nth_item i' l' end
  end.

(** [li] after [n] steps of a loop that stops at the end of the list; [n] need
    not be a small number. *)
Definition item_at (n : Z) (l : list b6b_litem) : option b6b_litem :=
  if n <? Z.of_nat (length l) then nth_item (Z.to_nat n) l else None.

(** Adds the objects of the nodes to [r]. *)
Fixpoint add_items (r : loc) (items : list b6b_litem) : HM unit :=
  match items with
  | [] => mret tt
  | li :: items' => b6b_list_add r (li_o li);; add_items r items'
  end.

Definition b6b_list_proc_new (args : loc) : M st b6b_res :=
  l ← on_heap b6b_list_new;
  x ← on_heap (read_obj args);
  match o_l x with
  | [] => ub
  | _ :: items => on_heap (add_items l items);; b6b_return l
  end.

Definition b6b_list_proc_len (args : loc) : M st b6b_res :=
  r ← get_args args "ol" [false; true];
  match r with
  | (0, _) => mret B6B_ERR
  | (_, [l]) => x ← on_heap (read_obj l); b6b_return_int (Z.of_nat (length (o_l x)))
  | _ => ub
  end.

Definition b6b_list_proc_append (args : loc) : M st b6b_res :=
  r ← get_args args "olo" [false; true; true];
  match r with
  | (0, _) => mret B6B_ERR
  | (_, [l; o]) =>
      ok ← on_heap (b6b_list_add l o);
      if ok : bool then return_ref l else mret B6B_ERR
  | _ => ub
  end.

Definition b6b_list_proc_copy (args : loc) : M st b6b_res :=
  r ← get_args args "ol" [false; true];
  match r with
  | (0, _) => mret B6B_ERR
  | (_, [l]) => l2 ← on_heap (b6b_list_copy l); b6b_return l2
  | _ => ub
  end.

Definition b6b_list_proc_extend (args : loc) : M st b6b_res :=
  r ← get_args args "oll" [false; true; true];
  match r with
  | (0, _) => mret B6B_ERR
  | (_, [l; l2]) =>
      ok ← on_heap (b6b_list_extend l l2);
      if ok : bool then return_ref l else mret B6B_ERR
  | _ => ub
  end.

Definition b6b_list_proc_index (args : loc) : M st b6b_res :=
  r ← get_args args "oli" [false; true; true];
  match r with
  | (0, _) => mret B6B_ERR
  | (_, [l; i]) =>
      i ← on_heap (read_obj i);
      x ← on_heap (read_obj l);
      if 0 <=? o_i i then
        match item_at (o_i i) (o_l x) with
        | None => mret B6B_ERR
        | Some li => return_ref (li_o li)
        end
      else mret B6B_ERR
  | _ => ub
  end.

(** The list [r] built before an item is missing is destroyed. *)
Definition b6b_list_proc_range (args : loc) : M st b6b_res :=
  r ← get_args args "olii" [false; true; true; true];
  match r with
  | (0, _) => mret B6B_ERR
  | (_, [l; start; end_]) =>
      a ← on_heap (read_obj start);
      b ← on_heap (read_obj end_);
      let a := o_i a in let b := o_i b in
      if (a <? 0) || (b <? 0) || (b =? B6B_INT_MAX) || (b <? a) then mret B6B_ERR
      else
        x ← on_heap (read_obj l);
        match item_at a (o_l x) with
        | None => mret B6B_ERR
        | Some _ =>
            r ← on_heap b6b_list_new;
            let n := Z.to_nat (Z.min (b - a + 1) (Z.of_nat (length (o_l x)))) in
            on_heap (add_items r (take n (drop (Z.to_nat a) (o_l x))));;
            if Z.of_nat (length (o_l x)) <=? b then
              on_heap (b6b_destroy r);; mret B6B_ERR
            else b6b_return r
        end
  | _ => ub
  end.

(** The loop of [b6b_list_proc_in]: nothing when an item has no hash. *)
Fixpoint list_in_loop (o : loc) (items : list b6b_litem) : HM (option bool) :=
  match items with
  | [] => mret (Some false)
  | li :: items' =>
      ok ← b6b_obj_hash (li_o li);
      if negb ok then mret None
      else
        eq ← obj_eq_at o (li_o li);
        if eq : bool then mret (Some true) else list_in_loop o items'
  end.

Definition b6b_list_proc_in (args : loc) : M st b6b_res :=
  r ← get_args args "ool" [false; true; true];
  match r with
  | (0, _) => mret B6B_ERR
  | (_, [o; l]) =>
      ok ← on_heap (b6b_obj_hash o);
      if negb ok then mret B6B_ERR
      else
        x ← on_heap (read_obj l);
        r ← on_heap (list_in_loop o (o_l x));
        match r with
        | None => mret B6B_ERR
        | Some true => b6b_return_true
        | Some false => b6b_return_false
        end
  | _ => ub
  end.

(** The node is removed without a flush of the list's text and hash. *)
Definition b6b_list_proc_pop (args : loc) : M st b6b_res :=
  r ← get_args args "oli" [false; true; true];
  match r with
  | (0, _) => mret B6B_ERR
  | (_, [l; i]) =>
      i ← on_heap (read_obj i);
      if o_i i <? 0 then mret B6B_ERR
      else
        x ← on_heap (read_obj l);
        match o_l x with
        | [] => b6b_return_str (lit "pop from {}");; mret B6B_ERR
        | _ =>
            match item_at (o_i i) (o_l x) with
            | None => mret B6B_ERR
            | Some li => on_heap (b6b_list_remove l (li_id li));; b6b_return (li_o li)
            end
        end
  | _ => ub
  end.

(** ** Dictionaries *)

Definition b6b_dict_proc_get (args : loc) : M st b6b_res :=
  r ← get_args args "olo|o" [false; true; true; true];
  match r with
  | (0, _) => mret B6B_ERR
  | (_, d :: k :: f) =>
      '(ok, v) ← on_heap (b6b_dict_get d k);
      if negb ok then mret B6B_ERR
      else
        match v, f with
        | Some v, _ => return_ref v
        | None, f :: _ => return_ref f
        | None, [] => mret B6B_ERR
        end
  | _ => ub
  end.

Definition b6b_dict_proc_set (args : loc) : M st b6b_res :=
  r ← get_args args "oloo" [false; true; true; true];
  match r with
  | (0, _) => mret B6B_ERR
  | (_, [d; k; v]) =>
      ok ← on_heap (b6b_dict_set d k v);
      if ok : bool then return_ref d else mret B6B_ERR
  | _ => ub
  end.

Definition b6b_dict_proc_unset (args : loc) : M st b6b_res :=
  r ← get_args args "olo" [false; true; true];
  match r with
  | (0, _) => mret B6B_ERR
  | (_, [d; k]) =>
      ok ← on_heap (b6b_dict_unset d k);
      if ok : bool then return_ref d else mret B6B_ERR
  | _ => ub
  end.

(** ** [range] *)

(** The loop [for (i = start; i <= end; i += step)]: a signed overflow of [i]
    is undefined. Every step is at least one. *)
Fixpoint range_loop (n : nat) (l : loc) (i end_ step : Z) : HM unit :=
  if i <=? end_ then
    match n with
    | O => oof
    | S n' =>
        io ← b6b_int_new i;
        b6b_list_add l io;;
        b6b_unref io;;
        if B6B_INT_MAX <? i + step then ub
        else range_loop n' l (i + step) end_ step
    end
  else mret tt.

Definition b6b_loop_proc_range (args : loc) : M st b6b_res :=
  r ← get_args args "oii|i" [false; true; true; true];
  match r with
  | (0, _) => mret B6B_ERR
  | (_, start :: end_ :: stepo) =>
      step ← match stepo with
             | [] => mret 1
             | o :: _ => x ← on_heap (read_obj o); mret (o_i x)
             end;
      a ← on_heap (read_obj start);
      b ← on_heap (read_obj end_);
      if (step <=? 0) || (o_i b <? o_i a) then mret B6B_ERR
      else
        l ← on_heap b6b_list_new;
        on_heap (range_loop (Z.to_nat ((o_i b - o_i a) / step + 1)) l (o_i a) (o_i b) step);;
        b6b_return l
  | _ => ub
  end.

(** ** src/b6b_rand.c *)

Section rand.
Context `{Env}.

(** [rand_r(&interp->seed)] *)
Definition next_rand : M st Z :=
  s ← get;
  let '(seed', r) := rand_r (seed (s_in s)) in
  set_interp (with_seed seed');;
  mret r.

(** The item the two loops of [b6b_rand_proc_choice] stop at, for the random
    number [c]: the first walks [c - 1] steps, the second starts over. *)
Definition choice (c : Z) (l : list b6b_litem) : option b6b_litem :=
  let len := Z.of_nat (length l) in
  if c <=? len then item_at (Z.max 0 (c - 1)) l
  else item_at (c mod len) l.

Definition b6b_rand_proc_choice (args : loc) : M st b6b_res :=
  r ← get_args args "ol" [false; true];
  match r with
  | (0, _) => mret B6B_ERR
  | (_, [l]) =>
      x ← on_heap (read_obj l);
      match o_l x with
      | [] => mret B6B_ERR
      | _ =>
          c ← next_rand;
          li ← deref (choice (u32 c) (o_l x));
          return_ref (li_o li)
      end
  | _ => ub
  end.

(** The difference of the bounds is at most [UINT_MAX]; the addition is one
    of [b6b_int]s. *)
Definition randint (start end_ r : Z) : Z := start + u32 r mod u32 (u32 (end_ - start) + 1).

Definition b6b_rand_proc_randint (args : loc) : M st b6b_res :=
  r ← get_args args "oii" [false; true; true];
  match r with
  | (0, _) => mret B6B_ERR
  | (_, [start; end_]) =>
      a ← on_heap (read_obj start);
      b ← on_heap (read_obj end_);
      if (o_i a <? INT_MIN) || (INT_MAX <=? o_i a) || (o_i b <=? o_i a) || (INT_MAX <? o_i b)
      then mret B6B_ERR
      else if u32 (o_i b - o_i a) =? UINT_MAX then mret B6B_ERR
      else r ← next_rand; b6b_return_int (randint (o_i a) (o_i b) r)
  | _ => ub
  end.
End rand.

(** ** Lemmas *)

Lemma nth_item_lookup i l : nth_item i l = l !! i.
Proof. revert i. induction l as [|li l IH]; intros [|i]; simpl; auto. Qed.

Lemma item_at_lookup n l :
  0 ≤ n → item_at n l = l !! Z.to_nat n.
Proof.
  intros Hn. unfold item_at. rewrite nth_item_lookup. destruct (Z.ltb_spec n (Z.of_nat (length l))).
  - done.
  - symmetry. apply lookup_ge_None. lia.
Qed.

(** The objects [range] makes. *)
Definition range_values (n : nat) (i step : Z) : list Z := (λ k, i + Z.of_nat k * step) <$> seq 0 n.

Lemma range_values_S n i step :
  range_values (S n) i step = i :: range_values n (i + step) step.
Proof.
  unfold range_values. rewrite <- cons_seq, fmap_cons. f_equal; [lia|].
  rewrite <- fmap_S_seq, <- list_fmap_compose. apply list_fmap_ext. intros k z _. simpl. lia.
Qed.

(** The objects of the nodes are the integers [zs], referred to by their nodes
    alone. *)
Definition ints_at (h : heap) (items : list b6b_litem) (zs : list Z) : Prop :=
  Forall2 (λ it z, objs h !! li_o it = Some (new_int z)) items zs.

Lemma range_loop_ok R l step e n : ∀ i x h,
  1 ≤ step → i + Z.of_nat n * step ≤ e + step → e < i + Z.of_nat n * step →
  well_counted R (objs h) → heap_fresh h → list_at h l x →
  if decide (i + Z.of_nat n * step ≤ B6B_INT_MAX ∨ n = O) then
    ∃ h' x' items, range_loop n l i e step h = Done (tt, h') ∧
      well_counted R (objs h') ∧ heap_fresh h' ∧ list_at h' l x' ∧
      o_l x' = o_l x ++ items ∧ ints_at h' items (range_values n i step) ∧
      (∀ p, p ≠ l → is_Some (objs h !! p) → objs h' !! p = objs h !! p)
  else range_loop n l i e step h = Ub.
Proof.
  induction n as [|n IH]; intros i x h Hs Hle Hlt Hwc Hfr Hl.
  { rewrite decide_True by (by right). exists h, x, []. rewrite app_nil_r. simpl.
    rewrite (proj2 (Z.leb_gt i e)) by lia. split_and!; try done. constructor. }
  set (h1 := mkHeap (<[next h := new_int i]> (objs h)) (N.succ (next h)) (h_os h)).
  destruct (give_new_ok R l x (new_int i) h Hwc Hfr Hl) as
    (h2 & h3 & x3 & E2 & E3 & W3 & F3 & L3 & I3 & Y3 & K3); [done..|].
  assert (range_loop (S n) l i e step h =
    if B6B_INT_MAX <? i + step then Ub else range_loop n l (i + step) e step h3) as E.
  { cbn [range_loop]. rewrite (proj2 (Z.leb_le i e)) by nia.
    rewrite (bind_eq _ _ _ _ _ (int_new_eq i h)), (bind_eq _ _ _ _ _ E2), (bind_eq _ _ _ _ _ E3).
    by destruct (_ <? _). }
  rewrite E. specialize (IH (i + step) x3 h3 Hs ltac:(lia) ltac:(lia) W3 F3 L3).
  destruct (Z.ltb_spec B6B_INT_MAX (i + step)) as [Hov|Hov].
  { rewrite decide_False; [done|]. intros [Hc|Hc]; [nia|done]. }
  destruct (decide (i + step + Z.of_nat n * step ≤ B6B_INT_MAX ∨ n = O)) as [Hd|Hd].
  2: { rewrite decide_False; [exact IH|]. intros [Hc|Hc]; [apply Hd; left; lia|done]. }
  rewrite decide_True by (destruct Hd as [Hd| ->]; left; lia).
  destruct IH as (h' & x' & items & E' & W' & F' & L' & I' & Y' & K').
  exists h', x', (mkItem (N.succ (next h)) (next h) :: items).
  split_and!; [done|done|done|done|by rewrite I', I3, <- app_assoc| |].
  - rewrite range_values_S. constructor; [|exact Y'].
    simpl. rewrite K', Y3; [done| |by rewrite Y3; eexists].
    intros Heq. assert (l < next h)%N; [|lia]. apply Hfr. rewrite (la_obj _ _ _ Hl).
    by eexists.
  - intros p Hp Hps. assert (p ≠ next h) by (pose proof (Hfr _ Hps); lia).
    rewrite K', K3; [done..|]. by rewrite K3.
Qed.

Lemma choice_lookup c l :
  0 ≤ c → l ≠ [] →
  ∃ i li, choice c l = Some li ∧ l !! i = Some li.
Proof.
  intros Hc Hl. assert (0 < Z.of_nat (length l)) by (destruct l; [done|simpl; lia]).
  unfold choice. destruct (Z.leb_spec c (Z.of_nat (length l))).
  - rewrite item_at_lookup by lia.
    destruct (lookup_lt_is_Some_2 l (Z.to_nat (Z.max 0 (c - 1)))) as [li Hli]; [lia|]. eauto.
  - pose proof (Z.mod_pos_bound c (Z.of_nat (length l))). rewrite item_at_lookup by lia.
    destruct (lookup_lt_is_Some_2 l (Z.to_nat (c mod Z.of_nat (length l)))) as [li Hli]; [lia|].
    eauto.
Qed.

(** ** Properties *)

(** C26: the loop of [range] appends a new integer object for each of the
    [(end - start) / step + 1] values, in order, each referred to by the list
    alone; it ends, unless its last addition overflows, which is undefined. *)
Theorem range_loop_correct R l x start end_ step h :
  1 ≤ step → start ≤ end_ → well_counted R (objs h) → heap_fresh h → list_at h l x →
  let n := Z.to_nat ((end_ - start) / step + 1) in
  if decide (start + Z.of_nat n * step ≤ B6B_INT_MAX) then
    ∃ h' x' items, range_loop n l start end_ step h = Done (tt, h') ∧
      well_counted R (objs h') ∧ list_at h' l x' ∧ o_l x' = o_l x ++ items ∧
      ints_at h' items (range_values n start step) ∧
      (∀ z, z ∈ range_values n start step ↔ start ≤ z ≤ end_ ∧ (step | z - start))
  else range_loop n l start end_ step h = Ub.
Proof.
  intros Hs Hle Hwc Hfr Hl n.
  assert (Z.of_nat n = (end_ - start) / step + 1) as Hn.
  { unfold n. rewrite Z2Nat.id; [done|]. pose proof (Z.div_pos (end_ - start) step). lia. }
  pose proof (Z.div_mod (end_ - start) step) as Hdm.
  pose proof (Z.mod_pos_bound (end_ - start) step) as Hmb.
  pose proof (Z.div_pos (end_ - start) step) as Hq.
  pose proof (range_loop_ok R l step end_ n start x h Hs) as H. rewrite Hn in H |- *.
  specialize (H ltac:(nia) ltac:(nia) Hwc Hfr Hl).
  assert (n ≠ O) as Hn0 by lia.
  destruct (decide (start + ((end_ - start) / step + 1) * step ≤ B6B_INT_MAX)) as [Hd|Hd].
  2: { rewrite decide_False in H by tauto. exact H. }
  rewrite decide_True in H by tauto.
  destruct H as (h' & x' & items & E & W & _ & L & I & Y & _).
  exists h', x', items. split_and!; [done..|]. intros z. unfold range_values.
  rewrite list_elem_of_fmap. setoid_rewrite elem_of_seq. split.
  - intros (k & -> & Hk). split; [nia|]. exists (Z.of_nat k). lia.
  - intros [Hz [q Hq2]]. exists (Z.to_nat q). nia.
Qed.

(** [choice] always finds an item of a list that is not empty, for every
    random number. *)
Lemma choice_in_list c l :
  0 ≤ c ≤ UINT_MAX → l ≠ [] → ∃ li, choice c l = Some li ∧ li ∈ l.
Proof.
  intros Hc Hl. destruct (choice_lookup c l) as (i & li & H1 & H2); [lia|done|].
  exists li. split; [done|]. by eapply list_elem_of_lookup_2.
Qed.

(** For the bounds that [randint] accepts, and the random numbers from 0 to
    [INT_MAX] that [rand_r] returns, its results are exactly the integers from
    [start] to [end_], but none that is more than [INT_MAX] above [start]. *)
Theorem randint_results start end_ z :
  INT_MIN ≤ start → start < end_ → end_ ≤ INT_MAX → u32 (end_ - start) ≠ UINT_MAX →
  (∃ r, 0 ≤ r ≤ INT_MAX ∧ randint start end_ r = z) ↔
  start ≤ z ≤ Z.min end_ (start + INT_MAX).
Proof.
  unfold randint, u32, INT_MIN, INT_MAX, UINT_MAX. intros H1 H2 H3 H4.
  rewrite (Z.mod_small (end_ - start)) in H4 |- * by lia.
  rewrite (Z.mod_small (end_ - start + 1)) by lia. split.
  - intros (r & Hr & <-). rewrite (Z.mod_small r) by lia.
    pose proof (Z.mod_pos_bound r (end_ - start + 1)).
    pose proof (Z.mod_le r (end_ - start + 1)). lia.
  - intros Hz. exists (z - start). split; [lia|].
    rewrite (Z.mod_small (z - start) (2 ^ 32)), (Z.mod_small (z - start)) by lia. lia.
Qed.

(** *** Witnesses *)

Lemma range_loop_correct_witness :
  (∃ h' x' items, range_loop 3 0 4 9 2 sample_lists = Done (tt, h') ∧
    well_counted [0; 1]%N (objs h') ∧ list_at h' 0 x' ∧ o_l x' = items ∧
    ints_at h' items [4; 6; 8] ∧
    ∀ z, z ∈ range_values 3 4 2 ↔ 4 ≤ z ≤ 9 ∧ (2 | z - 4)) ∧
  range_loop 1 0 (2 ^ 63 - 1) (2 ^ 63 - 1) 1 sample_lists = Ub.
Proof.
  assert (heap_fresh sample_lists) as Hf.
  { intros o [x Hx]. unfold sample_lists in Hx. simpl in Hx |- *.
    do 2 (apply lookup_insert_Some in Hx as [[<- _]|[_ Hx]]; [lia|]).
    apply lookup_singleton_Some in Hx as [<- _]. lia. }
  split.
  - exact (range_loop_correct [0; 1]%N 0%N new_list 4 9 2 sample_lists ltac:(lia) ltac:(lia)
      sample_lists_counted Hf sample_list_0).
  - exact (range_loop_correct [0; 1]%N 0%N new_list (2 ^ 63 - 1) (2 ^ 63 - 1) 1 sample_lists
      ltac:(lia) ltac:(lia) sample_lists_counted Hf sample_list_0).
Defined.

Lemma choice_in_list_witness : ∃ li, choice 7 [mkItem 3 2; mkItem 4 1] = Some li ∧
  li ∈ [mkItem 3 2; mkItem 4 1].
Proof. apply choice_in_list; [unfold UINT_MAX; lia|done]. Defined.

Lemma randint_results_witness :
  (∃ r, 0 ≤ r ≤ INT_MAX ∧ randint 1 6 r = 6) ↔ 1 ≤ 6 ≤ Z.min 6 (1 + INT_MAX).
Proof. apply randint_results; vm_compute; congruence. Defined.
