(* ===== verification/CoreProcs.v ===== *)
(** * Arithmetic, logic and the core procedures that run no code

    src/b6b_math.c, src/b6b_logic.c without [if], and the procedures of
    src/b6b_core.c that do not call back into the interpreter. *)
From Stdlib Require Import ZArith Lia Init.Byte Strings.Byte Strings.String.
From Stdlib Require Import Floats.SpecFloat.
From stdpp Require Import base option list numbers gmap.
From S2P Require Import Prelude Sys Float64 Hash Parse Heap Repr ListObj Dict Interp.
#[local] Open Scope Z_scope.

(** ** src/b6b_math.c *)

(** The procedures of two numbers, with the computation on their values. *)
Definition float_proc (f : b6b_float → b6b_float → M st b6b_res) (args : loc) : M st b6b_res :=
  r ← get_args args "off" [false; true; true];
  match r with
  | (0, _) => mret B6B_ERR
  | (_, [m; n]) =>
      x ← on_heap (read_obj m);
      y ← on_heap (read_obj n);
      f (o_f x) (o_f y)
  | _ => ub
  end.
Definition int_proc (f : Z → Z → Z) (args : loc) : M st b6b_res :=
  r ← get_args args "oii" [false; true; true];
  match r with
  | (0, _) => mret B6B_ERR
  | (_, [m; n]) =>
      x ← on_heap (read_obj m);
      y ← on_heap (read_obj n);
      b6b_return_int (f (o_i x) (o_i y))
  | _ => ub
  end.

Definition b6b_math_proc_add := float_proc (λ m n, b6b_return_float (f_add m n)).
Definition b6b_math_proc_sub := float_proc (λ m n, b6b_return_float (f_sub m n)).
Definition b6b_math_proc_mul := float_proc (λ m n, b6b_return_float (f_mul m n)).
Definition b6b_math_proc_div := float_proc (λ m n,
  if SFeqb n f_zero then b6b_return_str (lit "/ by 0");; mret B6B_ERR
  else b6b_return_float (f_div m n)).

(** The value [b6b_math_proc_mod] computes, for a divisor that is not zero:
    nothing when [remainder] is invalid. *)
Definition mod_float (m n : b6b_float) : option b6b_float :=
  let '(p, invalid) := f_remainder m n in
  if invalid : bool then None
  else if SFltb p f_zero && SFltb f_zero n then Some (f_add p n) else Some p.

Definition b6b_math_proc_mod := float_proc (λ m n,
  if SFeqb n f_zero then b6b_return_str (lit "% by 0");; mret B6B_ERR
  else match mod_float m n with
       | None => mret B6B_ERR
       | Some p => b6b_return_float p
       end).

Definition b6b_math_proc_and := int_proc Z.land.
Definition b6b_math_proc_or := int_proc Z.lor.
Definition b6b_math_proc_xor := int_proc Z.lxor.
Definition b6b_math_proc_lt := float_proc (λ m n, b6b_return_bool (SFltb m n)).
Definition b6b_math_proc_le := float_proc (λ m n, b6b_return_bool (SFleb m n)).
Definition b6b_math_proc_gt := float_proc (λ m n, b6b_return_bool (SFltb n m)).
Definition b6b_math_proc_ge := float_proc (λ m n, b6b_return_bool (SFleb n m)).

(** ** src/b6b_logic.c *)

Definition b6b_logic_proc_not (args : loc) : M st b6b_res :=
  r ← get_args args "oo" [false; true];
  match r with
  | (0, _) => mret B6B_ERR
  | (_, [o]) => x ← on_heap (read_obj o); b6b_return_bool (negb (b6b_obj_istrue x))
  | _ => ub
  end.

Definition eq_proc (f : bool → bool) (args : loc) : M st b6b_res :=
  r ← get_args args "ooo" [false; true; true];
  match r with
  | (0, _) => mret B6B_ERR
  | (_, [a; b]) =>
      ok ← on_heap (b6b_obj_hash a);
      if negb ok then mret B6B_ERR
      else
        ok ← on_heap (b6b_obj_hash b);
        if negb ok then mret B6B_ERR
        else eq ← on_heap (obj_eq_at a b); b6b_return_bool (f eq)
  | _ => ub
  end.
Definition b6b_logic_proc_eq := eq_proc (λ eq, eq).
Definition b6b_logic_proc_ne := eq_proc negb.

Definition truth_proc (f : bool → bool → bool) (args : loc) : M st b6b_res :=
  r ← get_args args "ooo" [false; true; true];
  match r with
  | (0, _) => mret B6B_ERR
  | (_, [a; b]) =>
      x ← on_heap (read_obj a);
      y ← on_heap (read_obj b);
      b6b_return_bool (f (b6b_obj_istrue x) (b6b_obj_istrue y))
  | _ => ub
  end.
Definition b6b_logic_proc_and := truth_proc andb.
Definition b6b_logic_proc_or := truth_proc orb.
Definition b6b_logic_proc_xor := truth_proc xorb.

(** ** src/b6b_core.c *)

Definition b6b_core_proc_nop (args : loc) : M st b6b_res := mret B6B_OK.

Definition b6b_core_proc_echo (args : loc) : M st b6b_res :=
  r ← get_args args "oo" [false; true];
  match r with
  | (0, _) => mret B6B_ERR
  | (_, [o]) => return_ref o
  | _ => ub
  end.

Definition b6b_core_proc_yield (args : loc) : M st b6b_res := mret B6B_YIELD.
Definition b6b_core_proc_continue (args : loc) : M st b6b_res := mret B6B_CONT.
Definition b6b_core_proc_break (args : loc) : M st b6b_res := mret B6B_BREAK.

(** [return] and [exit] fall through from two arguments to one. *)
Definition leave_proc (res : b6b_res) (args : loc) : M st b6b_res :=
  r ← get_args args "o|o" [false; true];
  match r with
  | (2, [o]) => return_ref o;; mret res
  | (1, _) => mret res
  | _ => mret B6B_ERR
  end.
Definition b6b_core_proc_return := leave_proc B6B_RET.
Definition b6b_core_proc_exit := leave_proc B6B_EXIT.

(** The count is compared to 2, not to 0. *)
Definition b6b_core_proc_throw (args : loc) : M st b6b_res :=
  r ← get_args args "o|o" [false; true];
  match r with
  | (2, [o]) => return_ref o;; mret B6B_ERR
  | _ => mret B6B_ERR
  end.

(** The frame of the caller of the current statement. *)
Definition prev_frame : M st (option b6b_frame) :=
  t ← fg_thread;
  s ← get;
  mret (match t_curr t with
        | [] => None
        | [_] => Some (global (s_in s))
        | _ :: f :: _ => Some f
        end).

Definition b6b_core_proc_local (args : loc) : M st b6b_res :=
  r ← get_args args "ooo" [false; true; true];
  match r with
  | (0, _) => mret B6B_ERR
  | (_, [k; v]) =>
      p ← prev_frame;
      c ← curr_frame;
      ok ← on_heap (b6b_dict_set (fr_locals (default c p)) k v);
      if ok : bool then return_ref v else mret B6B_ERR
  | _ => ub
  end.

Definition b6b_core_proc_global (args : loc) : M st b6b_res :=
  r ← get_args args "ooo" [false; true; true];
  match r with
  | (0, _) => mret B6B_ERR
  | (_, [k; v]) =>
      ok ← b6b_global k v;
      if ok : bool then return_ref v else mret B6B_ERR
  | _ => ub
  end.

(** [interp->fg->curr->prev->prev->locals]: [f] is dereferenced without a test. *)
Definition export_frame : M st (option b6b_frame) :=
  t ← fg_thread;
  s ← get;
  match t_curr t with
  | [] => ub
  | [_] => mret None
  | [_; _] => mret (Some (global (s_in s)))
  | _ :: _ :: f :: _ => mret (Some f)
  end.

Definition b6b_core_proc_export (args : loc) : M st b6b_res :=
  r ← get_args args "os|o" [false; true; true];
  kv ← match r with
       | (3, [k; v]) => mret (Some (k, v))
       | (2, [k]) => v ← b6b_get k; mret ((λ v, (k, v)) <$> v)
       | _ => mret None
       end;
  match kv with
  | None => mret B6B_ERR
  | Some (k, v) =>
      f ← export_frame;
      match f with
      | None => mret B6B_ERR
      | Some f =>
          ok ← on_heap (b6b_dict_set (fr_locals f) k v);
          if ok : bool then return_ref v else mret B6B_ERR
      end
  end.

(** The text [repr] returns; nothing when it returns its argument. *)
Definition repr (s : bytes) : option bytes :=
  match s with
  | [] => Some (lit "{}")
  | c :: _ =>
      if bool_decide (c = "{"%byte) && bool_decide (last s = Some "}"%byte) then None
      else if b6b_spaced s then Some ("{"%byte :: s ++ ["}"%byte]) else None
  end.

Definition b6b_core_proc_repr (args : loc) : M st b6b_res :=
  r ← get_args args "os" [false; true];
  match r with
  | (0, _) => mret B6B_ERR
  | (_, [s]) =>
      x ← on_heap (text s);
      match repr x with
      | Some t => o ← on_heap (b6b_str_new t); b6b_return o
      | None => return_ref s
      end
  | _ => ub
  end.

(** ** src/b6b_obj.c *)

Section obj_proc.
Context `{Env}.

(** The procedure of an object that is not given another one. *)
Definition b6b_obj_proc (args : loc) : M st b6b_res :=
  r ← get_args args "ss" [true; true];
  match r with
  | (0, _) => mret B6B_ERR
  | (_, [s; op]) =>
      x ← on_heap (text op);
      if negb (streq x "decode") then mret B6B_ERR
      else
        y ← on_heap (text s);
        o ← on_heap (b6b_str_decode mbrtowc y);
        match o with
        | None => mret B6B_ERR
        | Some o => b6b_return o
        end
  | _ => ub
  end.
End obj_proc.
