(* ===== verification/Strm.v ===== *)
(** * Streams

    include/b6b/strm.h and the reading and writing of src/b6b_strm.c: a stream
    is a record of operations on something that is read or written in pieces;
    the procedures of a stream put the pieces together. They are written for
    any monad: the program runs them in the one of Switch.v, where an operation
    may give the processor away; the theorems are about operations that act on
    a state [D] of the world outside. *)
From Stdlib Require Import ZArith Lia Init.Byte Strings.Byte Strings.String.
From stdpp Require Import base option list numbers.
From S2P Require Import Prelude Sys Float64 Heap.
#[local] Open Scope Z_scope.

Definition B6B_STRM_BUFSIZ : Z := 64 * 1024.
Definition SSIZE_MAX : Z := 2 ^ 63 - 1.

(** ** Data *)

(** [struct b6b_strm_ops], in the monad [m]: an operation that is NULL is
    [None]. [read] gets the size of the buffer and the values of [*eof] and
    [*again], and gives the bytes it stored (nothing when its result is
    negative) and the new values; [write] gives its result. *)
Record b6b_strm_ops (m : Type → Type) : Type := mkOps {
  op_peeksz : option (m Z);
  op_read : option (Z → Z → Z → m (option bytes * Z * Z)%type);
  op_write : option (bytes → m Z);
  op_peer : option (m (option loc));
  op_accept : option (m (option (option loc)));
  op_fd : Z;
  op_close : option (m unit)
}.
Arguments mkOps {m}.
Arguments op_peeksz {m}.
Arguments op_read {m}.
Arguments op_write {m}.
Arguments op_peer {m}.
Arguments op_accept {m}.
Arguments op_fd {m}.
Arguments op_close {m}.

(** What a procedure gives to [b6b_return], if anything; [R_err] is an error. *)
Inductive answer : Type :=
| R_ok
| R_err
| R_str (s : bytes)
| R_int (i : Z).

(** ** src/b6b_strm.c: reading and writing *)

Section strm.
Context {m : Type → Type} `{!MRet m, !MBind m, !MFail m}.
Variable ops : b6b_strm_ops m.

(** Nothing when the operation fails. *)
Definition b6b_strm_peeksz : m (option Z) :=
  match op_peeksz ops with
  | None => mret (Some B6B_STRM_BUFSIZ)
  | Some f => len ← f; mret (if len <? 0 then None else Some len)
  end.

(** The loop of [b6b_strm_read]: [buf] is what was read so far, [len] the size
    of the buffer before it grows by [est]. The result is nothing on an error,
    or the size of the buffer, its contents and whether the end was seen. *)
Fixpoint read_loop (read : Z → Z → Z → m (option bytes * Z * Z)%type) (n : nat)
    (buf : bytes) (len est want eof again : Z) : m (option (Z * bytes * bool)) :=
  match n with
  | O => m_oof
  | S n' =>
      let len := len + est in
      if est =? 0 then mret (Some (len, buf, false))
      else
        r ← read est eof again;
        let '(more, eof, again) := r in
        match more with
        | None => mret None
        | Some data =>
            if len <? Z.of_nat (length buf + length data) then m_ub
            else
              let buf := buf ++ data in
              if negb (eof =? 0) then mret (Some (len, buf, true))
              else if bool_decide (data = []) || (again =? 0) then
                mret (Some (len, buf, false))
              else
                let want := want - Z.of_nat (length data) in
                if want =? 0 then mret (Some (len, buf, false))
                else
                  est ← b6b_strm_peeksz;
                  match est with
                  | None => mret None
                  | Some est =>
                      if est =? 0 then mret (Some (len, buf, false))
                      else read_loop read n' buf len (if want <? est then want else est)
                             want eof again
                  end
        end
  end.

(** [closed] and [eof] are the flags of the stream when it is called; the
    result says whether [B6B_STRM_EOF] is set then. [n] bounds the number of
    reads. *)
Definition b6b_strm_read (n : nat) (closed eof : bool) (want : Z) : m (answer * bool)%type :=
  if eof then mret (R_ok, false)
  else
    match closed, op_read ops with
    | true, _ | _, None => mret (R_err, false)
    | false, Some read =>
        est ← b6b_strm_peeksz;
        match est with
        | None => mret (R_err, false)
        | Some est =>
            r ← read_loop read n [] 1 (if want <? est then want else est) want 0 1;
            match r with
            | None => mret (R_err, false)
            | Some (len, buf, eof) =>
                (* buf[out] = '\0' *)
                if len <=? Z.of_nat (length buf) then m_ub
                else mret (R_str buf, eof)
            end
        end
    end.

(** The loop of [b6b_strm_write], from the position [out]. *)
Fixpoint write_loop (write : bytes → m Z) (n : nat) (buf : bytes) (out : Z) : m (option Z) :=
  if out <? Z.of_nat (length buf) then
    match n with
    | O => m_oof
    | S n' =>
        chunk ← write (drop (Z.to_nat out) buf);
        if chunk <? 0 then mret None
        else if chunk =? 0 then mret (Some out)
        else write_loop write n' buf (out + chunk)
    end
  else mret (Some out).

Definition b6b_strm_write (closed : bool) (buf : bytes) : m answer :=
  match closed, op_write ops with
  | true, _ | _, None => mret R_err
  | false, Some write =>
      out ← write_loop write (length buf) buf 0;
      mret (match out with Some out => R_int out | None => R_err end)
  end.

Definition b6b_strm_writeln (closed : bool) (buf : bytes) : m answer :=
  b6b_strm_write closed (buf ++ [x0a]).
End strm.

(** ** Sources and sinks: what an operation promises *)

(** What a source promises. [got d] are the bytes it has handed over so far,
    [ended d] that it has no more, [left d] a number of bytes it cannot go
    beyond, and [fed k d] that its next [k] operations come to a result. Asking for the size hands nothing over; a read that
    succeeds hands over what it stores, which is no more than the buffer takes,
    and sets [*eof] only at the end. Both may fail, and then a read may have
    taken bytes that nobody gets. *)
Class Source {D} (ops : b6b_strm_ops (M D)) (got : D → bytes) (ended : D → Prop)
    (left : D → nat) (fed : nat → D → Prop) : Prop := {
  src_less : ∀ k d, fed (S k) d → fed k d;
  src_peeksz : ∀ f k d, op_peeksz ops = Some f → fed (S k) d →
    ∃ est d', f d = Done (est, d') ∧ got d' = got d ∧ (left d' ≤ left d)%nat ∧ fed k d';
  src_read : ∃ read, op_read ops = Some read ∧ ∀ k size eof again d, 0 < size → fed (S k) d →
    ∃ r eof' again' new d', read size eof again d = Done ((r, eof', again'), d') ∧
      got d' = got d ++ new ∧ (left d' + length new ≤ left d)%nat ∧ fed k d' ∧
      ∀ data, r = Some data → new = data ∧ Z.of_nat (length data) ≤ size ∧
        (eof' ≠ 0 → eof ≠ 0 ∨ ended d')
}.

(** A source that never fails, has an idea of its size and always gives
    something until its end. *)
Class Greedy {D} (ops : b6b_strm_ops (M D)) (ended : D → Prop) : Prop := {
  gr_peeksz : ∀ f d est d', op_peeksz ops = Some f → f d = Done (est, d') → 0 < est;
  gr_read : ∀ read size eof again d r eof' again' d', op_read ops = Some read → 0 < size →
    read size eof again d = Done ((r, eof', again'), d') →
    again' = again ∧ ∃ data, r = Some data ∧ (data = [] → ended d')
}.

(** A sink keeps a part of what it is given, from the front. *)
Class Sink {D} (ops : b6b_strm_ops (M D)) (stored : D → bytes) : Prop := {
  sink_write : ∃ write, op_write ops = Some write ∧ ∀ buf d, buf ≠ [] →
    ∃ chunk d', write buf d = Done (chunk, d') ∧
      (chunk < 0 ∧ stored d' = stored d ∨
       0 ≤ chunk ≤ Z.of_nat (length buf) ∧
       stored d' = stored d ++ take (Z.to_nat chunk) buf)
}.

Section source.
Context {D : Type} (ops : b6b_strm_ops (M D)) (got : D → bytes) (ended : D → Prop).
Context (left : D → nat) (fed : nat → D → Prop) `{!Source ops got ended left fed}.

(** The rounds of a read. *)
Definition rounds (want : Z) (d : D) : nat := Nat.min (Z.to_nat want) (S (left d)).

Lemma fed_less j k d : (j ≤ k)%nat → fed k d → fed j d.
Proof. induction 1 as [|k _ IH]; [done|]. intros Hk. by apply IH, src_less. Qed.

(** An estimate, or a failure. *)
Lemma peeksz_ok k d :
  fed (S k) d → ∃ est d', b6b_strm_peeksz ops d = Done (est, d') ∧ got d' = got d ∧
    (left d' ≤ left d)%nat ∧ fed k d' ∧
    (∀ z, est = Some z → 0 ≤ z) ∧ (Greedy ops ended → ∃ z, est = Some z ∧ 0 < z).
Proof.
  intros Hk. unfold b6b_strm_peeksz. destruct (op_peeksz ops) as [f|] eqn:E.
  - destruct (src_peeksz f k d E Hk) as (est & d' & H & Hg & Hl & Hk').
    exists (if est <? 0 then None else Some est), d'. rewrite (bind_eq _ _ _ _ _ H).
    split_and!; [done..| |].
    + destruct (Z.ltb_spec est 0); [done|]. by intros z [= <-].
    + intros G. pose proof (gr_peeksz f d est d' E H). exists est.
      by rewrite (proj2 (Z.ltb_ge _ _)) by lia.
  - exists (Some B6B_STRM_BUFSIZ), d. split_and!; [done|done|done|by apply src_less| |].
    + by intros z [= <-].
    + intros _. by eexists.
Qed.

(** A read, and what it is of a greedy source. *)
Lemma read_ok read k size again d :
  op_read ops = Some read → 0 < size → fed (S k) d →
  ∃ r eof' again' new d', read size 0 again d = Done ((r, eof', again'), d') ∧
    got d' = got d ++ new ∧ (left d' + length new ≤ left d)%nat ∧ fed k d' ∧
    (∀ data, r = Some data → new = data ∧ Z.of_nat (length data) ≤ size ∧ (eof' ≠ 0 → ended d')) ∧
    (Greedy ops ended → again' = again ∧ ∃ data, r = Some data ∧ (data = [] → ended d')).
Proof.
  intros Hr Hsz Hk. destruct src_read as (read' & Hr' & Hread). rewrite Hr in Hr'. injection Hr' as <-.
  destruct (Hread k size 0 again d Hsz Hk) as (r & eof' & again' & new & d' & E & Hg & Hl & Hk' & Hd).
  exists r, eof', again', new, d'. split_and!; [done..| |].
  - intros data Er. destruct (Hd data Er) as (-> & Hle & He). split_and!; [done|done|].
    intros Hz. by destruct (He Hz).
  - intros G. exact (gr_read read size 0 again d _ _ _ _ Hr Hsz E).
Qed.

(** What a loop that starts with the contents [buf] leaves behind. *)
Definition read_post (buf : bytes) (want : Z) (d : D) (r : out (option (Z * bytes * bool) * D)) : Prop :=
  ∃ res new d', r = Done (res, d') ∧ got d' = got d ++ new ∧ fed O d' ∧
    match res with
    | None => ¬ Greedy ops ended
    | Some (len, b, eof) => b = buf ++ new ∧ Z.of_nat (length new) ≤ want ∧
        Z.of_nat (length b) < len ∧ (eof = true → ended d') ∧
        (Greedy ops ended → Z.of_nat (length new) = want ∨ ended d')
    end.

Lemma read_stop buf len want d d' new eof :
  got d' = got d ++ new → fed O d' → Z.of_nat (length new) ≤ want →
  Z.of_nat (length (buf ++ new)) < len → (eof = true → ended d') →
  (Greedy ops ended → Z.of_nat (length new) = want ∨ ended d') →
  read_post buf want d (Done (Some (len, buf ++ new, eof), d')).
Proof. intros. by eexists _, _, _. Qed.

Lemma read_fails buf want d d' new :
  got d' = got d ++ new → fed O d' → ¬ Greedy ops ended → read_post buf want d (Done (None, d')).
Proof. intros. by eexists _, _, _. Qed.

(** A round before others. *)
Lemma read_more buf data want d d' r :
  got d' = got d ++ data → read_post (buf ++ data) (want - Z.of_nat (length data)) d' r →
  read_post buf want d r.
Proof.
  intros Hd (res & new & d2 & -> & Hg & Hk & Hres). exists res, (data ++ new), d2.
  split_and!; [done|by rewrite Hg, Hd, app_assoc|done|].
  destruct res as [[[len b] eof]|]; [|done]. destruct Hres as (-> & H1 & H2 & H3 & H4).
  rewrite length_app. split_and!; [by rewrite app_assoc|lia|done|done|].
  intros G. destruct (H4 G); [left; lia|by right].
Qed.

Lemma read_loop_ok read n : ∀ buf len est want again d,
  op_read ops = Some read → (rounds want d ≤ n)%nat → fed (2 * rounds want d) d →
  0 ≤ est ≤ want → 0 < want → Z.of_nat (length buf) < len →
  (Greedy ops ended → 0 < est ∧ again ≠ 0) →
  read_post buf want d (read_loop ops read n buf len est want 0 again d).
Proof.
  induction n as [|n IH]; intros buf len est want again d Hr Hn Hk Hest Hw Hb Hg;
    [unfold rounds in Hn; lia|].
  cbn [read_loop]. destruct (Z.eqb_spec est 0) as [->|Hne].
  { rewrite <- (app_nil_r buf) at 2. apply read_stop; simpl; try done.
    - by rewrite app_nil_r.
    - by eapply fed_less; [|exact Hk]; lia.
    - lia.
    - rewrite app_nil_r. lia.
    - intros G. destruct (Hg G). lia. }
  destruct (rounds want d) as [|w] eqn:Ew; [unfold rounds in Ew; lia|].
  replace (2 * S w)%nat with (S (S (2 * w))) in Hk by lia.
  destruct (read_ok read _ est again d Hr ltac:(lia) Hk)
    as (r & eof' & again' & new & d1 & E & Hnew & Hle & Hk1 & Hdata & HGr).
  rewrite (bind_eq _ _ _ _ _ E). destruct r as [data|].
  2: { eapply read_fails; [done|eapply fed_less; [|exact Hk1]; lia|]. intros G.
       by destruct (HGr G) as (_ & ? & ? & _). }
  destruct (Hdata data eq_refl) as (-> & Hl & He1). clear Hdata.
  rewrite (proj2 (Z.ltb_ge _ _)) by (rewrite Nat2Z.inj_add; lia).
  assert (Z.of_nat (length (buf ++ data)) < len + est) as Hb1 by (rewrite length_app; lia).
  destruct (Z.eqb_spec eof' 0) as [->|He']; cbn [negb].
  2: { apply read_stop; [done|eapply fed_less; [|exact Hk1]; lia|lia|done|by intros _; apply He1|intros _; right; by apply He1]. }
  destruct (bool_decide (data = []) || (again' =? 0)) eqn:Estop.
  { apply read_stop; [done|eapply fed_less; [|exact Hk1]; lia|lia|done|done|]. intros G. right.
    destruct (HGr G) as (-> & dt & [= <-] & Hd).
    apply Hd. destruct (Z.eqb_spec again 0) as [Ha|Ha]; [by destruct (Hg G)|].
    rewrite orb_false_r in Estop. by apply bool_decide_eq_true in Estop. }
  apply orb_false_iff in Estop as [Hdt%bool_decide_eq_false Hagain].
  assert (length data ≠ O) as Hd0 by (by destruct data).
  destruct (Z.eqb_spec (want - Z.of_nat (length data)) 0) as [Hw0|Hw0].
  { apply read_stop; [done|eapply fed_less; [|exact Hk1]; lia|lia|done|done|]. intros. left. lia. }
  destruct (peeksz_ok _ d1 Hk1) as (est2 & d2 & E2 & Hg2 & Hle2 & Hk2 & Hz & HG). rewrite (bind_eq _ _ _ _ _ E2).
  destruct est2 as [est2|].
  2: { eapply read_fails; [by rewrite Hg2|eapply fed_less; [|exact Hk2]; lia|]. intros G. by destruct (HG G) as (? & ? & _). }
  specialize (Hz est2 eq_refl). destruct (Z.eqb_spec est2 0) as [->|Hne2].
  { apply read_stop; [by rewrite Hg2|eapply fed_less; [|exact Hk2]; lia|lia|done|done|]. intros G.
    destruct (HG G) as (z & [= <-] & ?). lia. }
  eapply read_more; [by rewrite <- Hg2 in Hnew|]. set (want' := want - Z.of_nat (length data)) in *.
  assert (rounds want' d2 ≤ w)%nat as Hw' by (unfold rounds in *; lia).
  apply IH; [done|lia| |destruct (Z.ltb_spec want' est2); lia|lia|done|].
  - eapply fed_less; [|exact Hk2]. lia.
  - intros G. destruct (HGr G) as [-> _]. destruct (Hg G). split; [|done]. destruct (Z.ltb_spec want' est2); lia.
Qed.

Lemma strm_read_ok n want d :
  0 < want → (rounds want d ≤ n)%nat → fed (S (2 * rounds want d)) d →
  ∃ a data eof d', b6b_strm_read ops n false false want d = Done ((a, eof), d') ∧
    got d' = got d ++ data ∧ fed O d' ∧
    (a = R_str data ∧ Z.of_nat (length data) ≤ want ∨ a = R_err ∧ ¬ Greedy ops ended) ∧
    (eof = true → ended d') ∧
    (Greedy ops ended → Z.of_nat (length data) = want ∨ ended d').
Proof.
  intros Hw Hn Hk. destruct src_read as (read & Hr & _).
  unfold b6b_strm_read. rewrite Hr.
  destruct (peeksz_ok _ d Hk) as (est & d1 & E1 & Hg1 & Hle & Hk1 & Hz & HG). rewrite (bind_eq _ _ _ _ _ E1).
  destruct est as [est|].
  2: { assert (¬ Greedy ops ended) by (intros G; by destruct (HG G) as (? & ? & _)).
       exists R_err, [], false, d1. rewrite app_nil_r.
       split_and!; [done|done|eapply fed_less; [|exact Hk1]; lia|by right|done|done]. }
  specialize (Hz est eq_refl).
  destruct (read_loop_ok read n [] 1 (if want <? est then want else est) want 1 d1)
    as (res & new & d2 & E2 & Hg2 & Hk2 & Hres);
    [done|unfold rounds in *; lia|eapply fed_less; [|exact Hk1]; unfold rounds; lia
    |destruct (Z.ltb_spec want est); lia|done|simpl; lia| |].
  { intros G. split; [|done]. destruct (HG G) as (z & [= <-] & ?).
    destruct (Z.ltb_spec want est); lia. }
  rewrite (bind_eq _ _ _ _ _ E2). rewrite Hg1 in Hg2.
  destruct res as [[[len b] eof]|].
  2: { exists R_err, new, false, d2. by split_and!; [..|right| |]. }
  destruct Hres as (-> & H1 & H2 & H3 & H4). simpl in H2 |- *.
  rewrite (proj2 (Z.leb_gt _ _)) by done.
  exists (R_str new), new, eof, d2. by split_and!; [..|left| |].
Qed.
End source.

Section sink.
Context {D : Type} (ops : b6b_strm_ops (M D)) (stored : D → bytes).
Context `{!Sink ops stored}.

Lemma write_loop_ok write n : ∀ buf (k : nat) d,
  op_write ops = Some write → (k ≤ length buf)%nat → (length buf - k ≤ n)%nat →
  ∃ (k' : nat) r d', write_loop write n buf (Z.of_nat k) d = Done (r, d') ∧
    (k ≤ k' ≤ length buf)%nat ∧ stored d' = stored d ++ drop k (take k' buf) ∧
    (r = None ∨ r = Some (Z.of_nat k')).
Proof.
  induction n as [|n IH]; intros buf k d Hw Hk Hn; cbn [write_loop].
  - rewrite (proj2 (Z.ltb_ge _ _)) by lia. exists k, (Some (Z.of_nat k)), d.
    split_and!; [done|lia|lia| |by right]. by rewrite skipn_firstn_comm, Nat.sub_diag, app_nil_r.
  - destruct (Z.ltb_spec (Z.of_nat k) (Z.of_nat (length buf))) as [Hlt|Hge].
    2: { exists k, (Some (Z.of_nat k)), d. split_and!; [done|lia|lia| |by right].
         by rewrite skipn_firstn_comm, Nat.sub_diag, app_nil_r. }
    rewrite Nat2Z.id. destruct sink_write as (write' & Hw' & Hs). rewrite Hw in Hw'.
    injection Hw' as <-.
    destruct (Hs (drop k buf) d) as (chunk & d1 & E & Hc).
    { intros E%(f_equal length). rewrite length_drop in E. simpl in E. lia. }
    rewrite (bind_eq _ _ _ _ _ E). destruct Hc as [[Hc Hst]|[Hc Hst]].
    { rewrite (proj2 (Z.ltb_lt _ _)) by done. exists k, None, d1.
      split_and!; [done|lia|lia| |by left].
      by rewrite skipn_firstn_comm, Nat.sub_diag, app_nil_r. }
    rewrite (proj2 (Z.ltb_ge _ _)) by lia. rewrite length_drop in Hc.
    destruct (Z.eqb_spec chunk 0) as [->|Hc0].
    { exists k, (Some (Z.of_nat k)), d1. split_and!; [done|lia|lia| |by right].
      rewrite Hst. by rewrite skipn_firstn_comm, Nat.sub_diag. }
    destruct (IH buf (k + Z.to_nat chunk)%nat d1) as (k' & r & d2 & E2 & Hk' & Hst2 & Hr);
      [done|lia|lia|].
    replace (Z.of_nat k + chunk) with (Z.of_nat (k + Z.to_nat chunk)) by lia.
    exists k', r, d2. split_and!; [done|lia|lia| |done].
    rewrite Hst2, Hst, <- app_assoc. f_equal.
    rewrite !skipn_firstn_comm.
    replace (k' - k)%nat with (Z.to_nat chunk + (k' - (k + Z.to_nat chunk)))%nat by lia.
    by rewrite <- take_take_drop, drop_drop.
Qed.
End sink.

(** ** Properties *)

(** C14: reading a stream over any source that has at least as many answers as it
    takes (at most one read and one question for the size for every byte that
    is wanted or left) ends and never writes past its buffer.
    What it took from the source is what it returns, none lost, none invented
    and no more than wanted; or it returns an error, when the source failed, and
    then it returns nothing of what it took. The stream is at its end only when
    the source is. A source that does not fail and always gives something is
    read until there is as much as wanted or nothing left. *)
Theorem b6b_strm_read_correct {D} (ops : b6b_strm_ops (M D)) got ended left fed
    `{!Source ops got ended left fed} n want d :
  0 < want → (rounds left want d ≤ n)%nat → fed (S (2 * rounds left want d)) d →
  ∃ a data eof d', b6b_strm_read ops n false false want d = Done ((a, eof), d') ∧
    got d' = got d ++ data ∧ fed O d' ∧
    (a = R_str data ∧ Z.of_nat (length data) ≤ want ∨ a = R_err ∧ ¬ Greedy ops ended) ∧
    (eof = true → ended d') ∧
    (Greedy ops ended → Z.of_nat (length data) = want ∨ ended d').
Proof. apply (strm_read_ok _ _ _ _ _). Qed.

(** C35: writing to a stream over any sink ends, and what the sink gets is a part
    of the text from its front, in order and without gaps; the number that is
    returned is its length. *)
Theorem b6b_strm_write_correct {D} (ops : b6b_strm_ops (M D)) stored `{!Sink ops stored} buf d :
  ∃ (k : nat) a d', b6b_strm_write ops false buf d = Done (a, d') ∧ (k ≤ length buf)%nat ∧
    stored d' = stored d ++ take k buf ∧ (a = R_err ∨ a = R_int (Z.of_nat k)).
Proof.
  destruct sink_write as (write & Hw & _).
  destruct (write_loop_ok ops stored write (length buf) buf 0 d)
    as (k & r & d' & E & Hk & Hs & Hr); [done|lia|lia|].
  unfold b6b_strm_write. rewrite Hw. change (Z.of_nat 0) with 0 in E.
  exists k, (match r with Some out => R_int out | None => R_err end), d'.
  rewrite (bind_eq _ _ _ _ _ E). split_and!; [done|lia|done|].
  destruct Hr as [->| ->]; [by left|by right].
Qed.

(** *** Witnesses *)

(** A device with bytes to read and the bytes that were read (or written), which
    gives and takes at most three at a time. *)
Definition mem_ops : b6b_strm_ops (M (bytes * bytes)) :=
  mkOps None
    (Some (λ size eof again d,
       let k := Nat.min 3 (Z.to_nat size) in
       Done ((Some (take k (fst d)), eof, again), (drop k (fst d), snd d ++ take k (fst d)))))
    (Some (λ buf d, Done (Z.of_nat (length (take 3 buf)), (fst d, snd d ++ take 3 buf))))
    None None 3 None.

#[local] Instance mem_source : Source mem_ops snd (λ d, fst d = [])
  (λ d, length (fst d)) (λ _ _, True).
Proof.
  split; [done|by intros|]. eexists. split; [reflexivity|]. intros k size eof again d Hs _.
  eexists _, eof, again, _, _. split; [reflexivity|]. split_and!; [reflexivity| |done|].
  { cbn [fst]. rewrite length_drop, length_take. lia. }
  intros data E. injection E as <-. split_and!; [done| |by left].
  pose proof (firstn_le_length (Nat.min 3 (Z.to_nat size)) (fst d)) as Hl.
  etrans; [apply Nat2Z.inj_le, Hl|lia].
Qed.

#[local] Instance mem_greedy : Greedy mem_ops (λ d, fst d = []).
Proof.
  split; [done|]. intros read size eof again [p q] r eof' again' d' [= <-] Hs [= <- _ <- <-].
  split; [done|]. eexists. split; [reflexivity|]. cbn [fst].
  intros E%(f_equal length). rewrite length_take in E. destruct p; [by rewrite drop_nil|].
  destruct (Z.to_nat size) eqn:Ez; [lia|]. discriminate E.
Qed.

#[local] Instance mem_sink : Sink mem_ops snd.
Proof.
  split. eexists. split; [reflexivity|]. intros buf d _. eexists _, _. split; [reflexivity|].
  right. cbn [snd fst]. rewrite Nat2Z.id, length_take. split; [lia|].
  f_equal. destruct (Nat.min_spec 3 (length buf)) as [[_ ->]|[H ->]]; [done|].
  by rewrite !take_ge by lia.
Qed.

Lemma b6b_strm_read_correct_witness :
  ∃ a data eof d', b6b_strm_read mem_ops 5 false false 5 (lit "abcdefgh", []) = Done ((a, eof), d') ∧
    snd d' = [] ++ data ∧ True ∧
    (a = R_str data ∧ Z.of_nat (length data) ≤ 5 ∨ a = R_err ∧ ¬ Greedy mem_ops (λ d, fst d = [])) ∧
    (eof = true → fst d' = []) ∧
    (Greedy mem_ops (λ d, fst d = []) → Z.of_nat (length data) = 5 ∨ fst d' = []).
Proof.
  apply (b6b_strm_read_correct mem_ops snd (λ d, fst d = []) (λ d, length (fst d)) (λ _ _, True)
    5 5 (lit "abcdefgh", [])); [lia|unfold rounds; simpl; lia|done].
Defined.

Lemma b6b_strm_write_correct_witness :
  ∃ (k : nat) a d', b6b_strm_write mem_ops false (lit "abcdefgh") ([], [])
      = Done (a, d') ∧ (k ≤ 8)%nat ∧ snd d' = take k (lit "abcdefgh") ∧
    (a = R_err ∨ a = R_int (Z.of_nat k)).
Proof.
  apply (b6b_strm_write_correct mem_ops snd (lit "abcdefgh") ([], [])).
Defined.

