(* ===== verification/FdOps.v ===== *)
(** * File descriptors

    src/b6b_fdops.c, and the operations of the streams on one descriptor:
    src/b6b_sem.c, src/b6b_timer.c and src/b6b_signal.c. *)
From Stdlib Require Import ZArith Lia Init.Byte Strings.Byte Strings.String.
From stdpp Require Import base option list numbers gmap.
From S2P Require Import Prelude Sys Float64 Heap Repr Interp Strm.
#[local] Open Scope Z_scope.

(** ** Results of system calls *)

(** The bytes read, or a number, or [errno]. *)
Inductive sysret (A : Type) : Type := Sys_ok (a : A) | Sys_err (errno : Z).
Arguments Sys_ok {A}.
Arguments Sys_err {A}.

(** A call that stores at most [len] bytes and returns how many. *)
Definition sys_bytes (c : call) (len : Z) : HM (sysret bytes) :=
  a ← sys_call c;
  mret (if a_ret a <? 0 then Sys_err (a_errno a)
        else Sys_ok (take (Z.to_nat len) (a_out a))).

(** A call that returns a number, at most [hi]. *)
Definition sys_upto (c : call) (hi : Z) : HM (sysret Z) :=
  a ← sys_call c;
  mret (if a_ret a <? 0 then Sys_err (a_errno a) else Sys_ok (Z.min hi (a_ret a))).

(** A call that returns a number or fails. *)
Definition sys_ret (c : call) : HM (sysret Z) :=
  a ← sys_call c;
  mret (if a_ret a <? 0 then Sys_err (a_errno a) else Sys_ok (a_ret a)).

(** [EAGAIN], which is [EWOULDBLOCK] too. *)
Definition EAGAIN : Z := 11.

(** ** [strtoull(s, &end, 0)] *)

(** [ERANGE] is the third component; the second is what [end] points to, or
    nothing when there is no number. *)
Definition strtoull (s : bytes) : Z * option bytes * bool :=
  let '(neg, s1) := scan_sign (skip_cspace s) in
  let '(val, base, s2) :=
    match scan_word ["0"; "x"]%byte s1 with
    | Some (c :: s2) =>
        if hex_val c then (hex_val, 16, c :: s2) else (λ c, dec_val c, 8, s1)
    | Some [] => (λ c, dec_val c, 8, s1)
    | None => match s1 with
              | "0"%byte :: _ => (λ c, dec_val c, 8, s1)
              | _ => (λ c, dec_val c, 10, s1)
              end
    end in
  let digit c := d ← val c; if d <? base then Some d else None in
  let '(u, n, rest) := scan_digits digit base s2 0 0 in
  if decide (n = O) then (0, None, false)
  else if 2 ^ 64 <=? u then (2 ^ 64 - 1, Some rest, true)
  else (if neg then u64 (- u) else u, Some rest, false).

Section fdops.
Context `{Env}.
Variable fd : Z.

Definition b6b_fd_peeksz : M st Z :=
  a ← on_heap (sys_call (C_fionread fd));
  if a_ret a <? 0 then mret (-1) else deref (head (a_nums a)).

(** The result, and [*eof]: also at the end of a file it becomes 0. *)
Definition b6b_fd_on_read (r : sysret bytes) (eof : Z) : M st (option bytes * Z) :=
  match r with
  | Sys_err e =>
      if e =? EAGAIN then mret (Some [], eof)
      else b6b_return_strerror e;; mret (None, eof)
  | Sys_ok [] => mret (Some [], 0)
  | Sys_ok data => mret (Some data, eof)
  end.

Definition b6b_fd_read (size eof again : Z) : M st (option bytes * Z * Z) :=
  r ← on_heap (sys_bytes (C_read fd size) size);
  '(out, eof) ← b6b_fd_on_read r eof;
  mret (out, eof, again).

Definition b6b_fd_recv (size eof again : Z) : M st (option bytes * Z * Z) :=
  r ← on_heap (sys_bytes (C_recv fd size) size);
  '(out, eof) ← b6b_fd_on_read r eof;
  mret (out, eof, again).

Definition b6b_fd_on_write (r : sysret Z) : M st Z :=
  match r with
  | Sys_err e => if e =? EAGAIN then mret 0 else b6b_return_strerror e;; mret (-1)
  | Sys_ok n => mret n
  end.

Definition b6b_fd_write (buf : bytes) : M st Z :=
  r ← on_heap (sys_upto (C_write fd buf) (Z.of_nat (length buf)));
  b6b_fd_on_write r.

Definition b6b_fd_send (buf : bytes) : M st Z :=
  r ← on_heap (sys_upto (C_send fd buf) (Z.of_nat (length buf)));
  b6b_fd_on_write r.

Definition b6b_fd_close : M st unit := on_heap (sys_note [C_close fd]).

(** [sizeof("18446744073709551615")] *)
Definition b6b_fd_peeksz_u64 : M st Z := mret 21.

Definition b6b_fd_read_u64 (size eof again : Z) : M st (option bytes * Z * Z) :=
  '(out, eof, again) ← b6b_fd_read 8 eof again;
  match out with
  | None => mret (None, eof, again)
  | Some [] => mret (Some [], eof, again)
  | Some u =>
      if negb (bool_decide (length u = 8%nat)) then mret (None, eof, again)
      else
        let s := dec (le_value u) in
        if size <=? Z.of_nat (length s) then mret (None, eof, again)
        else mret (Some s, eof, 0)
  end.

Definition b6b_fd_write_u64 (buf : bytes) : M st Z :=
  match strtoull buf with
  | (_, _, true) | (_, None, _) => mret (-1)
  | (u, Some rest, false) =>
      if negb (match rest with [] => true | c :: _ => bool_decide (c = x00) end) then mret (-1)
      else
        out ← b6b_fd_write (le_bytes 8 u);
        mret (if out =? 8 then Z.of_nat (length buf) else -1)
  end.

Definition b6b_sem_ops : b6b_strm_ops (M st) :=
  mkOps (Some b6b_fd_peeksz_u64) (Some b6b_fd_read_u64) (Some b6b_fd_write_u64) None None
    fd (Some b6b_fd_close).
Definition b6b_timer_ops : b6b_strm_ops (M st) :=
  mkOps (Some b6b_fd_peeksz_u64) (Some b6b_fd_read_u64) None None None
    fd (Some b6b_fd_close).

(** ** src/b6b_signal.c *)

(** [sizeof("4294967295")] *)
Definition b6b_signal_peeksz : M st Z := mret 11.

(** [struct signalfd_siginfo] has 128 bytes, of which the first four are
    [ssi_signo]. *)
Definition sizeof_siginfo : nat := 128.

Definition b6b_signal_read (size eof again : Z) : M st (option bytes * Z * Z) :=
  '(out, eof, again) ← b6b_fd_read (Z.of_nat sizeof_siginfo) eof again;
  match out with
  | None => mret (None, eof, again)
  | Some [] => mret (Some [], eof, again)
  | Some si =>
      if negb (bool_decide (length si = sizeof_siginfo)) then mret (None, eof, again)
      else
        let s := dec (le_value (take 4 si)) in
        if size <=? Z.of_nat (length s) then mret (None, eof, again)
        else mret (Some s, eof, 0)
  end.

Definition b6b_signal_close (set : list Z) : M st unit :=
  on_heap (sys_note [C_sigprocmask false set; C_close fd]).

Definition b6b_signal_fd : Z := fd.

Definition b6b_signal_ops (set : list Z) : b6b_strm_ops (M st) :=
  mkOps (Some b6b_signal_peeksz) (Some b6b_signal_read) None None None
    b6b_signal_fd (Some (b6b_signal_close set)).
End fdops.

(** ** Lemmas *)

Lemma scan_digits_ext v w b s acc n :
  (∀ c, v c = w c) → scan_digits v b s acc n = scan_digits w b s acc n.
Proof.
  intros H. revert acc n. induction s as [|c s IH]; intros acc n; [done|]. simpl.
  rewrite H. destruct (w c); [apply IH|done].
Qed.

Lemma strtoull_dec u : 0 ≤ u < 2 ^ 64 → strtoull (dec u) = (u, Some [], false).
Proof.
  intros Hu. destruct (decide (u = 0)) as [->|Hne]; [by vm_compute|].
  destruct (dec_head u) as (d & s & Hd & E & Hs).
  pose proof (digit_chars d Hd) as (Hc & Hm & Hp & _).
  unfold strtoull.
  assert (skip_cspace (dec u) = dec u) as -> by (rewrite E; simpl; by rewrite Hc).
  assert (scan_sign (dec u) = (false, dec u)) as ->.
  { rewrite E. simpl. by rewrite !decide_False. }
  assert (digit d ≠ "0"%byte) as Hz.
  { intros E0. apply Hne. apply (dec_no_zero u s); [lia|]. by rewrite E, E0. }
  assert (scan_word ["0"; "x"]%byte (dec u) = None) as ->.
  { rewrite E. cbn [scan_word]. rewrite decide_False; [done|]. intros Ht. apply Hz.
    revert Ht. clear -Hd. intros Ht. digit_cases d; (reflexivity || discriminate Ht). }
  assert (match dec u with
    | "0"%byte :: _ => (λ c, dec_val c, 8, dec u) | _ => (λ c, dec_val c, 10, dec u) end
    = (λ c, dec_val c, 10, dec u)) as ->.
  { rewrite E. destruct (digit d); done. }
  rewrite (scan_digits_ext _ dec_val) by (intros c; by destruct c).
  rewrite scan_digits_dec by lia. pose proof (ndigits_pos u).
  rewrite decide_False by lia. by rewrite (proj2 (Z.leb_gt _ _)) by lia.
Qed.

(** The next answer of the system, and the call it answered. *)
Definition answering (s : st) (a : ans) (rest : list ans) : Prop :=
  os_next (h_os (s_heap s)) = a :: rest.
Definition asked_os (c : call) (a : ans) (s s' : st) : Prop :=
  h_os (s_heap s') = mkOs (tail (os_next (h_os (s_heap s)))) ((c, a) :: os_log (h_os (s_heap s))).

Lemma sys_call_eq c a rest s :
  answering s a rest →
  on_heap (sys_call c) s = Done (a,
    mkSt (mkHeap (objs (s_heap s)) (next (s_heap s)) (mkOs rest ((c, a) :: os_log (h_os (s_heap s)))))
      (s_in s) (s_tids s) (s_err s)).
Proof. unfold answering, on_heap, zoom, sys_call. by intros ->. Qed.

(** ** Properties *)


(** *** Witnesses *)

(** A state in which the system will give these answers. *)
Definition answers_state (l : list ans) : st :=
  mkSt (mkHeap (objs (s_heap sample_state)) (next (s_heap sample_state)) (mkOs l []))
    (s_in sample_state) (s_tids sample_state) (s_err sample_state).

