(* ===== verification/FdProcs.v ===== *)
(** * Procedures that open descriptors

    How a stream object is made (src/b6b_strm.c), and the procedures that make
    objects on new descriptors without switching threads: src/b6b_sem.c,
    src/b6b_timer.c, src/b6b_signal.c, src/b6b_sh.c, the constructor of
    src/b6b_poll.c; and the wrappers of src/b6b_path.c and
    src/b6b_linenoise.c. *)
From Stdlib Require Import ZArith Lia Init.Byte Strings.Byte Strings.String.
From Stdlib Require Import Floats.SpecFloat.
From stdpp Require Import base option list numbers gmap.
From S2P Require Import Prelude Sys Float64 Hash Parse Heap Repr ListObj Dict Offload Interp.
From S2P Require Import Strm FdOps.
#[local] Open Scope Z_scope.

(** ** Stream objects *)

(** ["%x"] *)
Definition hex_char (d : Z) : byte := to_byte (if d <? 10 then 48 + d else 87 + d).
Fixpoint hex_digits (k : nat) (z : Z) (acc : bytes) : bytes :=
  match k with
  | O => acc
  | S k' =>
      let acc := hex_char (z mod 16) :: acc in
      if z / 16 =? 0 then acc else hex_digits k' (z / 16) acc
  end.
Definition fmt_hex (z : Z) : bytes := hex_digits 16 (u64 z) [].

Definition b6b_strm_new (k : b6b_strm_kind) (priv : b6b_strm_priv) (o : loc) : HM loc :=
  update_obj o (λ x, with_proc P_strm (with_del D_strm (V_strm (mkStrm k priv false false)) x));;
  mret o.

Definition b6b_strm_copy (k : b6b_strm_kind) (priv : b6b_strm_priv) (s : bytes) : HM loc :=
  o ← b6b_str_copy s; b6b_strm_new k priv o.

(** The text is the type and the address [p] of [priv]; a descriptor is its
    own address. *)
Definition b6b_strm_fmt (k : b6b_strm_kind) (priv : b6b_strm_priv) (type : bytes) (p : Z) : HM loc :=
  o ← b6b_str_new (type ++ lit ":" ++ fmt_hex p); b6b_strm_new k priv o.

(** The address of a new structure. *)
Definition sys_address : HM Z := a ← sys_call C_address; mret (a_ret a).

Section procs.
Context `{Env}.

(** ** src/b6b_sem.c *)

Definition b6b_sem_proc_sem (args : loc) : M st b6b_res :=
  r ← get_args args "oi" [false; true];
  match r with
  | (0, _) => mret B6B_ERR
  | (_, [n]) =>
      x ← on_heap (read_obj n);
      if UINT_MAX <? o_i x then mret B6B_ERR
      else
        fd ← on_heap (sys_ret (C_eventfd (u32 (o_i x))));
        match fd with
        | Sys_err e => b6b_return_strerror e
        | Sys_ok fd => o ← on_heap (b6b_strm_fmt K_sem (S_fd fd) (lit "sem") fd); b6b_return o
        end
  | _ => ub
  end.

(** ** src/b6b_timer.c *)

(** [(long)f], for a number that fits. *)
Definition f_trunc (f : b6b_float) : option Z :=
  match f with
  | S754_zero _ => Some 0
  | S754_finite s m e =>
      Some (signed s (if 0 <=? e then Z.pos m * 2 ^ e else Z.pos m / 2 ^ (- e)))
  | _ => None
  end.

(** Seconds and nanoseconds of an interval, as [timer] and [sleep] compute
    them; nothing when a conversion is undefined. *)
Definition to_timespec (f : b6b_float) : option (Z * Z) :=
  sec ← f_to_int f;
  frac ← f_trunc (f_mul (f_of_Z 1000000000) (f_sub f (f_of_Z sec)));
  Some (sec, Z.abs frac).

Definition b6b_timer_proc_timer (args : loc) : M st b6b_res :=
  r ← get_args args "of" [false; true];
  match r with
  | (0, _) => mret B6B_ERR
  | (_, [f]) =>
      x ← on_heap (read_obj f);
      if SFeqb (o_f x) f_zero then mret B6B_ERR
      else
        fd ← on_heap (sys_ret C_timerfd_create);
        match fd with
        | Sys_err e => b6b_return_strerror e
        | Sys_ok fd =>
            '(sec, nsec) ← deref (to_timespec (o_f x));
            r ← on_heap (sys_ret (C_timerfd_settime fd sec nsec));
            match r with
            | Sys_err e => on_heap (sys_note [C_close fd]);; b6b_return_strerror e
            | Sys_ok _ =>
                o ← on_heap (b6b_strm_fmt K_timer (S_fd fd) (lit "timer") fd); b6b_return o
            end
        end
  | _ => ub
  end.

(** ** src/b6b_signal.c *)

(** The loop that adds the items to the set; nothing when one is not a
    signal. *)
Fixpoint signal_loop (items : list b6b_litem) (set : list Z) : HM (option (list Z)) :=
  match items with
  | [] => mret (Some set)
  | li :: items' =>
      ok ← b6b_as_int (li_o li);
      if negb ok then mret None
      else
        x ← read_obj (li_o li);
        if (o_i x <? 1) || (INT_MAX <? o_i x) then mret None
        else
          r ← sys_ret (C_sigaddset (o_i x));
          match r with
          | Sys_err _ => mret None
          | Sys_ok _ => signal_loop items' (set ++ [o_i x])
          end
  end.

Definition b6b_signal_proc_signal (args : loc) : M st b6b_res :=
  x ← on_heap (read_obj args);
  match o_l x with
  | [] => ub
  | [_] => mret B6B_ERR
  | _ :: items =>
      set ← on_heap (signal_loop items []);
      match set with
      | None => mret B6B_ERR
      | Some set =>
          r ← on_heap (sys_ret (C_sigprocmask true set));
          match r with
          | Sys_err e => b6b_return_strerror e
          | Sys_ok _ =>
              fd ← on_heap (sys_ret (C_signalfd set));
              match fd with
              | Sys_err e => b6b_return_strerror e
              | Sys_ok fd =>
                  p ← on_heap sys_address;
                  o ← on_heap (b6b_strm_fmt K_signal (S_signal fd set) (lit "signal") p);
                  b6b_return o
              end
          end
      end
  end.

(** ** src/b6b_sh.c *)

(** The pipe of one stream of a process, of which the end [wr] (the one that is
    written to) or the other becomes a stream; nothing when it fails. *)
Definition b6b_sh_new_pipe (pid : loc) (k : b6b_strm_kind) (type : bytes) (wr : bool)
    : M st (option (loc * (Z * Z))) :=
  a ← on_heap (sys_call C_pipe2);
  if a_ret a <? 0 then b6b_return_strerror (a_errno a);; mret None
  else
    match a_nums a with
    | [r; w] =>
        let fd := if wr then w else r in
        let bail e :=
          on_heap (sys_note [C_close w; C_close r]);; b6b_return_strerror e;; mret None in
        fl ← on_heap (sys_ret (C_getfl fd));
        match fl with
        | Sys_err e => bail e
        | Sys_ok fl =>
            s ← on_heap (sys_ret (C_setfl fd (Z.lor fl 2048)));  (* O_NONBLOCK *)
            match s with
            | Sys_err e => bail e
            | Sys_ok _ =>
                on_heap (b6b_ref pid);;
                p ← on_heap sys_address;
                o ← on_heap (b6b_strm_fmt k (S_sh pid fd) type p);
                mret (Some (o, (r, w)))
            end
        end
    | _ => oof
    end.

(** What becomes of the process that [fork] makes: the shell, or the end. *)
Inductive child_end : Set :=
| Child_shell (cmd : bytes)
| Child_exit (code : Z).

(** The child's side: its standard streams are the other ends of the pipes. It
    never comes back to the interpreter. *)
Definition sh_child (cmd : loc) (f0 f1 f2 : Z * Z) : HM child_end :=
  i ← sys_call (C_dup2 (fst f0) 0);
  if negb (a_ret i =? 0) then mret (Child_exit 1)
  else
    o ← sys_call (C_dup2 (snd f1) 1);
    if negb (a_ret o =? 1) then mret (Child_exit 1)
    else
      e ← sys_call (C_dup2 (snd f2) 2);
      if negb (a_ret e =? 2) then mret (Child_exit 1)
      else
        s ← text cmd;
        r ← sys_call (C_execl (c_str s));
        mret (if a_ret r <? 0 then Child_exit 1 else Child_shell (c_str s)).

(** [b6b_sh_proc_sh] after the pipes were made. This run goes on in the parent:
    that of the child is over after [sh_child]. *)
Definition sh_start (cmd pid in_ out err : loc) (f0 f1 f2 : Z * Z) : M st b6b_res :=
  a ← on_heap (sys_call C_fork);
  on_heap (update_obj pid (with_i (a_ret a)));;
  if a_ret a =? -1 then
    on_heap (miter b6b_destroy [err; out; in_; pid]);; mret B6B_ERR
  else if a_ret a =? 0 then on_heap (sh_child cmd f0 f1 f2);; oof
  else
    on_heap (sys_note [C_close (fst f0); C_close (snd f1); C_close (snd f2)]);;
    on_heap (update_obj pid (with_del D_pid (V_num (a_ret a))));;
    l ← on_heap (b6b_list_build [pid; in_; out; err]);
    on_heap (miter b6b_unref [err; out; in_; pid]);;
    b6b_return l.

Definition b6b_sh_proc_sh (args : loc) : M st b6b_res :=
  r ← get_args args "os" [false; true];
  match r with
  | (0, _) => mret B6B_ERR
  | (_, [cmd]) =>
      pid ← on_heap (b6b_int_new 0);
      i ← b6b_sh_new_pipe pid K_sh_in (lit "stdin") true;
      match i with
      | None => on_heap (b6b_destroy pid);; mret B6B_ERR
      | Some (i, f0) =>
          o ← b6b_sh_new_pipe pid K_sh_out (lit "stdout") false;
          match o with
          | None => on_heap (miter b6b_destroy [i; pid]);; mret B6B_ERR
          | Some (o, f1) =>
              e ← b6b_sh_new_pipe pid K_sh_out (lit "stderr") false;
              match e with
              | None => on_heap (miter b6b_destroy [o; i; pid]);; mret B6B_ERR
              | Some (e, f2) => sh_start cmd pid i o e f0 f1 f2
              end
          end
      end
  | _ => ub
  end.

(** ** src/b6b_poll.c *)

Definition b6b_poll_proc_poll (args : loc) : M st b6b_res :=
  r ← get_args args "o" [false];
  match r with
  | (0, _) => mret B6B_ERR
  | _ =>
      fd ← on_heap (sys_ret C_epoll_create);
      match fd with
      | Sys_err e => b6b_return_strerror e
      | Sys_ok fd =>
          o ← on_heap (b6b_str_new (lit "poll:" ++ fmt_int fd));
          on_heap (update_obj o (λ x, with_proc P_poll_obj (with_del D_poll (V_num fd) x)));;
          b6b_return o
      end
  end.

(** ** src/b6b_path.c *)

Definition b6b_path_proc_realpath (args : loc) : M st b6b_res :=
  r ← get_args args "os" [false; true];
  match r with
  | (0, _) => mret B6B_ERR
  | (_, [s]) =>
      p ← on_heap (text s);
      a ← on_heap (sys_call (C_realpath (c_str p)));
      if a_ret a <? 0 then b6b_return_strerror (a_errno a)
      else o ← on_heap (b6b_str_new (c_str (a_out a))); b6b_return o
  | _ => ub
  end.

(** ** src/b6b_linenoise.c *)

Definition b6b_linenoise_proc_read (args : loc) : M st b6b_res :=
  r ← get_args args "os" [false; true];
  match r with
  | (0, _) => mret B6B_ERR
  | (_, [p]) =>
      p ← on_heap (text p);
      a ← on_heap (sys_call (C_linenoise (c_str p)));
      if a_ret a <? 0 then mret B6B_ERR
      else o ← on_heap (b6b_str_new (c_str (a_out a))); b6b_return o
  | _ => ub
  end.

(** The procedures on the history, for the call and its result for success. *)
Definition history_proc (c : bytes → call) (success : Z → bool) (args : loc) : M st b6b_res :=
  r ← get_args args "os" [false; true];
  match r with
  | (0, _) => mret B6B_ERR
  | (_, [s]) =>
      p ← on_heap (text s);
      a ← on_heap (sys_call (c (c_str p)));
      mret (if success (a_ret a) then B6B_OK else B6B_ERR)
  | _ => ub
  end.
Definition b6b_linenoise_proc_add := history_proc C_history_add (λ z, negb (z =? 0)).
Definition b6b_linenoise_proc_save := history_proc C_history_save (λ z, z =? 0).
Definition b6b_linenoise_proc_load := history_proc C_history_load (λ z, z =? 0).
End procs.

(** ** The child of [sh] *)

(** A call changes nothing but the log. *)
Lemma sys_call_logs c h a h' :
  sys_call c h = Done (a, h') → objs h' = objs h ∧ os_log (h_os h') = (c, a) :: os_log (h_os h).
Proof. unfold sys_call. by destruct (os_next (h_os h)); intros [=<- <-]. Qed.

(** The shell that a child becomes runs the command, with the ends of the three
    pipes that were meant for it as its standard streams. *)
Lemma sh_child_streams cmd f0 f1 f2 h c h' :
  sh_child cmd f0 f1 f2 h = Done (Child_shell c, h') →
  (∃ x, objs h !! cmd = Some x ∧ c = c_str (o_s x)) ∧
  ∃ i o e r, a_ret i = 0 ∧ a_ret o = 1 ∧ a_ret e = 2 ∧
    os_log (h_os h') = [(C_execl c, r); (C_dup2 (snd f2) 2, e);
                        (C_dup2 (snd f1) 1, o); (C_dup2 (fst f0) 0, i)] ++ os_log (h_os h).
Proof.
  unfold sh_child, text, read_obj. intros H.
  repeat first [minv1 | case_match]; simplify_eq/=;
    repeat match goal with
      | H : sys_call _ _ = _ |- _ => apply sys_call_logs in H as [? ?]
      end; simplify_eq.
  split; [match goal with H : _ !! _ = Some ?x |- _ => exists x end; split; congruence|].
  repeat match goal with H : negb _ = false |- _ => apply negb_false_iff, Z.eqb_eq in H end.
  do 4 eexists. split_and!; try done.
  by repeat match goal with H : os_log (h_os ?x) = _ |- context [os_log (h_os ?x)] => rewrite H end.
Qed.
