(* ===== verification/Prompt.v ===== *)
(** * The prompt and the options

    The functions of src/b6b.c around the vendored linenoise: what the prompt
    completes ([complete]) and hints at ([hint]), and the options of [main]. What
    [getopt] returns is an argument of the model. The interpreter that runs the
    statements of the prompt is a nested one, which is not modelled: [complete]
    is given its two dictionaries of variables. *)
From Stdlib Require Import ZArith Lia Init.Byte Strings.Byte Strings.String.
From stdpp Require Import base option list numbers gmap.
From S2P Require Import Prelude Sys Float64 Hash Parse Heap Repr ListObj Dict Interp.
#[local] Open Scope Z_scope.
#[local] Open Scope byte_scope.

(** ** Completion *)

(** [strncmp(a, b, n) == 0], for two buffers of known lengths. *)
Definition strncmp_eq (a b : bytes) (n : nat) : bool :=
  bool_decide (take n (c_str a ++ [x00]) = take n (c_str b ++ [x00])).

(** The rounds of the inner loop of [complete] from the key at the head of
    [items] on, for the list [o] of the words of the line and the word [tok]
    that is completed: the lines that are offered, in order. The test of the
    length against [SIZE_MAX - 2] is never true. *)
Fixpoint complete_loop (o tok : loc) (items : list b6b_litem) : HM (list bytes) :=
  match items with
  | [] => mret []
  | kli :: rest =>
      ok ← b6b_as_str (li_o kli);
      k ← text (li_o kli);
      t ← text tok;
      let next := match rest with [] => mret [] | _ :: rest' => complete_loop o tok rest' end in
      if (ok : bool) && strncmp_eq k (drop 1 t) (length t - 1) then
        p ← b6b_list_pop o None; p ← deref p; b6b_unref p;;
        ctok ← b6b_str_new ("$" :: c_str k);
        ok ← b6b_list_add o ctok;
        if negb ok then b6b_destroy ctok;; mret []
        else
          b6b_unref ctok;;
          ok ← b6b_as_str o;
          if negb ok then mret []
          else l ← text o; ls ← next; mret (c_str l :: ls)
      else next
  end.

(** The loop over the dictionaries: one that is no list ends it. *)
Fixpoint complete_dicts (o tok : loc) (ds : list loc) : HM (list bytes) :=
  match ds with
  | [] => mret []
  | d :: ds' =>
      ok ← b6b_as_list d;
      if negb ok then mret []
      else
        x ← read_obj d;
        ls ← complete_loop o tok (o_l x);
        ls' ← complete_dicts o tok ds';
        mret (ls ++ ls')
  end.

(** [complete], for the line [s]: [ds] are the local and the global variables
    of [chld], when there is one. *)
Definition complete (ds : option (list loc)) (s : bytes) : HM (list bytes) :=
  match s with
  | [] => mret []
  | _ =>
      o ← b6b_str_copy s;
      ok ← b6b_as_list o;
      x ← read_obj o;
      match (if ok : bool then last (o_l x) else None) with
      | None => b6b_destroy o;; mret []
      | Some li =>
          let tok := li_o li in
          b6b_ref tok;;
          ok ← b6b_as_str tok;
          t ← text tok;
          match (if (ok : bool) && bool_decide (head t = Some "$") then ds else None) with
          | None => b6b_unref tok;; b6b_destroy o;; mret []
          | Some ds =>
              ls ← complete_dicts o tok ds;
              b6b_unref tok;;
              b6b_destroy o;;
              mret ls
          end
      end
  end.

(** [hint]: the bracket that closes the one at the end of the line, in bold. *)
Definition hint (s : bytes) : option bytes :=
  match last s with
  | Some "{" => Some (lit "}")
  | Some "[" => Some (lit "]")
  | _ => None
  end.

(** ** The options of [main] *)

(** The bits of [opts] after the results of [getopt] before the last one, -1;
    nothing when [main] fails. *)
Fixpoint main_opts (rs : bytes) (o : b6b_opts) (cmd : bool) : option (b6b_opts * bool) :=
  match rs with
  | [] => Some (o, cmd)
  | c :: rs' =>
      if decide (c = "c") then main_opts rs' o true
      else if decide (c = "e") then
        main_opts rs' (mkOpts true (opt_trace o) (opt_nbf o) (opt_no_pool o)) cmd
      else if decide (c = "u") then
        main_opts rs' (mkOpts (opt_raise o) (opt_trace o) true (opt_no_pool o)) cmd
      else if decide (c = "x") then
        main_opts rs' (mkOpts (opt_raise o) true (opt_nbf o) (opt_no_pool o)) cmd
      else None
  end.

(** ** Lemmas *)

(** The comparison selects the names that start with what was typed. *)
Lemma strncmp_eq_prefix k t :
  x00 ∉ t → strncmp_eq k t (length t) = true ↔ t `prefix_of` c_str k.
Proof.
  intros Ht. unfold strncmp_eq. rewrite bool_decide_eq_true, (c_str_no_nul t Ht).
  rewrite take_app_length. split.
  - intros E. destruct (decide (length t ≤ length (c_str k))%nat) as [Hle|Hgt].
    + rewrite take_app_le in E by lia. exists (drop (length t) (c_str k)).
      by rewrite <- E at 1; rewrite take_drop.
    + destruct Ht. rewrite <- E. apply elem_of_take. exists (length (c_str k)).
      rewrite lookup_app_r, Nat.sub_diag by lia. split; [done|lia].
  - intros [rest ->]. by rewrite <- app_assoc, take_app_length.
Qed.

(** The options do not depend on their order. *)
Lemma main_opts_spec rs o cmd :
  Forall (λ c, c ∈ lit "ceux") rs →
  main_opts rs o cmd = Some
    (mkOpts (opt_raise o || bool_decide ("e" ∈ rs)) (opt_trace o || bool_decide ("x" ∈ rs))
       (opt_nbf o || bool_decide ("u" ∈ rs)) (opt_no_pool o), cmd || bool_decide ("c" ∈ rs)).
Proof.
  assert (∀ b c (l : bytes), b || bool_decide (c ∈ c :: l) = true) as Hin.
  { intros b c l. rewrite bool_decide_true by (by left). apply orb_true_r. }
  assert (∀ b c d (l : bytes), c ≠ d → b || bool_decide (c ∈ d :: l) = b || bool_decide (c ∈ l)) as Hne.
  { intros b c d l Hcd. f_equal. apply bool_decide_ext. rewrite elem_of_cons. naive_solver. }
  revert o cmd. induction rs as [|c rs IH]; intros o cmd Hrs; [simpl|cbn [main_opts]].
  { rewrite !orb_false_r. by destruct o. }
  apply Forall_cons in Hrs as [Hc Hrs]. change (lit "ceux") with ["c"; "e"; "u"; "x"]%byte in Hc.
  rewrite !elem_of_cons in Hc. destruct Hc as [->|[->|[->|[->|[]%not_elem_of_nil]]]];
    rewrite ?(decide_False (P := _ = _)) by done; rewrite decide_True, IH by done;
    cbn [opt_raise opt_trace opt_nbf opt_no_pool orb]; by rewrite !Hin, !Hne by done.
Qed.

(** With the variables [x], [xy] and [z], [$echo $x] completes to two lines. *)
Definition sample_vars : heap :=
  mkHeap {[ 0%N := with_l [mkItem 10 2; mkItem 11 5; mkItem 12 3; mkItem 13 5;
                           mkItem 14 4; mkItem 15 5] new_list;
            1%N := new_list;
            2%N := new_str (lit "xy"); 3%N := new_str (lit "z"); 4%N := new_str (lit "x");
            5%N := with_refc 3 (new_int 1) ]} 20 no_os.

Lemma complete_sample :
  ∃ h', complete (Some [0; 1]%N) (lit "$echo $x") sample_vars =
      Done ([lit "$echo $xy"; lit "$echo $x"], h') ∧
    well_counted [0; 1]%N (objs h') ∧ size (objs h') = 6%nat.
Proof.
  eexists. split; [vm_compute; reflexivity|]. split; [|by vm_compute].
  apply wc_check_sound. vm_compute. reflexivity.
Qed.
