(* ===== verification/Switch.v ===== *)
(** * Switching threads

    A run can be suspended in the middle by [swapcontext]: the result of a run
    is a resumption, which carries the rest of the suspended thread. On top of
    it: [b6b_yield], [b6b_wait], [b6b_start] and [b6b_offload] of
    src/b6b_interp.c, and src/b6b_thread.c. *)
From Stdlib Require Import ZArith Lia Init.Byte Strings.Byte Strings.String.
From stdpp Require Import base option list numbers gmap.
From S2P Require Import Prelude Sys Float64 Hash Parse Heap Repr ListObj Dict Offload Interp.
#[local] Open Scope Z_scope.

(** ** Resumptions *)

(** [Susp t s k]: the thread [t] left the processor in the state [s], where
    [fg] is the thread to run; [k] continues [t] when it gets the processor
    back. *)
Inductive res (A : Type) : Type :=
| Ret (a : A) (s : st)
| Fault
| NoFuel
| Susp (t : N) (s : st) (k : st → res A).
Arguments Ret {A} a s.
Arguments Fault {A}.
Arguments NoFuel {A}.
Arguments Susp {A} t s k.

Definition IM (A : Type) : Type := st → res A.

Fixpoint res_bind {A B} (r : res A) (f : A → IM B) : res B :=
  match r with
  | Ret a s => f a s
  | Fault => Fault
  | NoFuel => NoFuel
  | Susp t s k => Susp t s (λ s', res_bind (k s') f)
  end.

#[export] Instance IM_ret : MRet IM := λ A a s, Ret a s.
#[export] Instance IM_bind : MBind IM := λ A B f m s, res_bind (m s) f.

Definition nofuel {A} : IM A := λ _, NoFuel.

#[export] Instance IM_fail : MFail IM :=
  {| m_ub := λ A _, Fault; m_oof := @nofuel |}.

(** Code that does not switch threads. *)
Definition lift {A} (m : M st A) : IM A := λ s,
  match m s with
  | Done (a, s') => Ret a s'
  | Ub => Fault
  | Oof => NoFuel
  end.

Definition hp {A} (m : HM A) : IM A := lift (on_heap m).

(** ** Threads *)

(** [b6b_thread_destroy]: the frames of a thread that is done are popped, all
    but its first. *)
Definition b6b_thread_destroy (t : b6b_thread) : M st unit :=
  on_heap (b6b_unref (t_ret t));;
  match t_fn t with Some fn => on_heap (b6b_unref fn) | None => mret tt end;;
  match t_curr t with f :: _ => b6b_frame_destroy f | [] => ub end.

Definition b6b_thread_pop (t : b6b_thread) : M st unit :=
  set_interp (λ i, with_threads (filter (λ u, t_id u ≠ t_id t) (threads i)) i);;
  b6b_thread_destroy t.

Definition b6b_wait : M st unit :=
  s ← get;
  miter (λ t, if t_done t then b6b_thread_pop t else mret tt) (threads (s_in s)).

(** [THREAD_PENDING(t)] *)
Definition pending (t : b6b_thread) : bool := t_bg t && negb (t_done t).

(** The threads after [fg], then those before it, in the order [b6b_yield]
    looks at them. *)
Fixpoint split_at (id : N) (ts : list b6b_thread) : list b6b_thread * list b6b_thread :=
  match ts with
  | [] => ([], [])
  | t :: ts' =>
      if decide (t_id t = id) then ([], ts')
      else let '(before, after) := split_at id ts' in (t :: before, after)
  end.
Definition pick (id : N) (ts : list b6b_thread) : option b6b_thread :=
  let '(before, after) := split_at id ts in
  snd <$> list_find pending (after ++ before).

(** The flags, at the start of [b6b_thread_swap(bg, fg)]. *)
Definition swap_flags (bg fg : N) (ts : list b6b_thread) : list b6b_thread :=
  map_thread bg (with_bg_fg true false) (map_thread fg (with_bg_fg false true) ts).

(** [swapcontext]: the rest of the thread [bg] runs when it is resumed. *)
Definition swapcontext (bg : N) : IM unit := λ s, Susp bg s (λ s', Ret tt s').

Definition b6b_yield : IM bool :=
  s ← lift get;
  let i := s_in s in
  match pick (fg i) (threads i) with
  | None => lift b6b_wait;; mret false
  | Some t =>
      lift (set_interp (λ i, with_qstep 0 (with_fg (t_id t)
             (with_threads (swap_flags (fg i) (t_id t) (threads i)) i))));;
      swapcontext (fg i);;
      lift b6b_wait;;
      mret true
  end.

(** [b6b_thread_prep], for the thread with the number [id]: it runs [fn] in a
    frame of its own above the global one. [getcontext], [sigfillset] and the
    stack do not fail. *)
Definition b6b_thread_prep (id : N) (fn nl : loc) : M st b6b_thread :=
  f ← b6b_frame_new;
  on_heap (b6b_ref fn);;
  on_heap (b6b_ref nl);;
  mret (mkThread id [f] (Some fn) nl 1 true false false false).

(** [b6b_thread_new]. Threads are told apart by numbers, not by addresses. *)
Definition b6b_thread_new (fn nl : loc) : M st b6b_thread :=
  s ← get;
  modify (λ s, mkSt (s_heap s) (s_in s) (N.succ (s_tids s)) (s_err s));;
  b6b_thread_prep (s_tids s) fn nl.

(** The thread [t], after the thread [id]. *)
Fixpoint insert_after (id : N) (t : b6b_thread) (ts : list b6b_thread) : list b6b_thread :=
  match ts with
  | [] => []
  | u :: ts' => if decide (t_id u = id) then u :: t :: ts' else u :: insert_after id t ts'
  end.

(** [b6b_thread_push(ts, t, fg)]: after the current thread, or at the end of
    the list when there is none. *)
Definition b6b_thread_push (ts : list b6b_thread) (t : b6b_thread) (fg : option N) : list b6b_thread :=
  match fg with
  | Some id => insert_after id t ts
  | None => ts ++ [t]
  end.

Definition b6b_start (stmts : loc) : M st bool :=
  s ← get;
  t ← b6b_thread_new stmts (null (s_in s));
  set_interp (λ i, with_threads (b6b_thread_push (threads i) t (Some (fg i))) i);;
  mret true.

(** ** [b6b_offload] *)

(** [b6b_threaded(interp)] *)
Definition b6b_threaded (i : b6b_interp) : bool :=
  match threads i with _ :: _ :: _ => true | _ => false end.

(** The index of the first offload thread that is [b6b_offload_ready]. *)
Definition b6b_pick_thread (l : list b6b_offload_state) : option nat :=
  fst <$> list_find (λ x, x = B6B_OFFLOAD_IDLE) l.

Definition set_offth (i : nat) (x : b6b_offload_state) : M st unit :=
  set_interp (λ it, with_offths (<[i := x]> (offths it)) it).

(** Waits for an offload thread; nothing when no other thread can run. *)
Fixpoint wait_ready (k : nat) : IM (option nat) :=
  match k with
  | O => nofuel
  | S k' =>
      s ← lift get;
      match b6b_pick_thread (offths (s_in s)) with
      | Some i => mret (Some i)
      | None => r ← b6b_yield; if r : bool then wait_ready k' else mret None
      end
  end.

(** Waits for [b6b_offload_done] as long as there is a thread to switch to that
    does not wait too; the result is [pending], whether a thread waits. *)
Fixpoint wait_done (k : nat) (pending : bool) : IM bool :=
  match k with
  | O => nofuel
  | S k' =>
      s ← lift get;
      let i := s_in s in
      if negb (b6b_threaded i) then mret pending
      else
        let others := filter (λ t, t_id t ≠ fg i) (threads i) in
        let pending := existsb t_blocked others in
        let swap := existsb (λ t, negb (t_blocked t)) others in
        if negb swap then mret pending
        else
          r ← b6b_yield;
          if negb r then mret pending
          else
            a ← hp (sys_call C_offload_done);
            if a_ret a =? 0 then wait_done k' pending else mret pending
  end.

(** Makes the calls of [fn] in an offload thread, and gives what [fn] left in
    its argument, if it was called. The calls take place when the thread is
    woken up; nothing of them is seen before [b6b_offload_finish]. [n] bounds
    the rounds of the waiting loops. *)
Definition b6b_offload {A} (n : nat) (fn : HM A) : IM (bool * option A) :=
  s ← lift get;
  if negb (b6b_threaded (s_in s)) then a ← hp fn; mret (true, Some a)
  else
    lift (update_fg (with_blocked true));;
    th ← wait_ready n;
    match th with
    | None => lift (update_fg (with_blocked false));; mret (false, None)
    | Some i =>
        lift (set_offth i B6B_OFFLOAD_RUNNING);;
        r ← hp (sys_call C_offload_start);
        if negb (a_ret r =? 0) then
          lift (update_fg (with_blocked false));; mret (false, None)
        else
          a ← hp fn;
          pending ← wait_done n false;
          lift (update_fg (with_blocked false));;
          r ← hp (sys_call C_offload_finish);
          if negb (a_ret r =? 0) then mret (false, Some a)
          else
            lift (set_offth i B6B_OFFLOAD_IDLE);;
            (if pending : bool then b6b_yield;; mret tt else mret tt);;
            mret (true, Some a)
    end.
