(* ===== verification/Sockets.v ===== *)
(** * Sockets

    src/b6b_socket.c: the operations of socket streams, the constructors, and
    the byte order of integers. A resolved address is a value of [sockaddr],
    whose text is what [inet_ntop] makes of it; the check of an address's size
    against the structure it is copied into is always passed by one. Resolving
    a name runs in the offload thread. *)
From Stdlib Require Import ZArith Lia Init.Byte Strings.Byte Strings.String.
From stdpp Require Import base option list numbers gmap.
From S2P Require Import Prelude Sys Float64 Hash Parse Heap Repr ListObj Dict Offload Interp.
From S2P Require Import Strm FdOps FdProcs Switch.
#[local] Open Scope Z_scope.

Definition B6B_SERVER_DEF_BACKLOG : Z := 5.
Definition SOCK_STREAM : Z := 1.
Definition SOCK_DGRAM : Z := 2.
Definition EINPROGRESS : Z := 115.
Definition EMFILE : Z := 24.

Definition family (a : sockaddr) : Z :=
  match a with A_unspec => 0 | A_un _ => 1 | A_in _ _ => 2 | A_in6 _ _ => 10 end.

(** ** Streams *)

(** Assigns the peer of the socket stream [o]. *)
Definition set_peer (o : loc) (a : sockaddr) : HM unit :=
  x ← read_obj o;
  match o_priv x with
  | V_strm (mkStrm k (S_socket _ addr fd) c e) =>
      update_obj o (with_del (o_del x) (V_strm (mkStrm k (S_socket a addr fd) c e)))
  | _ => ub
  end.

Definition b6b_socket_stringify_address (a : sockaddr) : HM (option loc) :=
  match a with
  | A_in s _ | A_in6 s _ => o ← b6b_str_new s; mret (Some o)
  | _ => mret None
  end.

Definition b6b_socket_inet_peer (peer : sockaddr) : HM (option loc) :=
  o ← b6b_socket_stringify_address peer;
  match o, peer with
  | Some o, (A_in _ port | A_in6 _ port) =>
      l ← b6b_list_new;
      b6b_list_add l o;;
      b6b_unref o;;
      p ← b6b_int_new port;
      b6b_list_add l p;;
      b6b_unref p;;
      mret (Some l)
  | _, _ => mret None
  end.

Definition b6b_socket_new (fd : Z) (addr : sockaddr) (peer : option sockaddr)
    (type : bytes) (k : b6b_strm_kind) : HM loc :=
  p ← sys_address;
  b6b_strm_fmt k (S_socket (default A_unspec peer) addr fd) type p.

Section sockets.
Context `{Env}.

(** [o] is the stream, whose peer is the sender from then on. *)
Definition b6b_socket_readfrom (o : loc) (fd : Z) (size eof again : Z)
    : M st (option bytes * Z * Z) :=
  a ← on_heap (sys_call (C_recvfrom fd size));
  match a_addrs a with
  | p :: _ => on_heap (set_peer o p)
  | [] => mret tt
  end;;
  '(out, eof) ← b6b_fd_on_read
    (if a_ret a <? 0 then Sys_err (a_errno a) else Sys_ok (take (Z.to_nat size) (a_out a))) eof;
  mret (out, eof, 0).

Definition b6b_socket_file_peer (peer : sockaddr) : M st (option loc) :=
  match peer with
  | A_un path => o ← on_heap (b6b_str_copy (c_str path)); mret (Some o)
  | _ => s ← get; o ← on_heap (b6b_ref (null (s_in s))); mret (Some o)
  end.

(** Nothing on an error, an object for a connection, or neither when there is
    none to accept. *)
Definition b6b_socket_stream_accept (fd : Z) (k : b6b_strm_kind) (type : bytes)
    : M st (option (option loc)) :=
  a ← on_heap (sys_call (C_accept fd));
  if a_ret a <? 0 then
    if (a_errno a =? EAGAIN) || (a_errno a =? EMFILE) then mret (Some None)
    else b6b_return_strerror (a_errno a);; mret None
  else
    o ← on_heap (b6b_socket_new (a_ret a) A_unspec (Some (default A_unspec (head (a_addrs a)))) type k);
    mret (Some (Some o)).

Definition b6b_socket_inet_accept (fd : Z) : M st (option (option loc)) :=
  b6b_socket_stream_accept fd K_tcp_client (lit "tcp").
Definition b6b_socket_un_accept (fd : Z) : M st (option (option loc)) :=
  b6b_socket_stream_accept fd K_un_stream_client (lit "stream").

Definition b6b_socket_peeksz (fd : Z) : M st Z := b6b_fd_peeksz fd.
Definition b6b_socket_read (fd size eof again : Z) : M st (option bytes * Z * Z) :=
  b6b_fd_recv fd size eof again.
Definition b6b_socket_write (fd : Z) (buf : bytes) : M st Z := b6b_fd_send fd buf.
Definition b6b_socket_fd (fd : Z) : Z := fd.
Definition b6b_socket_close (fd : Z) : M st unit := on_heap (sys_note [C_close fd]).
Definition b6b_socket_close_unlink (fd : Z) (addr : sockaddr) : M st unit :=
  on_heap (sys_note (match addr with
                     | A_un path => [C_close fd; C_unlink path]
                     | _ => [C_close fd]
                     end)).

(** *** The tables of operations, for the stream [o] *)

Definition b6b_tcp_client_ops (peer : sockaddr) (fd : Z) : b6b_strm_ops (M st) :=
  mkOps (Some (b6b_socket_peeksz fd)) (Some (b6b_socket_read fd)) (Some (b6b_socket_write fd))
    (Some (on_heap (b6b_socket_inet_peer peer))) None (b6b_socket_fd fd)
    (Some (b6b_socket_close fd)).
Definition b6b_udp_client_ops (o : loc) (peer : sockaddr) (fd : Z) : b6b_strm_ops (M st) :=
  mkOps (Some (b6b_socket_peeksz fd)) (Some (b6b_socket_readfrom o fd))
    (Some (b6b_socket_write fd)) (Some (on_heap (b6b_socket_inet_peer peer))) None
    (b6b_socket_fd fd) (Some (b6b_socket_close fd)).
Definition b6b_un_stream_client_ops (peer : sockaddr) (fd : Z) : b6b_strm_ops (M st) :=
  mkOps (Some (b6b_socket_peeksz fd)) (Some (b6b_socket_read fd)) (Some (b6b_socket_write fd))
    (Some (b6b_socket_file_peer peer)) None (b6b_socket_fd fd) (Some (b6b_socket_close fd)).
Definition b6b_un_dgram_client_ops (o : loc) (peer : sockaddr) (fd : Z) : b6b_strm_ops (M st) :=
  mkOps (Some (b6b_socket_peeksz fd)) (Some (b6b_socket_readfrom o fd))
    (Some (b6b_socket_write fd)) (Some (b6b_socket_file_peer peer)) None
    (b6b_socket_fd fd) (Some (b6b_socket_close fd)).
Definition b6b_tcp_server_ops (fd : Z) : b6b_strm_ops (M st) :=
  mkOps None None None None (Some (b6b_socket_inet_accept fd)) (b6b_socket_fd fd)
    (Some (b6b_socket_close fd)).
Definition b6b_udp_server_ops (o : loc) (peer : sockaddr) (fd : Z) : b6b_strm_ops (M st) :=
  mkOps (Some (b6b_socket_peeksz fd)) (Some (b6b_socket_readfrom o fd)) None
    (Some (on_heap (b6b_socket_inet_peer peer))) None (b6b_socket_fd fd)
    (Some (b6b_socket_close fd)).
Definition b6b_un_stream_server_ops (addr : sockaddr) (fd : Z) : b6b_strm_ops (M st) :=
  mkOps None None None None (Some (b6b_socket_un_accept fd)) (b6b_socket_fd fd)
    (Some (b6b_socket_close_unlink fd addr)).
Definition b6b_un_dgram_server_ops (o : loc) (peer addr : sockaddr) (fd : Z)
    : b6b_strm_ops (M st) :=
  mkOps (Some (b6b_socket_peeksz fd)) (Some (b6b_socket_readfrom o fd)) None
    (Some (b6b_socket_file_peer peer)) None (b6b_socket_fd fd)
    (Some (b6b_socket_close_unlink fd addr)).

(** The table a socket's stream has. *)
Definition socket_ops (o : loc) (k : b6b_strm_kind) (peer addr : sockaddr) (fd : Z)
    : b6b_strm_ops (M st) :=
  match k with
  | K_tcp_client => b6b_tcp_client_ops peer fd
  | K_udp_client => b6b_udp_client_ops o peer fd
  | K_un_stream_client => b6b_un_stream_client_ops peer fd
  | K_un_dgram_client => b6b_un_dgram_client_ops o peer fd
  | K_tcp_server => b6b_tcp_server_ops fd
  | K_udp_server => b6b_udp_server_ops o peer fd
  | K_un_stream_server => b6b_un_stream_server_ops addr fd
  | _ => b6b_un_dgram_server_ops o peer addr fd
  end.

(** ** Constructors *)

(** A socket that is being connected; nothing when it fails. *)
Definition b6b_socket_client_new (res : sockaddr) (socktype : Z) (k : b6b_strm_kind)
    (type : bytes) : M st (option loc) :=
  fd ← on_heap (sys_ret (C_socket (family res) socktype));
  match fd with
  | Sys_err e => b6b_return_strerror e;; mret None
  | Sys_ok fd =>
      let bail e := on_heap (sys_note [C_close fd]);; b6b_return_strerror e;; mret None in
      c ← on_heap (sys_call (C_connect fd res));
      if (a_ret c <? 0) && negb (a_errno c =? EINPROGRESS) then bail (a_errno c)
      else
        g ← on_heap (sys_call (C_getsockname fd));
        if a_ret g <? 0 then bail (a_errno g)
        else
          o ← on_heap (b6b_socket_new fd (default A_unspec (head (a_addrs g))) (Some res) type k);
          mret (Some o)
  end.

Definition b6b_server_socket_new (res : sockaddr) (socktype backlog : Z)
    (stream dgram : b6b_strm_kind) (type : bytes) : M st (option loc) :=
  if negb (socktype =? SOCK_DGRAM) && ((backlog <=? 0) || (INT_MAX <? backlog)) then mret None
  else
    let k := if socktype =? SOCK_DGRAM then dgram else stream in
    fd ← on_heap (sys_ret (C_socket (family res) socktype));
    match fd with
    | Sys_err e => b6b_return_strerror e;; mret None
    | Sys_ok fd =>
        let bail e := on_heap (sys_note [C_close fd]);; b6b_return_strerror e;; mret None in
        r ← on_heap (sys_ret (C_reuseaddr fd));
        match r with
        | Sys_err e => bail e
        | Sys_ok _ =>
            b ← on_heap (sys_ret (C_bind fd res));
            match b with
            | Sys_err e => bail e
            | Sys_ok _ =>
                l ← (if socktype =? SOCK_STREAM then on_heap (sys_ret (C_listen fd backlog))
                     else mret (Sys_ok 0));
                match l with
                | Sys_err e => bail e
                | Sys_ok _ => o ← on_heap (b6b_socket_new fd res None type k); mret (Some o)
                end
            end
        end
    end.

(** [sun_path] has 108 bytes, the last of which is a NUL. *)
Definition un_addr (path : bytes) : sockaddr := A_un (take 107 (c_str path)).

Definition return_opt (o : option loc) : M st b6b_res :=
  match o with None => mret B6B_ERR | Some o => b6b_return o end.

Definition b6b_socket_proc_un_client (args : loc) : M st b6b_res :=
  r ← get_args args "oss" [false; true; true];
  match r with
  | (0, _) => mret B6B_ERR
  | (_, [t; p]) =>
      t ← on_heap (text t);
      p ← on_heap (text p);
      if streq t "dgram" then
        o ← b6b_socket_client_new (un_addr p) SOCK_DGRAM K_un_dgram_client (c_str t);
        return_opt o
      else if streq t "stream" then
        o ← b6b_socket_client_new (un_addr p) SOCK_STREAM K_un_stream_client (c_str t);
        return_opt o
      else mret B6B_ERR
  | _ => ub
  end.

Definition b6b_socket_proc_un_server (args : loc) : M st b6b_res :=
  r ← get_args args "oss|i" [false; true; true; true];
  match r with
  | (argc, t :: p :: b) =>
      if argc <? 3 then mret B6B_ERR
      else
        t ← on_heap (text t);
        p ← on_heap (text p);
        b ← match b with b :: _ => x ← on_heap (read_obj b); mret (o_i x)
                       | [] => mret B6B_SERVER_DEF_BACKLOG end;
        let new socktype backlog :=
          o ← b6b_server_socket_new (un_addr p) socktype backlog
                K_un_stream_server K_un_dgram_server (c_str t);
          return_opt o in
        if (argc =? 3) && streq t "dgram" then new SOCK_DGRAM 0
        else if streq t "stream" then new SOCK_STREAM b
        else mret B6B_ERR
  | (argc, _) => if argc <? 3 then mret B6B_ERR else ub
  end.

Definition b6b_socket_proc_un_pair (args : loc) : M st b6b_res :=
  r ← get_args args "os" [false; true];
  match r with
  | (0, _) => mret B6B_ERR
  | (_, [t]) =>
      t ← on_heap (text t);
      let pair socktype k :=
        a ← on_heap (sys_call (C_socketpair socktype));
        if a_ret a <? 0 then b6b_return_strerror (a_errno a)
        else
          match a_nums a with
          | [fd0; fd1] =>
              a ← on_heap (b6b_socket_new fd0 A_unspec None (lit "un.client") k);
              b ← on_heap (b6b_socket_new fd1 A_unspec None (lit "un.client") k);
              l ← on_heap (b6b_list_build [a; b]);
              on_heap (miter b6b_unref [b; a]);;
              b6b_return l
          | _ => oof
          end in
      if streq t "dgram" then pair SOCK_DGRAM K_un_dgram_client
      else if streq t "stream" then pair SOCK_STREAM K_un_stream_client
      else mret B6B_ERR
  | _ => ub
  end.

(** ** Byte order, on a little-endian machine *)

Definition bswap_16 (u : Z) : Z :=
  Z.lor (Z.land (Z.shiftr u 8) 255) (Z.shiftl (Z.land u 255) 8).
Definition bswap_32 (u : Z) : Z :=
  Z.lor (Z.lor (Z.land (Z.shiftr u 24) 255) (Z.shiftl (Z.land (Z.shiftr u 16) 255) 8))
    (Z.lor (Z.shiftl (Z.land (Z.shiftr u 8) 255) 16) (Z.shiftl (Z.land u 255) 24)).

Definition bswap_proc (max : Z) (swap : Z → Z) (args : loc) : M st b6b_res :=
  r ← get_args args "oi" [false; true];
  match r with
  | (0, _) => mret B6B_ERR
  | (_, [n]) =>
      x ← on_heap (read_obj n);
      if (o_i x <? 0) || (max <? o_i x) then mret B6B_ERR else b6b_return_int (swap (o_i x))
  | _ => ub
  end.
Definition b6b_socket_proc_bswap16 := bswap_proc 65535 bswap_16.
Definition b6b_socket_proc_bswap32 := bswap_proc UINT_MAX bswap_32.

(** ** Resolving names *)

(** The bound of the waiting loops. *)
Variable n : nat.

(** The addresses of a name; nothing when there are none. The strings are
    copied before the other threads run. *)
Definition b6b_socket_resolve (host : loc) (service : option loc) (socktype : Z)
    : IM (option (list sockaddr)) :=
  h ← hp (text host);
  s ← match service with
      | None => mret None
      | Some s => s ← hp (text s); mret (Some (c_str s))
      end;
  let passive := match h with [] => true | _ => false end in
  r ← b6b_offload n (sys_call (C_getaddrinfo (if passive then None else Some (c_str h)) s
                                 socktype passive));
  match r with
  | (true, Some a) =>
      if a_ret a =? 0 then
        mret (match a_addrs a with [] => None | l => Some l end)
      else lift (b6b_return_str (c_str (gai_strerror (a_ret a))));; mret None
  | _ => mret None
  end.

Fixpoint nslookup_loop (l : loc) (res : list sockaddr) : HM bool :=
  match res with
  | [] => mret true
  | a :: res' =>
      o ← b6b_socket_stringify_address a;
      match o with
      | None => mret false
      | Some o => b6b_list_add l o;; b6b_unref o;; nslookup_loop l res'
      end
  end.

Definition b6b_socket_proc_nslookup (args : loc) : IM b6b_res :=
  r ← lift (get_args args "os" [false; true]);
  match r with
  | (0, _) => mret B6B_ERR
  | (_, [h]) =>
      l ← hp b6b_list_new;
      res ← b6b_socket_resolve h None SOCK_DGRAM;
      match res with
      | None => hp (b6b_destroy l);; mret B6B_ERR
      | Some res =>
          ok ← hp (nslookup_loop l res);
          if negb ok then hp (b6b_destroy l);; mret B6B_ERR else lift (b6b_return l)
      end
  | _ => lift ub
  end.

(** The type is read again after the other threads ran. *)
Definition b6b_socket_proc_inet_client (args : loc) : IM b6b_res :=
  r ← lift (get_args args "osss" [false; true; true; true]);
  match r with
  | (0, _) => mret B6B_ERR
  | (_, [t; h; s]) =>
      host ← hp (text h);
      match host with
      | [] => mret B6B_ERR
      | _ =>
          type ← hp (text t);
          let connect socktype k :=
            res ← b6b_socket_resolve h (Some s) socktype;
            match res with
            | Some (a :: _) =>
                type ← hp (text t);
                o ← lift (b6b_socket_client_new a socktype k (c_str type));
                lift (return_opt o)
            | _ => mret B6B_ERR
            end in
          if streq type "udp" then connect SOCK_DGRAM K_udp_client
          else if streq type "tcp" then connect SOCK_STREAM K_tcp_client
          else mret B6B_ERR
      end
  | _ => lift ub
  end.

Definition b6b_socket_proc_inet_server (args : loc) : IM b6b_res :=
  r ← lift (get_args args "osss|i" [false; true; true; true; true]);
  match r with
  | (argc, t :: h :: s :: b) =>
      if argc <? 4 then mret B6B_ERR
      else
        type ← hp (text t);
        b ← match b with b :: _ => x ← hp (read_obj b); mret (o_i x)
                       | [] => mret B6B_SERVER_DEF_BACKLOG end;
        let serve socktype backlog :=
          res ← b6b_socket_resolve h (Some s) socktype;
          match res with
          | Some (a :: _) =>
              type ← hp (text t);
              o ← lift (b6b_server_socket_new a socktype backlog K_tcp_server K_udp_server
                          (c_str type));
              lift (return_opt o)
          | _ => mret B6B_ERR
          end in
        if (argc =? 4) && streq type "udp" then serve SOCK_DGRAM B6B_SERVER_DEF_BACKLOG
        else if streq type "tcp" then serve SOCK_STREAM b
        else mret B6B_ERR
  | (argc, _) => if argc <? 4 then mret B6B_ERR else lift ub
  end.
End sockets.

(** ** Byte order *)

(** Bits that do not overlap add up. *)
Lemma lor_shift a c k : 0 ≤ k → 0 ≤ a < 2 ^ k → Z.lor a (Z.shiftl c k) = a + c * 2 ^ k.
Proof.
  intros Hk Ha. rewrite <- Z.add_nocarry_lor; [by rewrite Z.shiftl_mul_pow2 by lia|].
  apply Z.bits_inj'. intros i Hi. rewrite Z.land_spec, Z.bits_0, Z.shiftl_spec by lia.
  destruct (decide (i < k)).
  - rewrite (Z.testbit_neg_r c) by lia. apply andb_false_r.
  - destruct (decide (a = 0)) as [->|]; [by rewrite Z.bits_0|].
    rewrite Z.bits_above_log2; [done|lia|]. apply Z.log2_lt_pow2; [lia|].
    eapply Z.lt_le_trans; [apply Ha|]. apply Z.pow_le_mono_r; lia.
Qed.

Lemma byte_at u k : 0 ≤ k → Z.land (Z.shiftr u k) 255 = (u / 2 ^ k) mod 256.
Proof. intros Hk. rewrite Z.shiftr_div_pow2 by lia. apply (Z.land_ones _ 8). lia. Qed.

(** A number from its bytes, the lowest first. *)
Lemma le_bytes_cons k b r :
  0 ≤ b < 256 → le_bytes (S k) (b + r * 256) = to_byte b :: le_bytes k r.
Proof.
  intros Hb. cbn [le_bytes]. rewrite Z.div_add, Z.div_small by lia. f_equal.
  unfold to_byte. by rewrite Z.mod_add by lia.
Qed.

Lemma bswap_16_eq u : bswap_16 u = (u / 256) mod 256 + (u mod 256) * 256.
Proof.
  unfold bswap_16. rewrite byte_at by lia.
  rewrite lor_shift; [|lia|apply Z.mod_pos_bound; lia].
  by rewrite (Z.land_ones _ 8) by lia.
Qed.

Lemma bswap_32_eq u :
  bswap_32 u = (u / 256 / 256 / 256) mod 256 + ((u / 256 / 256) mod 256 +
    ((u / 256) mod 256 + (u mod 256) * 256) * 256) * 256.
Proof.
  unfold bswap_32. rewrite !byte_at by lia. rewrite (Z.land_ones _ 8) by lia.
  rewrite !Z.div_div by lia.
  pose proof (Z.mod_pos_bound (u / 2 ^ 24) 256 eq_refl).
  pose proof (Z.mod_pos_bound (u / 2 ^ 16) 256 eq_refl).
  pose proof (Z.mod_pos_bound (u / 2 ^ 8) 256 eq_refl).
  assert (∀ z w, Z.lor (Z.shiftl z 16) (Z.shiftl w 24) = Z.shiftl (Z.lor z (Z.shiftl w 8)) 16) as ->.
  { intros z w. by rewrite Z.shiftl_lor, Z.shiftl_shiftl by lia. }
  rewrite (lor_shift _ _ 8), (lor_shift _ _ 8) by lia. rewrite lor_shift by lia.
  change (256 * (256 * 256)) with (2 ^ 24). change (256 * 256) with (2 ^ 16).
  change (2 ^ 8) with 256. ring.
Qed.

(** The bytes of a number below [2^32]. *)
Lemma bytes_32 u :
  0 ≤ u < 2 ^ 32 → ∃ b0 b1 b2 b3,
    0 ≤ b0 < 256 ∧ 0 ≤ b1 < 256 ∧ 0 ≤ b2 < 256 ∧ 0 ≤ b3 < 256 ∧
    u = b0 + (b1 + (b2 + b3 * 256) * 256) * 256 ∧
    bswap_32 u = b3 + (b2 + (b1 + b0 * 256) * 256) * 256.
Proof.
  intros Hu.
  exists (u mod 256), ((u / 256) mod 256), ((u / 256 / 256) mod 256), ((u / 256 / 256 / 256) mod 256).
  split_and!; try (apply Z.mod_pos_bound; lia); try apply bswap_32_eq.
  rewrite (Z.mod_small (u / 256 / 256 / 256)).
  - pose proof (Z.div_mod u 256). pose proof (Z.div_mod (u / 256) 256).
    pose proof (Z.div_mod (u / 256 / 256) 256). lia.
  - rewrite !Z.div_div by lia. split; [apply Z.div_pos; lia|].
    apply Z.div_lt_upper_bound; lia.
Qed.

(** [htonl] and [ntohl] of a number below [2^32] are the number with its
    bytes in reverse order, and undo each other. *)
Theorem htonl_reverses u :
  0 ≤ u ≤ UINT_MAX →
  le_bytes 4 (bswap_32 u) = reverse (le_bytes 4 u) ∧ bswap_32 (bswap_32 u) = u ∧
  0 ≤ bswap_32 u ≤ UINT_MAX.
Proof.
  unfold UINT_MAX. intros Hu.
  destruct (bytes_32 u) as (b0 & b1 & b2 & b3 & H0 & H1 & H2 & H3 & Eu & Es); [lia|].
  assert (0 ≤ bswap_32 u < 2 ^ 32) as Hs by lia. split_and!; [| |lia..].
  - rewrite Es, Eu. by rewrite !le_bytes_cons by lia.
  - destruct (bytes_32 _ Hs) as (c0 & c1 & c2 & c3 & ? & ? & ? & ? & Ec & ->). lia.
Qed.

Lemma htonl_reverses_witness :
  bswap_32 16909060 = 67305985 ∧
  le_bytes 4 (bswap_32 16909060) = reverse (le_bytes 4 16909060) ∧
  bswap_32 (bswap_32 16909060) = 16909060 ∧ 0 ≤ bswap_32 16909060 ≤ UINT_MAX.
Proof. split; [reflexivity|]. apply (htonl_reverses 16909060). unfold UINT_MAX. lia. Defined.
