(* ===== verification/Streams.v ===== *)
(** * Stream objects

    The procedure of a stream object ([b6b_strm_proc] of src/b6b_strm.c), the
    operations of stdio streams (src/b6b_stdio.c), which block in the offload
    thread, and [open] (src/b6b_file.c). The operations of all kinds of streams
    come together in [ops_of]. *)
From Stdlib Require Import ZArith Lia Init.Byte Strings.Byte Strings.String.
From stdpp Require Import base option list numbers gmap.
From S2P Require Import Prelude Sys Float64 Hash Parse Heap Repr ListObj Dict Offload Interp.
From S2P Require Import Strm FdOps FdProcs Switch Sockets.
#[local] Open Scope Z_scope.

(** ** The structures behind a stream object *)

(** [(struct b6b_strm * )o->priv] *)
Definition get_strm (o : loc) : HM b6b_strm :=
  x ← read_obj o;
  match o_priv x with V_strm s => mret s | _ => ub end.

Definition set_strm (o : loc) (s : b6b_strm) : HM unit :=
  update_obj o (λ x, with_del (o_del x) (V_strm s) x).

(** [s->fp], for the [struct b6b_stdio_strm] of the stream [o]: it may have been
    freed while another thread ran. *)
Definition stdio_fp (o : loc) : HM Z :=
  s ← get_strm o;
  match strm_priv s with S_stdio fp _ => mret fp | _ => ub end.

(** The end of [b6b_strm_close]: [priv] was freed, if it is a pointer. *)
Definition strm_close_done (o : loc) : HM unit :=
  s ← get_strm o;
  set_strm o (mkStrm (strm_ops s)
    match strm_priv s with S_fd fd => S_fd fd | _ => S_freed end true true).

Definition strm_set_eof (o : loc) : HM unit :=
  s ← get_strm o;
  set_strm o (mkStrm (strm_ops s) (strm_priv s) (strm_closed s) true).

(** Operations that do not switch threads. *)
Definition lift_ops (ops : b6b_strm_ops (M st)) : b6b_strm_ops IM :=
  mkOps (lift <$> op_peeksz ops)
    ((λ f size eof again, lift (f size eof again)) <$> op_read ops)
    ((λ f buf, lift (f buf)) <$> op_write ops)
    (lift <$> op_peer ops) (lift <$> op_accept ops) (op_fd ops) (lift <$> op_close ops).

Definition SEEK_SET : Z := 0.
Definition SEEK_END : Z := 2.

Section streams.
Context `{Env}.
(** The bound of the loops. *)
Variable n : nat.

(** ** src/b6b_stdio.c *)

Definition b6b_stdio_do_fseeko (fp off whence : Z) : HM ans := sys_call (C_fseeko fp off whence).
Definition b6b_stdio_do_fread (fp len : Z) : HM ans := sys_call (C_fread fp len).
Definition b6b_stdio_do_fwrite (fp : Z) (buf : bytes) : HM ans := sys_call (C_fwrite fp buf).
Definition b6b_stdio_do_fclose (fp : Z) : HM unit := sys_note [C_fclose fp].

Section stdio.
(** The stream. *)
Variable o : loc.

(** Seeks in the offload thread; whether it did. *)
Definition stdio_seek (fp off whence : Z) : IM bool :=
  r ← b6b_offload n (b6b_stdio_do_fseeko fp off whence);
  match r with
  | (true, Some a) =>
      if a_ret a <? 0 then lift (b6b_return_strerror (a_errno a));; mret false else mret true
  | _ => mret false
  end.

Definition stdio_tell : HM (option Z) :=
  fp ← stdio_fp o;
  a ← sys_call (C_ftello fp);
  mret (if (a_ret a =? -1) || (SSIZE_MAX <? a_ret a) then None else Some (a_ret a)).

Definition b6b_stdio_peeksz : IM Z :=
  here ← hp stdio_tell;
  match here with
  | None => mret (-1)
  | Some here =>
      fp ← hp (stdio_fp o);
      ok ← stdio_seek fp 0 SEEK_END;
      if negb ok then mret (-1)
      else
        e ← hp stdio_tell;
        match e with
        | None => mret (-1)
        | Some e =>
            ok ← (if here <? e then stdio_seek fp here SEEK_SET else mret true);
            if negb ok then mret (-1)
            else mret (if 0 <? e - here then e - here else B6B_STRM_BUFSIZ)
        end
  end.

(** The bytes [fread] stored, and [*eof]; with an error after some bytes,
    [errno] is reported as 0. *)
Definition b6b_stdio_read (len eof again : Z) : IM (option bytes * Z * Z) :=
  fp ← hp (stdio_fp o);
  r ← b6b_offload n (b6b_stdio_do_fread fp len);
  match r with
  | (true, Some a) =>
      let data := take (Z.to_nat len) (a_out a) in
      let rerrno := match data with [] => a_errno a | _ => 0 end in
      if len <=? Z.of_nat (length data) then mret (Some data, eof, again)
      else
        fp ← hp (stdio_fp o);
        err ← hp (sys_call (C_ferror fp));
        if negb (a_ret err =? 0) then
          hp (sys_note [C_clearerr fp]);;
          lift (b6b_return_strerror rerrno);;
          mret (None, eof, again)
        else
          e ← hp (sys_call (C_feof fp));
          mret (Some data, if a_ret e =? 0 then eof else 1, again)
  | _ => mret (None, eof, again)
  end.

(** The loop of [b6b_stdio_write] on the copy of the text, from the position
    [total]; [fwrite] writes at most what it is given. *)
Fixpoint stdio_write_loop (k : nat) (fp : Z) (copy : bytes) (total : nat) : IM Z :=
  match k with
  | O => nofuel
  | S k' =>
      let rest := drop total copy in
      r ← b6b_offload n (b6b_stdio_do_fwrite fp rest);
      match r with
      | (true, Some a) =>
          let ret := Nat.min (Z.to_nat (a_ret a)) (length rest) in
          if decide (ret = O) then
            fp' ← hp (stdio_fp o);
            err ← hp (sys_call (C_ferror fp'));
            if negb (a_ret err =? 0) then
              hp (sys_note [C_clearerr fp']);;
              lift (b6b_return_strerror (a_errno a));;
              mret (-1)
            else mret (Z.of_nat total)
          else if decide (total + ret < length copy)%nat then
            stdio_write_loop k' fp copy (total + ret)
          else mret (Z.of_nat (total + ret))
      | _ => mret (-1)
      end
  end.

Definition b6b_stdio_write (buf : bytes) : IM Z :=
  fp ← hp (stdio_fp o);
  stdio_write_loop (S (length buf)) fp buf 0.

Definition b6b_stdio_fd (fd : Z) : Z := fd.

(** [s] is used once more, after [fclose]. *)
Definition b6b_stdio_close : IM unit :=
  fp ← hp (stdio_fp o);
  b6b_offload n (b6b_stdio_do_fclose fp);;
  hp (stdio_fp o);;
  mret tt.

(** The pipes of the standard streams are closed by [free]. *)
Definition b6b_stdio_ro_pipe_ops (fd : Z) : b6b_strm_ops IM :=
  mkOps None (Some b6b_stdio_read) None None None (b6b_stdio_fd fd) (Some (mret tt)).
Definition b6b_stdio_wo_pipe_ops (fd : Z) : b6b_strm_ops IM :=
  mkOps None None (Some b6b_stdio_write) None None (b6b_stdio_fd fd) (Some (mret tt)).

(** src/b6b_file.c *)
Definition b6b_ro_file_ops (fd : Z) : b6b_strm_ops IM :=
  mkOps (Some b6b_stdio_peeksz) (Some b6b_stdio_read) None None None (b6b_stdio_fd fd)
    (Some b6b_stdio_close).
Definition b6b_wo_file_ops (fd : Z) : b6b_strm_ops IM :=
  mkOps None None (Some b6b_stdio_write) None None (b6b_stdio_fd fd) (Some b6b_stdio_close).
Definition b6b_rw_file_ops (fd : Z) : b6b_strm_ops IM :=
  mkOps (Some b6b_stdio_peeksz) (Some b6b_stdio_read) (Some b6b_stdio_write) None None
    (b6b_stdio_fd fd) (Some b6b_stdio_close).
End stdio.

(** ** The tables of operations *)

(** src/b6b_sh.c *)
Definition b6b_sh_close (pid : loc) (fd : Z) : M st unit :=
  on_heap (sys_note [C_close fd]);; on_heap (b6b_unref pid).
Definition b6b_sh_peeksz (fd : Z) : M st Z := b6b_fd_peeksz fd.
Definition b6b_sh_read (fd size eof again : Z) : M st (option bytes * Z * Z) :=
  b6b_fd_read fd size eof again.
Definition b6b_sh_write (fd : Z) (buf : bytes) : M st Z := b6b_fd_write fd buf.
Definition b6b_sh_fd (fd : Z) : Z := fd.
Definition b6b_sh_in_ops (pid : loc) (fd : Z) : b6b_strm_ops (M st) :=
  mkOps None None (Some (b6b_sh_write fd)) None None (b6b_sh_fd fd) (Some (b6b_sh_close pid fd)).
Definition b6b_sh_out_ops (pid : loc) (fd : Z) : b6b_strm_ops (M st) :=
  mkOps (Some (b6b_sh_peeksz fd)) (Some (b6b_sh_read fd)) None None None (b6b_sh_fd fd)
    (Some (b6b_sh_close pid fd)).

(** The tables with an operation [peer]. *)
Definition has_peer (k : b6b_strm_kind) : bool :=
  match k with
  | K_tcp_client | K_udp_client | K_un_stream_client | K_un_dgram_client
  | K_udp_server | K_un_dgram_server => true
  | _ => false
  end.

(** The operations of the stream [o]. Of a stream whose structure is gone only
    [peer] is ever called, which reads it. *)
Definition ops_of (o : loc) (s : b6b_strm) : IM (b6b_strm_ops IM) :=
  match strm_ops s, strm_priv s with
  | k, S_freed =>
      mret (mkOps None None None (if has_peer k then Some m_ub else None) None 0 None)
  | K_ro_pipe, S_stdio _ fd => mret (b6b_stdio_ro_pipe_ops o fd)
  | K_wo_pipe, S_stdio _ fd => mret (b6b_stdio_wo_pipe_ops o fd)
  | K_ro_file, S_stdio _ fd => mret (b6b_ro_file_ops o fd)
  | K_wo_file, S_stdio _ fd => mret (b6b_wo_file_ops o fd)
  | K_rw_file, S_stdio _ fd => mret (b6b_rw_file_ops o fd)
  | K_sh_in, S_sh pid fd => mret (lift_ops (b6b_sh_in_ops pid fd))
  | K_sh_out, S_sh pid fd => mret (lift_ops (b6b_sh_out_ops pid fd))
  | K_sem, S_fd fd => mret (lift_ops (b6b_sem_ops fd))
  | K_timer, S_fd fd => mret (lift_ops (b6b_timer_ops fd))
  | K_signal, S_signal fd set => mret (lift_ops (b6b_signal_ops fd set))
  | (K_tcp_client | K_udp_client | K_un_stream_client | K_un_dgram_client
     | K_tcp_server | K_udp_server | K_un_stream_server | K_un_dgram_server) as k,
    S_socket peer addr fd => mret (lift_ops (socket_ops o k peer addr fd))
  | _, _ => m_ub
  end.

(** ** src/b6b_strm.c *)

Definition b6b_strm_close (o : loc) : IM unit :=
  s ← hp (get_strm o);
  if strm_closed s then mret tt
  else
    ops ← ops_of o s;
    match op_close ops with Some close => close | None => mret tt end;;
    hp (strm_close_done o).

(** [b6b_strm_accept], after the check of the flags. *)
Fixpoint accept_loop (accept : IM (option (option loc))) (k : nat) (l : loc) : IM b6b_res :=
  match k with
  | O => nofuel
  | S k' =>
      r ← accept;
      match r with
      | None => hp (b6b_destroy l);; mret B6B_ERR
      | Some None => lift (b6b_return l)
      | Some (Some o) =>
          hp (b6b_list_add l o);;
          hp (b6b_unref o);;
          accept_loop accept k' l
      end
  end.

Definition b6b_strm_accept (o : loc) : IM b6b_res :=
  s ← hp (get_strm o);
  ops ← ops_of o s;
  match strm_closed s, op_accept ops with
  | true, _ | _, None => mret B6B_ERR
  | false, Some accept => l ← hp b6b_list_new; accept_loop accept n l
  end.

(** The flags are not looked at. *)
Definition b6b_strm_peer (o : loc) : IM b6b_res :=
  s ← hp (get_strm o);
  ops ← ops_of o s;
  match op_peer ops with
  | None => mret B6B_ERR
  | Some peer => r ← peer; lift (return_opt r)
  end.

Definition b6b_strm_fd (o : loc) : IM b6b_res :=
  s ← hp (get_strm o);
  if strm_closed s then mret B6B_ERR
  else
    ops ← ops_of o s;
    fdo ← hp (b6b_int_new (op_fd ops));
    hp (b6b_ref o);;
    hp (update_obj fdo (with_del D_unref (V_obj o)));;
    lift (b6b_return fdo).

(** Returns what a procedure of Strm.v gives. *)
Definition return_answer (a : answer) : M st b6b_res :=
  match a with
  | R_ok => mret B6B_OK
  | R_err => mret B6B_ERR
  | R_str s => o ← on_heap (b6b_str_new s); b6b_return o
  | R_int i => b6b_return_int i
  end.

Definition strm_read (o : loc) (want : Z) : IM b6b_res :=
  s ← hp (get_strm o);
  ops ← ops_of o s;
  '(a, eof) ← b6b_strm_read ops n (strm_closed s) (strm_eof s) want;
  (if eof : bool then hp (strm_set_eof o) else mret tt);;
  lift (return_answer a).

Definition strm_write (write : b6b_strm_ops IM → bool → bytes → IM answer) (o arg : loc)
    : IM b6b_res :=
  ok ← hp (b6b_as_str arg);
  if negb ok then mret B6B_ERR
  else
    s ← hp (get_strm o);
    ops ← ops_of o s;
    buf ← hp (text arg);
    a ← write ops (strm_closed s) buf;
    lift (return_answer a).

Definition b6b_strm_proc (args : loc) : IM b6b_res :=
  r ← lift (get_args args "os|o" [true; true; true]);
  match r with
  | (0, _) => mret B6B_ERR
  | (_, o :: op :: arg) =>
      s ← hp (text op);
      let bad := lift (b6b_return_fmt (lit "bad strm op: " ++ c_str s));; mret B6B_ERR in
      match arg with
      | [] =>
          if streq s "read" then strm_read o (SSIZE_MAX - 1)
          else if streq s "accept" then b6b_strm_accept o
          else if streq s "peer" then b6b_strm_peer o
          else if streq s "fd" then b6b_strm_fd o
          else if streq s "close" then b6b_strm_close o;; mret B6B_OK
          else bad
      | arg :: _ =>
          if streq s "read" then
            ok ← hp (b6b_as_int arg);
            if negb ok then mret B6B_ERR
            else
              x ← hp (read_obj arg);
              if (SSIZE_MAX <=? o_i x) || (o_i x <=? 0) then mret B6B_ERR
              else strm_read o (o_i x)
          else if streq s "write" then strm_write b6b_strm_write o arg
          else if streq s "writeln" then strm_write b6b_strm_writeln o arg
          else bad
      end
  | _ => lift ub
  end.

(** *** The standard streams *)

(** The [FILE] of a standard stream is known by its descriptor. *)
Definition b6b_stdio_wrap (name : bytes) (fd : Z) (k : b6b_strm_kind) : M st bool :=
  o ← on_heap (b6b_strm_copy k (S_stdio fd fd) name);
  ok ← b6b_global o o;
  if negb ok then on_heap (b6b_destroy o);; mret false
  else
    s ← get;
    (if opt_nbf (opts (s_in s)) then on_heap (sys_note [C_setbuf fd]) else mret tt);;
    on_heap (b6b_unref o);;
    mret true.

Definition b6b_stdio_init : M st bool :=
  a ← b6b_stdio_wrap (lit "stdin") 0 K_ro_pipe;
  if negb a then mret false
  else
    b ← b6b_stdio_wrap (lit "stdout") 1 K_wo_pipe;
    if negb b then mret false else b6b_stdio_wrap (lit "stderr") 2 K_wo_pipe.

(** ** src/b6b_file.c *)

Definition IOFBF : Z := 0.
Definition IOLBF : Z := 1.
Definition IONBF : Z := 2.
Definition EINVAL : Z := 22.

Record b6b_file_mode : Set := mkMode {
  fm_mode : string;
  fm_fmode : string;
  fm_ops : b6b_strm_kind;
  fm_bmode : Z
}.

#[local] Open Scope string_scope.
Definition b6b_file_modes : list b6b_file_mode := [
  mkMode "r" "r" K_ro_file IOLBF;
  mkMode "w" "w" K_wo_file IOLBF;
  mkMode "a" "a" K_wo_file IOLBF;
  mkMode "rb" "r" K_ro_file IOFBF;
  mkMode "wb" "w" K_wo_file IOFBF;
  mkMode "ab" "a" K_wo_file IOFBF;
  mkMode "ru" "r" K_ro_file IONBF;
  mkMode "wu" "w" K_wo_file IONBF;
  mkMode "au" "a" K_wo_file IONBF;
  mkMode "r+" "r+" K_rw_file IOLBF;
  mkMode "w+" "w+" K_rw_file IOLBF;
  mkMode "a+" "a+" K_rw_file IOLBF;
  mkMode "r+b" "r+" K_rw_file IOFBF;
  mkMode "w+b" "w+" K_rw_file IOFBF;
  mkMode "a+b" "a+" K_rw_file IOFBF;
  mkMode "r+u" "r+" K_rw_file IONBF;
  mkMode "w+u" "w+" K_rw_file IONBF;
  mkMode "a+u" "a+" K_rw_file IONBF].
Definition b6b_file_def_mode : b6b_file_mode := mkMode "r" "r" K_ro_file IOLBF.
#[local] Close Scope string_scope.

(** The row of the table for a mode. *)
Definition find_mode (mode : bytes) : option b6b_file_mode :=
  snd <$> list_find (λ m, streq mode (fm_mode m) = true) b6b_file_modes.

(** Nothing when the buffer cannot be set. *)
Definition b6b_file_new (fp fd bmode : Z) (k : b6b_strm_kind) : HM (option loc) :=
  p ← sys_address;
  o ← b6b_strm_fmt k (S_stdio fp fd) (lit "file") p;
  if bmode =? IONBF then sys_note [C_setbuf fp];; mret (Some o)
  else
    a ← sys_call (C_setvbuf fp bmode);
    if negb (a_ret a =? 0) then b6b_destroy o;; mret None
    else mret (Some o).

Definition b6b_file_do_fopen (path fmode : bytes) : HM ans := sys_call (C_fopen path fmode).

(** [b6b_file_proc_open], once the mode is known. *)
Definition open_file (path : loc) (mode : b6b_file_mode) : IM b6b_res :=
  p ← hp (text path);
  r ← b6b_offload n (b6b_file_do_fopen (c_str p) (lit (fm_fmode mode)));
  match r with
  | (false, Some a) =>
      (if a_ret a =? 0 then mret tt
       else b6b_offload n (b6b_stdio_do_fclose (a_ret a));; mret tt);;
      mret B6B_ERR
  | (true, Some a) =>
      if a_ret a =? 0 then lift (b6b_return_strerror (a_errno a))
      else
        let fp := a_ret a in
        f ← hp (sys_call (C_fileno fp));
        c ← hp (sys_call (C_cloexec (a_ret f)));
        if a_ret c <? 0 then
          b6b_offload n (b6b_stdio_do_fclose fp);;
          lift (b6b_return_strerror (a_errno c))
        else
          o ← hp (b6b_file_new fp (a_ret f) (fm_bmode mode) (fm_ops mode));
          match o with
          | None => b6b_offload n (b6b_stdio_do_fclose fp);; mret B6B_ERR
          | Some o => lift (b6b_return o)
          end
  | (_, None) => mret B6B_ERR
  end.

Definition b6b_file_proc_open (args : loc) : IM b6b_res :=
  r ← lift (get_args args "os|s" [false; true; true]);
  match r with
  | (0, _) => mret B6B_ERR
  | (_, [path]) => open_file path b6b_file_def_mode
  | (_, [path; mode]) =>
      m ← hp (text mode);
      match find_mode m with
      | None => lift (b6b_return_strerror EINVAL)
      | Some mode => open_file path mode
      end
  | _ => lift ub
  end.
End streams.

(** ** The table of modes *)

(** The row for a base, with or without a plus sign, and a kind of buffer. *)
Definition file_mode (base : string) (plus : bool) (buffer : string * Z) : b6b_file_mode :=
  let fmode := (base ++ if plus then "+" else "")%string in
  mkMode (fmode ++ fst buffer) fmode
    (if plus then K_rw_file else if String.eqb base "r" then K_ro_file else K_wo_file)
    (snd buffer).
Definition mode_bases : list string := ["r"; "w"; "a"]%string.
Definition mode_buffers : list (string * Z) := [("", IOLBF); ("b", IOFBF); ("u", IONBF)]%string.

Definition mode_row (m : b6b_file_mode) : Prop :=
  ∃ base plus buffer, base ∈ mode_bases ∧ buffer ∈ mode_buffers ∧ m = file_mode base plus buffer.

Ltac pick_row base plus buffer :=
  exists base, plus, buffer; split_and!;
    [by apply (bool_decide_unpack _); vm_compute|by apply (bool_decide_unpack _); vm_compute
    |reflexivity].

Lemma modes_rows : Forall mode_row b6b_file_modes.
Proof.
  repeat (apply Forall_cons_2; [|]); [..|apply Forall_nil_2];
    first
    [ pick_row "r"%string false ("", IOLBF)%string | pick_row "w"%string false ("", IOLBF)%string
    | pick_row "a"%string false ("", IOLBF)%string | pick_row "r"%string false ("b", IOFBF)%string
    | pick_row "w"%string false ("b", IOFBF)%string | pick_row "a"%string false ("b", IOFBF)%string
    | pick_row "r"%string false ("u", IONBF)%string | pick_row "w"%string false ("u", IONBF)%string
    | pick_row "a"%string false ("u", IONBF)%string | pick_row "r"%string true ("", IOLBF)%string
    | pick_row "w"%string true ("", IOLBF)%string | pick_row "a"%string true ("", IOLBF)%string
    | pick_row "r"%string true ("b", IOFBF)%string | pick_row "w"%string true ("b", IOFBF)%string
    | pick_row "a"%string true ("b", IOFBF)%string | pick_row "r"%string true ("u", IONBF)%string
    | pick_row "w"%string true ("u", IONBF)%string | pick_row "a"%string true ("u", IONBF)%string ].
Qed.

(** The table of [open] has exactly the modes made of [r], [w] or [a], an
    optional [+] and an optional [b] or [u]: [+] selects the operations that
    read and write, otherwise [r] those that read, [w] and [a] those that
    write; the last letter selects the buffer and is not passed to [fopen]. *)
Theorem find_mode_correct s m :
  find_mode s = Some m ↔ mode_row m ∧ c_str s = lit (fm_mode m).
Proof.
  split.
  - unfold find_mode. intros ([i m'] & Hm & [= ->])%fmap_Some.
    apply list_find_Some in Hm as (Hi & Hs & _). split.
    + exact (proj1 (Forall_lookup _ _) modes_rows i m' Hi).
    + by apply bool_decide_eq_true_1 in Hs.
  - intros [(base & plus & buffer & Hb & Hu & ->) Hc].
    change (find_mode s) with ((λ c, snd <$> list_find
      (λ m, bool_decide (c = lit (fm_mode m)) = true) b6b_file_modes) (c_str s)).
    rewrite Hc. clear Hc. unfold mode_bases, mode_buffers in *.
    rewrite !elem_of_cons, elem_of_nil in Hb. rewrite !elem_of_cons, elem_of_nil in Hu.
    destruct Hb as [->|[->|[->|[]]]], Hu as [->|[->|[->|[]]]], plus; vm_compute; reflexivity.
Qed.
