(* ===== verification/SysProcs.v ===== *)
(** * System calls that block

    src/b6b_syscall.c, which makes a system call in the offload thread, and its
    users: [sleep] of src/b6b_time.c and the object of src/b6b_poll.c. *)
From Stdlib Require Import ZArith Lia Init.Byte Strings.Byte Strings.String.
From Stdlib Require Import Floats.SpecFloat.
From stdpp Require Import base option list numbers gmap.
From S2P Require Import Prelude Sys Float64 Hash Parse Heap Repr ListObj Dict Offload Interp.
From S2P Require Import Strm FdOps FdProcs Switch.
#[local] Open Scope Z_scope.

Definition EINTR : Z := 4.
Definition ENOENT : Z := 2.
Definition EEXIST : Z := 17.
Definition EPOLLIN : Z := 1.
Definition EPOLLOUT : Z := 4.
Definition EPOLLERR : Z := 8.
Definition EPOLLHUP : Z := 16.
Definition EPOLLRDHUP : Z := 8192.

Section sysprocs.
Context `{Env}.
(** The bound of the loops. *)
Variable n : nat.

Definition b6b_do_syscall (c : call) : HM ans := sys_call c.

(** [b6b_syscall]: the result and [errno] of the call; nothing when it was not
    made. *)
Definition b6b_syscall (c : call) : IM (option ans) :=
  '(ok, a) ← b6b_offload n (b6b_do_syscall c);
  mret (if ok : bool then a else None).

(** ** src/b6b_time.c *)

(** The loop of [sleep]: a signal leaves the time that remains. *)
Fixpoint sleep_loop (k : nat) (sec nsec : Z) : IM b6b_res :=
  match k with
  | O => nofuel
  | S k' =>
      r ← b6b_syscall (C_nanosleep sec nsec);
      match r with
      | None => mret B6B_ERR
      | Some a =>
          if a_ret a =? 0 then mret B6B_OK
          else if negb (a_errno a =? EINTR) then lift (b6b_return_strerror (a_errno a))
          else match a_nums a with
               | [sec; nsec] => sleep_loop k' sec nsec
               | _ => nofuel
               end
      end
  end.

Definition b6b_time_proc_sleep (args : loc) : IM b6b_res :=
  r ← lift (get_args args "of" [false; true]);
  match r with
  | (0, _) => mret B6B_ERR
  | (_, [f]) =>
      x ← hp (read_obj f);
      if SFltb (o_f x) f_zero || SFltb (f_of_Z UINT_MAX) (o_f x) then mret B6B_ERR
      else if SFeqb (o_f x) f_zero then mret B6B_OK
      else
        '(sec, nsec) ← lift (deref (to_timespec (o_f x)));
        sleep_loop n sec nsec
  | _ => lift ub
  end.

(** ** The object of [poll] *)

(** [(int)(intptr_t)p->priv] *)
Definition poll_fd (p : loc) : HM Z :=
  x ← read_obj p;
  match o_priv x with V_num fd => mret fd | _ => ub end.

(** The new lists of [wait], added to [l]. *)
Fixpoint new_lists (k : nat) (l : loc) : HM (list loc) :=
  match k with
  | O => mret []
  | S k' =>
      o ← b6b_list_new;
      b6b_list_add l o;;
      b6b_unref o;;
      os ← new_lists k' l;
      mret (o :: os)
  end.

(** Adds [o] to the list, if [c]. *)
Definition add_if (c : bool) (l o : loc) : HM unit :=
  if c then b6b_list_add l o;; mret tt else mret tt.

(** The array of events, as pairs of [data.fd] and [events]. *)
Fixpoint pairs (l : list Z) : list (Z * Z) :=
  match l with
  | a :: b :: l' => (a, b) :: pairs l'
  | _ => []
  end.

(** The loop over the events, of which [ret] are there and at most [k] are
    looked at; [j] were added. *)
Fixpoint event_loop (rs ws es : loc) (evs : list (Z * Z)) (j i ret k : Z) : HM unit :=
  if (j <? ret) && (i <? k) then
    match evs with
    | [] => ub
    | (fd, ev) :: evs' =>
        let r := negb (Z.land ev EPOLLIN =? 0) in
        let w := negb (Z.land ev EPOLLOUT =? 0) in
        let e := negb (Z.land ev (Z.lor EPOLLERR (Z.lor EPOLLHUP EPOLLRDHUP)) =? 0) in
        if (ev =? 0) || negb (r || w || e) then event_loop rs ws es evs' j (i + 1) ret k
        else
          o ← b6b_int_new fd;
          add_if r rs o;;
          add_if w ws o;;
          add_if e es o;;
          b6b_unref o;;
          event_loop rs ws es evs' (j + 1) (i + 1) ret k
    end
  else mret tt.

(** [wait]: [n] is read again after the other threads ran. *)
Definition poll_wait (p num t : loc) : IM b6b_res :=
  xn ← hp (read_obj num);
  xt ← hp (read_obj t);
  if (o_i xn <=? 0) || (o_i xt <? INT_MIN) || (INT_MAX <? o_i xt) then mret B6B_ERR
  else
    l ← hp b6b_list_new;
    fds ← hp (new_lists 3 l);
    hp (b6b_ref p);;
    ep ← hp (poll_fd p);
    r ← b6b_syscall (C_epoll_wait ep (o_i xn) (o_i xt));
    hp (b6b_unref p);;
    match r, fds with
    | None, _ => hp (b6b_destroy l);; mret B6B_ERR
    | Some a, [rs; ws; es] =>
        if a_ret a <? 0 then
          hp (b6b_destroy l);; lift (b6b_return_strerror (a_errno a))
        else
          xn ← hp (read_obj num);
          hp (event_loop rs ws es (pairs (a_nums a)) 0 0 (a_ret a) (o_i xn));;
          lift (b6b_return l)
    | _, _ => lift ub
    end.

(** [epoll_ctl], for which the error [ok] is not one. *)
Definition poll_ctl (c : call) (ok : Z) : M st b6b_res :=
  a ← on_heap (sys_call c);
  if (a_ret a <? 0) && negb (a_errno a =? ok) then b6b_return_strerror (a_errno a)
  else mret B6B_OK.

Definition b6b_poll_proc (args : loc) : IM b6b_res :=
  r ← lift (get_args args "osi|i" [true; true; true; true]);
  match r with
  | (0, _) => mret B6B_ERR
  | (_, p :: op :: num :: t) =>
      xn ← hp (read_obj num);
      if INT_MAX <? o_i xn then mret B6B_ERR
      else
        s ← hp (text op);
        match t with
        | [] =>
            if streq s "remove" then
              if o_i xn <? 0 then mret B6B_ERR
              else ep ← hp (poll_fd p); lift (poll_ctl (C_epoll_del ep (o_i xn)) ENOENT)
            else mret B6B_ERR
        | t :: _ =>
            if streq s "add" then
              if o_i xn <? 0 then mret B6B_ERR
              else
                xt ← hp (read_obj t);
                ep ← hp (poll_fd p);
                lift (poll_ctl (C_epoll_add ep (o_i xn)
                        (Z.land (o_i xt) (Z.lor EPOLLIN EPOLLOUT))) EEXIST)
            else if streq s "wait" then poll_wait p num t
            else mret B6B_ERR
        end
  | _ => lift ub
  end.
End sysprocs.
