(* ===== verification/Ffi.v ===== *)
(** * Foreign functions

    src/b6b_ffi.c, for a little-endian machine with 32-bit [int] and 64-bit
    [long] and pointers, whose [char] is signed: values of C types and their
    bytes, [ffi.pack] and [ffi.unpack], buffers, libraries and functions. On
    such a machine [ffi_type_sint64] is [ffi_type_slong] and [ffi_type_uint64]
    is [ffi_type_ulong], and all types are aligned to their size. *)
From Stdlib Require Import ZArith Lia Init.Byte Strings.Byte Strings.String.
From Stdlib Require Import Floats.SpecFloat.
From stdpp Require Import base option list numbers gmap.
From S2P Require Import Prelude Sys Float64 Hash Parse Heap Repr ListObj Dict Offload Interp.
From S2P Require Import Strm FdOps FdProcs.
#[local] Open Scope Z_scope.

Definition B6B_FFI_MAX_STRUCT_SZ : Z := 4096.

(** ** Types *)

Inductive ffi_type : Set :=
| ffi_type_sint | ffi_type_uint | ffi_type_slong | ffi_type_ulong | ffi_type_pointer
| ffi_type_schar | ffi_type_uchar | ffi_type_sshort | ffi_type_ushort
| ffi_type_float | ffi_type_double.

Definition b6b_ffi_types : list (byte * ffi_type) := [
  ("i"%byte, ffi_type_sint);
  ("I"%byte, ffi_type_uint);
  ("l"%byte, ffi_type_slong);
  ("L"%byte, ffi_type_ulong);
  ("p"%byte, ffi_type_pointer);
  ("b"%byte, ffi_type_schar);
  ("B"%byte, ffi_type_uchar);
  ("h"%byte, ffi_type_sshort);
  ("H"%byte, ffi_type_ushort);
  ("q"%byte, ffi_type_slong);
  ("Q"%byte, ffi_type_ulong);
  ("f"%byte, ffi_type_float);
  ("d"%byte, ffi_type_double)].

Definition b6b_ffi_type (name : byte) : option ffi_type :=
  '(_, (_, t)) ← list_find (λ x, fst x = name) b6b_ffi_types; Some t.

(** [type->size], which is [type->alignment] too *)
Definition ffi_size (t : ffi_type) : nat :=
  match t with
  | ffi_type_schar | ffi_type_uchar => 1
  | ffi_type_sshort | ffi_type_ushort => 2
  | ffi_type_sint | ffi_type_uint | ffi_type_float => 4
  | ffi_type_slong | ffi_type_ulong | ffi_type_pointer | ffi_type_double => 8
  end.

(** ** The bits of floating-point numbers *)

Section bits.
Variables prec emax : Z.

Definition sign_bit : Z := 2 ^ (prec - 1) * (2 * emax).

(** The only NaN has the quiet bit and no other. *)
Definition f_bits (f : spec_float) : Z :=
  match f with
  | S754_zero s => if s then sign_bit else 0
  | S754_infinity s => (if s then sign_bit else 0) + (2 * emax - 1) * 2 ^ (prec - 1)
  | S754_nan => (2 * emax - 1) * 2 ^ (prec - 1) + 2 ^ (prec - 2)
  | S754_finite s m e =>
      (if s then sign_bit else 0) +
      if Z.pos m <? 2 ^ (prec - 1) then Z.pos m
      else (e - emin prec emax + 1) * 2 ^ (prec - 1) + (Z.pos m - 2 ^ (prec - 1))
  end.

Definition f_of_bits (z : Z) : spec_float :=
  let s := sign_bit <=? z in
  let e := z mod sign_bit / 2 ^ (prec - 1) in
  let m := z mod 2 ^ (prec - 1) in
  if e =? 0 then
    match m with Z.pos p => S754_finite s p (emin prec emax) | _ => S754_zero s end
  else if e =? 2 * emax - 1 then if m =? 0 then S754_infinity s else S754_nan
  else
    match m + 2 ^ (prec - 1) with
    | Z.pos p => S754_finite s p (e - 1 + emin prec emax)
    | _ => S754_nan
    end.
End bits.

(** [(float)f], and back. *)
Definition f_to_float (f : b6b_float) : spec_float :=
  match f with
  | S754_finite s m e => binary_normalize 24 128 (signed s (Z.pos m)) e s
  | _ => f
  end.
Definition f_of_float (f : spec_float) : b6b_float :=
  match f with
  | S754_finite s m e => f_make (signed s (Z.pos m)) e s
  | _ => f
  end.

(** ** Values *)

Inductive ffi_val : Set :=
| FV_int (i : Z)
| FV_float (f : b6b_float).

(** The integers a type takes; nothing for the others. Every object has a
    number below [LONG_MAX], so that the bounds of [long] and of pointers do
    not matter. *)
Definition ffi_range (t : ffi_type) : option (Z * Z) :=
  match t with
  | ffi_type_sint => Some (INT_MIN, INT_MAX)
  | ffi_type_uint => Some (0, UINT_MAX)
  | ffi_type_slong | ffi_type_pointer => Some (B6B_INT_MIN, B6B_INT_MAX)
  | ffi_type_ulong => Some (0, 2 ^ 64 - 1)
  | ffi_type_schar => Some (-128, 127)
  | ffi_type_uchar => Some (0, 255)
  | ffi_type_sshort => Some (-32768, 32767)
  | ffi_type_ushort => Some (0, 65535)
  | ffi_type_float | ffi_type_double => None
  end.

Definition in_range (r : Z * Z) (i : Z) : bool := (fst r <=? i) && (i <=? snd r).

(** The low bytes of a number, read as a signed or an unsigned one. *)
Definition signed_of (k : nat) (u : Z) : Z :=
  if u <? 2 ^ (8 * Z.of_nat k - 1) then u else u - 2 ^ (8 * Z.of_nat k).

(** What [memcpy] from [val] reads, converted to a number of an object. *)
Definition ffi_value (t : ffi_type) (val : bytes) : ffi_val :=
  let u := le_value (take (ffi_size t) val) in
  match t with
  | ffi_type_sint | ffi_type_slong | ffi_type_schar | ffi_type_sshort =>
      FV_int (signed_of (ffi_size t) u)
  | ffi_type_ulong | ffi_type_pointer => FV_int (s64 u)
  | ffi_type_uint | ffi_type_uchar | ffi_type_ushort => FV_int u
  | ffi_type_float => FV_float (f_of_float (f_of_bits 24 128 u))
  | ffi_type_double => FV_float (f_of_bits f_prec f_emax u)
  end.

(** [b6b_ffi_decode(val, len, type)] *)
Definition b6b_ffi_decode (val : bytes) (t : ffi_type) : HM (option loc) :=
  if (Z.of_nat (length val) <? Z.of_nat (ffi_size t)) then mret None
  else
    o ← match ffi_value t val with
        | FV_int i => b6b_int_new i
        | FV_float f => b6b_float_new f
        end;
    mret (Some o).

(** [b6b_ffi_encode]: the bytes that [*p] points to. *)
Definition b6b_ffi_encode (o : loc) (t : ffi_type) : HM (option bytes) :=
  match ffi_range t with
  | Some r =>
      ok ← b6b_as_int o;
      if negb ok then mret None
      else
        x ← read_obj o;
        if in_range r (o_i x) then mret (Some (le_bytes (ffi_size t) (o_i x))) else mret None
  | None =>
      ok ← b6b_as_float o;
      if negb ok then mret None
      else
        x ← read_obj o;
        mret (Some (le_bytes (ffi_size t)
          match t with
          | ffi_type_float => f_bits 24 128 (f_to_float (o_f x))
          | _ => f_bits f_prec f_emax (o_f x)
          end))
  end.

(** ** Structures *)

(** The padding before a value of type [t]: what [ffi.pack] fills with zeros at
    [len], and what [ffi.unpack] skips at [off]. *)
Definition ffi_pad (packed : bool) (len : nat) (t : ffi_type) : nat :=
  if packed then 0%nat
  else
    let pad := (len mod ffi_size t)%nat in
    if decide (pad = O) then 0%nat else (ffi_size t - pad)%nat.

Definition ffi_skip (packed : bool) (off : nat) (t : ffi_type) : nat :=
  if packed then 0%nat
  else
    let pad := (off mod ffi_size t)%nat in
    if decide (pad = O) then 0%nat else (ffi_size t - pad)%nat.

(** The loop of [ffi.pack], from the node [vli] of the arguments. *)
Fixpoint pack_loop (packed : bool) (fmt : bytes) (args : loc) (vli : option N) (buf : bytes)
    : HM (option bytes) :=
  match fmt with
  | [] => mret (Some buf)
  | c :: fmt' =>
      match vli, b6b_ffi_type c with
      | Some li, Some t =>
          o ← item_obj args li;
          v ← b6b_ffi_encode o t;
          match v with
          | None => mret None
          | Some p =>
              let pad := ffi_pad packed (length buf) t in
              if B6B_FFI_MAX_STRUCT_SZ <? Z.of_nat (length buf + pad) then mret None
              else if B6B_FFI_MAX_STRUCT_SZ <? Z.of_nat (length buf + pad + ffi_size t) then mret None
              else
                nx ← b6b_list_next args li;
                pack_loop packed fmt' args nx (buf ++ replicate pad x00 ++ p)
          end
      | _, _ => mret None
      end
  end.

(** The loop of [ffi.unpack], at the offset [off] of [s]. *)
Fixpoint unpack_loop (packed : bool) (fmt : bytes) (s : bytes) (off : nat) (l : loc) : HM bool :=
  match fmt with
  | [] => mret true
  | c :: fmt' =>
      if decide (length s ≤ off)%nat then mret false
      else
        match b6b_ffi_type c with
        | None => mret false
        | Some t =>
            let pad := ffi_skip packed off t in
            if negb (bool_decide (pad = O)) && bool_decide (length s - off ≤ pad)%nat then mret false
            else
              let off := (off + pad)%nat in
              dec ← b6b_ffi_decode (drop off s) t;
              match dec with
              | None => mret false
              | Some o =>
                  b6b_list_add l o;;
                  b6b_unref o;;
                  unpack_loop packed fmt' s (off + ffi_size t) l
              end
        end
  end.

(** The format without its dot, and whether it had one; nothing for an empty
    one. *)
Definition ffi_format (fmt : bytes) : option (bool * bytes) :=
  match fmt with
  | [] | ["."%byte] => None
  | "."%byte :: fmt' => Some (true, fmt')
  | _ => Some (false, fmt)
  end.

(** ** Procedures *)

Section procs.
Context `{Env}.

(** An integer object for an address, that keeps [to]. *)
Definition b6b_ffi_addr_new (addr : Z) (to : loc) : M st b6b_res :=
  o ← on_heap (b6b_int_new (s64 addr));
  on_heap (b6b_ref to);;
  on_heap (update_obj o (with_del D_unref (V_obj to)));;
  b6b_return o.

Definition b6b_ffi_buf_proc (args : loc) : M st b6b_res :=
  r ← get_args args "os" [true; true];
  match r with
  | (0, _) => mret B6B_ERR
  | (_, [o; op]) =>
      s ← on_heap (text op);
      if streq s "address" then a ← on_heap sys_address; b6b_ffi_addr_new a o
      else mret B6B_ERR
  | _ => ub
  end.

Definition b6b_ffi_buf_new (s : bytes) : M st b6b_res :=
  o ← on_heap (b6b_str_new s);
  on_heap (update_obj o (with_proc P_ffi_buf_obj));;
  b6b_return o.

Definition b6b_ffi_proc_buf (args : loc) : M st b6b_res :=
  r ← get_args args "os" [false; true];
  match r with
  | (0, _) => mret B6B_ERR
  | (_, [s]) => s ← on_heap (text s); b6b_ffi_buf_new s
  | _ => ub
  end.

(** Memory of the program or of a library that is not in the model. *)
Definition read_memory (addr len : Z) : HM bytes :=
  a ← sys_call (C_memory addr len);
  if Z.of_nat (length (a_out a)) =? len then mret (a_out a) else oof.

Definition b6b_ffi_proc_memcpy (args : loc) : M st b6b_res :=
  r ← get_args args "oii" [false; true; true];
  match r with
  | (0, _) => mret B6B_ERR
  | (_, [addr; len]) =>
      xa ← on_heap (read_obj addr);
      xl ← on_heap (read_obj len);
      if (o_i xl =? 0) || (o_i xa =? 0) then mret B6B_ERR
      else if o_i xl <? 0 then ub
      else s ← on_heap (read_memory (o_i xa) (o_i xl)); b6b_ffi_buf_new s
  | _ => ub
  end.

Definition b6b_ffi_proc_pack (args : loc) : M st b6b_res :=
  r ← b6b_proc_get_args args "os*" [false; true; true];
  match r with
  | (0, _) => mret B6B_ERR
  | (_, [A_obj fmt; A_item vli]) =>
      f ← on_heap (text fmt);
      match ffi_format f with
      | None => mret B6B_ERR
      | Some (packed, f) =>
          buf ← on_heap (pack_loop packed f args (Some vli) []);
          match buf with None => mret B6B_ERR | Some buf => b6b_ffi_buf_new buf end
      end
  | _ => ub
  end.

Definition b6b_ffi_proc_unpack (args : loc) : M st b6b_res :=
  r ← get_args args "oss" [false; true; true];
  match r with
  | (0, _) => mret B6B_ERR
  | (_, [fmt; o]) =>
      f ← on_heap (text fmt);
      match ffi_format f with
      | None => mret B6B_ERR
      | Some (packed, f) =>
          l ← on_heap b6b_list_new;
          s ← on_heap (text o);
          ok ← on_heap (unpack_loop packed f s 0 l);
          if ok : bool then b6b_return l else on_heap (b6b_destroy l);; mret B6B_ERR
      end
  | _ => ub
  end.

(** *** Libraries *)

(** The message of the last failure of libdl, if there was one. *)
Definition dlerror : HM (option bytes) :=
  a ← sys_call C_dlerror; mret (if a_ret a =? 0 then None else Some (c_str (a_out a))).

(** [o->priv] as a number *)
Definition priv_num (o : loc) : HM Z :=
  x ← read_obj o;
  match o_priv x with V_num z => mret z | _ => ub end.

Definition b6b_ffi_so_proc (args : loc) : M st b6b_res :=
  r ← get_args args "os|s" [true; true; true];
  match r with
  | (0, _) => mret B6B_ERR
  | (_, [o; op; sym]) =>
      s ← on_heap (text op);
      if streq s "dlsym" then
        name ← on_heap (text sym);
        on_heap dlerror;;
        h ← on_heap (priv_num o);
        p ← on_heap (sys_call (C_dlsym h (c_str name)));
        err ← on_heap dlerror;
        match err with
        | Some e => b6b_return_str e;; mret B6B_ERR
        | None => b6b_ffi_addr_new (a_ret p) o
        end
      else mret B6B_ERR
  | (_, [o; op]) =>
      s ← on_heap (text op);
      if streq s "handle" then h ← on_heap (priv_num o); b6b_ffi_addr_new h o
      else mret B6B_ERR
  | _ => ub
  end.

Definition b6b_ffi_proc_dlopen (args : loc) : M st b6b_res :=
  r ← get_args args "os" [false; true];
  match r with
  | (0, _) => mret B6B_ERR
  | (_, [path]) =>
      on_heap dlerror;;
      s ← on_heap (text path);
      p ← on_heap (sys_call (C_dlopen match s with [] => None | _ => Some (c_str s) end));
      if a_ret p =? 0 then
        err ← on_heap dlerror;
        match err with Some e => b6b_return_str e;; mret tt | None => mret tt end;;
        mret B6B_ERR
      else
        o ← on_heap (b6b_str_new (lit "so:" ++ fmt_hex (a_ret p)));
        on_heap (update_obj o (λ x,
          with_proc P_ffi_so (with_del D_so (V_num (a_ret p)) x)));;
        b6b_return o
  | _ => ub
  end.

(** *** Functions *)

(** A function is known by the character of its result's type, the number of
    its arguments and its address. *)
Definition b6b_ffi_proc_func (args : loc) : M st b6b_res :=
  r ← get_args args "oiss" [false; true; true; true];
  match r with
  | (0, _) => mret B6B_ERR
  | (_, [addr; rtype; atypes]) =>
      rt ← on_heap (text rtype);
      at_ ← on_heap (text atypes);
      xa ← on_heap (read_obj addr);
      match rt with
      | [c] =>
          if (UINT_MAX <? Z.of_nat (length at_)) || (o_i xa =? 0) then mret B6B_ERR
          else
            match b6b_ffi_type c, mapM b6b_ffi_type at_ with
            | Some _, Some _ =>
                r ← on_heap (sys_call (C_prep_cif (Z.of_nat (length at_))));
                if negb (a_ret r =? 0) then mret B6B_ERR
                else
                  f ← on_heap sys_address;
                  o ← on_heap (b6b_str_new (lit "func:" ++ fmt_hex f));
                  on_heap (update_obj o (λ x, with_proc P_ffi_func_obj
                    (with_del D_func (V_func (uchar c) (Z.of_nat (length at_)) (o_i xa)) x)));;
                  b6b_return o
            | _, _ => mret B6B_ERR
            end
      | _ => mret B6B_ERR
      end
  | _ => ub
  end.

(** The addresses of the arguments: the first [argc] items of the list. *)
Fixpoint arg_addrs (argc : nat) (items : list b6b_litem) : HM (option (list Z)) :=
  match argc with
  | O => mret (Some [])
  | S argc' =>
      match items with
      | [] => mret None
      | li :: items' =>
          ok ← b6b_as_int (li_o li);
          if negb ok then mret None
          else
            x ← read_obj (li_o li);
            r ← arg_addrs argc' items';
            mret (cons (o_i x) <$> r)
      end
  end.

(** [sizeof(union b6b_ffi_val)] *)
Definition sizeof_val : nat := 8.

Definition b6b_ffi_func_proc (args : loc) : M st b6b_res :=
  r ← get_args args "ol" [true; true];
  match r with
  | (0, _) => mret B6B_ERR
  | (_, [o; argpos]) =>
      x ← on_heap (read_obj o);
      match o_priv x with
      | V_func rtype argc p =>
          xl ← on_heap (read_obj argpos);
          addrs ← on_heap (arg_addrs (Z.to_nat argc) (o_l xl));
          match addrs, b6b_ffi_type (to_byte rtype) with
          | Some addrs, Some t =>
              a ← on_heap (sys_call (C_ffi_call p addrs));
              if decide (length (a_out a) = sizeof_val) then
                outo ← on_heap (b6b_ffi_decode (a_out a) t);
                match outo with None => mret B6B_ERR | Some outo => b6b_return outo end
              else oof
          | _, _ => mret B6B_ERR
          end
      | _ => ub
      end
  | _ => ub
  end.
End procs.

(** ** The layout of a structure, as a specification *)

(** A value that a type represents. *)
Definition val_ok (t : ffi_type) (v : ffi_val) : Prop :=
  match v with
  | FV_int z => is_b6b_int z ∧ ∃ r, ffi_range t = Some r ∧ in_range r z = true
  | FV_float f => t = ffi_type_double ∧ valid_binary f_prec f_emax f = true
  end.

Definition val_bytes (t : ffi_type) (v : ffi_val) : bytes :=
  le_bytes (ffi_size t) match v with FV_int z => z | FV_float f => f_bits f_prec f_emax f end.

(** Where a value of type [t] is put that comes after [k] bytes: unless it is
    packed, at the next multiple of its size. *)
Definition ffi_offset (packed : bool) (k : nat) (t : ffi_type) : nat :=
  if packed then k else ffi_size t * ((k + ffi_size t - 1) / ffi_size t).

Definition gap (packed : bool) (k : nat) (t : ffi_type) : nat := ffi_offset packed k t - k.

(** The bytes of the values after those of [buf], each at its offset, with zeros
    in between. *)
Fixpoint layout (packed : bool) (tvs : list (ffi_type * ffi_val)) (buf : bytes) : bytes :=
  match tvs with
  | [] => buf
  | (t, v) :: tvs' =>
      layout packed tvs' (buf ++ replicate (gap packed (length buf) t) x00 ++ val_bytes t v)
  end.

(** The object has the value in the representation that the type asks for. *)
Definition obj_val (x : b6b_obj) (v : ffi_val) : Prop :=
  match v with
  | FV_int z => f_int (o_flags x) = true ∧ o_i x = z
  | FV_float f => f_float (o_flags x) = true ∧ o_f x = f
  end.
Definition val_obj (v : ffi_val) : b6b_obj :=
  match v with FV_int z => new_int z | FV_float f => new_float f end.

(** A format, the nodes of the arguments and the values they have; arguments
    that are left over are ignored. *)
Inductive packs (h : heap) : bytes → list b6b_litem → list (ffi_type * ffi_val) → Prop :=
| packs_nil its : packs h [] its []
| packs_cons c cs li its t v x tvs :
    b6b_ffi_type c = Some t → objs h !! li_o li = Some x → obj_val x v → val_ok t v →
    packs h cs its tvs → packs h (c :: cs) (li :: its) ((t, v) :: tvs).

(** *** The bits of floating-point numbers *)

Lemma digits2_range p :
  2 ^ (Z.pos (digits2_pos p) - 1) ≤ Z.pos p < 2 ^ Z.pos (digits2_pos p).
Proof.
  rewrite digits2_size. pose proof (Pos.size_gt p) as H1. pose proof (Pos.size_le p) as H2.
  assert (Z.pos p < 2 ^ Z.pos (Pos.size p)) by (change 2 with (Z.pos 2); rewrite <- Pos2Z.inj_pow; lia).
  assert (2 ^ Z.pos (Pos.size p) ≤ 2 * Z.pos p)
    by (change 2 with (Z.pos 2) at 1; rewrite <- Pos2Z.inj_pow; lia).
  assert (2 ^ Z.pos (Pos.size p) = 2 * 2 ^ (Z.pos (Pos.size p) - 1)) as E.
  { rewrite <- Z.pow_succ_r by lia. f_equal. lia. }
  lia.
Qed.

(** What [valid_binary] means for the mantissa and the exponent of a double. *)
Lemma valid_double s m e :
  valid_binary f_prec f_emax (S754_finite s m e) = true →
  -1074 ≤ e ≤ 971 ∧ Z.pos m < 2 ^ 53 ∧ (2 ^ 52 ≤ Z.pos m ∨ e = -1074).
Proof.
  simpl. unfold bounded, canonical_mantissa, fexp, emin, f_prec, f_emax.
  rewrite andb_true_iff, Z.eqb_eq, Z.leb_le. intros [H1 H2].
  pose proof (digits2_range m) as [H3 H4].
  assert (Z.pos (digits2_pos m) ≤ 53) as H5 by lia.
  assert (2 ^ Z.pos (digits2_pos m) ≤ 2 ^ 53) by (apply Z.pow_le_mono_r; lia).
  split_and!; [lia..|].
  destruct (decide (e = -1074)) as [|Hne]; [by right|left].
  assert (Z.pos (digits2_pos m) = 53) as E by lia. rewrite E in H3. exact H3.
Qed.

Lemma double_bits_range f :
  valid_binary f_prec f_emax f = true → 0 ≤ f_bits f_prec f_emax f < 2 ^ 64.
Proof.
  destruct f as [[]|[]| |s m e]; [by vm_compute..|]. intros H%valid_double.
  unfold f_bits, sign_bit, emin, f_prec, f_emax. 
  destruct s, (Z.ltb_spec (Z.pos m) (2 ^ (53 - 1))); lia.
Qed.

(** The fields of the bits. *)
Lemma double_fields (s : bool) e m :
  0 ≤ e < 2048 → 0 ≤ m < 2 ^ 52 →
  let z := (if s then 2 ^ 63 else 0) + (e * 2 ^ 52 + m) in
  (2 ^ 63 <=? z) = s ∧ z mod 2 ^ 63 / 2 ^ 52 = e ∧ z mod 2 ^ 52 = m.
Proof.
  intros He Hm z.
  assert (z mod 2 ^ 63 = e * 2 ^ 52 + m) as E.
  { symmetry. apply (Z.mod_unique _ _ (if s then 1 else 0)); subst z; [left|destruct s]; lia. }
  split_and!.
  - subst z. destruct s; lia.
  - rewrite E, Z.div_add_l, Z.div_small by lia. lia.
  - symmetry. apply (Z.mod_unique _ _ ((if s then 2 ^ 11 else 0) + e)); subst z;
      [left|destruct s]; lia.
Qed.

Lemma double_bits_round f :
  valid_binary f_prec f_emax f = true → f_of_bits f_prec f_emax (f_bits f_prec f_emax f) = f.
Proof.
  destruct f as [[]|[]| |s m e]; [by vm_compute..|]. intros H%valid_double.
  assert (sign_bit f_prec f_emax = 2 ^ 63) as Hs by done.
  assert (2 ^ (f_prec - 1) = 2 ^ 52) as Hp by done.
  unfold f_bits, f_of_bits. rewrite Hs, Hp. unfold f_prec, f_emax, emin.
  destruct (Z.ltb_spec (Z.pos m) (2 ^ 52)) as [Hlt|Hge].
  - destruct (double_fields s 0 (Z.pos m)) as (H1 & H2 & H3); [lia..|].
    rewrite Z.mul_0_l, Z.add_0_l in H1, H2, H3. rewrite H1, H2, H3.
    cbn [Z.eqb]. f_equal. lia.
  - destruct (double_fields s (e - (3 - 1024 - 53) + 1) (Z.pos m - 2 ^ 52)) as (H1 & H2 & H3);
      [lia..|].
    rewrite H1, H2, H3. rewrite (proj2 (Z.eqb_neq _ 0)) by lia.
    rewrite (proj2 (Z.eqb_neq _ _)) by lia.
    replace (Z.pos m - 2 ^ 52 + 2 ^ 52) with (Z.pos m) by lia. f_equal. lia.
Qed.

(** *** Values and their bytes *)

Lemma pow_256 k : 256 ^ Z.of_nat k = 2 ^ (8 * Z.of_nat k).
Proof. rewrite Z.pow_mul_r by lia. done. Qed.

Lemma signed_round k z :
  (0 < k)%nat → - 2 ^ (8 * Z.of_nat k - 1) ≤ z < 2 ^ (8 * Z.of_nat k - 1) →
  signed_of k (z mod 256 ^ Z.of_nat k) = z.
Proof.
  intros Hk Hz. rewrite pow_256. unfold signed_of.
  assert (2 ^ (8 * Z.of_nat k) = 2 * 2 ^ (8 * Z.of_nat k - 1)) as E.
  { rewrite <- Z.pow_succ_r by lia. f_equal. lia. }
  rewrite E. set (p := 2 ^ (8 * Z.of_nat k - 1)) in *.
  destruct (decide (0 ≤ z)).
  - rewrite Z.mod_small by lia. by rewrite (proj2 (Z.ltb_lt _ _)) by lia.
  - assert (z mod (2 * p) = z + 2 * p) as ->.
    { symmetry. apply (Z.mod_unique _ _ (-1)); lia. }
    rewrite (proj2 (Z.ltb_ge _ _)) by lia. lia.
Qed.

Lemma s64_mod z : is_b6b_int z → s64 (z mod 2 ^ 64) = z.
Proof.
  intros Hz. rewrite <- (s64_id z) at 2 by done. unfold s64.
  by rewrite Z.add_mod_idemp_l.
Qed.

Lemma int_bytes_round t r z rest :
  ffi_range t = Some r → in_range r z = true → is_b6b_int z →
  ffi_value t (le_bytes (ffi_size t) z ++ rest) = FV_int z.
Proof.
  intros Hr Hz Hi. unfold ffi_value. rewrite take_app_length' by (by rewrite le_bytes_length).
  rewrite le_round. unfold in_range in Hz. apply andb_prop in Hz as [H1%Z.leb_le H2%Z.leb_le].
  destruct t; try discriminate Hr; injection Hr as <-; cbn [fst snd] in H1, H2;
    unfold INT_MIN, INT_MAX, UINT_MAX, is_b6b_int, B6B_INT_MIN, B6B_INT_MAX in *; f_equal.
  all: try (apply signed_round; [cbn; lia|cbn; lia]).
  all: try (by apply s64_mod).
  all: apply Z.mod_small; cbn; lia.
Qed.

Lemma bytes_round t v rest : val_ok t v → ffi_value t (val_bytes t v ++ rest) = v.
Proof.
  destruct v as [z|f]; simpl.
  - intros (Hi & r & Hr & Hz). by eapply int_bytes_round.
  - intros [-> Hf]. unfold ffi_value, val_bytes.
    rewrite take_app_length' by (by rewrite le_bytes_length).
    rewrite le_round, Z.mod_small by (by apply double_bits_range).
    by rewrite double_bits_round.
Qed.

Lemma encode_ok o t x v h :
  objs h !! o = Some x → obj_val x v → val_ok t v →
  b6b_ffi_encode o t h = Done (Some (val_bytes t v), h).
Proof.
  intros Hx Hv Ht. unfold b6b_ffi_encode. destruct v as [z|f].
  - destruct Hv as [Hf <-], Ht as (Hi & r & -> & Hr). unfold b6b_as_int.
    rewrite bind_assoc, (bind_eq _ _ _ _ _ (read_obj_eq _ _ _ Hx)), Hf.
    rewrite (bind_eq _ _ _ true h) by done. cbn [negb].
    rewrite (bind_eq _ _ _ _ _ (read_obj_eq _ _ _ Hx)). by rewrite Hr.
  - destruct Hv as [Hf <-], Ht as [-> Hb]. unfold b6b_as_float. simpl.
    rewrite bind_assoc, (bind_eq _ _ _ _ _ (read_obj_eq _ _ _ Hx)), Hf.
    rewrite (bind_eq _ _ _ true h) by done. cbn [negb].
    by rewrite (bind_eq _ _ _ _ _ (read_obj_eq _ _ _ Hx)).
Qed.

Lemma float_new_eq f h :
  b6b_float_new f h =
    Done (next h, mkHeap (<[next h := new_float f]> (objs h)) (N.succ (next h)) (h_os h)).
Proof.
  unfold b6b_float_new, b6b_new, malloc_obj.
  erewrite bind_eq by reflexivity.
  erewrite bind_eq by (apply update_obj_eq; simpl; apply lookup_insert_eq).
  erewrite bind_eq by (apply update_obj_eq; simpl; apply lookup_insert_eq).
  simpl. by rewrite !insert_insert_eq.
Qed.

Lemma decode_ok t v rest h :
  val_ok t v →
  b6b_ffi_decode (val_bytes t v ++ rest) t h =
    Done (Some (next h), mkHeap (<[next h := val_obj v]> (objs h)) (N.succ (next h)) (h_os h)).
Proof.
  intros Hv. unfold b6b_ffi_decode.
  rewrite length_app. unfold val_bytes at 1. rewrite le_bytes_length.
  rewrite (proj2 (Z.ltb_ge _ _)) by lia. rewrite bytes_round by done.
  destruct v as [z|f].
  - by rewrite (bind_eq _ _ _ _ _ (int_new_eq z h)).
  - by rewrite (bind_eq _ _ _ _ _ (float_new_eq f h)).
Qed.

(** *** Layouts *)

Lemma ffi_size_range t : (0 < ffi_size t ≤ 8)%nat.
Proof. destruct t; simpl; lia. Qed.

Lemma val_bytes_length t v : length (val_bytes t v) = ffi_size t.
Proof. apply le_bytes_length. Qed.

(** Both paddings lead to the next multiple. *)
Lemma round_up k a : (0 < a)%nat →
  (a * ((k + a - 1) / a) = if decide (k mod a = 0) then k else k + (a - k mod a))%nat.
Proof.
  intros Ha. pose proof (Nat.mod_upper_bound k a ltac:(lia)).
  pose proof (Nat.div_mod_eq k a) as E. case_decide as Hd.
  - replace (k + a - 1)%nat with (a - 1 + k / a * a)%nat by lia.
    rewrite Nat.div_add, (Nat.div_small (a - 1)) by lia. lia.
  - replace (k + a - 1)%nat with (k mod a - 1 + (k / a + 1) * a)%nat by lia.
    rewrite Nat.div_add, (Nat.div_small (k mod a - 1)) by lia. lia.
Qed.

Lemma ffi_pad_gap packed k t : ffi_pad packed k t = gap packed k t.
Proof.
  unfold ffi_pad, gap, ffi_offset. destruct packed; [lia|].
  rewrite round_up by apply ffi_size_range. case_decide; lia.
Qed.

Lemma ffi_skip_gap packed k t : ffi_skip packed k t = gap packed k t.
Proof.
  unfold ffi_skip, gap, ffi_offset. destruct packed; [lia|].
  rewrite round_up by apply ffi_size_range. case_decide; lia.
Qed.

Lemma gap_range packed k t : (gap packed k t < ffi_size t)%nat.
Proof.
  pose proof (ffi_size_range t). rewrite <- ffi_pad_gap. unfold ffi_pad. destruct packed; [lia|].
  case_decide; lia.
Qed.

Lemma layout_prefix packed tvs buf : ∃ rest, layout packed tvs buf = buf ++ rest.
Proof.
  revert buf. induction tvs as [|[t v] tvs IH]; intros buf; simpl.
  - exists []. by rewrite app_nil_r.
  - destruct (IH (buf ++ replicate (gap packed (length buf) t) x00 ++ val_bytes t v))
      as [rest ->]. eexists. by rewrite <- app_assoc.
Qed.

Lemma layout_length packed tvs buf :
  (length buf ≤ length (layout packed tvs buf) ≤ length buf + 15 * length tvs)%nat.
Proof.
  revert buf. induction tvs as [|[t v] tvs IH]; intros buf; simpl; [lia|].
  pose proof (IH (buf ++ replicate (gap packed (length buf) t) x00 ++ val_bytes t v)) as H.
  rewrite !length_app, length_replicate, val_bytes_length in H.
  pose proof (ffi_size_range t). pose proof (gap_range packed (length buf) t). lia.
Qed.

Lemma pack_loop_ok packed h fmt its tvs :
  packs h fmt its tvs → ∀ args xa pre buf,
  objs h !! args = Some xa → o_l xa = pre ++ its → NoDup (li_id <$> o_l xa) →
  Z.of_nat (length buf) ≤ B6B_FFI_MAX_STRUCT_SZ →
  pack_loop packed fmt args (li_id <$> head its) buf h =
    Done (if decide (Z.of_nat (length (layout packed tvs buf)) ≤ B6B_FFI_MAX_STRUCT_SZ)
          then Some (layout packed tvs buf) else None, h).
Proof.
  induction 1 as [|c cs li its t v x tvs Hc Hx Hv Ht Hp IH];
    intros args xa pre buf Ha Hits Hnd Hlen; [by rewrite decide_True|].
  assert (find_item (li_id li) (o_l xa) = Some (li, its)) as Hf.
  { rewrite Hits in Hnd |- *. by apply find_item_at. }
  cbn [pack_loop head fmap option_fmap option_map]. rewrite Hc.
  rewrite (bind_eq _ _ _ _ _ (item_obj_eq _ _ _ _ _ _ Ha Hf)).
  rewrite (bind_eq _ _ _ _ _ (encode_ok _ _ _ _ _ Hx Hv Ht)).
  rewrite ffi_pad_gap. cbn [layout]. set (buf' := buf ++ _) in *.
  pose proof (layout_length packed tvs buf') as Hl.
  assert (length buf' = length buf + gap packed (length buf) t + ffi_size t)%nat as Hb.
  { unfold buf'. rewrite !length_app, length_replicate, val_bytes_length. lia. }
  destruct (Z.ltb_spec B6B_FFI_MAX_STRUCT_SZ (Z.of_nat (length buf + gap packed (length buf) t)));
    [by rewrite decide_False by lia|].
  destruct (Z.ltb_spec B6B_FFI_MAX_STRUCT_SZ
    (Z.of_nat (length buf + gap packed (length buf) t + ffi_size t)));
    [by rewrite decide_False by lia|].
  rewrite (bind_eq _ _ _ _ _ (list_next_eq _ _ _ _ _ _ Ha Hf)).
  apply (IH args xa (pre ++ [li])); [done| |done|rewrite Hb; lia]. by rewrite <- app_assoc.
Qed.

Lemma val_obj_fresh v : refs_of (val_obj v) = [] ∧ o_refc (val_obj v) = 1 ∧ del_ok (val_obj v).
Proof. by destruct v. Qed.

(** The types of a format. *)
Definition typed (fmt : bytes) (tvs : list (ffi_type * ffi_val)) : Prop :=
  Forall2 (λ c tv, b6b_ffi_type c = Some (fst tv) ∧ val_ok (fst tv) (snd tv)) fmt tvs.

Lemma unpack_loop_ok packed R l fmt tvs :
  typed fmt tvs → ∀ buf x h,
  well_counted R (objs h) → heap_fresh h → list_at h l x →
  ∃ h' x' new, unpack_loop packed fmt (layout packed tvs buf) (length buf) l h = Done (true, h') ∧
    well_counted R (objs h') ∧ heap_fresh h' ∧ list_at h' l x' ∧ o_l x' = o_l x ++ new ∧
    Forall2 (λ it tv, objs h' !! li_o it = Some (val_obj (snd tv))) new tvs ∧
    (∀ p, p ≠ l → (p < next h)%N → objs h' !! p = objs h !! p) ∧ (next h ≤ next h')%N.
Proof.
  induction 1 as [|c [t v] fmt tvs [Hc Hv] Hfmt IH]; intros buf x h Hwc Hfr Hla.
  { exists h, x, []. rewrite app_nil_r. split_and!; try done. }
  cbn [fst snd layout unpack_loop] in *. set (buf' := buf ++ _).
  destruct (layout_prefix packed tvs buf') as [rest Erest].
  assert (length (layout packed tvs buf') =
    length buf + gap packed (length buf) t + ffi_size t + length rest)%nat as Hl.
  { rewrite Erest. unfold buf'. rewrite !length_app, length_replicate, val_bytes_length. lia. }
  pose proof (ffi_size_range t). rewrite decide_False by lia. rewrite Hc, ffi_skip_gap.
  rewrite (bool_decide_false (length (layout packed tvs buf') - length buf ≤ _)%nat) by lia.
  rewrite andb_false_r.
  assert (drop (length buf + gap packed (length buf) t) (layout packed tvs buf')
    = val_bytes t v ++ rest) as ->.
  { rewrite Erest. unfold buf'. rewrite <- !app_assoc, (app_assoc buf), drop_app_length'; [done|].
    by rewrite length_app, length_replicate. }
  rewrite (bind_eq _ _ _ _ _ (decode_ok t v rest h Hv)).
  destruct (val_obj_fresh v) as (F1 & F2 & F3).
  destruct (give_new_ok R l x (val_obj v) h Hwc Hfr Hla F1 F2 F3)
    as (h2 & h3 & x3 & E2 & E3 & W3 & Fr3 & L3 & I3 & O3 & K3).
  rewrite (bind_eq _ _ _ _ _ E2), (bind_eq _ _ _ _ _ E3).
  destruct (IH buf' x3 h3 W3 Fr3 L3) as (h4 & x4 & new & E4 & W4 & Fr4 & L4 & I4 & O4 & K4 & N4).
  assert (next h < next h3)%N as Hn by (apply Fr3; by eexists).
  assert (next h ≠ l) as Hnl.
  { intros E. assert (l < next h)%N by (apply Hfr; rewrite (la_obj _ _ _ Hla); by eexists). lia. }
  exists h4, x4, (mkItem (N.succ (next h)) (next h) :: new). split_and!; try done.
  - replace (length buf + gap packed (length buf) t + ffi_size t)%nat with (length buf')
      by (unfold buf'; rewrite !length_app, length_replicate, val_bytes_length; lia). exact E4.
  - by rewrite I4, I3, <- app_assoc.
  - constructor; [|done]. cbn [li_o snd]. rewrite K4 by (congruence || lia). exact O3.
  - intros p Hp Hlt. rewrite K4 by (done || lia). apply K3; [done|lia].
  - lia.
Qed.

Lemma packs_typed h fmt its tvs : packs h fmt its tvs → typed fmt tvs.
Proof. induction 1; constructor; done. Qed.

(** ** Properties *)

(** C38: what [ffi.pack] packs, and that [ffi.unpack] gives it back. For arguments
    that hold numbers as their types ask for them (integers in the range of the
    type, doubles; the type f, which rounds, is left out), packing changes no
    object and gives the values in their order as little-endian bytes, each at
    the next multiple of its size, or right behind the one before it when the
    format starts with a dot, with zeros in between; it fails exactly when these
    are more than 4096 bytes. Unpacking the bytes with the same format adds new
    objects with the same values to the list, in order, touches no other object
    and keeps the counts right. *)
Theorem ffi_pack_unpack packed h fmt its tvs args xa pre R l x :
  packs h fmt its tvs →
  objs h !! args = Some xa → o_l xa = pre ++ its → NoDup (li_id <$> o_l xa) →
  well_counted R (objs h) → heap_fresh h → list_at h l x →
  let buf := layout packed tvs [] in
  pack_loop packed fmt args (li_id <$> head its) [] h =
    Done (if decide (Z.of_nat (length buf) ≤ B6B_FFI_MAX_STRUCT_SZ) then Some buf else None, h) ∧
  ∃ h' x' new,
    unpack_loop packed fmt buf 0 l h = Done (true, h') ∧
    objs h' !! l = Some x' ∧ o_l x' = o_l x ++ new ∧
    Forall2 (λ it tv, objs h' !! li_o it = Some (val_obj (snd tv))) new tvs ∧
    (∀ p, p ≠ l → (p < next h)%N → objs h' !! p = objs h !! p) ∧
    well_counted R (objs h').
Proof.
  intros Hp Ha Hits Hnd Hwc Hfr Hla buf. pose proof (packs_typed _ _ _ _ Hp) as Ht.
  destruct (unpack_loop_ok packed R l fmt tvs Ht [] x h Hwc Hfr Hla)
    as (h' & x' & new & E & W & _ & L & I & O & K & _).
  split; [by eapply pack_loop_ok|]. exists h', x', new. split_and!; try done. apply L.
Qed.

(** *** Witness *)

(** A list of arguments (at 0) with a [char] and a [double], and an empty list
    (at 1). *)
Definition sample_values : heap :=
  mkHeap {[ 0%N := with_l [mkItem 4 2; mkItem 5 3] new_list;
            1%N := new_list;
            2%N := new_int (-5);
            3%N := new_float (f_make 3 (-1) false) ]} 6 no_os.

Lemma ffi_pack_unpack_witness :
  let buf := layout false
    [(ffi_type_schar, FV_int (-5)); (ffi_type_double, FV_float (f_make 3 (-1) false))] [] in
  pack_loop false (lit "bd") 0 (Some 4%N) [] sample_values =
    Done (if decide (Z.of_nat (length buf) ≤ B6B_FFI_MAX_STRUCT_SZ) then Some buf else None,
      sample_values) ∧
  ∃ h' x' new,
    unpack_loop false (lit "bd") buf 0 1 sample_values = Done (true, h') ∧
    objs h' !! 1%N = Some x' ∧ o_l x' = [] ++ new ∧
    Forall2 (λ it tv, objs h' !! li_o it = Some (val_obj (snd tv))) new
      [(ffi_type_schar, FV_int (-5)); (ffi_type_double, FV_float (f_make 3 (-1) false))] ∧
    (∀ p, p ≠ 1%N → (p < 6)%N → objs h' !! p = objs sample_values !! p) ∧
    well_counted [0; 1]%N (objs h').
Proof.
  apply (ffi_pack_unpack false sample_values (lit "bd") [mkItem 4 2; mkItem 5 3] _ 0%N
    (with_l [mkItem 4 2; mkItem 5 3] new_list) [] [0; 1]%N 1%N new_list).
  - apply (packs_cons _ _ _ _ _ _ _ (new_int (-5))); [reflexivity|reflexivity|split; reflexivity| |].
    { split; [vm_compute; split; discriminate|]. eexists. split; reflexivity. }
    apply (packs_cons _ _ _ _ _ _ _ (new_float (f_make 3 (-1) false)));
      [reflexivity|reflexivity|split; reflexivity|split; reflexivity|constructor].
  - reflexivity.
  - reflexivity.
  - vm_compute. repeat constructor; set_solver.
  - apply wc_check_sound. vm_compute. reflexivity.
  - intros o Ho. vm_compute in Ho |- *. destruct o as [|p]; [done|].
    do 3 (destruct p as [p|p|]; try done); by destruct Ho.
  - split; [reflexivity|reflexivity|constructor|]. intros it Hit. by apply elem_of_nil in Hit.
Defined.

(** The layout of a [char] and a [double], and of the two packed. *)
Example layout_aligned :
  layout false [(ffi_type_schar, FV_int (-5)); (ffi_type_double, FV_float (f_make 3 (-1) false))] [] =
    [xfb; x00; x00; x00; x00; x00; x00; x00; x00; x00; x00; x00; x00; x00; xf8; x3f].
Proof. vm_compute. reflexivity. Qed.
Example layout_packed :
  layout true [(ffi_type_schar, FV_int (-5)); (ffi_type_double, FV_float (f_make 3 (-1) false))] [] =
    [xfb; x00; x00; x00; x00; x00; x00; xf8; x3f].
Proof. vm_compute. reflexivity. Qed.
