(* ===== verification/Zlib.v ===== *)
(** * Compression

    src/b6b_zlib.c: the buffers around miniz, in chunks, in the offload thread;
    and the header and footer of gzip. A call of miniz answers with its result,
    the bytes it wrote, and how many bytes it read. *)
From Stdlib Require Import ZArith Lia Init.Byte Strings.Byte Strings.String.
From stdpp Require Import base option list numbers gmap.
From S2P Require Import Prelude Sys Float64 Hash Parse Heap Repr ListObj Dict Offload Interp.
From S2P Require Import Switch.
#[local] Open Scope Z_scope.

Definition B6B_DEFLATE_CHUNK_SZ : Z := 64 * 1024.
Definition B6B_INFLATE_IN_CHUNK_SZ : Z := 64 * 1024.
Definition B6B_INFLATE_OUT_CHUNK_SZ : Z := 256 * 1024.
Definition MZ_OK : Z := 0.
Definition MZ_STREAM_END : Z := 1.
Definition MZ_DEFAULT_COMPRESSION : Z := -1.
Definition MZ_BEST_SPEED : Z := 1.
Definition MZ_BEST_COMPRESSION : Z := 9.
Definition MZ_DEFAULT_WINDOW_BITS : Z := 15.
Definition UINT32_MAX : Z := 2 ^ 32 - 1.
Definition SIZE_MAX : Z := 2 ^ 64 - 1.

(** The part of [mz_stream] that changes, and what was written so far. *)
Record mz_stream : Set := mkMz {
  total_in : Z;
  mz_out : bytes;
  avail_in : Z;
  avail_out : Z
}.

(** [next_in], [avail_in] bytes of it *)
Definition mz_input (src : bytes) (s : mz_stream) : bytes :=
  take (Z.to_nat (avail_in s)) (drop (Z.to_nat (total_in s)) src).

(** A call of miniz: it reads at most [avail_in] bytes and writes at most
    [avail_out]; the buffer takes [room] bytes more. *)
Definition mz_call (c : bytes → Z → call) (src : bytes) (room : Z) (s : mz_stream)
    : HM (Z * mz_stream) :=
  a ← sys_call (c (mz_input src s) (avail_out s));
  let consumed := Z.max 0 (Z.min (avail_in s) (default 0 (head (a_nums a)))) in
  let data := take (Z.to_nat (avail_out s)) (a_out a) in
  let written := Z.of_nat (length data) in
  if room <? written then ub
  else mret (a_ret a, mkMz (u32 (total_in s + consumed)) (mz_out s ++ data)
               (avail_in s - consumed) (avail_out s - written)).

Definition total_out (s : mz_stream) : Z := Z.of_nat (length (mz_out s)).

(** ** Deflating *)

(** [b6b_zlib_do_deflate]: the stream, and [data->ok]; [dlen] is the room for
    compressed data. *)
Fixpoint do_deflate (k : nat) (src : bytes) (dlen rem : Z) (s : mz_stream) : HM (mz_stream * bool) :=
  if rem =? 0 then mret (s, true)
  else
    match k with
    | O => oof
    | S k' =>
        let s := mkMz (total_in s) (mz_out s)
          (if B6B_DEFLATE_CHUNK_SZ <? rem then B6B_DEFLATE_CHUNK_SZ else rem) (avail_out s) in
        '(r, s) ← mz_call (C_deflate false) src (dlen - total_out s) s;
        if negb (r =? MZ_OK) then mret (s, false)
        else do_deflate k' src dlen (u32 (Z.of_nat (length src) - total_in s)) s
    end.

(** *** gzip *)

Definition gzip_hdr (level : Z) : bytes :=
  [x1f; x8b; to_byte 8; x00; x00; x00; x00; x00;
   to_byte (if level =? MZ_BEST_COMPRESSION then 2
            else if level =? MZ_BEST_SPEED then 4 else 0);
   to_byte 3].
Definition gzip_ftr (crc len : Z) : bytes := le_bytes 4 crc ++ le_bytes 4 (len mod UINT32_MAX).
(** [sizeof(struct gzip_hdr)], [sizeof(struct gzip_ftr)] *)
Definition sizeof_hdr : Z := 10.
Definition sizeof_ftr : Z := 8.

(** [b6b_zlib_gzip_finish]: what is put before and after the data. *)
Definition b6b_zlib_gzip_finish (buf : bytes) (level : Z) : HM (bytes * bytes) :=
  a ← sys_call (C_crc32 buf);
  mret (gzip_hdr level, gzip_ftr (a_ret a) (Z.of_nat (length buf))).

Section zlib.
Context `{Env}.
(** The bound of the loops. *)
Variable n : nat.

(** From the call of [mz_deflateInit2] on. *)
Definition deflate_text (src : bytes) (level wbits max : Z)
    (finish : option (bytes → Z → HM (bytes * bytes))) : IM b6b_res :=
  i ← hp (sys_call (C_deflate_init level wbits));
  if negb (a_ret i =? MZ_OK) then mret B6B_ERR
  else
    let fail := hp (sys_note [C_deflate_end]);; mret B6B_ERR in
    b ← hp (sys_call (C_deflate_bound (Z.of_nat (length src))));
    let dlen := a_ret b in
    if max <=? dlen then fail
    else
      r ← b6b_offload n (do_deflate n src dlen (u32 (Z.of_nat (length src)))
            (mkMz 0 [] 0 (u32 dlen)));
      match r with
      | (true, Some (s, true)) =>
          '(r, s) ← hp (mz_call (C_deflate true) src (dlen - total_out s) s);
          if negb (r =? MZ_STREAM_END) || (max <? total_out s) then fail
          else
            '(hdr, ftr) ← match finish with
                          | Some f => hp (f src level)
                          | None => mret ([], [])
                          end;
            o ← hp (b6b_str_new (hdr ++ mz_out s ++ ftr));
            hp (sys_note [C_deflate_end]);;
            lift (b6b_return o)
      | _ => fail
      end.

Definition b6b_zlib_deflate (args : loc) (wbits head foot : Z)
    (finish : option (bytes → Z → HM (bytes * bytes))) : IM b6b_res :=
  r ← lift (get_args args "os|i" [false; true; true]);
  match r with
  | (0, _) => mret B6B_ERR
  | (_, s :: l) =>
      level ← match l with
              | [] => mret (Some MZ_DEFAULT_COMPRESSION)
              | l :: _ =>
                  x ← hp (read_obj l);
                  mret (if (o_i x <? INT_MIN) || (INT_MAX <? o_i x) then None else Some (o_i x))
              end;
      match level with
      | None => mret B6B_ERR
      | Some level =>
          src ← hp (text s);
          let max := UINT32_MAX - head - foot in
          if max <? Z.of_nat (length src) then mret B6B_ERR
          else deflate_text src level wbits max finish
      end
  | _ => lift ub
  end.

Definition b6b_zlib_proc_deflate (args : loc) : IM b6b_res :=
  b6b_zlib_deflate args (- MZ_DEFAULT_WINDOW_BITS) 0 0 None.
Definition b6b_zlib_proc_compress (args : loc) : IM b6b_res :=
  b6b_zlib_deflate args MZ_DEFAULT_WINDOW_BITS 0 0 None.
Definition b6b_zlib_proc_gzip (args : loc) : IM b6b_res :=
  b6b_zlib_deflate args (- MZ_DEFAULT_WINDOW_BITS) sizeof_hdr sizeof_ftr
    (Some b6b_zlib_gzip_finish).

(** ** Inflating *)

(** [b6b_zlib_do_inflate]: the buffer has room for [dlen] bytes and a NUL, and
    grows after each call; [avail_out] grows by the room that is left, also
    when it was not used up. *)
Fixpoint do_inflate (k : nat) (src : bytes) (dlen : Z) (s : mz_stream)
    : HM (mz_stream * Z * bool) :=
  match k with
  | O => oof
  | S k' =>
      '(r, s) ← mz_call (C_inflate false) src (dlen + 1 - total_out s) s;
      if r =? MZ_STREAM_END then mret (s, dlen, true)
      else if negb (r =? MZ_OK) then mret (s, dlen, false)
      else if SIZE_MAX - B6B_INFLATE_OUT_CHUNK_SZ - 1 <=? dlen then mret (s, dlen, false)
      else
        let dlen := dlen + B6B_INFLATE_OUT_CHUNK_SZ in
        let rem := u32 (Z.of_nat (length src) - total_in s) in
        do_inflate k' src dlen (mkMz (total_in s) (mz_out s)
          (if B6B_INFLATE_IN_CHUNK_SZ <? rem then B6B_INFLATE_IN_CHUNK_SZ else rem)
          (u32 (avail_out s + (dlen - total_out s))))
  end.

(** From the call of [mz_inflateInit2] on. *)
Definition inflate_text (src : bytes) (wbits dlen : Z) : IM b6b_res :=
  i ← hp (sys_call (C_inflate_init wbits));
  if negb (a_ret i =? MZ_OK) then mret B6B_ERR
  else
    let fail := hp (sys_note [C_inflate_end]);; mret B6B_ERR in
    r ← b6b_offload n (do_inflate n src dlen (mkMz 0 [] (u32 (Z.of_nat (length src))) (u32 dlen)));
    match r with
    | (true, Some (s, dlen, true)) =>
        '(r, s) ← hp (mz_call (C_inflate true) src (dlen + 1 - total_out s) s);
        if negb (r =? MZ_STREAM_END) then fail
        else
          o ← hp (b6b_str_new (mz_out s));
          hp (sys_note [C_inflate_end]);;
          lift (b6b_return o)
    | _ => fail
    end.

(** The data between the header and the footer. *)
Definition strip_frame (head foot : Z) (s : bytes) : bytes :=
  take (length s - Z.to_nat (head + foot)) (drop (Z.to_nat head) s).

(** The size of the output buffer, of which nothing is known without
    [get_size]. *)
Definition inflate_size (get_size : option (bytes → Z)) (s : bytes) : option Z :=
  match get_size with
  | None => Some B6B_INFLATE_OUT_CHUNK_SZ
  | Some f =>
      let dlen := f s in
      if dlen =? 0 then Some 1 else if dlen =? SIZE_MAX then None else Some dlen
  end.

Definition b6b_zlib_inflate (args : loc) (wbits head foot : Z) (get_size : option (bytes → Z))
    : IM b6b_res :=
  r ← lift (get_args args "os" [false; true]);
  match r with
  | (0, _) => mret B6B_ERR
  | (_, [s]) =>
      s ← hp (text s);
      if (UINT32_MAX <? Z.of_nat (length s)) || (Z.of_nat (length s) <=? head + foot)
      then mret B6B_ERR
      else
        match inflate_size get_size s with
        | None => mret B6B_ERR
        | Some dlen => inflate_text (strip_frame head foot s) wbits dlen
        end
  | _ => lift ub
  end.

Definition b6b_zlib_proc_inflate (args : loc) : IM b6b_res :=
  b6b_zlib_inflate args (- MZ_DEFAULT_WINDOW_BITS) 0 0 None.
Definition b6b_zlib_proc_decompress (args : loc) : IM b6b_res :=
  b6b_zlib_inflate args MZ_DEFAULT_WINDOW_BITS 0 0 None.

(** [ftr->len] *)
Definition b6b_zlib_gzip_get_size (s : bytes) : Z := le_value (drop (length s - 4)%nat s).

Definition b6b_zlib_proc_gunzip (args : loc) : IM b6b_res :=
  b6b_zlib_inflate args (- MZ_DEFAULT_WINDOW_BITS) sizeof_hdr sizeof_ftr
    (Some b6b_zlib_gzip_get_size).
End zlib.

(** ** Properties *)


