(* ===== verification/Fds.v ===== *)
(** * Descriptors, files and shared objects are owned

    Every open descriptor (stream of the C library, shared object) belongs to
    an object of the heap, whose destructor closes it. The bookkeeping compares
    the log of the calls with the objects: [owed r h] says how often [r] was
    opened and is neither closed nor owned. Code that leaves it as it is leaks
    nothing and closes nothing twice, for all answers of the system. *)
From Stdlib Require Import ZArith Lia Init.Byte Strings.String.
From stdpp Require Import base option list numbers gmap.
From S2P Require Import Prelude Sys Float64 Hash Parse Heap Repr ListObj Types Interp.
#[local] Open Scope Z_scope.

(** ** Owners *)

(** What the private data of a stream holds. The streams on [stdin], [stdout]
    and [stderr] do not own their files. *)
Definition strm_res (p : b6b_strm) : list resource :=
  match strm_ops p with
  | K_ro_pipe | K_wo_pipe => []
  | _ =>
      match strm_priv p with
      | S_fd fd | S_sh _ fd | S_signal fd _ | S_socket _ _ fd => [R_fd fd]
      | S_stdio fp _ => [R_file fp]
      | S_freed => []
      end
  end.

(** What [x] owns: a stream until it is closed, the object of [poll] and a
    shared object as long as they live. *)
Definition obj_res (x : b6b_obj) : list resource :=
  match o_del x, o_priv x with
  | D_strm, V_strm p => if strm_closed p then [] else strm_res p
  | D_poll, V_num fd => [R_fd fd]
  | D_so, V_num h => [R_so h]
  | _, _ => []
  end.

(** Destructors close what their objects own, each once. *)
Lemma close_calls_res p : concat (closes <$> close_calls p) = strm_res p.
Proof. unfold close_calls, strm_res. destruct p as [k priv c e]. by destruct k, priv as [| | | |? [] ?|]. Qed.

Lemma del_calls_res x : concat (closes <$> del_calls x) = obj_res x.
Proof.
  unfold del_calls, obj_res. destruct (o_del x), (o_priv x); try done.
  - destruct (strm_closed s); [done|apply close_calls_res].
  - by destruct (_ =? 0).
Qed.

Definition held (r : resource) (m : gmap loc b6b_obj) : Z :=
  map_fold (λ _ x n, count r (obj_res x) + n) 0 m.

Definition owed (r : resource) (h : heap) : Z :=
  balance r (os_log (h_os h)) - held r (objs h).

Lemma held_delete m o x r :
  m !! o = Some x → held r m = count r (obj_res x) + held r (delete o m).
Proof.
  intros Hm. unfold held. rewrite (map_fold_delete_L _ _ o x m); [done| |done]. intros. lia.
Qed.

Lemma held_new m o x r :
  m !! o = None → held r (<[o := x]> m) = count r (obj_res x) + held r m.
Proof.
  intros Hm. rewrite (held_delete _ o x) by apply lookup_insert_eq. by rewrite delete_insert_id.
Qed.

Lemma held_insert m o x x' r :
  m !! o = Some x → held r (<[o := x']> m) = held r m + count r (obj_res x') - count r (obj_res x).
Proof.
  intros Hm. rewrite (held_delete _ o x' r) by apply lookup_insert_eq.
  rewrite (held_delete m o x r) by done. rewrite delete_insert_eq. lia.
Qed.

(** Calls that open nothing when their result is ignored. *)
Definition opens_none (cs : list call) : Prop := Forall (λ c, opens c no_ans = []) cs.

Lemma balance_note r cs o :
  opens_none cs →
  balance r (os_log (os_note cs o)) = balance r (os_log o) - count r (concat (closes <$> cs)).
Proof.
  intros Hcs. simpl. rewrite balance_app.
  enough (balance r (reverse ((λ c, (c, no_ans)) <$> cs)) =
    - count r (concat (closes <$> cs))) as -> by lia.
  induction Hcs as [|c cs Hc Hcs IH]; [done|].
  rewrite !fmap_cons, reverse_cons, balance_app, IH. cbn [concat balance].
  rewrite count_app, Hc. simpl. lia.
Qed.

Lemma del_calls_open_none x : opens_none (del_calls x).
Proof.
  unfold opens_none, del_calls, close_calls.
  repeat case_match; repeat constructor.
Qed.

(** ** Code that moves resources *)

(** After [m] with the result [a], the program owes [d a r] more closings of
    [r] than before. Addresses that were not given out stay unused. *)
Definition moves {S : Type} `{HasHeap S} {A : Type} (m : M S A) (d : A → resource → Z) : Prop :=
  ∀ s a s', heap_fresh (heap_of s) → m s = Done (a, s') →
    heap_fresh (heap_of s') ∧ ∀ r, owed r (heap_of s') = owed r (heap_of s) + d a r.

Abbreviation nothing := (λ _ _, 0).
Abbreviation conserves m := (moves m nothing).

Section moves.
Context {S : Type} `{HasHeap S}.

Lemma moves_eq {A} (m : M S A) d d' :
  moves m d → (∀ a r, d a r = d' a r) → moves m d'.
Proof. intros Hm Hd s a s' Hf E. destruct (Hm _ _ _ Hf E) as [F O]. split; [done|]. intros r. by rewrite <- Hd. Qed.

Lemma moves_ret {A} (a : A) : conserves (mret (M := M S) a).
Proof. intros s b s' Hf [= <- <-]. split; [done|]. intros r. lia. Qed.

Lemma moves_val {A} (a : A) (d : A → resource → Z) :
  (∀ r, d a r = 0) → moves (mret (M := M S) a) d.
Proof. intros Hd s b s' Hf [= <- <-]. split; [done|]. intros r. rewrite Hd. lia. Qed.

Lemma moves_bind {A B} (m : M S A) (f : A → M S B) d1 d :
  moves m d1 → (∀ a, moves (f a) (λ b r, d b r - d1 a r)) → moves (m ≫= f) d.
Proof.
  intros Hm Hf s b s' Hfr E. apply bind_Done in E as (a & s1 & E1 & E2).
  destruct (Hm _ _ _ Hfr E1) as [F1 O1]. destruct (Hf a _ _ _ F1 E2) as [F2 O2].
  split; [done|]. intros r. rewrite O2, O1. lia.
Qed.

Lemma moves_then {A B} (m : M S A) (f : A → M S B) d :
  conserves m → (∀ a, moves (f a) d) → moves (m ≫= f) d.
Proof.
  intros Hm Hf. apply (moves_bind _ _ _ _ Hm). intros a. eapply moves_eq; [apply Hf|].
  intros b r. simpl. lia.
Qed.

Lemma moves_ub {A} d : moves (@ub S A) d.
Proof. by intros ? ? ? ? [=]. Qed.
Lemma moves_oof {A} d : moves (@oof S A) d.
Proof. by intros ? ? ? ? [=]. Qed.
Lemma moves_get : conserves (@get S).
Proof. intros s a s' Hf [= <- <-]. split; [done|]. intros r. lia. Qed.
Lemma moves_deref {A} (x : option A) : conserves (@deref S A x).
Proof. destruct x; [apply moves_ret|apply moves_ub]. Qed.
Lemma moves_if {A} (b : bool) (m1 m2 : M S A) d :
  moves m1 d → moves m2 d → moves (if b then m1 else m2) d.
Proof. by destruct b. Qed.
Lemma moves_miter {A} (f : A → M S unit) l : (∀ x, conserves (f x)) → conserves (miter f l).
Proof.
  intros Hf. induction l as [|x l IH]; simpl; [apply moves_ret|]. by apply moves_then.
Qed.
End moves.

Lemma moves_on_heap {A} (m : HM A) d : moves m d → moves (on_heap m) d.
Proof.
  intros Hm s a s' Hf E. unfold on_heap, zoom in E.
  destruct (m (s_heap s)) as [[b h]| |] eqn:E1; [|done..]. injection E as <- <-. by eapply Hm.
Qed.

(** ** The heap *)

Ltac owed_tac :=
  unfold owed, heap_of, heap_has_heap in *; cbn [objs next h_os os_log balance] in *.

Lemma moves_read o : conserves (read_obj o).
Proof. intros h x h' Hf [-> _]%read_obj_inv. split; [done|]. intros r. lia. Qed.

(** An update that changes what an object owns. *)
Lemma update_moves o f h h' x :
  heap_fresh h → objs h !! o = Some x → update_obj o f h = Done (tt, h') →
  heap_fresh h' ∧
    ∀ r, owed r h' = owed r h + count r (obj_res x) - count r (obj_res (f x)).
Proof.
  intros Hf Hx H. apply update_obj_inv in H as (y & Hy & [= ->]). simplify_eq.
  split; [by eapply fresh_insert|]. intros r. owed_tac.
  rewrite (held_insert _ _ _ _ _ Hx). lia.
Qed.

Lemma moves_update o f :
  (∀ x, obj_res (f x) = obj_res x) → conserves (update_obj o f).
Proof.
  intros Hf h [] h' Hfr H. pose proof H as (x & Hx & _)%update_obj_inv.
  destruct (update_moves _ _ _ _ _ Hfr Hx H) as [F O]. split; [done|].
  intros r. rewrite O, Hf. lia.
Qed.

Lemma moves_malloc x : obj_res x = [] → conserves (malloc_obj x).
Proof.
  intros Hx h o h' Hf [= <- <-]. pose proof (fresh_none h Hf) as Hn. split.
  - intros p Hp. simpl in *. destruct (decide (p = next h)) as [->|Hne]; [lia|].
    unfold heap_of, heap_has_heap in *. simpl in *.
    rewrite lookup_insert_ne in Hp by done. specialize (Hf p Hp). lia.
  - intros r. owed_tac. rewrite held_new by done. rewrite Hx. simpl. lia.
Qed.

Lemma moves_malloc_item o : conserves (malloc_item o).
Proof.
  intros h li h' Hf [= <- <-]. split; [|intros r; owed_tac; lia].
  owed_tac. intros p Hp. specialize (Hf p Hp). simpl in *. lia.
Qed.

Lemma moves_ref o : conserves (b6b_ref o).
Proof.
  apply moves_then; [apply moves_read|]. intros x. apply moves_if; [apply moves_ub|].
  apply moves_then; [by apply moves_update|]. intros _. apply moves_ret.
Qed.

Lemma moves_note cs :
  opens_none cs → moves (sys_note cs) (λ _ r, - count r (concat (closes <$> cs))).
Proof.
  intros Hcs h [] h' Hf [= <-]. split; [done|]. intros r. owed_tac.
  rewrite (balance_note r cs (h_os h) Hcs). lia.
Qed.

Lemma moves_call c :
  moves (sys_call c) (λ a r, count r (opens c a) - count r (closes c)).
Proof.
  intros h a h' Hf H. unfold sys_call in H. destruct (os_next (h_os h)); [done|].
  injection H as <- <-. split; [done|]. intros r. owed_tac. lia.
Qed.

(** *** Dropping references *)

Lemma obj_res_refc x r : obj_res (with_refc r x) = obj_res x.
Proof. done. Qed.

Lemma free_moves o x h h' :
  heap_fresh h → objs h !! o = Some x → free_obj o h = Done (tt, h') →
  heap_fresh h' ∧ ∀ r, owed r h' = owed r h + count r (obj_res x).
Proof.
  intros Hf Hx H. rewrite (free_obj_eq _ _ _ Hx) in H. injection H as <-. split.
  - intros p Hp. apply Hf. simpl in Hp. destruct Hp as [y Hy].
    apply lookup_delete_Some in Hy as [_ Hy]. by eexists.
  - intros r. owed_tac. rewrite (held_delete _ _ _ r Hx). lia.
Qed.

Lemma moves_drop_all unref x :
  (∀ o, conserves (unref o)) →
  moves (drop_all unref x) (λ _ r, - count r (obj_res x)).
Proof.
  intros Hu. apply moves_then; [by apply moves_miter|]. intros _.
  apply (moves_bind _ _ _ _ (moves_note _ (del_calls_open_none x))). intros _.
  eapply moves_eq; [by apply moves_miter|]. intros ? r. rewrite <- del_calls_res. simpl. lia.
Qed.

(** An object is destroyed with all it owns. *)
Lemma moves_destroy_with unref o :
  (∀ o, conserves (unref o)) → only_shrinks unref → conserves (b6b_destroy_with unref o).
Proof.
  intros Hu Hs h [] h' Hf H. destruct (objs h !! o) as [x|] eqn:Hx.
  2: { unfold b6b_destroy_with, read_obj, mbind, M_bind in H. unfold heap_of, heap_has_heap in *.
       by rewrite Hx in H. }
  pose proof (destroy_del_ok _ _ _ _ _ H Hx) as Hd. rewrite (destroy_with_eq _ _ _ _ Hx Hd) in H.
  apply bind_Done in H as ([] & h1 & H1 & H2).
  destruct (moves_drop_all _ x Hu _ _ _ Hf H1) as [F1 O1].
  destruct (objs h1 !! o) as [y|] eqn:Hy.
  2: { unfold free_obj in H2. by rewrite Hy in H2. }
  destruct (drop_all_shrinks _ _ _ _ Hs H1 o y Hy) as (x' & Hx' & Hyx).
  assert (obj_res y = obj_res x) as Er by (rewrite Hyx; unfold heap_of, heap_has_heap in *; by simplify_eq).
  destruct (free_moves _ _ _ _ F1 Hy H2) as [F2 O2]. split; [done|].
  intros r. rewrite O2, O1, Er. lia.
Qed.

Lemma moves_unref_fuel n o : conserves (b6b_unref_fuel n o).
Proof.
  revert o. induction n as [|n IH]; intros o; [apply moves_oof|]. simpl.
  apply moves_then; [apply moves_read|]. intros x. apply moves_if; [apply moves_ub|].
  apply moves_then; [by apply moves_update|]. intros _.
  apply moves_if; [|apply moves_ret]. apply moves_destroy_with, unref_fuel_only_shrinks. done.
Qed.

Lemma moves_unref o : conserves (b6b_unref o).
Proof. intros h. apply (moves_unref_fuel (S (size (objs h)))). Qed.

Lemma moves_destroy o : conserves (b6b_destroy o).
Proof. apply moves_destroy_with, unref_only_shrinks. apply moves_unref. Qed.

(** ** Conversions, lists, return values *)

Create HintDb moves.
#[export] Hint Resolve moves_ret moves_ub moves_oof moves_get moves_deref moves_read moves_ref
  moves_unref moves_destroy moves_malloc_item : moves.

(** Takes apart code that moves nothing. *)
Ltac moves :=
  repeat first
    [ solve [eauto 1 with moves]
    | match goal with |- moves (_ ≫= _) _ => apply moves_then; [solve [moves]|intros ?] end
    | match goal with |- moves (update_obj _ _) _ => apply moves_update; by intros [] end
    | match goal with |- moves (on_heap _) _ => apply moves_on_heap end
    | match goal with |- moves (miter _ _) _ => apply moves_miter; intros ? end
    | match goal with |- moves (if _ then _ else _) _ => apply moves_if end
    | case_match
    | progress cbv zeta ].

Lemma moves_set_text o s : conserves (set_text o s).
Proof. unfold set_text. moves. Qed.
Lemma moves_text o : conserves (text o).
Proof. unfold text. moves. Qed.
#[export] Hint Resolve moves_set_text moves_text : moves.

Lemma moves_str_items f l acc : (∀ o, conserves (f o)) → conserves (as_str_items f l acc).
Proof. intros Hf. revert acc. induction l as [|li l IH]; intros acc; simpl; moves. Qed.

Lemma moves_as_str o : conserves (b6b_as_str o).
Proof.
  assert (∀ n o, conserves (b6b_as_str_fuel n o)) as Hn.
  { clear. induction n as [|n IH]; intros o; simpl; [moves|].
    pose proof (λ l acc, moves_str_items _ l acc IH). moves. }
  intros h. apply Hn.
Qed.
#[export] Hint Resolve moves_as_str : moves.

Lemma moves_as_float o : conserves (b6b_as_float o).
Proof. unfold b6b_as_float. moves. Qed.
#[export] Hint Resolve moves_as_float : moves.
Lemma moves_as_int o : conserves (b6b_as_int o).
Proof. unfold b6b_as_int. moves. Qed.
#[export] Hint Resolve moves_as_int : moves.

(** Objects that are made own nothing. *)
Lemma moves_new : conserves b6b_new.
Proof. by apply moves_malloc. Qed.
#[export] Hint Resolve moves_new : moves.
Lemma moves_str_new s : conserves (b6b_str_new s).
Proof. unfold b6b_str_new. moves. Qed.
Lemma moves_str_copy s : conserves (b6b_str_copy s).
Proof. apply moves_str_new. Qed.
Lemma moves_int_new i : conserves (b6b_int_new i).
Proof. unfold b6b_int_new. moves. Qed.
Lemma moves_list_new : conserves b6b_list_new.
Proof. unfold b6b_list_new. moves. Qed.
#[export] Hint Resolve moves_str_new moves_str_copy moves_int_new moves_list_new : moves.

Lemma moves_do_add l o : conserves (b6b_list_do_add l o).
Proof. unfold b6b_list_do_add. moves. Qed.
#[export] Hint Resolve moves_do_add : moves.
Lemma moves_flush l : conserves (b6b_list_flush l).
Proof. unfold b6b_list_flush. moves. Qed.
#[export] Hint Resolve moves_flush : moves.
Lemma moves_list_add l o : conserves (b6b_list_add l o).
Proof. unfold b6b_list_add. moves. Qed.
Lemma moves_add_all l os : conserves (add_all l os).
Proof. induction os as [|o os IH]; simpl; moves. Qed.
#[export] Hint Resolve moves_list_add moves_add_all : moves.
Lemma moves_list_build os : conserves (b6b_list_build os).
Proof. unfold b6b_list_build. moves. Qed.
Lemma moves_list_first l : conserves (b6b_list_first l).
Proof. unfold b6b_list_first. moves. Qed.
Lemma moves_item_obj l i : conserves (item_obj l i).
Proof. unfold item_obj. moves. Qed.
#[export] Hint Resolve moves_list_build moves_list_first moves_item_obj : moves.

Lemma moves_destroy_l o : conserves (b6b_destroy_l o).
Proof. unfold b6b_destroy_l, b6b_destroy_l_with. moves. Qed.
#[export] Hint Resolve moves_destroy_l : moves.
Lemma moves_add_tokens o ts : conserves (add_tokens o ts).
Proof. induction ts as [|t ts IH]; simpl; moves. Qed.
#[export] Hint Resolve moves_add_tokens : moves.
Lemma moves_as_list o : conserves (b6b_as_list o).
Proof. unfold b6b_as_list, b6b_do_as_list_obj. moves. Qed.
#[export] Hint Resolve moves_as_list : moves.

Lemma moves_conv c o m : parse_conv c o = Some m → conserves m.
Proof. unfold parse_conv. intros H. repeat case_decide; simplify_eq; moves. Qed.
#[export] Hint Extern 1 (moves _ _) => (eapply moves_conv; eassumption) : moves.

Lemma moves_vparse_loop fmt items ap opt n outs :
  conserves (vparse_loop fmt items ap opt n outs).
Proof.
  revert items ap opt n outs. induction fmt as [|c fmt IH]; intros; simpl; moves.
Qed.
#[export] Hint Resolve moves_vparse_loop : moves.
Lemma moves_vparse l fmt ap : conserves (b6b_list_vparse l fmt ap).
Proof. unfold b6b_list_vparse. moves. Qed.
#[export] Hint Resolve moves_vparse : moves.

Lemma moves_set_interp f : conserves (set_interp f).
Proof. intros s [] s' Hf [= <-]. split; [done|]. intros r. unfold heap_of, st_has_heap. simpl. lia. Qed.
#[export] Hint Resolve moves_set_interp : moves.
Lemma moves_fg_thread : conserves fg_thread.
Proof. unfold fg_thread. moves. Qed.
#[export] Hint Resolve moves_fg_thread : moves.
Lemma moves_set_ret o : conserves (set_ret o).
Proof. unfold set_ret, update_fg. moves. Qed.
#[export] Hint Resolve moves_set_ret : moves.
Lemma moves_return o : conserves (b6b_return o).
Proof. unfold b6b_return. moves. Qed.
#[export] Hint Resolve moves_return : moves.
Lemma moves_return_fmt s : conserves (b6b_return_fmt s).
Proof. unfold b6b_return_fmt. moves. Qed.
Lemma moves_return_str s : conserves (b6b_return_str s).
Proof. unfold b6b_return_str. moves. Qed.
Lemma moves_strerror `{Env} e : conserves (b6b_return_strerror e).
Proof. unfold b6b_return_strerror. moves. Qed.
#[export] Hint Resolve moves_return_fmt moves_return_str moves_strerror : moves.
Lemma moves_get_args l fmt ap : conserves (get_args l fmt ap).
Proof. unfold get_args, b6b_proc_get_args. moves. Qed.
#[export] Hint Resolve moves_get_args : moves.

(** ** Properties *)

(** C27: destroying objects closes exactly what they own: whatever [b6b_unref]
    brings down with it, every descriptor, stream and shared object is closed
    as often as its owners disappear, so that nothing is leaked or closed
    twice. *)
Theorem unref_closes_owned o h h' r :
  heap_fresh h → b6b_unref o h = Done (tt, h') → owed r h' = owed r h.
Proof.
  intros Hf H. destruct (moves_unref o h tt h' Hf H) as [_ E]. specialize (E r).
  unfold heap_of, heap_has_heap in E. lia.
Qed.

(** A list, the only owner of a signal stream on 5, of [poll] on 6 and of a
    stream on 7 that was closed before. *)
Definition sample_owners : heap :=
  let strm k p c := with_del D_strm (V_strm (mkStrm k p c c)) (new_str (lit "strm")) in
  mkHeap
    {[ 0%N := with_l [mkItem 9 1; mkItem 10 2; mkItem 11 3] new_list;
       1%N := strm K_signal (S_signal 5 [2]) false;
       2%N := with_del D_poll (V_num 6) (new_str (lit "poll:6"));
       3%N := strm K_sem (S_fd 7) true ]} 20
    (mkOs [] [(C_close 7, no_ans); (C_eventfd 0, ret_ans 7);
              (C_epoll_create, ret_ans 6); (C_signalfd [2], ret_ans 5)]).

Lemma unref_closes_owned_witness :
  ∃ h', b6b_unref 0 sample_owners = Done (tt, h') ∧ size (objs h') = 0%nat ∧
    fst <$> take 3 (os_log (h_os h')) =
      [C_close 6; C_close 5; C_sigprocmask false [2]] ∧
    owed (R_fd 5) h' = owed (R_fd 5) sample_owners.
Proof.
  eexists. split_and!; [vm_compute; reflexivity|vm_compute; reflexivity|vm_compute; reflexivity|].
  eapply (unref_closes_owned 0%N sample_owners); [|vm_compute; reflexivity].
  apply fresh_check_sound. vm_compute. reflexivity.
Defined.
