(* ===== verification/Owned.v ===== *)
(** * Who closes what is opened

    The procedures that open descriptors or shared objects, over the
    bookkeeping of Fds.v, and [b6b_strm_close], which closes a stream before
    the object that owns it is destroyed. *)
From Stdlib Require Import ZArith Lia Init.Byte Strings.String.
From stdpp Require Import base option list numbers gmap.
From S2P Require Import Prelude Sys Float64 Hash Parse Heap Repr ListObj Types Interp Fds.
From S2P Require Import Strm FdOps FdProcs Switch Sockets Streams Ffi.
#[local] Open Scope Z_scope.

(** ** Objects that take over a resource *)

(** A new string object becomes the owner of what [f] gives it. *)
Lemma moves_own t f :
  moves (o ← b6b_str_new t; update_obj o f;; mret o)
    (λ _ r, - count r (obj_res (f (new_str t)))).
Proof.
  intros h o h' Hf H. apply bind_Done in H as (o1 & h1 & H1 & H).
  destruct (moves_str_new t _ _ _ Hf H1) as [F1 O1].
  pose proof (str_copy_eq t h) as E. unfold b6b_str_copy in E. rewrite E in H1.
  injection H1 as <- <-. apply bind_Done in H as ([] & h2 & H2 & [= <- <-]).
  destruct (update_moves _ f _ _ (new_str t) F1 (lookup_insert_eq _ _ _) H2) as [F2 O2].
  split; [done|]. intros r. rewrite O2, O1. simpl. lia.
Qed.

Lemma on_heap_bind {A B} (m : HM A) (f : A → HM B) s :
  on_heap (m ≫= f) s = (a ← on_heap m; on_heap (f a)) s.
Proof.
  unfold on_heap, zoom, mbind, M_bind. by destruct (m (s_heap s)) as [[a h]| |].
Qed.

Lemma moves_own_return t f :
  moves (o ← on_heap (b6b_str_new t); on_heap (update_obj o f);; b6b_return o)
    (λ _ r, - count r (obj_res (f (new_str t)))).
Proof.
  intros s a s' Hf H.
  assert ((o ← on_heap (o ← b6b_str_new t; update_obj o f;; mret o); b6b_return o) s
    = Done (a, s')) as H'.
  { rewrite <- H. unfold on_heap, zoom, mbind, M_bind.
    destruct (b6b_str_new t (s_heap s)) as [[o h]| |]; [|done..].
    cbn [s_heap s_in s_tids s_err]. by destruct (update_obj o f h) as [[[] h2]| |]. }
  clear H. revert s a s' Hf H'.
  apply (moves_bind _ _ _ _ (moves_on_heap _ _ (moves_own t f))). intros o.
  eapply moves_eq; [apply moves_return|]. intros a r. simpl. lia.
Qed.

(** What a stream object that was just made owns. *)
Definition new_res (k : b6b_strm_kind) (priv : b6b_strm_priv) : list resource :=
  strm_res (mkStrm k priv false false).

Lemma moves_strm_fmt k priv type p :
  moves (b6b_strm_fmt k priv type p) (λ _ r, - count r (new_res k priv)).
Proof. unfold b6b_strm_fmt, b6b_strm_new. eapply moves_eq; [apply moves_own|done]. Qed.

(** Calls that open a descriptor, and calls that open and close nothing. *)
Lemma moves_sys_fd c :
  (∀ a, opens c a = if a_ret a <? 0 then [] else [R_fd (a_ret a)]) → closes c = [] →
  moves (sys_ret c)
    (λ x r, match x with Sys_ok fd => count r [R_fd fd] | Sys_err _ => 0 end).
Proof.
  intros Ho Hc. apply (moves_bind _ _ _ _ (moves_call c)). intros a.
  apply moves_val. intros r. cbn beta. rewrite Ho, Hc. destruct (a_ret a <? 0); simpl; lia.
Qed.

Lemma moves_plain_call c :
  (∀ a, opens c a = []) → closes c = [] → conserves (sys_call c).
Proof.
  intros Ho Hc. eapply moves_eq; [apply moves_call|]. intros a r. cbn beta. by rewrite Ho, Hc.
Qed.

Lemma moves_plain_ret c :
  (∀ a, opens c a = []) → closes c = [] → conserves (sys_ret c).
Proof. intros Ho Hc. apply moves_then; [by apply moves_plain_call|]. intros a. apply moves_ret. Qed.
#[export] Hint Extern 1 (moves (sys_call _) _) => (by apply moves_plain_call) : moves.
#[export] Hint Extern 1 (moves (sys_ret _) _) => (by apply moves_plain_ret) : moves.

Lemma moves_address : conserves sys_address.
Proof. unfold sys_address. moves. Qed.
#[export] Hint Resolve moves_address : moves.

(** A branch in which [l] is still owed, and that hands it over or closes it. *)
Lemma moves_closes {A} cs (m : M st A) l :
  opens_none cs → (∀ r, count r (concat (closes <$> cs)) = count r l) → conserves m →
  moves (on_heap (sys_note cs);; m) (λ _ r, - count r l).
Proof.
  intros Hn Hc Hm.
  apply (moves_bind _ _ _ _ (moves_on_heap _ _ (moves_note _ Hn))). intros _.
  eapply moves_eq; [exact Hm|]. intros a r. simpl. rewrite Hc. lia.
Qed.

Lemma moves_strm_return k priv type p l :
  new_res k priv = l →
  moves (o ← on_heap (b6b_strm_fmt k priv type p); b6b_return o) (λ _ r, - count r l).
Proof.
  intros <-. apply (moves_bind _ _ _ _ (moves_on_heap _ _ (moves_strm_fmt k priv type p))).
  intros o. eapply moves_eq; [apply moves_return|]. intros a r. simpl. lia.
Qed.

Section constructors.
Context `{Env}.

(** What is left to do with a descriptor that was opened, or not. *)
Lemma moves_opened {A} c (f : sysret Z → M st A) :
  (∀ a, opens c a = if a_ret a <? 0 then [] else [R_fd (a_ret a)]) → closes c = [] →
  (∀ fd, moves (f (Sys_ok fd)) (λ _ r, - count r [R_fd fd])) →
  (∀ e, conserves (f (Sys_err e))) →
  conserves (fd ← on_heap (sys_ret c); f fd).
Proof.
  intros Ho Hc Hok Herr.
  apply (moves_bind _ _ _ _ (moves_on_heap _ _ (moves_sys_fd c Ho Hc))). intros [fd|e].
  - eapply moves_eq; [apply Hok|]. intros a r. simpl. lia.
  - eapply moves_eq; [apply Herr|]. intros a r. simpl. lia.
Qed.

Ltac opened := moves; (apply moves_opened; [done|done|intros fd|intros e; solve [moves]]).

Lemma moves_sem args : conserves (b6b_sem_proc_sem args).
Proof. unfold b6b_sem_proc_sem. opened; by apply moves_strm_return. Qed.

(** A call that fails closes what was opened; otherwise [m] goes on. *)
Lemma moves_checked {A B} (c : M st (sysret A)) (f : sysret A → M st B) l :
  conserves c → (∀ e, moves (f (Sys_err e)) (λ _ r, - count r l)) →
  (∀ a, moves (f (Sys_ok a)) (λ _ r, - count r l)) →
  moves (x ← c; f x) (λ _ r, - count r l).
Proof. intros Hc He Ho. apply moves_then; [done|]. by intros []. Qed.

Lemma moves_timer args : conserves (b6b_timer_proc_timer args).
Proof.
  unfold b6b_timer_proc_timer.
  opened; (apply moves_then; [moves|intros [sec nsec]]);
    (apply moves_checked; [moves|intros e|intros _; by apply moves_strm_return]);
    (apply moves_closes; [by repeat constructor|done|moves]).
Qed.

Lemma moves_signal_loop items set : conserves (signal_loop items set).
Proof. revert set. induction items as [|li items IH]; intros set; simpl; moves. Qed.

Lemma moves_signal args : conserves (b6b_signal_proc_signal args).
Proof.
  unfold b6b_signal_proc_signal. pose proof moves_signal_loop. opened.
  apply moves_then; [moves|]. intros p. by apply moves_strm_return.
Qed.

Lemma moves_poll args : conserves (b6b_poll_proc_poll args).
Proof.
  unfold b6b_poll_proc_poll. opened; (eapply moves_eq; [apply moves_own_return|done]).
Qed.

Lemma moves_dlopen args : conserves (b6b_ffi_proc_dlopen args).
Proof.
  unfold b6b_ffi_proc_dlopen. assert (conserves dlerror) by (unfold dlerror; moves).
  moves; (eapply moves_bind; [apply moves_on_heap, moves_call|intros ans]);
    (destruct (a_ret ans =? 0) eqn:E;
      [eapply moves_eq; [moves|]|eapply moves_eq; [apply moves_own_return|]];
      intros a' r; simpl; rewrite E; simpl; lia).
Qed.

(** *** Sockets *)

Lemma moves_socket_new fd addr peer type k :
  new_res k (S_socket (default A_unspec peer) addr fd) = [R_fd fd] →
  moves (b6b_socket_new fd addr peer type k) (λ _ r, - count r [R_fd fd]).
Proof.
  intros <-. apply moves_then; [moves|]. intros p. apply moves_strm_fmt.
Qed.

(** The kinds of sockets, all of which own their descriptor. *)
Definition is_socket (k : b6b_strm_kind) : bool :=
  match k with
  | K_tcp_client | K_udp_client | K_un_stream_client | K_un_dgram_client
  | K_tcp_server | K_udp_server | K_un_stream_server | K_un_dgram_server => true
  | _ => false
  end.

Lemma socket_res k peer addr fd :
  is_socket k = true → new_res k (S_socket peer addr fd) = [R_fd fd].
Proof. by destruct k, addr. Qed.

Lemma moves_new_some fd addr peer type k :
  is_socket k = true →
  moves (o ← on_heap (b6b_socket_new fd addr peer type k); mret (Some o))
    (λ _ r, - count r [R_fd fd]).
Proof.
  intros Hk. eapply moves_bind.
  - apply moves_on_heap, moves_socket_new. by apply socket_res.
  - intros o. eapply moves_eq; [apply moves_ret|]. intros a r. simpl. lia.
Qed.

Lemma moves_bail fd e :
  moves (on_heap (sys_note [C_close fd]);; b6b_return_strerror e;; mret (@None loc))
    (λ _ r, - count r [R_fd fd]).
Proof. apply moves_closes; [by repeat constructor|done|moves]. Qed.

Lemma moves_client_new res socktype k type :
  is_socket k = true → conserves (b6b_socket_client_new res socktype k type).
Proof.
  intros Hk. unfold b6b_socket_client_new. opened.
  apply moves_then; [moves|intros c]. apply moves_if; [apply moves_bail|].
  apply moves_then; [moves|intros g]. apply moves_if; [apply moves_bail|].
  by apply moves_new_some.
Qed.

Lemma moves_server_new res socktype backlog k1 k2 type :
  is_socket k1 = true → is_socket k2 = true →
  conserves (b6b_server_socket_new res socktype backlog k1 k2 type).
Proof.
  intros H1 H2. unfold b6b_server_socket_new. apply moves_if; [moves|]. cbv zeta.
  apply moves_opened; [done|done|intros fd|intros e; moves].
  do 3 (apply moves_checked; [moves|intros e; apply moves_bail|intros _]).
  apply moves_new_some. by destruct (socktype =? SOCK_DGRAM).
Qed.

Lemma moves_accept fd k type :
  is_socket k = true → conserves (b6b_socket_stream_accept fd k type).
Proof.
  intros Hk. eapply moves_bind; [apply moves_on_heap, moves_call|intros a].
  destruct (a_ret a <? 0) eqn:E.
  - eapply moves_eq; [moves|]. intros x r. simpl. rewrite E. simpl. lia.
  - eapply moves_eq; [|intros x r; simpl; rewrite E; reflexivity].
    eapply moves_bind.
    + apply moves_on_heap, moves_socket_new. by apply socket_res.
    + intros o. eapply moves_eq; [apply moves_ret|]. intros x r. simpl. lia.
Qed.

Lemma moves_return_opt o : conserves (return_opt o).
Proof. unfold return_opt. moves. Qed.

#[local] Hint Resolve moves_return_opt : moves.
#[local] Hint Extern 1 (moves (b6b_socket_client_new _ _ _ _) _) =>
  (by apply moves_client_new) : moves.
#[local] Hint Extern 1 (moves (b6b_server_socket_new _ _ _ _ _ _) _) =>
  (by apply moves_server_new) : moves.

Lemma moves_un_client args : conserves (b6b_socket_proc_un_client args).
Proof. unfold b6b_socket_proc_un_client. moves. Qed.

Lemma moves_un_server args : conserves (b6b_socket_proc_un_server args).
Proof. unfold b6b_socket_proc_un_server. moves. Qed.

(** The two ends of a pair. *)
Lemma moves_pair_objs fd0 fd1 k :
  is_socket k = true →
  moves (a ← on_heap (b6b_socket_new fd0 A_unspec None (lit "un.client") k);
         b ← on_heap (b6b_socket_new fd1 A_unspec None (lit "un.client") k);
         l ← on_heap (b6b_list_build [a; b]);
         on_heap (miter b6b_unref [b; a]);;
         b6b_return l) (λ _ r, - count r [R_fd fd0; R_fd fd1]).
Proof.
  intros Hk. eapply moves_bind; [apply moves_on_heap, moves_socket_new; by apply socket_res|].
  intros a. eapply moves_bind; [apply moves_on_heap, moves_socket_new; by apply socket_res|].
  intros b. eapply moves_eq; [moves|]. intros x r. simpl. lia.
Qed.

Lemma moves_un_pair args : conserves (b6b_socket_proc_un_pair args).
Proof.
  assert (∀ socktype k, is_socket k = true → conserves
    (a ← on_heap (sys_call (C_socketpair socktype));
     if a_ret a <? 0 then b6b_return_strerror (a_errno a)
     else
       match a_nums a with
       | [fd0; fd1] =>
           a ← on_heap (b6b_socket_new fd0 A_unspec None (lit "un.client") k);
           b ← on_heap (b6b_socket_new fd1 A_unspec None (lit "un.client") k);
           l ← on_heap (b6b_list_build [a; b]);
           on_heap (miter b6b_unref [b; a]);;
           b6b_return l
       | _ => oof
       end)) as Hp.
  { intros socktype k Hk. eapply moves_bind; [apply moves_on_heap, moves_call|intros a].
    destruct (a_ret a <? 0) eqn:E.
    - eapply moves_eq; [moves|]. intros x r. simpl. rewrite E. simpl. lia.
    - destruct (a_nums a) as [|fd0 [|fd1 [|]]] eqn:En; try apply moves_oof.
      eapply moves_eq; [by apply moves_pair_objs|]. intros x r. simpl. rewrite E, En. simpl. lia. }
  unfold b6b_socket_proc_un_pair. cbv zeta. moves; by apply Hp.
Qed.
End constructors.

(** ** Closing a stream *)

Section closing.
Context {env : Env}.

(** The state with another heap. *)
Definition st_heap (h : heap) (s : st) : st := mkSt h (s_in s) (s_tids s) (s_err s).

Lemma st_heap_id s : st_heap (s_heap s) s = s.
Proof. by destruct s. Qed.

(** What [ops->close] does when nothing else can run. *)
Definition close_now (p : b6b_strm) : HM unit :=
  sys_note (close_calls p);; miter b6b_unref (close_refs p).

Lemma close_nothing s : lift (on_heap (sys_note [];; mret tt)) s = Ret tt s.
Proof.
  unfold lift, on_heap, zoom, mbind, M_bind. simpl. fold (noted [] (s_heap s)).
  rewrite noted_nil. by destruct s.
Qed.

Lemma stdio_close_eq n o p fp fd s :
  get_strm o (s_heap s) = Done (p, s_heap s) →
  (∀ cs, get_strm o (noted cs (s_heap s)) = Done (p, noted cs (s_heap s))) →
  strm_priv p = S_stdio fp fd → b6b_threaded (s_in s) = false →
  b6b_stdio_close n o s = lift (on_heap (sys_note [C_fclose fp];; mret tt)) s.
Proof.
  intros Hg Hgn Hp Ht.
  assert (∀ h, get_strm o h = Done (p, h) → stdio_fp o h = Done (fp, h)) as Hfp.
  { intros h Hh. unfold stdio_fp. rewrite (bind_eq _ _ _ _ _ Hh). by rewrite Hp. }
  unfold b6b_stdio_close, b6b_offload, hp, lift, on_heap, zoom, mbind, IM_bind, M_bind. simpl.
  rewrite (Hfp _ Hg). simpl. rewrite Ht. simpl. fold (noted [C_fclose fp] (s_heap s)).
  by rewrite (Hfp _ (Hgn _)).
Qed.

(** The operation of each table. *)
Lemma close_op_eq n o p s s1 ops :
  get_strm o (s_heap s) = Done (p, s_heap s) →
  (∀ cs, get_strm o (noted cs (s_heap s)) = Done (p, noted cs (s_heap s))) →
  b6b_threaded (s_in s) = false → ops_of n o p s = Ret ops s1 →
  s1 = s ∧ match op_close ops with Some close => close | None => mret tt end s
    = lift (on_heap (close_now p)) s.
Proof.
  intros Hg Hgn Ht Ho. destruct p as [k priv c e]. unfold ops_of in Ho. simpl in Ho.
  destruct k, priv as [fd|fp fd|pid fd|fd set|pr ad fd|]; try discriminate Ho;
    injection Ho as <- <-; (split; [done|]); unfold close_now; simpl;
    try (by rewrite close_nothing); try (by eapply stdio_close_eq).
  1,2: unfold b6b_sh_close, lift, on_heap, zoom, mbind, M_bind; simpl;
    by destruct (b6b_unref pid _) as [[[] h]| |].
  all: done.
Qed.

Lemma get_strm_eq o x p h :
  objs h !! o = Some x → o_priv x = V_strm p → get_strm o h = Done (p, h).
Proof.
  intros Hx Hp. unfold get_strm. rewrite (bind_eq _ _ _ _ _ (read_obj_eq _ _ _ Hx)).
  by rewrite Hp.
Qed.

Lemma close_calls_open_none p : opens_none (close_calls p).
Proof. unfold opens_none, close_calls. repeat case_match; repeat constructor. Qed.

Lemma moves_close_now p :
  moves (close_now p) (λ _ r, - count r (strm_res p)).
Proof.
  apply (moves_bind _ _ _ _ (moves_note _ (close_calls_open_none p))). intros _.
  eapply moves_eq; [moves|]. intros a r. rewrite <- close_calls_res. simpl. lia.
Qed.

Lemma close_now_shrinks p h h' :
  close_now p h = Done (tt, h') → shrinks (objs h) (objs h').
Proof.
  intros H. apply bind_Done in H as ([] & h1 & [= <-] & H).
  exact (miter_only_shrinks _ _ _ _ unref_only_shrinks H).
Qed.

(** The stream is marked closed and owns nothing from then on. *)
Lemma close_done_moves o x p h h' :
  heap_fresh h → objs h !! o = Some x → o_del x = D_strm → o_priv x = V_strm p →
  strm_closed p = false → strm_close_done o h = Done (tt, h') →
  (∀ r, owed r h' = owed r h + count r (strm_res p)) ∧ h_os h' = h_os h ∧
  ∃ x' p', objs h' !! o = Some x' ∧ o_del x' = D_strm ∧ o_priv x' = V_strm p' ∧
    strm_closed p' = true.
Proof.
  intros Hf Hx Hd Hp Hc H. unfold strm_close_done, set_strm in H.
  rewrite (bind_eq _ _ _ _ _ (get_strm_eq _ _ _ _ Hx Hp)) in H. split_and!.
  - intros r. destruct (update_moves _ _ _ _ _ Hf Hx H) as [_ ->].
    unfold obj_res. simpl. rewrite Hd, Hp, Hc. simpl. lia.
  - by apply update_obj_inv in H as (y & Hy & [= ->]).
  - apply update_obj_inv in H as (y & Hy & [= ->]). simpl. simplify_eq.
    rewrite lookup_insert_eq. eexists _, _. by split_and!.
Qed.

Lemma close_closed n o x p s :
  objs (s_heap s) !! o = Some x → o_priv x = V_strm p → strm_closed p = true →
  b6b_strm_close n o s = Ret tt s.
Proof.
  intros Hx Hp Hc. unfold b6b_strm_close, hp, lift, on_heap, zoom, mbind, IM_bind.
  rewrite (get_strm_eq _ _ _ _ Hx Hp). simpl. rewrite Hc. by destruct s.
Qed.

Lemma hp_bind_inv {A B} (m : HM A) (f : A → IM B) s b s' :
  (hp m ≫= f) s = Ret b s' →
  ∃ a h, m (s_heap s) = Done (a, h) ∧ f a (st_heap h s) = Ret b s'.
Proof.
  unfold hp, lift, on_heap, zoom, mbind, IM_bind.
  destruct (m (s_heap s)) as [[a h]| |]; simpl; [|done..]. eauto.
Qed.

(** The run of a close that was not done before. *)
Lemma strm_close_inv n o x p s s' :
  objs (s_heap s) !! o = Some x → o_priv x = V_strm p → strm_closed p = false →
  b6b_threaded (s_in s) = false → b6b_strm_close n o s = Ret tt s' →
  ∃ h h', close_now p (s_heap s) = Done (tt, h) ∧ strm_close_done o h = Done (tt, h') ∧
    s' = st_heap h' s.
Proof.
  intros Hx Hp Hc Ht H. unfold b6b_strm_close in H.
  apply hp_bind_inv in H as (q & h0 & Hg & H).
  rewrite (get_strm_eq _ _ _ _ Hx Hp) in Hg. injection Hg as <- <-.
  rewrite st_heap_id, Hc in H.
  unfold mbind at 1, IM_bind at 1 in H. destruct (ops_of n o p s) as [ops s1| | |] eqn:Ho;
    simpl in H; [|done..| ].
  2: { unfold ops_of in Ho. by repeat case_match. }
  destruct (close_op_eq n o p s s1 ops) as [-> E]; [..|done|done|];
    [by eapply get_strm_eq|intros cs; by eapply get_strm_eq|].
  unfold mbind at 1, IM_bind at 1 in H. rewrite E in H. unfold lift, on_heap, zoom in H.
  destruct (close_now p (s_heap s)) as [[[] h]| |] eqn:E1; simpl in H; [|done..].
  unfold hp, lift, on_heap, zoom in H. simpl in H.
  destruct (strm_close_done o h) as [[[] h']| |] eqn:E2; [|done..]. injection H as <-.
  by exists h, h'.
Qed.
End closing.

(** ** Properties *)

(** The procedures that open descriptors or shared objects, do not switch
    threads, and leak nothing. Two that open are missing, since it does not hold
    of them: [sh] leaks the ends of its pipes when [pipe2] or [fork] fails, and
    [open] closes a file twice when its stream cannot be made (see IoScripts.v).
    The TCP and UDP sockets switch threads while a name is resolved. *)
Definition openers `{Env} : list (loc → M st b6b_res) :=
  [b6b_sem_proc_sem; b6b_timer_proc_timer; b6b_signal_proc_signal; b6b_poll_proc_poll;
   b6b_socket_proc_un_client; b6b_socket_proc_un_server; b6b_socket_proc_un_pair;
   b6b_ffi_proc_dlopen].

Lemma openers_conserve `{Env} : Forall (λ p, ∀ args, conserves (p args)) openers.
Proof.
  unfold openers. repeat (apply Forall_cons_2; [intros args|]); [| | | | | | | |apply Forall_nil_2].
  - apply moves_sem.
  - apply moves_timer.
  - apply moves_signal.
  - apply moves_poll.
  - apply moves_un_client.
  - apply moves_un_server.
  - apply moves_un_pair.
  - apply moves_dlopen.
Qed.

(** C12: [sem], [timer], [signal], [poll], [un.client], [un.server], [un.pair] and
    [ffi.dlopen] leak nothing and close nothing twice on every path that
    returns, whichever of their system calls fail: what was opened is owned by
    an object of the heap, or was closed. *)
Theorem openers_leak_nothing `{Env} p args s a s' r :
  p ∈ openers → heap_fresh (s_heap s) → p args s = Done (a, s') →
  owed r (s_heap s') = owed r (s_heap s).
Proof.
  intros Hp Hf Hr. pose proof (proj1 (Forall_forall _ _) openers_conserve p Hp args) as Hm.
  destruct (Hm _ _ _ Hf Hr) as [_ E]. specialize (E r). unfold heap_of, st_has_heap in E. lia.
Qed.

(** C28: closing a stream by name, when the interpreter has no other thread, makes
    exactly the calls that its destruction would have made, in the same order
    (so that it unlinks and unblocks what the destructor would), and leaves
    nothing for it: afterwards the object owns nothing, what it owned was closed
    exactly once, and another close does nothing. *)
Theorem strm_close_once `{Env} n o x p s s' :
  heap_fresh (s_heap s) → objs (s_heap s) !! o = Some x → o_del x = D_strm →
  o_priv x = V_strm p → b6b_threaded (s_in s) = false → b6b_strm_close n o s = Ret tt s' →
  (∃ h, b6b_strm_del b6b_unref p (s_heap s) = Done (tt, h) ∧ h_os (s_heap s') = h_os h) ∧
  (∀ r, owed r (s_heap s') = owed r (s_heap s)) ∧
  (∃ x', objs (s_heap s') !! o = Some x' ∧ obj_res x' = []) ∧
  b6b_strm_close n o s' = Ret tt s'.
Proof.
  intros Hf Hx Hd Hp Ht Hr. unfold b6b_strm_del. destruct (strm_closed p) eqn:Hc.
  { pose proof (close_closed n o x p s Hx Hp Hc) as Hs. assert (s' = s) as -> by congruence.
    split_and!; [by eexists|done| |done]. exists x. split; [done|]. unfold obj_res.
    by rewrite Hd, Hp, Hc. }
  destruct (strm_close_inv n o x p s s' Hx Hp Hc Ht Hr) as (h & h' & E1 & E2 & ->).
  destruct (moves_close_now p (s_heap s) tt h Hf E1) as [F1 O1].
  destruct (objs h !! o) as [y|] eqn:Hy.
  2: { unfold strm_close_done, get_strm, read_obj, mbind, M_bind in E2. by rewrite Hy in E2. }
  destruct (close_now_shrinks _ _ _ E1 o y Hy) as (x1 & Hx1 & Hyx). simplify_eq.
  assert (o_del y = D_strm ∧ o_priv y = V_strm p) as [Hdy Hpy] by (rewrite Hyx; done).
  destruct (close_done_moves o y p h h' F1 Hy Hdy Hpy Hc E2)
    as (O2 & Hos & x' & p' & Hx' & Hd' & Hp' & Hc').
  split_and!.
  - by exists h.
  - intros r. simpl. rewrite O2, O1. unfold heap_of, heap_has_heap. lia.
  - exists x'. split; [done|]. unfold obj_res. by rewrite Hd', Hp', Hc'.
  - by eapply close_closed.
Qed.

(** *** Witnesses *)

(** [un.pair stream], with the answers of the system. *)
Definition sample_pair (l : list ans) : st :=
  mkSt (mkHeap (<[21%N := with_l [mkItem 24 22; mkItem 25 23] new_list]>
          (<[22%N := new_str (lit "un.pair")]> (<[23%N := new_str (lit "stream")]>
            (objs (s_heap sample_state))))) 30 (mkOs l []))
    (s_in sample_state) (s_tids sample_state) (s_err sample_state).

Lemma openers_leak_nothing_witness :
  let s := sample_pair [mkAns 0 0 [] [7; 8] []; ret_ans 4096; ret_ans 8192] in
  ∃ s', b6b_socket_proc_un_pair (H := sample_env) 21 s = Done (B6B_OK, s') ∧
    balance (R_fd 7) (os_log (h_os (s_heap s'))) = 1 ∧
    owed (R_fd 7) (s_heap s') = owed (R_fd 7) (s_heap s).
Proof.
  eexists. split_and!; [vm_compute; reflexivity|vm_compute; reflexivity|].
  apply (openers_leak_nothing (H := sample_env) (b6b_socket_proc_un_pair (H := sample_env)) 21%N
    (sample_pair [mkAns 0 0 [] [7; 8] []; ret_ans 4096; ret_ans 8192]) B6B_OK).
  - do 6 apply list_elem_of_further. apply list_elem_of_here.
  - apply fresh_check_sound. vm_compute. reflexivity.
  - vm_compute. reflexivity.
Defined.

(** A file, whose [FILE *] is 4096. *)
Definition sample_file : b6b_obj :=
  with_del D_strm (V_strm (mkStrm K_ro_file (S_stdio 4096 3) false false))
    (new_str (lit "file:1000")).
Definition sample_open : st :=
  mkSt (mkHeap (<[21%N := sample_file]> (objs (s_heap sample_state))) 30
      (mkOs [] [(C_fopen (lit "f") (lit "r"), ret_ans 4096)]))
    (s_in sample_state) (s_tids sample_state) (s_err sample_state).

Lemma strm_close_once_witness :
  ∃ s', b6b_strm_close (H := sample_env) 9 21 sample_open = Ret tt s' ∧
    head (os_log (h_os (s_heap s'))) = Some (C_fclose 4096, no_ans) ∧
    (∃ h, b6b_strm_del b6b_unref (mkStrm K_ro_file (S_stdio 4096 3) false false)
        (s_heap sample_open) = Done (tt, h) ∧ h_os (s_heap s') = h_os h) ∧
    (∀ r, owed r (s_heap s') = owed r (s_heap sample_open)) ∧
    (∃ x', objs (s_heap s') !! 21%N = Some x' ∧ obj_res x' = []) ∧
    b6b_strm_close (H := sample_env) 9 21 s' = Ret tt s'.
Proof.
  eexists. split; [vm_compute; reflexivity|]. split; [reflexivity|].
  apply (strm_close_once (H := sample_env) 9 21%N sample_file
    (mkStrm K_ro_file (S_stdio 4096 3) false false) sample_open).
  - apply fresh_check_sound. vm_compute. reflexivity.
  - vm_compute. reflexivity.
  - reflexivity.
  - reflexivity.
  - reflexivity.
  - vm_compute. reflexivity.
Defined.
