(* ===== verification/Ledger.v ===== *)
(** * A ledger of references

    Reference counting, as bookkeeping: [due o] is the number of references to
    [o] that are counted but held neither by an object of the heap nor by the
    interpreter, so those that the running code holds. Every piece of code has a
    fixed effect on it, whatever the heap looks like: what makes an object
    returns one reference, [b6b_return] takes one over, a conversion keeps all.
    Code that leaves the ledger as it is neither leaks a reference nor drops one
    that is not its own. *)
From Stdlib Require Import ZArith Lia Init.Byte Strings.Byte Strings.String.
From stdpp Require Import base option list numbers gmap.
From S2P Require Import Prelude Sys Float64 Hash Parse Heap Repr ListObj Dict Types Offload Interp.
#[local] Open Scope Z_scope.

(** ** Ledgers *)

(** [l_fine] is the invariant of the states, [l_due] the entries, and [l_knows]
    a fact about an address that never ceases to hold. *)
Class Ledger (S : Type) : Type := {
  l_fine : S → Prop;
  l_due : S → loc → Z;
  l_knows : S → loc → Prop
}.

(** From a state in which the facts [Γ] hold, a run of [m] with the result [a]
    changes every entry [o] by [d a o], keeps all facts and establishes those
    of [Γ' a]. *)
Definition changes {S} `{Ledger S} {A} (Γ : list loc) (m : M S A) (d : A → loc → Z)
    (Γ' : A → list loc) : Prop :=
  ∀ s a s', l_fine s → Forall (l_knows s) Γ → m s = Done (a, s') →
    l_fine s' ∧ (∀ o, l_due s' o = l_due s o + d a o) ∧
    (∀ o, l_knows s o → l_knows s' o) ∧ Forall (l_knows s') (Γ' a).

(** The same, from the state [s] only. *)
Definition changes_at {S} `{Ledger S} {A} (s : S) (Γ : list loc) (m : M S A)
    (d : A → loc → Z) (Γ' : A → list loc) : Prop :=
  ∀ a s', l_fine s → Forall (l_knows s) Γ → m s = Done (a, s') →
    l_fine s' ∧ (∀ o, l_due s' o = l_due s o + d a o) ∧
    (∀ o, l_knows s o → l_knows s' o) ∧ Forall (l_knows s') (Γ' a).

Abbreviation nothing := (λ _ _, 0).
Abbreviation no_facts := (λ _, []).

(** [m] changes nothing, and learns nothing. *)
Abbreviation keeps Γ m := (changes Γ m nothing no_facts).

Section rules.
Context {S : Type} `{Ledger S}.

Lemma changes_weaken {A} Γ1 Γ2 (m : M S A) d1 d2 Γ1' Γ2' :
  changes Γ1 m d1 Γ1' → Γ1 ⊆ Γ2 → (∀ a o, d1 a o = d2 a o) → (∀ a, Γ2' a ⊆ Γ1' a ++ Γ2) →
  changes Γ2 m d2 Γ2'.
Proof.
  intros Hm HΓ Hd HΓ' s a s' Hf Hk E. rewrite Forall_forall in Hk.
  destruct (Hm s a s' Hf) as (F & D & K & N); [apply Forall_forall; auto|done|].
  split_and!; [done| |done|].
  - intros o. by rewrite D, Hd.
  - rewrite Forall_forall in N |- *. intros o [Ho|Ho]%HΓ'%elem_of_app; auto.
Qed.

Lemma changes_conseq {A} Γ (m : M S A) d1 d2 Γ1 Γ2 :
  changes Γ m d1 Γ1 → (∀ a o, d1 a o = d2 a o) → (∀ a, Γ2 a ⊆ Γ1 a ++ Γ) → changes Γ m d2 Γ2.
Proof. intros Hm. by apply (changes_weaken _ _ _ _ _ _ _ Hm). Qed.

Lemma changes_bind {A B} Γ (m : M S A) (f : A → M S B) d1 Γ1 d Γ2 :
  changes Γ m d1 Γ1 → (∀ a, changes (Γ1 a ++ Γ) (f a) (λ b o, d b o - d1 a o) Γ2) →
  changes Γ (m ≫= f) d Γ2.
Proof.
  intros Hm Hf s b s' Hfi Hk E. apply bind_Done in E as (a & s1 & E1 & E2).
  destruct (Hm _ _ _ Hfi Hk E1) as (F1 & D1 & K1 & N1).
  assert (Forall (l_knows s1) (Γ1 a ++ Γ)) as Hk1.
  { apply Forall_app. split; [done|]. by eapply Forall_impl. }
  destruct (Hf a _ _ _ F1 Hk1 E2) as (F2 & D2 & K2 & N2).
  split_and!; [done| |auto|done]. intros o. rewrite D2, D1. lia.
Qed.

(** The first part changes nothing. *)
Lemma changes_then {A B} Γ (m : M S A) (f : A → M S B) Γ1 d Γ2 :
  changes Γ m nothing Γ1 → (∀ a, changes (Γ1 a ++ Γ) (f a) d Γ2) →
  changes Γ (m ≫= f) d Γ2.
Proof.
  intros Hm Hf. eapply changes_bind; [exact Hm|]. intros a.
  eapply changes_weaken; [apply Hf|done| |set_solver]. intros b o. simpl. lia.
Qed.

Lemma changes_ret {A} Γ (a : A) (d : A → loc → Z) Γ' :
  (∀ o, d a o = 0) → Γ' a ⊆ Γ → changes Γ (mret (M := M S) a) d Γ'.
Proof.
  intros Hd HΓ s b s' Hf Hk [= <- <-]. split_and!; [done| |done|].
  - intros o. rewrite Hd. lia.
  - rewrite Forall_forall in Hk |- *. auto.
Qed.

Lemma keeps_ret {A} Γ (a : A) : keeps Γ (mret (M := M S) a).
Proof. apply changes_ret; [done|apply list_subseteq_nil]. Qed.
Lemma changes_ub {A} Γ d Γ' : changes Γ (@ub S A) d Γ'.
Proof. by intros ? ? ? ? ? [=]. Qed.
Lemma changes_oof {A} Γ d Γ' : changes Γ (@oof S A) d Γ'.
Proof. by intros ? ? ? ? ? [=]. Qed.
Lemma keeps_get Γ : keeps Γ (@get S).
Proof. intros s a s' Hf Hk [= <- <-]. split_and!; [done| |done|done]. intros o. lia. Qed.
Lemma keeps_deref {A} Γ (x : option A) : keeps Γ (@deref S A x).
Proof. destruct x; [apply keeps_ret|apply changes_ub]. Qed.
Lemma keeps_lift_out {A} Γ (x : out A) : keeps Γ (@lift_out S A x).
Proof. destruct x; [apply keeps_ret|apply changes_ub|apply changes_oof]. Qed.

Lemma changes_if {A} Γ (b : bool) (m1 m2 : M S A) d Γ' :
  changes Γ m1 d Γ' → changes Γ m2 d Γ' → changes Γ (if b then m1 else m2) d Γ'.
Proof. by destruct b. Qed.

Lemma changes_deref {A B} Γ (x : option A) (f : A → M S B) d Γ' :
  (∀ a, x = Some a → changes Γ (f a) d Γ') → changes Γ (deref x ≫= f) d Γ'.
Proof. destruct x as [a|]; intros Hf; [by apply Hf|by intros ? ? ? ? ? [=]]. Qed.

Lemma changes_from {A} s Γ (m : M S A) d Γ' : changes Γ m d Γ' → changes_at s Γ m d Γ'.
Proof. intros Hm a s'. apply Hm. Qed.

Lemma keeps_weaken {A} Γ (m : M S A) : keeps [] m → keeps Γ m.
Proof. intros Hm. eapply changes_weaken; [exact Hm|set_solver|done|set_solver]. Qed.
End rules.

(** The number of times [o] is in [l]. *)
Definition refs (l : list loc) (o : loc) : Z := Z.of_nat (occ o l).

Lemma refs_nil o : refs [] o = 0.
Proof. done. Qed.
Lemma refs_cons p l o : refs (p :: l) o = refs [p] o + refs l o.
Proof. unfold refs. simpl. lia. Qed.
Lemma refs_two p q l o : refs (p :: q :: l) o = refs [p] o + refs (q :: l) o.
Proof. apply refs_cons. Qed.
Lemma refs_app l1 l2 o : refs (l1 ++ l2) o = refs l1 o + refs l2 o.
Proof. unfold refs. rewrite occ_app. lia. Qed.

Lemma changes_miter {S} `{Ledger S} Γ (f : loc → M S unit) l :
  (∀ p, changes Γ (f p) (λ _ o, - refs [p] o) no_facts) →
  changes Γ (miter f l) (λ _ o, - refs l o) no_facts.
Proof.
  intros Hf. induction l as [|p l IH]; simpl; [by apply keeps_ret|].
  eapply changes_bind; [apply Hf|]. intros []. eapply changes_weaken; [apply IH|set_solver| |set_solver].
  intros [] o. rewrite refs_cons. lia.
Qed.

(** ** The heap *)

(** What holds of every object between two operations: its count is positive,
    its destructor fits, its nodes are different and, like the objects they
    refer to, were given out by [malloc]. *)
Record obj_shape (n : N) (x : b6b_obj) : Prop := {
  sh_del : del_ok x;
  sh_ids : NoDup (li_id <$> o_l x);
  sh_old : ∀ it, it ∈ o_l x → (li_id it < n)%N ∧ (li_o it < n)%N
}.

Record heap_shape (h : heap) : Prop := {
  hs_fresh : heap_fresh h;
  hs_obj : ∀ o x, objs h !! o = Some x → obj_shape (next h) x
}.

Record heap_fine (h : heap) : Prop := {
  hf_shape : heap_shape h;
  hf_pos : ∀ o x, objs h !! o = Some x → 0 < o_refc x
}.

(** [o] is a list as long as it is there. *)
Definition listy (h : heap) (o : loc) : Prop :=
  (o < next h)%N ∧ ∀ x, objs h !! o = Some x → f_list (o_flags x) = true.

Definition counted (m : gmap loc b6b_obj) (o : loc) : Z := from_option o_refc 0 (m !! o).

(** The references to [o] that no object of the heap holds. *)
Definition heap_due (m : gmap loc b6b_obj) (o : loc) : Z := counted m o - Z.of_nat (heap_refs m o).

#[export] Instance heap_ledger : Ledger heap := {|
  l_fine := heap_fine;
  l_due h := heap_due (objs h);
  l_knows := listy
|}.

(** ** Updates of objects *)

Lemma counted_insert m o x p :
  counted (<[o := x]> m) p = if decide (o = p) then o_refc x else counted m p.
Proof. unfold counted. rewrite lookup_insert. by case_decide. Qed.

Lemma due_insert m o x x' p :
  m !! o = Some x →
  heap_due (<[o := x']> m) p =
    heap_due m p + (if decide (o = p) then o_refc x' - o_refc x else 0)
      + refs (refs_of x) p - refs (refs_of x') p.
Proof.
  intros Hx. unfold heap_due, refs. pose proof (heap_refs_insert m o x x' p Hx) as E.
  rewrite counted_insert. case_decide as Ho; [|lia]. subst p.
  assert (counted m o = o_refc x) as -> by (unfold counted; by rewrite Hx). lia.
Qed.

Lemma due_new m o x p :
  m !! o = None →
  heap_due (<[o := x]> m) p =
    heap_due m p + (if decide (o = p) then o_refc x else 0) - refs (refs_of x) p.
Proof.
  intros Hx. unfold heap_due, refs. rewrite (heap_refs_insert_None m o x p Hx).
  rewrite counted_insert. case_decide as Ho; [|lia]. subst p.
  assert (counted m o = 0) as -> by (unfold counted; by rewrite Hx). lia.
Qed.

Lemma due_delete m o x p :
  m !! o = Some x →
  heap_due (delete o m) p =
    heap_due m p - (if decide (o = p) then o_refc x else 0) + refs (refs_of x) p.
Proof.
  intros Hx. unfold heap_due, refs. rewrite (heap_refs_delete m o x p Hx).
  unfold counted. destruct (decide (o = p)) as [->|Hne].
  - rewrite lookup_delete_eq, Hx. simpl. lia.
  - rewrite lookup_delete_ne by done. lia.
Qed.

Lemma shape_mono n n' x : obj_shape n x → (n ≤ n')%N → obj_shape n' x.
Proof.
  intros [Hd Hi Ho] Hn. split; [done|done|]. intros it Hit. destruct (Ho it Hit). lia.
Qed.

Lemma heap_shape_insert h o x x' n s :
  heap_shape h → objs h !! o = Some x → (next h ≤ n)%N → obj_shape n x' →
  heap_shape (mkHeap (<[o := x']> (objs h)) n s).
Proof.
  intros [Hf Hs] Hx Hn Hx'. split; [by eapply fresh_insert|]. simpl. intros p y.
  rewrite lookup_insert. case_decide; [by intros [= <-]|]. intros Hy.
  eapply shape_mono; [by eapply Hs|done].
Qed.

Lemma listy_insert h o x x' n s p :
  listy h p → objs h !! o = Some x → (next h ≤ n)%N →
  (f_list (o_flags x) = true → f_list (o_flags x') = true) →
  listy (mkHeap (<[o := x']> (objs h)) n s) p.
Proof.
  intros [Hp Hl] Hx Hn Hf. split; simpl; [lia|]. intros y. rewrite lookup_insert.
  case_decide; [|apply Hl]. subst p. intros [= <-]. auto.
Qed.

(** The updates that keep the ledger: those of cached values. *)
Record same_refs (x x' : b6b_obj) : Prop := {
  sr_refs : refs_of x' = refs_of x;
  sr_refc : o_refc x' = o_refc x;
  sr_list : o_l x' = o_l x;
  sr_del : del_fits x' = del_fits x;
  sr_flag : f_list (o_flags x') = f_list (o_flags x)
}.

Lemma keeps_update Γ o f : (∀ x, same_refs x (f x)) → keeps Γ (update_obj o f).
Proof.
  intros Hsame h [] h' [Hs Hp] Hk (x & Hx & [= ->])%update_obj_inv.
  destruct (Hsame x) as [Hr Hc Hl Hd Hf]. split_and!; [| | |done].
  - split.
    + eapply heap_shape_insert; [done|done|done|]. destruct (hs_obj _ Hs o x Hx) as [A1 A2 A3].
      split; [by unfold del_ok; rewrite Hd|by rewrite Hl|by rewrite Hl].
    + simpl. intros p y. rewrite lookup_insert. case_decide; [|by apply Hp].
      intros [= <-]. rewrite Hc. by eapply Hp.
  - intros p. simpl. rewrite (due_insert _ _ _ _ _ Hx), Hr, Hc. case_decide; lia.
  - intros p Hpl. eapply listy_insert; [done|done|done|]. by rewrite Hf.
Qed.

Lemma keeps_read Γ o : keeps Γ (read_obj o).
Proof.
  intros h x h' Hf Hk [-> _]%read_obj_inv. split_and!; [done| |done|done]. intros p. lia.
Qed.

(** [malloc] of an object that holds no references. *)
Lemma changes_malloc Γ x :
  refs_of x = [] → o_refc x = 1 → del_ok x → o_l x = [] →
  changes Γ (malloc_obj x) (λ o, refs [o])
    (λ o, if f_list (o_flags x) then [o] else []).
Proof.
  intros Hr Hc Hd Hl h o h' [[Hf Hs] Hp] Hk [= <- <-].
  pose proof (fresh_none h Hf) as Hn. split_and!.
  - split; [split|]; simpl.
    + intros p Hpp. simpl in *. destruct (decide (p = next h)) as [->|Hne]; [lia|].
      rewrite lookup_insert_ne in Hpp by done. specialize (Hf p Hpp). lia.
    + intros p y. rewrite lookup_insert. case_decide.
      * intros [= <-]. split; [done|by rewrite Hl; constructor|]. rewrite Hl.
        by intros it ?%not_elem_of_nil.
      * intros Hy. eapply shape_mono; [by eapply Hs|lia].
    + intros p y. rewrite lookup_insert. case_decide; [|by apply Hp].
      intros [= <-]. lia.
  - intros p. simpl. rewrite (due_new _ _ _ _ Hn), Hr, Hc. unfold refs. simpl.
    case_decide; lia.
  - intros p [Hlt Hlp]. split; simpl; [lia|]. intros y. rewrite lookup_insert_ne by lia. apply Hlp.
  - destruct (f_list (o_flags x)) eqn:E; [|done]. repeat constructor; simpl; [lia|].
    intros y. rewrite lookup_insert_eq. by intros [= <-].
Qed.

Lemma changes_ref Γ o : changes Γ (b6b_ref o) (λ _, refs [o]) no_facts.
Proof.
  intros h p h' [Hs Hp] Hk E. unfold b6b_ref in E.
  apply bind_Done in E as (x & h1 & [-> Hx]%read_obj_inv & E).
  destruct (o_refc x <? 0); [done|].
  apply bind_Done in E as ([] & h1 & E1 & [= <- <-]).
  apply update_obj_inv in E1 as (y & Hy & [= ->]). simplify_eq. split_and!; [| | |done].
  - split.
    + eapply heap_shape_insert; [done|done|done|]. by destruct (hs_obj _ Hs o x Hx).
    + simpl. intros q y. rewrite lookup_insert. case_decide; [|by apply Hp].
      intros [= <-]. simpl. pose proof (Hp o x Hx). lia.
  - intros q. simpl. rewrite (due_insert _ _ _ _ _ Hx).
    change (refs_of (with_refc (o_refc x + 1) x)) with (refs_of x). unfold refs. simpl.
    case_decide; lia.
  - intros q Hq. by eapply listy_insert.
Qed.

(** ** Dropping references *)

(** Objects that are being destroyed have the count zero; nothing touches them
    until they are freed. *)
Definition pos_but (Z : list loc) (m : gmap loc b6b_obj) : Prop :=
  ∀ o x, m !! o = Some x → (o ∈ Z ∧ o_refc x = 0) ∨ (o ∉ Z ∧ 0 < o_refc x).

(** What [b6b_unref] guarantees on any heap, where the objects [Z] are being
    destroyed: they stay, and one reference is gone. *)
Definition drops (unref : loc → HM unit) : Prop :=
  ∀ Z o h h', pos_but Z (objs h) → unref o h = Done (tt, h') →
    pos_but Z (objs h') ∧ next h' = next h ∧
    (∀ z x, z ∈ Z → objs h !! z = Some x → objs h' !! z = Some x) ∧
    ∀ p, heap_due (objs h') p = heap_due (objs h) p - refs [o] p.

Lemma miter_drops unref l Z h h' :
  drops unref → pos_but Z (objs h) → miter unref l h = Done (tt, h') →
  pos_but Z (objs h') ∧ next h' = next h ∧
  (∀ z x, z ∈ Z → objs h !! z = Some x → objs h' !! z = Some x) ∧
  ∀ p, heap_due (objs h') p = heap_due (objs h) p - refs l p.
Proof.
  intros Hu. revert h. induction l as [|o l IH]; intros h Hp H; simpl in H.
  { injection H as <-. split_and!; [done|done|auto|]. intros p. rewrite refs_nil. lia. }
  apply bind_Done in H as ([] & h1 & H1 & H2).
  destruct (Hu Z o h h1 Hp H1) as (P1 & N1 & K1 & D1).
  destruct (IH h1 P1 H2) as (P2 & N2 & K2 & D2).
  split_and!; [done|congruence|auto|]. intros p. rewrite D2, D1, (refs_cons o l). lia.
Qed.

Lemma drop_all_drops unref x Z h h' :
  drops unref → pos_but Z (objs h) → drop_all unref x h = Done (tt, h') →
  pos_but Z (objs h') ∧ next h' = next h ∧
  (∀ z y, z ∈ Z → objs h !! z = Some y → objs h' !! z = Some y) ∧
  ∀ p, heap_due (objs h') p = heap_due (objs h) p - refs (refs_of x) p.
Proof.
  unfold drop_all. intros Hu Hp H. apply bind_Done in H as ([] & h1 & H1 & H).
  apply bind_Done in H as ([] & h2 & [= <-] & H).
  destruct (miter_drops _ _ _ _ _ Hu Hp H1) as (P1 & N1 & K1 & D1).
  destruct (miter_drops unref (priv_refs x) Z (noted (del_calls x) h1) h' Hu P1 H) as (P2 & N2 & K2 & D2).
  split_and!; [done|by rewrite N2|by auto|]. intros p. rewrite D2. simpl. rewrite D1.
  unfold refs_of. rewrite refs_app. lia.
Qed.

(** The object with the count zero is destroyed with the references it holds. *)
Lemma destroy_drops unref o x Z h h' :
  drops unref → objs h !! o = Some x → pos_but (o :: Z) (objs h) → o ∉ Z →
  b6b_destroy_with unref o h = Done (tt, h') →
  pos_but Z (objs h') ∧ next h' = next h ∧
  (∀ z y, z ∈ Z → objs h !! z = Some y → objs h' !! z = Some y) ∧
  ∀ p, heap_due (objs h') p = heap_due (objs h) p.
Proof.
  intros Hu Hx Hp Hn H. assert (o_refc x = 0) as Hz.
  { destruct (Hp o x Hx) as [[_ ?]|[Hni _]]; [done|]. destruct Hni. by left. }
  pose proof (destroy_del_ok _ _ _ _ _ H Hx) as Hd.
  rewrite (destroy_with_eq _ _ _ _ Hx Hd) in H. apply bind_Done in H as ([] & h1 & H1 & H).
  destruct (drop_all_drops _ _ _ _ _ Hu Hp H1) as (P1 & N1 & K1 & D1).
  pose proof (K1 o x ltac:(by left) Hx) as Hx1. rewrite (free_obj_eq _ _ _ Hx1) in H.
  injection H as <-. split_and!; simpl; [|done| |].
  - intros p y [Hne Hy]%lookup_delete_Some. destruct (P1 p y Hy) as [[Hi ?]|[Hi ?]].
    + left. split; [|done]. by apply elem_of_cons in Hi as [->|].
    + right. split; [|done]. intros ?. apply Hi. by right.
  - intros z y Hi Hy. rewrite lookup_delete_ne by congruence. apply K1; [by right|done].
  - intros p. rewrite (due_delete _ _ _ _ Hx1), D1, Hz. case_decide; lia.
Qed.

Lemma unref_fuel_drops n : drops (b6b_unref_fuel n).
Proof.
  induction n as [|n IH]; intros Z o h h' Hp H; [done|]. simpl in H.
  apply bind_Done in H as (x & h1 & [-> Hx]%read_obj_inv & H).
  destruct (Z.leb_spec (o_refc x) 0); [done|].
  apply bind_Done in H as ([] & h1 & H1 & H).
  apply update_obj_inv in H1 as (y & Hy & [= ->]). simplify_eq.
  set (x1 := with_refc (o_refc x - 1) x) in *.
  set (h1 := mkHeap (<[o := x1]> (objs h)) (next h) (h_os h)) in *.
  assert (o ∉ Z) as Hn by (destruct (Hp o x Hx) as [[_ ?]|[? _]]; [lia|done]).
  assert (∀ p, heap_due (<[o := x1]> (objs h)) p = heap_due (objs h) p - refs [o] p) as Hd.
  { intros p. rewrite (due_insert _ _ _ _ _ Hx). change (refs_of x1) with (refs_of x).
    unfold refs. simpl. case_decide; lia. }
  assert (∀ z y, z ∈ Z → objs h !! z = Some y → <[o := x1]> (objs h) !! z = Some y) as Hk.
  { intros z y Hz Hy. by rewrite lookup_insert_ne by congruence. }
  destruct (Z.eqb_spec (o_refc x - 1) 0) as [Hz|Hz].
  - assert (pos_but (o :: Z) (<[o := x1]> (objs h))) as Hp1.
    { intros p y. rewrite lookup_insert. case_decide as Ho.
      - subst p. intros [= <-]. left. split; [by left|done].
      - intros Hy. destruct (Hp p y Hy) as [[? ?]|[? ?]]; [left|right]; split; try done;
          [by right|by apply not_elem_of_cons]. }
    destruct (destroy_drops _ o x1 Z h1 h' IH (lookup_insert_eq _ _ _) Hp1 Hn H) as (P & N & K & D).
    split_and!; [done|by rewrite N|auto|]. intros p. by rewrite D.
  - injection H as <-. split_and!; simpl; [|done|done|done]. intros p y. rewrite lookup_insert.
    case_decide as Ho; [|by apply Hp]. subst p. intros [= <-]. right. split; [done|]. simpl. lia.
Qed.

Lemma shrinks_shape h h' :
  heap_shape h → shrinks (objs h) (objs h') → next h' = next h → heap_shape h'.
Proof.
  intros [Hf Hs] Hsh Hn. split.
  - intros o [x Hx]. rewrite Hn. apply Hf. destruct (Hsh o x Hx) as (y & Hy & _). by eexists.
  - intros o x Hx. destruct (Hsh o x Hx) as (y & Hy & Hr). rewrite Hn.
    destruct (Hs o y Hy) as [A1 A2 A3]. rewrite Hr. by split.
Qed.

Lemma shrinks_listy h h' o :
  shrinks (objs h) (objs h') → next h' = next h → listy h o → listy h' o.
Proof.
  intros Hsh Hn [Ho Hl]. split; [by rewrite Hn|]. intros x Hx.
  destruct (Hsh o x Hx) as (y & Hy & ->). exact (Hl _ Hy).
Qed.

Lemma changes_unref Γ o : changes Γ (b6b_unref o) (λ _ p, - refs [o] p) no_facts.
Proof.
  intros h [] h' [Hs Hp] Hk H. unfold b6b_unref in H.
  assert (pos_but [] (objs h)) as Hp'.
  { intros p x Hx. right. split; [apply not_elem_of_nil|by eapply Hp]. }
  destruct (unref_fuel_drops _ _ _ _ _ Hp' H) as (P & N & _ & D).
  pose proof (unref_fuel_only_shrinks _ _ _ _ H) as Hsh.
  split_and!; [|intros p; simpl; rewrite D; lia| |done].
  - split; [by eapply shrinks_shape|]. intros p x Hx.
    destruct (P p x Hx) as [[Hi _]|[_ ?]]; [by apply not_elem_of_nil in Hi|done].
  - intros p. by apply shrinks_listy.
Qed.

(** ** Automation *)

#[global] Arguments refs : simpl never.

Create HintDb refs.
Create HintDb lists.
#[export] Hint Extern 1 (_ ∈ _) => set_solver : refs.
#[export] Hint Resolve keeps_ret keeps_get keeps_deref keeps_lift_out keeps_read changes_ref
  changes_unref changes_ub changes_oof : refs.

#[export] Hint Extern 1 (changes _ (update_obj _ _) _ _) => (apply keeps_update; by split) : refs.

(** The entries of the two sides are equal, and facts are known. *)
Ltac entries := intros; cbn beta iota; rewrite ?refs_two, ?refs_nil; lia.
Ltac known := intros; cbn beta iota; first [apply list_subseteq_nil | set_solver].

Ltac change_tail :=
  eapply changes_conseq; [solve [eauto 3 with refs]|entries|known].

(** Walks through code; what it calls is in the hints. *)
Ltac change_step :=
  first
    [ match goal with |- changes _ (mret _) _ _ => apply changes_ret; [entries|known] end
    | match goal with |- changes _ ub _ _ => apply changes_ub end
    | match goal with |- changes _ oof _ _ => apply changes_oof end
    | match goal with |- changes _ (update_obj _ _) _ _ => apply keeps_update; by split end
    | match goal with |- changes _ (deref ?x ≫= _) _ _ =>
        is_var x; apply changes_deref; intros ? -> end
    | match goal with |- changes _ (_ ≫= _) _ _ =>
        first [ eapply changes_bind; [solve [eauto 3 with refs]|intros ?]
              | eapply changes_then; [solve [repeat change_step]|intros ?] ] end
    | change_tail
    | match goal with |- changes _ (if _ then _ else _) _ _ => apply changes_if end
    | case_match
    | progress (cbv zeta; cbn beta iota) ].
Ltac changes := repeat change_step.

(** ** Conversions *)

Lemma keeps_set_text Γ o s : keeps Γ (set_text o s).
Proof. unfold set_text. changes. Qed.
Lemma keeps_text Γ o : keeps Γ (text o).
Proof. unfold text. changes. Qed.
#[export] Hint Resolve keeps_set_text keeps_text : refs.

Lemma keeps_str_items Γ f l acc : (∀ Γ o, keeps Γ (f o)) → keeps Γ (as_str_items f l acc).
Proof.
  intros Hf. revert Γ acc. induction l as [|li l IH]; intros Γ acc; simpl; changes.
Qed.

Lemma keeps_as_str Γ o : keeps Γ (b6b_as_str o).
Proof.
  assert (∀ n Γ o, keeps Γ (b6b_as_str_fuel n o)) as Hn.
  { clear. induction n as [|n IH]; intros Γ o; simpl; [changes|].
    pose proof (λ Γ l acc, keeps_str_items Γ _ l acc IH). changes. }
  intros h. apply Hn.
Qed.
#[export] Hint Resolve keeps_as_str : refs.

Lemma keeps_as_float Γ o : keeps Γ (b6b_as_float o).
Proof. unfold b6b_as_float. changes. Qed.
#[export] Hint Resolve keeps_as_float : refs.
Lemma keeps_as_int Γ o : keeps Γ (b6b_as_int o).
Proof. unfold b6b_as_int. changes. Qed.
Lemma keeps_obj_hash Γ o : keeps Γ (b6b_obj_hash o).
Proof. unfold b6b_obj_hash. changes. Qed.
Lemma keeps_obj_eq Γ a b : keeps Γ (obj_eq_at a b).
Proof. unfold obj_eq_at. changes. Qed.
#[export] Hint Resolve keeps_as_int keeps_obj_hash keeps_obj_eq : refs.

(** ** New objects *)

Lemma changes_str_copy Γ s : changes Γ (b6b_str_copy s) (λ o, refs [o]) no_facts.
Proof.
  intros h o h' Hf Hk H. rewrite str_copy_eq in H.
  eapply (changes_malloc Γ (new_str s)); [done..|exact H].
Qed.
Lemma changes_str_new Γ s : changes Γ (b6b_str_new s) (λ o, refs [o]) no_facts.
Proof. apply changes_str_copy. Qed.
#[export] Hint Resolve changes_str_copy changes_str_new : refs.

Lemma changes_int_new Γ i : changes Γ (b6b_int_new i) (λ o, refs [o]) no_facts.
Proof.
  intros h o h' Hf Hk H. rewrite int_new_eq in H.
  eapply (changes_malloc Γ (new_int i)); [done..|exact H].
Qed.

(** [b6b_new] and the updates that make it a float or a list. *)
Lemma new_eq f g h :
  (o ← b6b_new; update_obj o f;; update_obj o g;; mret o) h = malloc_obj (g (f new_obj)) h.
Proof.
  unfold b6b_new, malloc_obj.
  erewrite bind_eq by reflexivity.
  erewrite bind_eq by (apply update_obj_eq; simpl; apply lookup_insert_eq).
  erewrite bind_eq by (apply update_obj_eq; simpl; apply lookup_insert_eq).
  simpl. by rewrite !insert_insert_eq.
Qed.

Lemma changes_float_new Γ f : changes Γ (b6b_float_new f) (λ o, refs [o]) no_facts.
Proof.
  intros h o h' Hf Hk H. unfold b6b_float_new in H. rewrite new_eq in H.
  eapply (changes_malloc Γ (new_float f)); [done..|exact H].
Qed.

Lemma changes_list_new Γ : changes Γ b6b_list_new (λ o, refs [o]) (λ o, [o]).
Proof.
  intros h o h' Hf Hk H. unfold b6b_list_new in H. rewrite new_eq in H.
  eapply (changes_malloc Γ new_list); [done..|exact H].
Qed.
#[export] Hint Resolve changes_int_new changes_float_new changes_list_new : refs.

(** ** Lists *)

Lemma with_l_changes h l x items :
  heap_fine h → objs h !! l = Some x → NoDup (li_id <$> items) →
  (∀ it, it ∈ items → (li_id it < next h)%N ∧ (li_o it < next h)%N) →
  let h' := mkHeap (<[l := with_l items x]> (objs h)) (next h) (h_os h) in
  heap_fine h' ∧
  (∀ p, heap_due (objs h') p =
     heap_due (objs h) p + refs (list_refs x) p - refs (list_refs (with_l items x)) p) ∧
  (∀ o, listy h o → listy h' o).
Proof.
  intros [Hs Hp] Hx Hi Ho h'. split_and!.
  - split.
    + eapply heap_shape_insert; [done|done|done|]. destruct (hs_obj _ Hs l x Hx). by split.
    + simpl. intros q y. rewrite lookup_insert. case_decide; [|by apply Hp].
      intros [= <-]. by apply (Hp l x).
  - intros q. simpl. rewrite (due_insert _ _ _ _ _ Hx). unfold refs_of. rewrite !refs_app.
    change (priv_refs (with_l items x)) with (priv_refs x). simpl. case_decide; lia.
  - intros o Hl. by eapply listy_insert.
Qed.

Lemma fine_next h n :
  heap_fine h → (next h ≤ n)%N → heap_fine (mkHeap (objs h) n (h_os h)).
Proof.
  intros [[Hf Hs] Hp] Hn. split; [split|done]; simpl.
  - intros o Ho. specialize (Hf o Ho). simpl. lia.
  - intros o x Hx. eapply shape_mono; [by eapply Hs|done].
Qed.

Lemma ref_inv o h a h' :
  b6b_ref o h = Done (a, h') →
  ∃ y, objs h !! o = Some y ∧
    h' = mkHeap (<[o := with_refc (o_refc y + 1) y]> (objs h)) (next h) (h_os h).
Proof.
  intros E. unfold b6b_ref in E. apply bind_Done in E as (x & h1 & [-> Hx]%read_obj_inv & E).
  destruct (o_refc x <? 0); [done|].
  apply bind_Done in E as ([] & h1 & E1 & [= <- <-]).
  apply update_obj_inv in E1 as (y & Hy & [= ->]). simplify_eq. by exists x.
Qed.

(** A node is added, whether the object is a list yet or not. *)
Lemma do_add_changes l o h b h' :
  heap_fine h → b6b_list_do_add l o h = Done (b, h') →
  heap_fine h' ∧ (∀ p, listy h p → listy h' p) ∧
  ∃ x x' i, objs h !! l = Some x ∧ objs h' !! l = Some x' ∧
    o_l x' = o_l x ++ [mkItem i o] ∧ f_list (o_flags x') = f_list (o_flags x) ∧
    ∀ p, heap_due (objs h') p =
      heap_due (objs h) p + (if f_list (o_flags x) then 0 else refs [o] p).
Proof.
  intros Hf H. unfold b6b_list_do_add in H. apply bind_Done in H as (li & h1 & [= <- <-] & H).
  apply bind_Done in H as (r & h2 & H2 & H). apply bind_Done in H as ([] & h3 & H3 & [= <- <-]).
  set (h1 := mkHeap (objs h) (N.succ (next h)) (h_os h)) in *.
  assert (heap_fine h1) as F1 by (apply fine_next; [done|lia]).
  destruct (changes_ref [] o h1 _ _ F1 (Forall_nil_2 _) H2) as (F2 & D2 & K2 & _).
  apply ref_inv in H2 as (y & Hy & ->). apply update_obj_inv in H3 as (x & Hx & [= ->]).
  assert (∃ z, objs h !! l = Some z ∧ o_l x = o_l z ∧ o_flags x = o_flags z) as (z & Hz & El & Ef).
  { simpl in Hx, Hy. rewrite lookup_insert in Hx. case_decide.
    - injection Hx as <-. subst l. by exists y.
    - by exists x. }
  destruct (hs_obj _ (hf_shape _ Hf) l z Hz) as [_ Hi Ho]. rewrite <- El in Hi, Ho.
  destruct (with_l_changes _ l x (o_l x ++ [mkItem (next h) o]) F2 Hx) as (F3 & D3 & K3).
  - rewrite fmap_app. apply NoDup_app. split_and!; [done| |apply NoDup_singleton].
    intros i (it & -> & Hit)%list_elem_of_fmap Hii. apply list_elem_of_singleton in Hii.
    destruct (Ho it Hit). simpl in Hii. lia.
  - simpl. intros it [Hit|Hit]%elem_of_app; [destruct (Ho it Hit); lia|].
    apply list_elem_of_singleton in Hit as ->. simpl. split; [lia|].
    assert (o < next h)%N; [|lia]. apply (hs_fresh _ (hf_shape _ Hf)). by eexists.
  - split_and!; [done| |].
    + intros p [Hp1 Hp2]. apply K3, K2. split; [simpl; lia|done].
    + exists z, (with_l (o_l x ++ [mkItem (next h) o]) x), (next h).
      split_and!; [done|apply lookup_insert_eq|by simpl; rewrite El|by simpl; rewrite Ef|].
      intros p. rewrite D3. simpl in D2 |- *. rewrite D2, <- Ef.
      unfold list_refs. simpl. destruct (f_list (o_flags x)); [|rewrite refs_nil; lia].
      rewrite fmap_app, refs_app. simpl. lia.
Qed.

Lemma knows_list Γ l h : l ∈ Γ → Forall (l_knows h) Γ → listy h l.
Proof. intros Hl Hk. exact (proj1 (Forall_forall _ _) Hk l Hl). Qed.

Lemma keeps_do_add Γ l o : l ∈ Γ → keeps Γ (b6b_list_do_add l o).
Proof.
  intros Hl h b h' Hf Hk H.
  destruct (do_add_changes _ _ _ _ _ Hf H) as (F & K & x & x' & i & Hx & _ & _ & _ & D).
  split_and!; [done| |done|done].
  intros p. simpl. rewrite D, (proj2 (knows_list _ _ _ Hl Hk) x Hx). lia.
Qed.

Lemma keeps_flush Γ l : keeps Γ (b6b_list_flush l).
Proof. unfold b6b_list_flush. changes. Qed.
#[export] Hint Resolve keeps_flush : refs.
#[export] Hint Resolve keeps_do_add : refs.

Lemma keeps_list_add Γ l o : l ∈ Γ → keeps Γ (b6b_list_add l o).
Proof. intros Hl. unfold b6b_list_add. changes. Qed.
#[export] Hint Resolve keeps_list_add : refs.

Lemma keeps_add_all Γ l os : l ∈ Γ → keeps Γ (add_all l os).
Proof. intros Hl. revert Γ Hl. induction os as [|o os IH]; intros Γ Hl; simpl; changes. Qed.
#[export] Hint Resolve keeps_add_all : refs.

Lemma changes_list_build Γ os : changes Γ (b6b_list_build os) (λ l, refs [l]) (λ l, [l]).
Proof. unfold b6b_list_build. changes. Qed.
Lemma changes_list_copy Γ l : changes Γ (b6b_list_copy l) (λ l2, refs [l2]) (λ l2, [l2]).
Proof. unfold b6b_list_copy. changes. Qed.
#[export] Hint Resolve changes_list_build changes_list_copy : refs.

Lemma keeps_list_first Γ l : keeps Γ (b6b_list_first l).
Proof. unfold b6b_list_first. changes. Qed.
Lemma keeps_item_obj Γ l i : keeps Γ (item_obj l i).
Proof. unfold item_obj. changes. Qed.
Lemma keeps_list_next Γ l i : keeps Γ (b6b_list_next l i).
Proof. unfold b6b_list_next. changes. Qed.
#[export] Hint Resolve keeps_list_first keeps_item_obj keeps_list_next : refs.

Lemma keeps_extend_loop Γ n l l2 li : l ∈ Γ → keeps Γ (extend_loop n l l2 li).
Proof.
  revert Γ li. induction n as [|n IH]; intros Γ li Hl; destruct li as [i|]; simpl; changes.
Qed.
#[export] Hint Resolve keeps_extend_loop : refs.

Lemma keeps_extend Γ l l2 : l ∈ Γ → keeps Γ (b6b_list_extend l l2).
Proof. intros Hl. unfold b6b_list_extend. changes. Qed.
#[export] Hint Resolve keeps_extend : refs.

(** *** Removing *)

Lemma find_item_split i l it rest :
  find_item i l = Some (it, rest) → ∃ front, l = front ++ it :: rest ∧ li_id it = i.
Proof.
  induction l as [|li l IH]; simpl; [done|]. case_decide as Hi.
  - intros [= -> ->]. by exists [].
  - intros (front & -> & Hid)%IH. by exists (li :: front).
Qed.

(** A node goes; its reference is the program's. *)
Lemma remove_changes Γ l x it h h' u :
  heap_fine h → Forall (listy h) Γ → l ∈ Γ → objs h !! l = Some x → it ∈ o_l x →
  b6b_list_remove l (li_id it) h = Done (u, h') →
  heap_fine h' ∧ (∀ p, heap_due (objs h') p = heap_due (objs h) p + refs [li_o it] p) ∧
  (∀ o, listy h o → listy h' o).
Proof.
  intros Hf Hk Hl Hx (i1 & i2 & Hit)%list_elem_of_split H.
  destruct (hs_obj _ (hf_shape _ Hf) l x Hx) as [_ Hnd Hold].
  pose proof (proj2 (knows_list _ _ _ Hl Hk) x Hx) as Hlist.
  apply update_obj_inv in H as (y & Hy & [= -> ->]). simplify_eq.
  assert (filter (λ a, li_id a ≠ li_id it) (o_l x) = i1 ++ i2) as E.
  { rewrite Hit in Hnd |- *. by apply filter_item_at. }
  rewrite E. destruct (with_l_changes h l x (i1 ++ i2) Hf Hx) as (F & D & K).
  - rewrite Hit, fmap_app, fmap_cons in Hnd. rewrite fmap_app.
    apply NoDup_app in Hnd as (N1 & N2 & [_ N3]%NoDup_cons). apply NoDup_app.
    split_and!; [done| |done]. intros a Ha Hb. apply (N2 a Ha). by right.
  - intros a Ha. apply Hold. rewrite Hit. set_solver.
  - split_and!; [done| |done]. intros p. rewrite D. unfold list_refs. simpl. rewrite Hlist, Hit.
    rewrite !fmap_app, fmap_cons, !refs_app, (refs_cons (li_o it)). lia.
Qed.

Lemma changes_list_pop Γ l li :
  l ∈ Γ →
  changes Γ (b6b_list_pop l li) (λ r, match r with Some o => refs [o] | None => refs [] end)
    no_facts.
Proof.
  intros Hl h r h' Hf Hk H. unfold b6b_list_pop in H.
  apply bind_Done in H as (x & h0 & [-> Hx]%read_obj_inv & H).
  destruct (match li with Some i => Some i | None => li_id <$> last (o_l x) end) as [i|].
  2: { injection H as <- <-. split_and!; [done| |done|done]. intros o. rewrite refs_nil. simpl. lia. }
  apply bind_Done in H as (o & h0 & H0 & H). unfold item_obj in H0.
  rewrite (bind_eq _ _ _ _ _ (read_obj_eq _ _ _ Hx)) in H0.
  destruct (find_item i (o_l x)) as [[it rest]|] eqn:E; [|done]. injection H0 as <- <-.
  apply find_item_split in E as (front & Hfr & <-).
  apply bind_Done in H as ([] & h1 & H1 & H). apply bind_Done in H as ([] & h2 & H2 & H).
  injection H as <- <-.
  destruct (remove_changes Γ l x it h h1 tt Hf Hk Hl Hx) as (F1 & D1 & K1).
  { rewrite Hfr. apply elem_of_app. right. by left. }
  { exact H1. }
  destruct (keeps_flush [] l h1 tt h2 F1 (Forall_nil_2 _) H2) as (F2 & D2 & K2 & _).
  split_and!; [done| | |done].
  - intros p. rewrite D2. simpl. rewrite D1. lia.
  - intros p Hp. by apply K2, K1.
Qed.
#[export] Hint Resolve changes_list_pop : refs.

(** ** To a list *)

(** The object is no list yet, so that the references of its items do not
    count: when it is done, they will. *)
Definition items_at (h : heap) (o : loc) (items : list b6b_litem) : Prop :=
  ∃ x, objs h !! o = Some x ∧ f_list (o_flags x) = false ∧ o_l x = items.

Lemma give_token_changes o t items h h' :
  heap_fine h → items_at h o items →
  (item ← b6b_str_copy t; b6b_list_do_add o item;; b6b_unref item) h = Done (tt, h') →
  heap_fine h' ∧ (∀ p, listy h p → listy h' p) ∧
  ∃ it, items_at h' o (items ++ [it]) ∧
    ∀ p, heap_due (objs h') p = heap_due (objs h) p + refs [li_o it] p.
Proof.
  intros Hf (x & Hx & Hl & Hi) H. apply bind_Done in H as (it & h1 & H1 & H).
  apply bind_Done in H as (b & h2 & H2 & H).
  destruct (changes_str_copy [] t h it h1 Hf (Forall_nil_2 _) H1) as (F1 & D1 & K1 & _).
  rewrite str_copy_eq in H1. injection H1 as <- <-.
  destruct (do_add_changes _ _ _ _ _ F1 H2) as (F2 & K2 & x1 & x2 & i & Hx1 & Hx2 & Hi2 & Hl2 & D2).
  assert (o ≠ next h) as Hne.
  { intros ->. by rewrite (fresh_none h (hs_fresh _ (hf_shape _ Hf))) in Hx. }
  simpl in Hx1. rewrite lookup_insert_ne in Hx1 by done. simplify_eq.
  destruct (do_add_refc _ _ (new_str t) _ _ _ H2) as (y & Hy & Hr); [apply lookup_insert_eq|].
  destruct (changes_unref [] (next h) h2 tt h' F2 (Forall_nil_2 _) H) as (F3 & D3 & K3 & _).
  rewrite (unref_shared _ _ _ Hy) in H by (rewrite Hr; simpl; lia). injection H as <-.
  split_and!; [done|by intros p Hp; apply K3, K2, K1|]. exists (mkItem i (next h)). split.
  - exists x2. simpl. rewrite lookup_insert_ne by done. by rewrite Hl2.
  - intros p. pose proof (D3 p) as E. simpl in D1, D2, E |- *. rewrite E, D2, Hl, D1. lia.
Qed.

Lemma add_tokens_changes o ts items h h' :
  heap_fine h → items_at h o items → add_tokens o ts h = Done (tt, h') →
  heap_fine h' ∧ (∀ p, listy h p → listy h' p) ∧
  ∃ new, items_at h' o (items ++ new) ∧
    ∀ p, heap_due (objs h') p = heap_due (objs h) p + refs (li_o <$> new) p.
Proof.
  revert items h. induction ts as [|t ts IH]; intros items h Hf Hi H; simpl in H.
  { injection H as <-. split_and!; [done|done|]. exists []. rewrite app_nil_r. split; [done|].
    intros p. simpl. rewrite refs_nil. lia. }
  assert (((item ← b6b_str_copy t; b6b_list_do_add o item;; b6b_unref item) ;;
    add_tokens o ts) h = Done (tt, h')) as H'.
  { rewrite bind_assoc. revert H. unfold mbind, M_bind. destruct (b6b_str_copy t h) as [[it h1]| |]; [|done..].
    destruct (b6b_list_do_add o it h1) as [[b h2]| |]; [|done..].
    by destruct (b6b_unref it h2) as [[[] h3]| |]. }
  apply bind_Done in H' as ([] & h1 & H1 & H2).
  destruct (give_token_changes _ _ _ _ _ Hf Hi H1) as (F1 & K1 & it & I1 & D1).
  destruct (IH _ h1 F1 I1 H2) as (F2 & K2 & new & I2 & D2).
  split_and!; [done|by intros p Hp; apply K2, K1|]. exists (it :: new).
  rewrite <- app_assoc in I2. split; [done|]. intros p.
  rewrite D2, D1. change (li_o <$> it :: new) with (li_o it :: (li_o <$> new)).
  rewrite (refs_cons (li_o it) (_ <$> _)). lia.
Qed.

(** From here on the items of [o] count. *)
Lemma set_list_changes o items h h' :
  heap_fine h → items_at h o items →
  update_obj o (with_flags (set_list true)) h = Done (tt, h') →
  heap_fine h' ∧ (∀ p, listy h p → listy h' p) ∧ listy h' o ∧
  ∀ p, heap_due (objs h') p = heap_due (objs h) p - refs (li_o <$> items) p.
Proof.
  intros Hf (x & Hx & Hl & Hi) (y & Hy & [= ->])%update_obj_inv. simplify_eq. split_and!.
  - split.
    + eapply heap_shape_insert; [apply Hf|done|done|].
      by destruct (hs_obj _ (hf_shape _ Hf) o x Hx).
    + simpl. intros p y. rewrite lookup_insert. case_decide; [|by apply Hf].
      intros [= <-]. exact (hf_pos _ Hf o x Hx).
  - intros p Hp. by eapply listy_insert.
  - split; simpl; [apply (hs_fresh _ (hf_shape _ Hf)); by eexists|].
    rewrite lookup_insert_eq. by intros y [= <-].
  - intros p. simpl. rewrite (due_insert _ _ _ _ _ Hx). unfold refs_of, list_refs. simpl. rewrite Hl.
    change (priv_refs (with_flags (set_list true) x)) with (priv_refs x).
    rewrite !refs_app, refs_nil. case_decide; lia.
Qed.

(** *** Code that changes no list *)

(** Every object of [m'] was in [m], with the same nodes and the same mark. *)
Definition same_lists (m m' : gmap loc b6b_obj) : Prop :=
  ∀ o x', m' !! o = Some x' → ∃ x, m !! o = Some x ∧ o_l x' = o_l x ∧
    f_list (o_flags x') = f_list (o_flags x).

#[export] Instance same_lists_preorder : PreOrder same_lists.
Proof.
  split; [by intros m o x ?; exists x|].
  intros m1 m2 m3 H12 H23 o z Hz. destruct (H23 o z Hz) as (y & Hy & E1 & E2).
  destruct (H12 o y Hy) as (x & Hx & E3 & E4). exists x. split_and!; [done|congruence..].
Qed.

Definition leaves_lists {A} (m : HM A) : Prop :=
  ∀ h a h', m h = Done (a, h') → same_lists (objs h) (objs h').

Lemma ll_ret {A} (a : A) : leaves_lists (mret a).
Proof. by intros h b h' [= _ <-]. Qed.
Lemma ll_oof {A} : leaves_lists (@oof heap A).
Proof. by intros ? ? ? [=]. Qed.
Lemma ll_bind {A B} (m : HM A) (f : A → HM B) :
  leaves_lists m → (∀ a, leaves_lists (f a)) → leaves_lists (m ≫= f).
Proof.
  intros Hm Hf h b h' E. apply bind_Done in E as (a & h1 & E1 & E2).
  etransitivity; [by eapply Hm|by eapply Hf].
Qed.
Lemma ll_read o : leaves_lists (read_obj o).
Proof. by intros h x h' [-> _]%read_obj_inv. Qed.
Lemma ll_update o f :
  (∀ x, o_l (f x) = o_l x ∧ f_list (o_flags (f x)) = f_list (o_flags x)) →
  leaves_lists (update_obj o f).
Proof.
  intros Hf h u h' (x & Hx & [= _ ->])%update_obj_inv p y. simpl. rewrite lookup_insert.
  case_decide; [|by exists y]. subst p. intros [= <-]. by exists x.
Qed.
Lemma ll_unref o : leaves_lists (b6b_unref o).
Proof.
  intros h [] h' H. apply unref_fuel_only_shrinks in H. intros p y Hy.
  destruct (H p y Hy) as (x & Hx & ->). by exists x.
Qed.
#[export] Hint Resolve ll_ret ll_oof ll_read ll_unref : lists.

Ltac leaves :=
  repeat first
    [ match goal with |- leaves_lists (_ ≫= _) => apply ll_bind; [|intros ?] end
    | match goal with |- leaves_lists (update_obj _ _) => apply ll_update; by split end
    | solve [eauto 1 with lists]
    | case_match ].

Lemma ll_set_text o s : leaves_lists (set_text o s).
Proof. unfold set_text. leaves. Qed.
Lemma ll_text o : leaves_lists (text o).
Proof. unfold text. leaves. Qed.
#[export] Hint Resolve ll_set_text ll_text : lists.

Lemma ll_str_items f l acc : (∀ o, leaves_lists (f o)) → leaves_lists (as_str_items f l acc).
Proof. intros Hf. revert acc. induction l as [|li l IH]; intros acc; simpl; leaves. Qed.

Lemma ll_as_str o : leaves_lists (b6b_as_str o).
Proof.
  assert (∀ n o, leaves_lists (b6b_as_str_fuel n o)) as Hn.
  { clear. induction n as [|n IH]; intros o; simpl; [leaves|].
    pose proof (λ l acc, ll_str_items _ l acc IH). leaves. }
  intros h. apply Hn.
Qed.
#[export] Hint Resolve ll_as_str : lists.
Lemma ll_obj_hash o : leaves_lists (b6b_obj_hash o).
Proof. unfold b6b_obj_hash. leaves. Qed.
Lemma ll_obj_eq a b : leaves_lists (obj_eq_at a b).
Proof. unfold obj_eq_at. leaves. Qed.
Lemma ll_ref o : leaves_lists (b6b_ref o).
Proof. unfold b6b_ref. leaves. by intros ? ? ? [=]. Qed.
#[export] Hint Resolve ll_obj_hash ll_obj_eq ll_ref : lists.

(** *** [b6b_as_list] *)

(** Dropping the items of an object that is no list. *)
Lemma destroy_l_changes o items h h' :
  heap_fine h → items_at h o items → b6b_destroy_l o h = Done (tt, h') →
  heap_fine h' ∧ (∀ p, listy h p → listy h' p) ∧
  ∀ p, heap_due (objs h') p = heap_due (objs h) p - refs (li_o <$> items) p.
Proof.
  intros Hf (x & Hx & Hl & <-) H. unfold b6b_destroy_l, b6b_destroy_l_with in H.
  rewrite (bind_eq _ _ _ _ _ (read_obj_eq _ _ _ Hx)), <- miter_fmap in H.
  destruct (changes_miter [] b6b_unref (li_o <$> o_l x) (changes_unref []) h tt h' Hf
    (Forall_nil_2 _) H) as (F & D & K & _).
  split_and!; [done|done|]. intros p. specialize (D p). simpl in D. lia.
Qed.

Lemma fill_list_changes o ts (ok : bool) h h' b :
  heap_fine h → items_at h o [] →
  (add_tokens o ts;;
   b ← (if ok then mret true else b6b_destroy_l o;; mret false);
   if negb b then mret false else update_obj o (with_flags (set_list true));; mret true) h
    = Done (b, h') →
  heap_fine h' ∧ (∀ p, heap_due (objs h') p = heap_due (objs h) p) ∧
  (∀ p, listy h p → listy h' p) ∧ (b = true → listy h' o).
Proof.
  intros Hf Hi H. apply bind_Done in H as ([] & h1 & H1 & H).
  destruct (add_tokens_changes _ _ _ _ _ Hf Hi H1) as (F1 & K1 & new & I1 & D1).
  destruct ok.
  - apply bind_Done in H as ([] & h2 & [= <-] & H). cbn [negb] in H.
    apply bind_Done in H as ([] & h3 & H3 & [= <- <-]).
    destruct (set_list_changes _ _ _ _ F1 I1 H3) as (F3 & K3 & L3 & D3).
    split_and!; [done| |by intros p Hp; apply K3, K1|done]. intros p. rewrite D3, D1. simpl. lia.
  - apply bind_Done in H as ([] & h2 & H2 & H);
      apply bind_Done in H2 as ([] & h3 & H3 & [= <-]).
    injection H as <- <-.
    destruct (destroy_l_changes _ _ _ _ F1 I1 H3) as (F3 & K3 & D3).
    split_and!; [done| |by intros p Hp; apply K3, K1|done]. intros p. rewrite D3, D1. simpl. lia.
Qed.

Lemma changes_as_list Γ o :
  changes Γ (b6b_as_list o) nothing (λ ok, if ok : bool then [o] else []).
Proof.
  intros h b h' Hf Hk H. unfold b6b_as_list in H.
  apply bind_Done in H as (x & h0 & [-> Hx]%read_obj_inv & H).
  destruct (f_list (o_flags x)) eqn:Hl.
  { injection H as <- <-. split_and!; [done|by intros p; rewrite Z.add_0_r|done|].
    repeat constructor; [apply (hs_fresh _ (hf_shape _ Hf)); by eexists|congruence]. }
  apply bind_Done in H as (ok & h1 & H1 & H).
  destruct (keeps_as_str [] o h ok h1 Hf (Forall_nil_2 _) H1) as (F1 & D1 & K1 & _).
  destruct ok; [|injection H as <- <-; by split_and!]. cbn [negb] in H.
  apply bind_Done in H as ([] & h2 & H2 & H).
  apply update_obj_inv in H2 as (y & Hy & [= ->]).
  destruct (ll_as_str o h true h1 H1 o y Hy) as (x' & Hx' & Hly & Hfy). simplify_eq.
  rewrite Hl in Hfy.
  destruct (with_l_changes h1 o y [] F1 Hy) as (F2 & D2 & K2); [constructor|set_solver|].
  apply bind_Done in H as (s & h2 & H2 & H). unfold text in H2.
  apply bind_Done in H2 as (z & h3 & [-> Hz]%read_obj_inv & [= <- <-]).
  unfold b6b_do_as_list_obj in H. destruct (b6b_do_as_list _) as [ts ok].
  rewrite bind_assoc in H.
  edestruct (fill_list_changes o ts ok _ h' b F2) as (F3 & D3 & K3 & L3); [|exact H|].
  - eexists. split; [apply lookup_insert_eq|]. by simpl.
  - split_and!; [done| |by intros p Hp; apply K3, K2, K1|destruct b; by repeat constructor; try apply L3].
    intros p. pose proof (D3 p) as E3. pose proof (D2 p) as E2. pose proof (D1 p) as E1.
    unfold list_refs in E2. simpl in E1, E2, E3 |- *. rewrite Hfy in E2. rewrite E3, E2, E1.
    rewrite refs_nil. lia.
Qed.
#[export] Hint Resolve changes_as_list : refs.

(** ** [b6b_list_vparse] *)

(** The objects a call asked for as lists, given what it received. *)
Fixpoint list_args (fmt : bytes) (ap : list bool) (outs : list loc) : list loc :=
  match fmt with
  | [] => []
  | c :: fmt' =>
      if decide (c = "|"%byte) then list_args fmt' ap outs
      else if decide (c = "*"%byte) then []
      else match ap with
           | [] => []
           | false :: ap' => list_args fmt' ap' outs
           | true :: ap' =>
               match outs with
               | [] => []
               | o :: outs' =>
                   (if decide (c = "l"%byte) then [o] else []) ++ list_args fmt' ap' outs'
               end
           end
  end.

Definition objs_of (outs : list varg) : list loc :=
  omap (λ a, match a with A_obj o => Some o | A_item _ => None end) outs.

Lemma list_args_nil fmt ap : list_args fmt ap [] = [].
Proof.
  revert ap. induction fmt as [|c fmt IH]; intros ap; simpl; [done|].
  repeat case_decide; [by rewrite IH|done|]. by destruct ap as [|[] ap].
Qed.

Lemma changes_conv Γ c o m :
  parse_conv c o = Some m →
  changes Γ m nothing (λ ok, if (ok : bool) && bool_decide (c = "l"%byte) then [o] else []).
Proof.
  unfold parse_conv. intros H. repeat case_decide; simplify_eq;
    rewrite ?bool_decide_false by done; rewrite ?bool_decide_true by done;
    (eapply changes_weaken; [solve [eauto 3 with refs]|done|entries|]);
    intros b; rewrite ?andb_false_r, ?andb_true_r; (apply list_subseteq_nil || set_solver).
Qed.

Lemma vparse_loop_outs fmt items ap opt n outs h k outs' h' :
  vparse_loop fmt items ap opt n outs h = Done ((k, outs'), h') → ∃ new, outs' = outs ++ new.
Proof.
  assert (∀ l : list varg, ∃ new, l = l ++ new) as Hid.
  { intros l. exists []. by rewrite app_nil_r. }
  revert items ap h opt n outs. induction fmt as [|c fmt IH]; intros items ap h opt n outs H;
    simpl in H; [by injection H as _ <- _|].
  case_decide; [by eapply IH|]. destruct items as [|it items]; [by injection H as _ <- _|].
  destruct ap as [|[] ap]; [done| |by eapply IH].
  case_decide; [injection H as _ <- _; by eexists|].
  destruct (parse_conv _ _); [|by injection H as _ <- _].
  apply bind_Done in H as ([] & h1 & E & H); simpl in H; [|by injection H as _ <- _].
  apply IH in H as [new ->]. rewrite <- app_assoc. by eexists.
Qed.

(** What the loop adds to [outs] is asked for by the rest of the format. *)
Lemma vparse_loop_changes fmt items ap opt n outs Γ :
  changes Γ (vparse_loop fmt items ap opt n outs) nothing
    (λ '(_, outs'), list_args fmt ap (drop (length (objs_of outs)) (objs_of outs'))).
Proof.
  revert items ap opt n outs Γ. induction fmt as [|c fmt IH]; intros items ap opt n outs Γ.
  { apply changes_ret; [done|]. apply list_subseteq_nil. }
  simpl. case_decide as Hbar; [apply IH|]. destruct items as [|li items].
  { apply changes_ret; [done|]. rewrite drop_ge by lia.
    repeat case_decide; [apply list_subseteq_nil|]. destruct ap as [|[] ap];
      rewrite ?list_args_nil; apply list_subseteq_nil. }
  destruct ap as [|[] ap]; [apply changes_ub| |].
  2: { eapply changes_weaken; [apply IH|done|done|]. intros [k outs']. case_decide; set_solver. }
  case_decide as Hstar; [apply changes_ret; [done|apply list_subseteq_nil]|].
  destruct (parse_conv c (li_o li)) as [m|] eqn:Hm.
  2: { apply changes_ret; [done|]. rewrite drop_ge by lia. apply list_subseteq_nil. }
  eapply changes_then; [by apply (changes_conv Γ c (li_o li))|]. intros [].
  2: { simpl. apply changes_ret; [done|]. rewrite drop_ge by lia. apply list_subseteq_nil. }
  cbn [negb]. intros h [k outs'] h' Hf Hk H.
  assert (∃ new, outs' = outs ++ [A_obj (li_o li)] ++ new) as [new ->].
  { apply vparse_loop_outs in H as [new ->]. exists new. by rewrite <- app_assoc. }
  destruct (IH _ _ _ _ _ _ _ _ _ Hf Hk H) as (F & D & K & N). split_and!; [done|done|done|].
  set (o := li_o li) in *.
  assert (objs_of (outs ++ [A_obj o] ++ new) = objs_of outs ++ o :: objs_of new) as E1
    by (unfold objs_of; by rewrite omap_app).
  assert (objs_of (outs ++ [A_obj o]) = objs_of outs ++ [o]) as E2
    by (unfold objs_of; by rewrite omap_app).
  rewrite E1, E2 in N. rewrite E1. rewrite drop_app_length.
  replace (objs_of outs ++ o :: objs_of new) with ((objs_of outs ++ [o]) ++ objs_of new) in N
    by (by rewrite <- app_assoc).
  rewrite drop_app_length in N.
  simpl. apply Forall_app. split; [|done]. case_decide; [|constructor].
  apply Forall_singleton, K. rewrite Forall_forall in Hk. apply Hk.
  rewrite bool_decide_true by done. by left.
Qed.

Lemma changes_vparse Γ l fmt ap :
  changes Γ (b6b_list_vparse l fmt ap) nothing
    (λ '(_, outs), list_args (lit fmt) ap (objs_of outs)).
Proof.
  unfold b6b_list_vparse. eapply changes_then; [apply keeps_read|]. intros x.
  eapply changes_weaken; [apply vparse_loop_changes|set_solver|done|].
  intros [k outs]. simpl. rewrite drop_0. set_solver.
Qed.
#[export] Hint Resolve changes_vparse : refs.

(** ** Dictionaries *)

Lemma keeps_dict_set_find Γ k items : keeps Γ (dict_set_find k items).
Proof.
  revert Γ. induction items as [|kli|kli vli items IH] using list_pairs_ind; intros Γ; simpl; changes.
Qed.
Lemma keeps_dict_find Γ k items : keeps Γ (dict_find k items).
Proof.
  revert Γ. induction items as [|kli|kli vli items IH] using list_pairs_ind; intros Γ; simpl; changes.
Qed.
#[export] Hint Resolve keeps_dict_set_find keeps_dict_find : refs.

Lemma ll_dict_set_find k items : leaves_lists (dict_set_find k items).
Proof. induction items as [|kli|kli vli items IH] using list_pairs_ind; simpl; leaves. Qed.

Lemma dict_set_find_in k items h kli vli h' :
  dict_set_find k items h = Done (At kli vli, h') → vli ∈ items.
Proof.
  revert h. induction items as [|k1|k1 v1 items IH] using list_pairs_ind; intros h H;
    simpl in H; [done|..].
  - by apply bind_Done in H as ([] & h1 & _ & H).
  - apply bind_Done in H as ([] & h1 & _ & H); [|done]. cbn [negb] in H.
    apply bind_Done in H as ([] & h2 & _ & H).
    + injection H as _ <- _. right. by left.
    + apply IH in H. right. by right.
Qed.

Lemma keeps_dict_get Γ d k : keeps Γ (b6b_dict_get d k).
Proof. unfold b6b_dict_get. changes. Qed.
#[export] Hint Resolve keeps_dict_get : refs.

Lemma keeps_dict_unset Γ d k : d ∈ Γ → keeps Γ (b6b_dict_unset d k).
Proof.
  intros Hd. unfold b6b_dict_unset. changes.
Qed.
#[export] Hint Resolve keeps_dict_unset : refs.

(** Replacing the object of the node [it]. *)
Lemma set_item_refs items it v p :
  NoDup (li_id <$> items) → it ∈ items →
  refs (li_o <$> ((λ a, if decide (li_id a = li_id it) then mkItem (li_id it) v else a) <$> items)) p
    = refs (li_o <$> items) p - refs [li_o it] p + refs [v] p.
Proof.
  intros Hnd (i1 & i2 & ->)%list_elem_of_split. rewrite fmap_app, fmap_cons in Hnd.
  apply NoDup_app in Hnd as (_ & N1 & [N2 _]%NoDup_cons).
  assert (∀ l : list b6b_litem, li_id it ∉ li_id <$> l →
    (λ a, if decide (li_id a = li_id it) then mkItem (li_id it) v else a) <$> l = l) as Hid.
  { induction l as [|a l IH]; [done|]. rewrite fmap_cons, not_elem_of_cons. intros [Hn Hl].
    rewrite fmap_cons, IH by done. by rewrite decide_False by congruence. }
  rewrite !fmap_app, !fmap_cons, decide_True, (Hid i2) by done.
  rewrite (Hid i1); [|intros Hin; apply (N1 _ Hin); by left].
  rewrite !refs_app, (refs_cons (li_o it)), (refs_cons v). simpl. lia.
Qed.

Lemma set_item_changes Γ d x it v h h' :
  heap_fine h → Forall (listy h) Γ → d ∈ Γ → objs h !! d = Some x → it ∈ o_l x →
  (v < next h)%N → set_item d (li_id it) v h = Done (tt, h') →
  heap_fine h' ∧
  (∀ p, heap_due (objs h') p = heap_due (objs h) p + refs [li_o it] p - refs [v] p) ∧
  (∀ o, listy h o → listy h' o).
Proof.
  intros Hf Hk Hd Hx Hit Hv (y & Hy & [= ->])%update_obj_inv. simplify_eq.
  destruct (hs_obj _ (hf_shape _ Hf) d x Hx) as [_ Hnd Hold].
  pose proof (proj2 (knows_list _ _ _ Hd Hk) x Hx) as Hlist.
  set (put := λ a, if decide (li_id a = li_id it) then mkItem (li_id it) v else a).
  destruct (with_l_changes h d x (put <$> o_l x) Hf Hx) as (F & D & K);
    [| |split_and!; [exact F| |exact K]].
  - rewrite <- list_fmap_compose.
    assert (li_id ∘ put <$> o_l x = li_id <$> o_l x) as ->; [|done].
    apply list_fmap_ext. intros i a _. unfold put. simpl. by case_decide.
  - intros a (b & -> & Hb)%list_elem_of_fmap. destruct (Hold b Hb). unfold put.
    case_decide as Hid; [|done]. simpl. split; [by rewrite <- Hid|done].
  - intros p. rewrite D. unfold list_refs. simpl. rewrite Hlist.
    unfold put. rewrite (set_item_refs (o_l x) it v p Hnd Hit). lia.
Qed.

Lemma keeps_dict_set Γ d k v : d ∈ Γ → keeps Γ (b6b_dict_set d k v).
Proof.
  intros Hd h b h' Hf Hk H. unfold b6b_dict_set in H.
  apply bind_Done in H as (ok & h1 & H1 & H).
  destruct (keeps_obj_hash Γ k h ok h1 Hf Hk H1) as (F1 & D1 & K1 & _).
  destruct ok; [|injection H as <- <-; by split_and!]. cbn [negb] in H.
  apply bind_Done in H as (x & h0 & [-> Hx]%read_obj_inv & H).
  apply bind_Done in H as (r & h2 & H2 & H).
  assert (∀ h0 h', (∀ o, l_knows h0 o → l_knows h' o) → Forall (l_knows h0) Γ →
    Forall (l_knows h') Γ) as Hmono by (intros; by eapply Forall_impl).
  destruct (keeps_dict_set_find Γ k (o_l x) h1 r h2 F1 (Hmono _ _ K1 Hk) H2) as (F2 & D2 & K2 & _).
  assert (∀ o, l_knows h o → l_knows h2 o) as K12 by auto.
  assert (∀ o, l_due h2 o = l_due h o) as D12 by (intros o; rewrite D2, D1; lia).
  assert (keeps Γ (ok ← b6b_list_add d k;
    if negb ok then mret false else ok ← b6b_list_add d v;
    if negb ok then o ← b6b_list_pop d None; o ← deref o; b6b_unref o;; mret false
    else mret true)) as Hadd by changes.
  destruct r as [| |kli vli].
  - injection H as <- <-. split_and!; [done| |done|done]. intros o. rewrite D12. lia.
  - destruct (Hadd _ _ _ F2 (Hmono _ _ K12 Hk) H) as (F & D & K & _).
    split_and!; [done| |auto|done]. intros o. rewrite D, D12. lia.
  - apply bind_Done in H as ([] & h3 & H3 & H). apply bind_Done in H as (v' & h4 & H4 & H).
    apply bind_Done in H as ([] & h5 & H5 & H). apply bind_Done in H as ([] & h6 & H6 & [= <- <-]).
    destruct (changes_unref Γ _ _ _ _ F2 (Hmono _ _ K12 Hk) H3) as (F3 & D3 & K3 & _).
    assert (∀ o, l_knows h o → l_knows h3 o) as K13 by auto.
    destruct (changes_ref Γ _ _ _ _ F3 (Hmono _ _ K13 Hk) H4) as (F4 & D4 & K4 & _).
    assert (∀ o, l_knows h o → l_knows h4 o) as K14 by auto.
    pose proof H5 as (y & Hy & _)%update_obj_inv.
    assert (same_lists (objs h1) (objs h4)) as Hsame.
    { etransitivity; [by eapply ll_dict_set_find|]. etransitivity; [by eapply ll_unref|].
      by eapply ll_ref. }
    destruct (Hsame d y Hy) as (x' & Hx' & Hly & _). simplify_eq.
    assert (vli ∈ o_l y) as Hin by (rewrite Hly; by eapply dict_set_find_in).
    assert (v < next h4)%N as Hv.
    { apply ref_inv in H4 as (z & Hz & ->). apply (hs_fresh _ (hf_shape _ F3)). by eexists. }
    destruct (set_item_changes Γ d y vli v h4 h5 F4 (Hmono _ _ K14 Hk) Hd Hy Hin Hv H5)
      as (F5 & D5 & K5).
    destruct (keeps_flush [] d h5 tt h6 F5 (Forall_nil_2 _) H6) as (F6 & D6 & K6 & _).
    split_and!; [done| |by intros o Ho; apply K6, K5, K14|done].
    intros o. rewrite D6. simpl. rewrite D5. simpl in D4, D3, D12. rewrite D4, D3, D12. simpl. lia.
Qed.
#[export] Hint Resolve keeps_dict_set : refs.

(** ** Destroying an object that nobody else refers to *)

Definition sole (r : loc) (h : heap) : Prop := ∃ x, objs h !! r = Some x ∧ o_refc x = 1.

(** Dropping references only lowers counts. *)
Definition only_lowers (f : loc → HM unit) : Prop :=
  ∀ o h h', f o h = Done (tt, h') → ∀ p y, objs h' !! p = Some y →
    ∃ x, objs h !! p = Some x ∧ o_refc y ≤ o_refc x.

Lemma miter_only_lowers f l h h' :
  only_lowers f → miter f l h = Done (tt, h') → ∀ p y, objs h' !! p = Some y →
  ∃ x, objs h !! p = Some x ∧ o_refc y ≤ o_refc x.
Proof.
  intros Hf. revert h. induction l as [|o l IH]; intros h Hr p y Hy; simpl in *.
  { injection Hr as <-. by exists y. }
  apply bind_Done in Hr as ([] & h1 & H1 & H2). destruct (IH h1 H2 p y Hy) as (z & Hz & E1).
  destruct (Hf o h h1 H1 p z Hz) as (x & Hx & E2). exists x. split; [done|lia].
Qed.

Lemma drop_all_only_lowers f x h h' :
  only_lowers f → drop_all f x h = Done (tt, h') → ∀ p y, objs h' !! p = Some y →
  ∃ x, objs h !! p = Some x ∧ o_refc y ≤ o_refc x.
Proof.
  unfold drop_all. intros Hf H p y Hy. apply bind_Done in H as ([] & h1 & H1 & H).
  apply bind_Done in H as ([] & h2 & [= <-] & H).
  destruct (miter_only_lowers f _ (noted (del_calls x) h1) _ Hf H p y Hy) as (z & Hz & E1).
  destruct (miter_only_lowers f _ _ _ Hf H1 p z Hz) as (w & Hw & E2). exists w. split; [done|lia].
Qed.

Lemma destroy_is_drop unref o h h' :
  b6b_destroy_with unref o h = Done (tt, h') →
  ∃ x h1, objs h !! o = Some x ∧ del_ok x ∧ drop_all unref x h = Done (tt, h1) ∧
    free_obj o h1 = Done (tt, h').
Proof.
  intros H. assert (∃ x, objs h !! o = Some x) as [x Hx].
  { pose proof H as H0. apply bind_Done in H0 as (x & h0 & [-> Hx]%read_obj_inv & _). by exists x. }
  pose proof (destroy_del_ok _ _ _ _ _ H Hx) as Hd.
  rewrite (destroy_with_eq _ _ _ _ Hx Hd) in H. apply bind_Done in H as ([] & h3 & H1 & H).
  by exists x, h3.
Qed.

Lemma unref_only_lowers : only_lowers b6b_unref.
Proof.
  assert (∀ n, only_lowers (b6b_unref_fuel n)) as Hn; [|intros o h; apply Hn].
  induction n as [|n IH]; intros o h h' H p y Hy; [done|]. simpl in H.
  apply bind_Done in H as (x & h1 & [-> Hx]%read_obj_inv & H). destruct (o_refc x <=? 0); [done|].
  apply bind_Done in H as ([] & h1 & H1 & H).
  apply update_obj_inv in H1 as (x2 & Hx2 & [= ->]). simplify_eq.
  enough (∃ z, <[o := with_refc (o_refc x - 1) x]> (objs h) !! p = Some z ∧ o_refc y ≤ o_refc z)
    as (z & Hz & Hle).
  { rewrite lookup_insert in Hz. case_decide; [|by exists z]. injection Hz as <-. subst p.
    exists x. split; [done|]. simpl in Hle. lia. }
  destruct (_ =? 0); [|injection H as <-; by exists y].
  apply destroy_is_drop in H as (z & h1 & Hz & _ & H1 & H2).
  unfold free_obj in H2. destruct (objs h1 !! o); [|done]. injection H2 as <-.
  simpl in Hy. apply lookup_delete_Some in Hy as [_ Hy].
  exact (drop_all_only_lowers _ _ _ _ IH H1 p y Hy).
Qed.

(** The references an object holds are dropped, and the count it had left when
    it was freed is gone. *)
Lemma destroy_effect o h h' :
  heap_fine h → b6b_destroy o h = Done (tt, h') →
  ∃ x c, objs h !! o = Some x ∧ 0 < c ≤ o_refc x ∧ heap_fine h' ∧
    (∀ p, heap_due (objs h') p = heap_due (objs h) p - (if decide (o = p) then c else 0)) ∧
    ∀ p, listy h p → listy h' p.
Proof.
  intros Hf H. apply destroy_is_drop in H as (x & h1 & Hx & _ & H1 & H2).
  assert (changes [] (drop_all b6b_unref x) (λ _ p, - refs (refs_of x) p) no_facts) as Hd.
  { unfold drop_all. eapply changes_bind; [apply changes_miter, changes_unref|]. intros [].
    eapply changes_then with (Γ1 := no_facts).
    - intros h2 [] h3 [[A B] C] _ [= <-]. split_and!; [by split|by intros p; rewrite Z.add_0_r|done|done].
    - intros []. eapply changes_conseq; [apply changes_miter, changes_unref| |known].
      intros [] p. unfold refs_of. rewrite refs_app. lia. }
  destruct (Hd h tt h1 Hf (Forall_nil_2 _) H1) as ([Hs1 Hp1] & D1 & K1 & _).
  unfold free_obj in H2. destruct (objs h1 !! o) as [y|] eqn:Hy; [|done]. injection H2 as <-.
  pose proof (drop_all_shrinks _ _ _ _ unref_only_shrinks H1) as Hsh.
  assert (refs_of y = refs_of x) as Er.
  { destruct (Hsh o y Hy) as (z & Hz & ->). by simplify_eq. }
  assert (o_refc y ≤ o_refc x) as Ec.
  { destruct (drop_all_only_lowers _ _ _ _ unref_only_lowers H1 o y Hy) as (z & Hz & Hle).
    by simplify_eq. }
  assert (shrinks (objs h1) (delete o (objs h1))) as Hsd by apply shrinks_delete.
  exists x, (o_refc y). split_and!; [done|by eapply Hp1|done| | |].
  - split; [by eapply shrinks_shape|]. simpl. intros p z [_ Hz]%lookup_delete_Some. by eapply Hp1.
  - intros p. simpl. rewrite (due_delete _ _ _ _ Hy), Er. simpl in D1. rewrite D1. case_decide; lia.
  - intros p Hp. eapply shrinks_listy; [exact Hsd|done|]. by apply K1.
Qed.

Lemma destroy_changes o h h' :
  heap_fine h → sole o h → b6b_destroy o h = Done (tt, h') →
  heap_fine h' ∧ (∀ p, heap_due (objs h') p = heap_due (objs h) p - refs [o] p) ∧
  ∀ p, listy h p → listy h' p.
Proof.
  intros Hf (x & Hx & Hone) H.
  destruct (destroy_effect o h h' Hf H) as (y & c & Hy & Hc & F & D & K). simplify_eq.
  split_and!; [done| |done]. intros p. rewrite D. unfold refs. simpl. case_decide; lia.
Qed.

Lemma sole_update r o f h u h' :
  (∀ x, o_refc (f x) = o_refc x) → update_obj o f h = Done (u, h') → sole r h → sole r h'.
Proof.
  intros Hf (x & Hx & [= _ ->])%update_obj_inv (y & Hy & Hr). unfold sole. simpl.
  rewrite lookup_insert. case_decide; [|by exists y]. subst. simplify_eq.
  eexists. split; [done|]. by rewrite Hf.
Qed.

Lemma sole_do_add r l o h b h' :
  o ≠ r → b6b_list_do_add l o h = Done (b, h') → sole r h → sole r h'.
Proof.
  intros Hne H Hs. unfold b6b_list_do_add in H. apply bind_Done in H as (li & h1 & [= <- <-] & H).
  apply bind_Done in H as (q & h2 & (y & Hy & ->)%ref_inv & H).
  apply bind_Done in H as ([] & h3 & H3 & [= <- <-]).
  eapply sole_update; [|exact H3|]; [done|]. destruct Hs as (x & Hx & Hr). exists x.
  simpl. by rewrite lookup_insert_ne.
Qed.

Lemma sole_list_add r l o h b h' :
  o ≠ r → b6b_list_add l o h = Done (b, h') → sole r h → sole r h'.
Proof.
  intros Hne H Hs. unfold b6b_list_add in H. apply bind_Done in H as (b0 & h1 & H1 & H).
  pose proof (sole_do_add _ _ _ _ _ _ Hne H1 Hs) as Hs1. destruct b0; [|by injection H as _ <-].
  cbn [negb] in H. apply bind_Done in H as ([] & h2 & H2 & [= _ <-]).
  unfold b6b_list_flush in H2. by eapply sole_update; [|exact H2|].
Qed.

Lemma sole_malloc x h o h' : o_refc x = 1 → malloc_obj x h = Done (o, h') → sole o h'.
Proof. intros Hx [= <- <-]. exists x. split; [apply lookup_insert_eq|done]. Qed.
