(* ===== verification/Counted.v ===== *)
(** * Procedures return what they take

    The ledger of Ledger.v for the interpreter, whose own references (threads,
    frames, return values) count as held, and what the procedures do to it. *)
From Stdlib Require Import ZArith Lia Init.Byte Strings.Byte Strings.String.
From stdpp Require Import base option list numbers gmap.
From S2P Require Import Prelude Sys Float64 Hash Parse Heap Repr ListObj Dict Types Offload Interp.
From S2P Require Import StrProcs ListProcs CoreProcs Strm FdOps FdProcs Switch Sockets Ffi Ledger.
#[local] Open Scope Z_scope.

(** ** The references of an interpreter *)

Definition frame_roots (f : b6b_frame) : list loc := [fr_locals f; fr_args f].
Definition frames_roots (fs : list b6b_frame) : list loc := concat (frame_roots <$> fs).
Definition thread_roots (t : b6b_thread) : list loc :=
  t_ret t :: option_list (t_fn t) ++ frames_roots (t_curr t).
Definition threads_roots (ts : list b6b_thread) : list loc := concat (thread_roots <$> ts).
Definition interp_roots (i : b6b_interp) : list loc :=
  [null i; zero i; one i; dot i; at_ i; us i] ++ frame_roots (global i) ++ threads_roots (threads i).

(** All frames; their locals and arguments are lists. *)
Definition interp_frames (i : b6b_interp) : list b6b_frame :=
  global i :: concat (t_curr <$> threads i).

Record st_fine (s : st) : Prop := {
  sf_heap : heap_fine (s_heap s);
  sf_ids : NoDup (t_id <$> threads (s_in s));
  sf_frames : Forall (λ f, Forall (listy (s_heap s)) (frame_roots f)) (interp_frames (s_in s))
}.

#[export] Instance st_ledger : Ledger st := {|
  l_fine := st_fine;
  l_due s o := heap_due (objs (s_heap s)) o - refs (interp_roots (s_in s)) o;
  l_knows s := listy (s_heap s)
|}.

Lemma changes_on_heap {A} Γ (m : HM A) d Γ' :
  changes Γ m d Γ' → changes Γ (on_heap m) d Γ'.
Proof.
  intros Hm s a s' [Hh Hi Hf] Hk E. unfold on_heap, zoom in E.
  destruct (m (s_heap s)) as [[b h]| |] eqn:E1; [|done..]. injection E as <- <-.
  destruct (Hm _ _ _ Hh Hk E1) as (F & D & K & N). split_and!; [|  |done|done].
  - split; [done|done|]. simpl. eapply Forall_impl; [exact Hf|]. intros f Hff.
    eapply Forall_impl; [exact Hff|]. exact K.
  - intros o. simpl in *. rewrite D. lia.
Qed.
#[export] Hint Resolve changes_on_heap : refs.

Lemma frames_known s f :
  st_fine s → f ∈ interp_frames (s_in s) → Forall (l_knows s) (frame_roots f).
Proof. intros [_ _ Hf] Hin. exact (proj1 (Forall_forall _ _) Hf f Hin). Qed.

(** [s ← get] knows the global frame. *)
Lemma changes_get Γ : changes Γ (@get st) nothing (λ s, frame_roots (global (s_in s))).
Proof.
  intros s a s' Hf Hk [= <- <-]. split_and!; [done|by intros o; rewrite Z.add_0_r|done|].
  apply frames_known; [done|by left].
Qed.
#[export] Hint Resolve changes_get | 0 : refs.

(** Changes of the interpreter that are none of its threads and roots. *)
Lemma keeps_set_interp Γ f :
  (∀ i, interp_roots (f i) = interp_roots i ∧ threads (f i) = threads i ∧ global (f i) = global i) →
  keeps Γ (set_interp f).
Proof.
  intros Hf s u s' [Hh Hi Hfr] Hk [= _ <-]. destruct (Hf (s_in s)) as (E1 & E2 & E3).
  split_and!; [| |done|done].
  - split; simpl; [done|by rewrite E2|]. unfold interp_frames. by rewrite E2, E3.
  - intros o. simpl. rewrite E1. lia.
Qed.

#[export] Hint Extern 1 (changes _ (set_interp _) _ _) =>
  (apply keeps_set_interp; intros ?; by split_and!) : refs.

Lemma st_fine_heap s h' :
  st_fine s → heap_fine h' → (∀ o, listy (s_heap s) o → listy h' o) →
  st_fine (mkSt h' (s_in s) (s_tids s) (s_err s)).
Proof.
  intros [Hh Hi Hf] Hh' Hk. split; [done|done|]. simpl. eapply Forall_impl; [exact Hf|].
  intros f Hff. eapply Forall_impl; [exact Hff|]. exact Hk.
Qed.

Lemma on_heap_inv {A} (m : HM A) s a s' :
  on_heap m s = Done (a, s') →
  ∃ h', m (s_heap s) = Done (a, h') ∧ s' = mkSt h' (s_in s) (s_tids s) (s_err s).
Proof.
  unfold on_heap, zoom. destruct (m (s_heap s)) as [[b h]| |]; [|done..].
  intros [= <- <-]. by exists h.
Qed.

(** ** Changes of one thread *)

Lemma find_thread_split id ts t :
  NoDup (t_id <$> ts) → find_thread id ts = Some t →
  ∃ l1 l2, ts = l1 ++ t :: l2 ∧ t_id t = id ∧
    ∀ f, map_thread id f ts = l1 ++ f t :: l2.
Proof.
  intros Hnd H. unfold find_thread in H.
  destruct (list_find (λ t, t_id t = id) ts) as [[n u]|] eqn:E; [|done]. injection H as <-.
  apply list_find_Some in E as (Hn & Hid & _). exists (take n ts), (drop (S n) ts).
  pose proof (take_drop_middle ts n u Hn) as Hts. split_and!; [done|done|].
  intros f. unfold map_thread. rewrite <- Hts in Hnd |- * at 1.
  rewrite fmap_app, fmap_cons in Hnd. apply NoDup_app in Hnd as (_ & N1 & [N2 _]%NoDup_cons).
  assert (∀ l : list b6b_thread, id ∉ t_id <$> l → (λ t, if decide (t_id t = id) then f t else t) <$> l = l) as Hl.
  { induction l as [|v l IH]; [done|]. rewrite fmap_cons, not_elem_of_cons. intros [H1 H2].
    rewrite fmap_cons, IH by done. by rewrite decide_False by congruence. }
  rewrite fmap_app, fmap_cons, decide_True by done. rewrite !Hl; [done| |].
  - by rewrite <- Hid.
  - intros Hin. apply (N1 _ Hin). rewrite Hid. by left.
Qed.

Lemma threads_roots_app l1 l2 : threads_roots (l1 ++ l2) = threads_roots l1 ++ threads_roots l2.
Proof. unfold threads_roots. by rewrite fmap_app, concat_app. Qed.

(** The running thread takes and gives the references its new contents say. *)
Lemma update_fg_changes Γ s t f u s' :
  st_fine s → Forall (l_knows s) Γ →
  find_thread (fg (s_in s)) (threads (s_in s)) = Some t →
  t_id (f t) = t_id t →
  Forall (λ fr, Forall (l_knows s) (frame_roots fr)) (t_curr (f t)) →
  update_fg f s = Done (u, s') →
  st_fine s' ∧
  (∀ o, l_due s' o = l_due s o + (refs (thread_roots t) o - refs (thread_roots (f t)) o)) ∧
  ∀ o, l_knows s o → l_knows s' o.
Proof.
  intros [Hh Hi Hfr] Hk Ht Hid Hfs [= _ <-].
  destruct (find_thread_split _ _ _ Hi Ht) as (l1 & l2 & Hts & _ & Hmap).
  split_and!; [|intros o|done].
  - split; simpl; [done| |].
    + rewrite Hmap, fmap_app, fmap_cons, Hid, <- fmap_cons, <- fmap_app. by rewrite <- Hts.
    + unfold interp_frames in *. simpl. rewrite Hmap. rewrite Hts in Hfr.
      rewrite fmap_app, fmap_cons, concat_app in Hfr |- *. simpl in *.
      rewrite Forall_cons, !Forall_app in Hfr |- *. tauto.
  - cbn [l_due st_ledger s_heap s_in]. unfold interp_roots.
    cbn [threads with_threads null zero one dot at_ us global].
    rewrite Hmap. rewrite Hts at 1. rewrite !threads_roots_app.
    assert (∀ v l, threads_roots (v :: l) = thread_roots v ++ threads_roots l) as E by done.
    rewrite !E, !refs_app. lia.
Qed.

(** ** Return values *)

Lemma fg_thread_inv s t s' :
  fg_thread s = Done (t, s') → s' = s ∧ find_thread (fg (s_in s)) (threads (s_in s)) = Some t.
Proof.
  unfold fg_thread, mbind, M_bind, get. destruct (find_thread _ _); [|done]. by intros [= <- <-].
Qed.

Lemma thread_frames s t f :
  find_thread (fg (s_in s)) (threads (s_in s)) = Some t → f ∈ t_curr t →
  f ∈ interp_frames (s_in s).
Proof.
  unfold find_thread. intros H Hf. destruct (list_find _ _) as [[n u]|] eqn:E; [|done].
  injection H as <-. apply list_find_Some in E as (Hn & _). right. apply list_elem_of_In, in_concat.
  exists (t_curr u). split; [|by apply list_elem_of_In]. apply list_elem_of_In, list_elem_of_fmap.
  exists u. split; [done|]. by eapply list_elem_of_lookup_2.
Qed.

Lemma changes_fg_thread Γ : changes Γ fg_thread nothing (λ t, frames_roots (t_curr t)).
Proof.
  intros s t s' Hf Hk [-> Ht]%fg_thread_inv.
  split_and!; [done|by intros o; rewrite Z.add_0_r|done|].
  unfold frames_roots. apply Forall_concat, Forall_fmap, Forall_forall. intros f Hin.
  apply frames_known; [done|]. by eapply thread_frames.
Qed.
#[export] Hint Resolve changes_fg_thread : refs.

Lemma changes_curr_frame Γ : changes Γ curr_frame nothing frame_roots.
Proof.
  intros s f s' Hf Hk H. unfold curr_frame in H.
  apply bind_Done in H as (t & s1 & [-> Ht]%fg_thread_inv & [= <- <-]).
  split_and!; [done|by intros o; rewrite Z.add_0_r|done|]. apply frames_known; [done|].
  destruct (t_curr t) as [|f fs] eqn:E; [by left|]. eapply thread_frames; [done|].
  rewrite E. by left.
Qed.
#[export] Hint Resolve changes_curr_frame : refs.

(** The return value takes over a reference to [o]. *)
Lemma changes_set_ret Γ o : changes Γ (set_ret o) (λ _ p, - refs [o] p) no_facts.
Proof.
  intros s u s' Hf Hk H. unfold set_ret in H.
  apply bind_Done in H as (t & s1 & [-> Ht]%fg_thread_inv & H).
  apply bind_Done in H as ([] & s1 & H1 & H).
  assert (s_in s1 = s_in s) as Ei.
  { unfold on_heap, zoom in H1. destruct (b6b_unref _ _) as [[[] h]| |]; [|done..].
    by injection H1 as <-. }
  destruct (changes_on_heap Γ _ _ _ (changes_unref Γ (t_ret t)) s tt s1 Hf Hk H1)
    as (F1 & D1 & K1 & _).
  assert (Forall (l_knows s1) Γ) as Hk1 by (by eapply Forall_impl).
  assert (Forall (λ fr, Forall (l_knows s1) (frame_roots fr)) (t_curr (with_ret o t))) as Hfs.
  { apply Forall_forall. intros f Hin. apply frames_known; [done|].
    eapply thread_frames; [by rewrite Ei|]. done. }
  rewrite <- Ei in Ht.
  destruct (update_fg_changes Γ s1 t (with_ret o) u s' F1 Hk1 Ht eq_refl Hfs H) as (F2 & D2 & K2).
  split_and!; [done| |auto|done]. intros p. rewrite D2, D1. unfold thread_roots. simpl.
  rewrite (refs_cons (t_ret t) (_ ++ _)), (refs_cons o (_ ++ _)). lia.
Qed.
#[export] Hint Resolve changes_set_ret : refs.

Lemma changes_return Γ o : changes Γ (b6b_return o) (λ _ p, - refs [o] p) no_facts.
Proof. unfold b6b_return. changes. Qed.
#[export] Hint Resolve changes_return : refs.
Lemma keeps_return_ref Γ o : keeps Γ (return_ref o).
Proof. unfold return_ref. changes. Qed.
#[export] Hint Resolve keeps_return_ref : refs.
Lemma keeps_return_int Γ i : keeps Γ (b6b_return_int i).
Proof. unfold b6b_return_int. changes. Qed.
Lemma keeps_return_float Γ f : keeps Γ (b6b_return_float f).
Proof. unfold b6b_return_float. changes. Qed.
Lemma keeps_return_str Γ s : keeps Γ (b6b_return_str s).
Proof. unfold b6b_return_str. changes. Qed.
Lemma keeps_return_fmt Γ s : keeps Γ (b6b_return_fmt s).
Proof. unfold b6b_return_fmt. changes. Qed.
Lemma keeps_return_strerror `{Env} Γ e : keeps Γ (b6b_return_strerror e).
Proof. unfold b6b_return_strerror. changes. Qed.
Lemma keeps_return_bool Γ b : keeps Γ (b6b_return_bool b).
Proof. unfold b6b_return_bool, b6b_return_true, b6b_return_false. changes. Qed.
Lemma keeps_return_true Γ : keeps Γ b6b_return_true.
Proof. apply (keeps_return_bool Γ true). Qed.
Lemma keeps_return_false Γ : keeps Γ b6b_return_false.
Proof. apply (keeps_return_bool Γ false). Qed.
#[export] Hint Resolve keeps_return_int keeps_return_float keeps_return_str keeps_return_fmt
  keeps_return_strerror keeps_return_bool keeps_return_true keeps_return_false : refs.

(** ** Variables *)

#[export] Hint Extern 2 (_ ∈ _) => unfold frame_roots; set_solver : refs.

Lemma keeps_local Γ k v : keeps Γ (b6b_local k v).
Proof. unfold b6b_local. changes. Qed.
Lemma keeps_global Γ k v : keeps Γ (b6b_global k v).
Proof. unfold b6b_global. changes. Qed.
#[export] Hint Resolve keeps_local keeps_global : refs.

Lemma keeps_get_loop Γ fs name : keeps Γ (get_loop fs name).
Proof. revert Γ. induction fs as [|f fs IH]; intros Γ; simpl; changes. Qed.
#[export] Hint Resolve keeps_get_loop : refs.

Lemma keeps_get_var Γ name : keeps Γ (b6b_get name).
Proof. unfold b6b_get. changes. Qed.
#[export] Hint Resolve keeps_get_var : refs.

(** ** Arguments *)

Lemma changes_proc_get_args Γ l fmt ap :
  changes Γ (b6b_proc_get_args l fmt ap) nothing
    (λ '(_, outs), list_args (lit fmt) ap (objs_of outs)).
Proof.
  unfold b6b_proc_get_args. eapply changes_then; [apply changes_on_heap, changes_vparse|].
  intros [argc outs]. eapply changes_then; [solve [changes]|]. intros []. changes.
Qed.

Lemma changes_get_args Γ l fmt ap :
  changes Γ (get_args l fmt ap) nothing (λ '(_, outs), list_args (lit fmt) ap outs).
Proof.
  unfold get_args. eapply changes_then; [apply changes_proc_get_args|].
  intros [argc outs]. changes.
Qed.
#[export] Hint Resolve changes_get_args : refs.

(** Takes a procedure apart: the facts a format gives are computed. *)
Ltac proc :=
  repeat first
    [ progress match goal with |- context [list_args ?f ?a ?o] =>
        let G := eval vm_compute in (list_args f a o) in change (list_args f a o) with G end
    | changes ].

(** ** src/b6b_str.c *)

Lemma keeps_join_loop Γ d items s : keeps Γ (join_loop d items s).
Proof. revert Γ s. induction items as [|li items IH]; intros Γ s; simpl; changes. Qed.
Lemma keeps_add_strs Γ l ss : l ∈ Γ → keeps Γ (add_strs l ss).
Proof. revert Γ. induction ss as [|s ss IH]; intros Γ Hl; simpl; changes. Qed.
#[export] Hint Resolve keeps_join_loop keeps_add_strs : refs.

Lemma keeps_str_len args : keeps [] (b6b_str_proc_len args).
Proof. unfold b6b_str_proc_len. proc. Qed.
Lemma keeps_str_index args : keeps [] (b6b_str_proc_index args).
Proof. unfold b6b_str_proc_index. proc. Qed.
Lemma keeps_str_range args : keeps [] (b6b_str_proc_range args).
Proof. unfold b6b_str_proc_range. proc. Qed.
Lemma keeps_str_join args : keeps [] (b6b_str_proc_join args).
Proof. unfold b6b_str_proc_join. proc. Qed.
Lemma keeps_str_split args : keeps [] (b6b_str_proc_split args).
Proof. unfold b6b_str_proc_split. proc. Qed.
Lemma keeps_str_ord args : keeps [] (b6b_str_proc_ord args).
Proof. unfold b6b_str_proc_ord. proc. Qed.
Lemma keeps_str_chr args : keeps [] (b6b_str_proc_chr args).
Proof. unfold b6b_str_proc_chr. proc. Qed.
Lemma keeps_str_expand args : keeps [] (b6b_str_proc_expand args).
Proof. unfold b6b_str_proc_expand. proc. Qed.
Lemma keeps_str_in args : keeps [] (b6b_str_proc_in args).
Proof. unfold b6b_str_proc_in. proc. Qed.
Lemma keeps_rtrim args : keeps [] (b6b_str_proc_rtrim args).
Proof. unfold b6b_str_proc_rtrim. proc. Qed.
Lemma keeps_ltrim args : keeps [] (b6b_str_proc_ltrim args).
Proof. unfold b6b_str_proc_ltrim. proc. Qed.

(** ** src/b6b_list.c, b6b_dict.c, b6b_rand.c, and [range] *)

Lemma keeps_add_items Γ l items : l ∈ Γ → keeps Γ (add_items l items).
Proof. revert Γ. induction items as [|li items IH]; intros Γ Hl; simpl; changes. Qed.
Lemma keeps_list_in_loop Γ o items : keeps Γ (list_in_loop o items).
Proof. revert Γ. induction items as [|li items IH]; intros Γ; simpl; changes. Qed.
Lemma keeps_range_loop Γ n l i e step : l ∈ Γ → keeps Γ (range_loop n l i e step).
Proof.
  revert Γ i. induction n as [|n IH]; intros Γ i Hl; simpl; changes.
Qed.
#[export] Hint Resolve keeps_add_items keeps_list_in_loop keeps_range_loop : refs.

Lemma keeps_list_new args : keeps [] (b6b_list_proc_new args).
Proof. unfold b6b_list_proc_new. proc. Qed.
Lemma keeps_list_len args : keeps [] (b6b_list_proc_len args).
Proof. unfold b6b_list_proc_len. proc. Qed.
Lemma keeps_list_append args : keeps [] (b6b_list_proc_append args).
Proof. unfold b6b_list_proc_append. proc. Qed.
Lemma keeps_list_copy args : keeps [] (b6b_list_proc_copy args).
Proof. unfold b6b_list_proc_copy. proc. Qed.
Lemma keeps_list_extend args : keeps [] (b6b_list_proc_extend args).
Proof. unfold b6b_list_proc_extend. proc. Qed.
Lemma keeps_list_index args : keeps [] (b6b_list_proc_index args).
Proof. unfold b6b_list_proc_index. proc. Qed.
Lemma keeps_list_in args : keeps [] (b6b_list_proc_in args).
Proof. unfold b6b_list_proc_in. proc. Qed.
Lemma keeps_dict_proc_get args : keeps [] (b6b_dict_proc_get args).
Proof. unfold b6b_dict_proc_get. proc. Qed.
Lemma keeps_dict_proc_set args : keeps [] (b6b_dict_proc_set args).
Proof. unfold b6b_dict_proc_set. proc. Qed.
Lemma keeps_dict_proc_unset args : keeps [] (b6b_dict_proc_unset args).
Proof. unfold b6b_dict_proc_unset. proc. Qed.
Lemma keeps_range args : keeps [] (b6b_loop_proc_range args).
Proof. unfold b6b_loop_proc_range. proc. Qed.
Lemma keeps_next_rand `{Env} Γ : keeps Γ next_rand.
Proof. unfold next_rand. changes. Qed.
Lemma keeps_choice `{Env} args : keeps [] (b6b_rand_proc_choice args).
Proof. unfold b6b_rand_proc_choice. pose proof keeps_next_rand. proc. Qed.
Lemma keeps_randint `{Env} args : keeps [] (b6b_rand_proc_randint args).
Proof. unfold b6b_rand_proc_randint. pose proof keeps_next_rand. proc. Qed.

(** What follows can rely on the object that was read. *)
Lemma changes_read {A} Γ l (f : b6b_obj → M st A) d Γ' :
  (∀ x s, objs (s_heap s) !! l = Some x → changes_at s Γ (f x) d Γ') →
  changes Γ (x ← on_heap (read_obj l); f x) d Γ'.
Proof.
  intros Hf s a s' Hfi Hk H. apply bind_Done in H as (x & s1 & H1 & H).
  apply on_heap_inv in H1 as (h1 & [-> Hx]%read_obj_inv & ->). destruct s.
  by apply (Hf x).
Qed.

Lemma item_at_in n l li : item_at n l = Some li → li ∈ l.
Proof.
  unfold item_at. rewrite nth_item_lookup. destruct (_ <? _); [|done].
  apply list_elem_of_lookup_2.
Qed.

(** [list.pop] hands over the reference of the node it removes. *)
Lemma pop_item Γ l x li s :
  l ∈ Γ → objs (s_heap s) !! l = Some x → li ∈ o_l x →
  changes_at s Γ (on_heap (b6b_list_remove l (li_id li));; b6b_return (li_o li)) nothing no_facts.
Proof.
  intros Hl Hx Hin r s' Hf Hk H. apply bind_Done in H as ([] & s1 & H1 & H).
  apply on_heap_inv in H1 as (h1 & H1 & ->).
  destruct (remove_changes Γ l x li (s_heap s) h1 tt (sf_heap _ Hf) Hk Hl Hx Hin H1) as (F1 & D1 & K1).
  pose proof (st_fine_heap s h1 Hf F1 K1) as Hf1.
  destruct (changes_return [] (li_o li) _ _ _ Hf1 (Forall_nil_2 _) H) as (F2 & D2 & K2 & _).
  split_and!; [done| |by intros o Ho; apply K2, K1|done].
  intros o. rewrite D2. simpl. rewrite D1. lia.
Qed.

Lemma keeps_list_pop args : keeps [] (b6b_list_proc_pop args).
Proof.
  unfold b6b_list_proc_pop. eapply changes_then; [apply changes_get_args|].
  intros [argc [|l [|i [|]]]]; try (destruct argc; solve [changes]).
  destruct argc as [|p|p]; [changes| |]; (eapply changes_then; [solve [changes]|]);
    intros io; (apply changes_if; [changes|]); apply changes_read; intros x s Hx;
    (destruct (o_l x) as [|li0 items] eqn:E; [apply changes_from; changes|]);
    (destruct (item_at (o_i io) (li0 :: items)) as [li|] eqn:Hli; [|apply changes_from; changes]);
    (eapply pop_item; [|exact Hx|rewrite E; by eapply item_at_in]).
  all: vm_compute; by left.
Qed.

(** [list.range] destroys the new list, which nobody else refers to, when an
    index is out of range. *)
Lemma add_items_sole r items h h' :
  r ∉ li_o <$> items → sole r h → add_items r items h = Done (tt, h') → sole r h'.
Proof.
  revert h. induction items as [|li items IH]; intros h Hn Hs H; simpl in H.
  { by injection H as <-. }
  rewrite fmap_cons, not_elem_of_cons in Hn. destruct Hn as [Hne Hn].
  apply bind_Done in H as (b & h1 & H1 & H2). apply (IH h1 Hn); [|done].
  by eapply sole_list_add; [|exact H1|].
Qed.

Lemma new_list_sole h l h' :
  heap_fresh h → b6b_list_new h = Done (l, h') → l = next h ∧ sole l h'.
Proof.
  intros Hf H. unfold b6b_list_new in H. rewrite new_eq in H.
  split; [by injection H as <-|]. by eapply sole_malloc; [|exact H].
Qed.

Lemma range_items Γ l x items (bad : bool) s :
  objs (s_heap s) !! l = Some x → items ⊆ o_l x →
  changes_at s Γ (r ← on_heap b6b_list_new;
    on_heap (add_items r items);;
    if bad then on_heap (b6b_destroy r);; mret B6B_ERR else b6b_return r) nothing no_facts.
Proof.
  intros Hx Hi. destruct bad; [|apply changes_from; changes].
  intros res s' Hf Hk H. apply bind_Done in H as (r & s1 & H1 & H).
  apply on_heap_inv in H1 as (h1 & H1 & ->).
  apply bind_Done in H as ([] & s2 & (h2 & H2 & ->)%on_heap_inv & H).
  apply bind_Done in H as ([] & s3 & (h3 & H3 & ->)%on_heap_inv & [= <- <-]).
  simpl in H2, H3. pose proof (sf_heap _ Hf) as Hh.
  destruct (changes_list_new [] _ _ _ Hh (Forall_nil_2 _) H1) as (F1 & D1 & K1 & N1).
  destruct (new_list_sole _ _ _ (hs_fresh _ (hf_shape _ Hh)) H1) as [-> S1].
  assert (next (s_heap s) ∉ li_o <$> items) as Hn.
  { intros (it & E & Hit)%list_elem_of_fmap.
    destruct (sh_old _ _ (hs_obj _ (hf_shape _ Hh) l x Hx) it (Hi it Hit)). lia. }
  pose proof (add_items_sole _ _ _ _ Hn S1 H2) as S2.
  destruct (keeps_add_items [next (s_heap s)] _ items ltac:(by left) _ _ _ F1 N1 H2)
    as (F2 & D2 & K2 & _).
  destruct (destroy_changes _ _ _ F2 S2 H3) as (F3 & D3 & K3).
  split_and!; [| |by intros o Ho; apply K3, K2, K1|done].
  - apply st_fine_heap; [done|done|]. intros o Ho. by apply K3, K2, K1.
  - intros o. simpl in D1, D2 |- *. rewrite D3, D2, D1. lia.
Qed.

Lemma keeps_list_range args : keeps [] (b6b_list_proc_range args).
Proof.
  unfold b6b_list_proc_range. eapply changes_then; [apply changes_get_args|].
  intros [argc [|l [|a [|b [|]]]]]; try (destruct argc; solve [changes]).
  destruct argc as [|p|p]; [changes| |];
    (eapply changes_then; [solve [changes]|]); intros oa;
    (eapply changes_then; [solve [changes]|]); intros ob; cbv zeta;
    (apply changes_if; [changes|]); apply changes_read; intros x s Hx;
    (destruct (item_at _ _); [|apply changes_from; changes]);
    (eapply range_items; [exact Hx|]); intros it Hit;
    by eapply subseteq_drop, subseteq_take.
Qed.

(** ** src/b6b_math.c, b6b_logic.c, b6b_core.c *)

Lemma keeps_float_proc f args : (∀ Γ m n, keeps Γ (f m n)) → keeps [] (float_proc f args).
Proof. intros Hf. unfold float_proc. proc. Qed.
Lemma keeps_int_proc f args : keeps [] (int_proc f args).
Proof. unfold int_proc. proc. Qed.
Lemma keeps_not args : keeps [] (b6b_logic_proc_not args).
Proof. unfold b6b_logic_proc_not. proc. Qed.
Lemma keeps_eq_proc f args : keeps [] (eq_proc f args).
Proof. unfold eq_proc. proc. Qed.
Lemma keeps_truth_proc f args : keeps [] (truth_proc f args).
Proof. unfold truth_proc. proc. Qed.
Lemma keeps_echo args : keeps [] (b6b_core_proc_echo args).
Proof. unfold b6b_core_proc_echo. proc. Qed.
Lemma keeps_leave_proc res args : keeps [] (leave_proc res args).
Proof. unfold leave_proc. proc. Qed.
Lemma keeps_throw args : keeps [] (b6b_core_proc_throw args).
Proof. unfold b6b_core_proc_throw. proc. Qed.
Lemma keeps_repr args : keeps [] (b6b_core_proc_repr args).
Proof. unfold b6b_core_proc_repr. proc. Qed.
Lemma keeps_core_global args : keeps [] (b6b_core_proc_global args).
Proof. unfold b6b_core_proc_global. proc. Qed.

Definition opt_roots (f : option b6b_frame) : list loc := from_option frame_roots [] f.

Lemma changes_prev_frame Γ : changes Γ prev_frame nothing opt_roots.
Proof.
  unfold prev_frame. eapply changes_then; [apply changes_fg_thread|]. intros t.
  eapply changes_then; [apply changes_get|]. intros s. apply changes_ret; [done|].
  unfold frames_roots. destruct (t_curr t) as [|f [|g fs]]; simpl; set_solver.
Qed.

Lemma changes_export_frame Γ : changes Γ export_frame nothing opt_roots.
Proof.
  unfold export_frame. eapply changes_then; [apply changes_fg_thread|]. intros t.
  eapply changes_then; [apply changes_get|]. intros s. unfold frames_roots.
  destruct (t_curr t) as [|e [|f [|g fs]]]; [apply changes_ub|apply changes_ret..];
    simpl; (done || set_solver).
Qed.
#[export] Hint Resolve changes_prev_frame changes_export_frame : refs.

Lemma default_frame_in c p Γ :
  fr_locals (default c p) ∈ frame_roots c ++ opt_roots p ++ Γ.
Proof. destruct p; unfold frame_roots; simpl; set_solver. Qed.
#[export] Hint Resolve default_frame_in : refs.
Lemma opt_frame_in f Γ : fr_locals f ∈ opt_roots (Some f) ++ Γ.
Proof. unfold opt_roots, frame_roots. simpl. set_solver. Qed.
#[export] Hint Resolve opt_frame_in : refs.

Lemma keeps_core_local args : keeps [] (b6b_core_proc_local args).
Proof. unfold b6b_core_proc_local. proc. Qed.

Lemma keeps_core_export args : keeps [] (b6b_core_proc_export args).
Proof. unfold b6b_core_proc_export. proc. Qed.

(** ** src/b6b_obj.c: [decode] *)

(** A character is made, given to [l] and let go. *)
Lemma give_char_sole l t h h' :
  heap_fresh h → sole l h →
  (c ← b6b_str_copy t; b6b_list_do_add l c;; b6b_unref c) h = Done (tt, h') → sole l h'.
Proof.
  intros Hf Hs H. apply bind_Done in H as (c & h1 & H1 & H).
  apply bind_Done in H as (b & h2 & H2 & H). rewrite str_copy_eq in H1. injection H1 as <- <-.
  assert (next h ≠ l) as Hne.
  { intros <-. destruct Hs as (x & Hx & _). by rewrite fresh_none in Hx. }
  assert (sole l h2) as (x & Hx & Hr).
  { eapply sole_do_add; [exact Hne|exact H2|]. destruct Hs as (x & Hx & Hr). exists x.
    simpl. by rewrite lookup_insert_ne. }
  destruct (do_add_refc _ _ (new_str t) _ _ _ H2) as (y & Hy & Hy1); [apply lookup_insert_eq|].
  rewrite (unref_shared _ _ _ Hy) in H by (rewrite Hy1; simpl; lia). injection H as <-.
  exists x. simpl. by rewrite lookup_insert_ne.
Qed.

Lemma decode_changes mbrtowc n l s h r h' :
  heap_fine h → listy h l → sole l h →
  b6b_str_decode_fuel mbrtowc n l s h = Done (r, h') →
  (r = Some l ∨ r = None) ∧ heap_fine h' ∧
  (∀ p, heap_due (objs h') p =
    heap_due (objs h) p - (if r is Some _ then 0 else refs [l] p)) ∧
  ∀ p, listy h p → listy h' p.
Proof.
  revert s h. induction n as [|n IH]; intros s h Hf Hl Hs H; [done|]. simpl in H.
  destruct (mbrtowc s) as [k|].
  2: { apply bind_Done in H as ([] & h1 & H1 & [= <- <-]).
       destruct (destroy_changes _ _ _ Hf Hs H1) as (F & D & K). by split_and!; auto. }
  set (give := c ← b6b_str_copy (take k s); b6b_list_do_add l c;; b6b_unref c).
  assert ((give ;; match drop k s with [] => mret (Some l)
      | s' => b6b_str_decode_fuel mbrtowc n l s' end) h = Done (r, h')) as H'.
  { unfold give. rewrite bind_assoc. revert H. unfold mbind, M_bind.
    destruct (b6b_str_copy _ h) as [[c h1]| |]; [|done..].
    destruct (b6b_list_do_add l c h1) as [[b h2]| |]; [|done..].
    by destruct (b6b_unref c h2) as [[[] h3]| |]. }
  apply bind_Done in H' as ([] & h1 & H1 & H2).
  assert (keeps [l] give) as Hg by (unfold give; changes).
  destruct (Hg h tt h1 Hf (proj2 (Forall_singleton _ _) Hl) H1) as (F1 & D1 & K1 & _).
  pose proof (give_char_sole _ _ _ _ (hs_fresh _ (hf_shape _ Hf)) Hs H1) as Hs1. simpl in D1.
  destruct (drop k s) as [|c s'].
  - injection H2 as <- <-. split_and!; [by left|done| |done]. intros p. rewrite D1. lia.
  - destruct (IH _ h1 F1 (K1 l Hl) Hs1 H2) as (E & F & D & K).
    split_and!; [done|done| |by intros p Hp; apply K, K1]. intros p. rewrite D, D1. lia.
Qed.

Lemma changes_decode mbrtowc Γ s :
  changes Γ (b6b_str_decode mbrtowc s)
    (λ r, match r with Some o => refs [o] | None => refs [] end) no_facts.
Proof.
  intros h r h' Hf Hk H. unfold b6b_str_decode in H. apply bind_Done in H as (l & h1 & H1 & H).
  destruct (changes_list_new [] h l h1 Hf (Forall_nil_2 _) H1) as (F1 & D1 & K1 & N1).
  destruct (new_list_sole _ _ _ (hs_fresh _ (hf_shape _ Hf)) H1) as [_ S1].
  pose proof (proj1 (Forall_singleton _ _) N1) as L1. destruct s as [|c s].
  { injection H as <- <-. by split_and!. }
  destruct (decode_changes _ _ _ _ _ _ _ F1 L1 S1 H) as (E & F & D & K).
  split_and!; [done| |by intros p Hp; apply K, K1|done].
  intros p. simpl in *. rewrite D, D1. destruct E as [-> | ->]; [lia|]. rewrite refs_nil. lia.
Qed.
#[export] Hint Resolve changes_decode : refs.

Lemma keeps_obj_proc `{Env} args : keeps [] (b6b_obj_proc args).
Proof. unfold b6b_obj_proc. proc. Qed.

(** ** System calls and objects with private data *)

Lemma keeps_os Γ (f : os → os) : keeps Γ (λ h : heap, Done (tt, mkHeap (objs h) (next h) (f (h_os h)))).
Proof.
  intros h [] h' [[Hf Hs] Hp] Hk [= <-].
  split_and!; [by split|by intros o; rewrite Z.add_0_r|done|done].
Qed.
Lemma keeps_sys_note Γ cs : keeps Γ (sys_note cs).
Proof. exact (keeps_os Γ (os_note cs)). Qed.
Lemma keeps_sys_call Γ c : keeps Γ (sys_call c).
Proof.
  intros h a h' [[Hf Hs] Hp] Hk H. unfold sys_call in H. destruct (os_next (h_os h)); [done|].
  injection H as <- <-. split_and!; [by split|by intros o; rewrite Z.add_0_r|done|done].
Qed.
#[export] Hint Resolve keeps_sys_note keeps_sys_call : refs.
Lemma keeps_sys_ret Γ c : keeps Γ (sys_ret c).
Proof. unfold sys_ret. changes. Qed.
Lemma keeps_sys_address Γ : keeps Γ sys_address.
Proof. unfold sys_address. changes. Qed.
#[export] Hint Resolve keeps_sys_ret keeps_sys_address : refs.

(** The references an object [x] gets as private data are its own from then on. *)
Lemma own_changes o x f h h' :
  heap_fine h → objs h !! o = Some x → update_obj o f h = Done (tt, h') →
  o_refc (f x) = o_refc x → o_l (f x) = o_l x → o_flags (f x) = o_flags x → del_ok (f x) →
  heap_fine h' ∧
  (∀ p, heap_due (objs h') p = heap_due (objs h) p + refs (priv_refs x) p - refs (priv_refs (f x)) p) ∧
  ∀ p, listy h p → listy h' p.
Proof.
  intros Hf Hx (y & Hy & [= ->])%update_obj_inv Hc Hl Hg Hd. simplify_eq. split_and!.
  - split.
    + eapply heap_shape_insert; [apply Hf|done|done|].
      destruct (hs_obj _ (hf_shape _ Hf) o x Hx) as [A1 A2 A3]. by split; rewrite ?Hl.
    + simpl. intros p y. rewrite lookup_insert. case_decide; [|by apply Hf].
      intros [= <-]. rewrite Hc. exact (hf_pos _ Hf o x Hx).
  - intros p. simpl. rewrite (due_insert _ _ _ _ _ Hx). unfold refs_of, list_refs.
    rewrite Hc, Hl, Hg, !refs_app. case_decide; lia.
  - intros p Hp. eapply listy_insert; [done|done|done|]. by rewrite Hg.
Qed.

(** A new string becomes the object of something. *)
Lemma changes_own Γ t f :
  o_refc (f (new_str t)) = 1 → o_l (f (new_str t)) = [] →
  o_flags (f (new_str t)) = o_flags (new_str t) → del_ok (f (new_str t)) →
  changes Γ (o ← b6b_str_new t; update_obj o f;; mret o)
    (λ o p, refs [o] p - refs (priv_refs (f (new_str t))) p) no_facts.
Proof.
  intros H1 H2 H3 H4 h o h' Hf Hk H. apply bind_Done in H as (o1 & h1 & E1 & H).
  destruct (changes_str_new [] t h o1 h1 Hf (Forall_nil_2 _) E1) as (F1 & D1 & K1 & _).
  change (b6b_str_copy t h = Done (o1, h1)) in E1. rewrite str_copy_eq in E1.
  injection E1 as <- <-. apply bind_Done in H as ([] & h2 & E2 & [= <- <-]).
  destruct (own_changes _ (new_str t) _ _ _ F1 (lookup_insert_eq _ _ _) E2) as (F2 & D2 & K2);
    [done..|].
  split_and!; [done| |by intros p Hp; apply K2, K1|done]. intros p.
  simpl in *. rewrite D2, D1. change (priv_refs (new_str t)) with (@nil loc). rewrite refs_nil. lia.
Qed.

Lemma changes_own_return Γ t f :
  o_refc (f (new_str t)) = 1 → o_l (f (new_str t)) = [] →
  o_flags (f (new_str t)) = o_flags (new_str t) → del_ok (f (new_str t)) →
  changes Γ (o ← on_heap (b6b_str_new t); on_heap (update_obj o f);; b6b_return o)
    (λ _ p, - refs (priv_refs (f (new_str t))) p) no_facts.
Proof.
  intros H1 H2 H3 H4 s r s' Hf Hk H.
  assert ((o ← on_heap (o ← b6b_str_new t; update_obj o f;; mret o); b6b_return o) s
    = Done (r, s')) as H'.
  { rewrite <- H. unfold on_heap, zoom, mbind, M_bind.
    destruct (b6b_str_new t (s_heap s)) as [[o h]| |]; [|done..].
    cbn [s_heap s_in s_tids s_err]. by destruct (update_obj o f h) as [[[] h2]| |]. }
  clear H. revert s r s' Hf Hk H'.
  eapply changes_bind; [apply changes_on_heap, changes_own; done|]. intros o.
  eapply changes_conseq; [apply changes_return|entries|known].
Qed.

Lemma changes_strm_fmt Γ k priv type p :
  changes Γ (b6b_strm_fmt k priv type p)
    (λ o q, refs [o] q - refs (close_refs (mkStrm k priv false false)) q) no_facts.
Proof. unfold b6b_strm_fmt, b6b_strm_new. by apply changes_own. Qed.

Ltac own := eapply changes_conseq; [by apply changes_own_return|entries|known].

(** A stream that keeps no other object. *)
Lemma changes_strm_plain Γ k priv type p :
  close_refs (mkStrm k priv false false) = [] →
  changes Γ (b6b_strm_fmt k priv type p) (λ o, refs [o]) no_facts.
Proof.
  intros E. eapply changes_conseq; [apply changes_strm_fmt| |known].
  intros o q. rewrite E, refs_nil. lia.
Qed.
#[export] Hint Extern 1 (changes _ (b6b_strm_fmt _ _ _ _) _ _) =>
  (apply changes_strm_plain; reflexivity) : refs.

(** ** Descriptors, sockets, paths, the prompt *)

Section calls.
Context {env : Env}.

Lemma keeps_sem args : keeps [] (b6b_sem_proc_sem args).
Proof. unfold b6b_sem_proc_sem. proc. Qed.
Lemma keeps_timer args : keeps [] (b6b_timer_proc_timer args).
Proof. unfold b6b_timer_proc_timer. proc. Qed.

Lemma keeps_signal_loop Γ items set : keeps Γ (signal_loop items set).
Proof. revert Γ set. induction items as [|li items IH]; intros Γ set; simpl; changes. Qed.
Lemma keeps_signal args : keeps [] (b6b_signal_proc_signal args).
Proof. unfold b6b_signal_proc_signal. pose proof keeps_signal_loop. proc. Qed.

Lemma keeps_poll args : keeps [] (b6b_poll_proc_poll args).
Proof.
  unfold b6b_poll_proc_poll. eapply changes_then; [apply changes_get_args|].
  intros [[|p|p] outs]; [changes| |]; (eapply changes_then; [solve [changes]|]); intros [fd|e];
    solve [changes | own].
Qed.

Lemma keeps_realpath args : keeps [] (b6b_path_proc_realpath args).
Proof. unfold b6b_path_proc_realpath. proc. Qed.
Lemma keeps_linenoise_read args : keeps [] (b6b_linenoise_proc_read args).
Proof. unfold b6b_linenoise_proc_read. proc. Qed.
Lemma keeps_history_proc c ok args : keeps [] (history_proc c ok args).
Proof. unfold history_proc. proc. Qed.

Lemma changes_socket_new Γ fd addr peer type k :
  changes Γ (b6b_socket_new fd addr peer type k) (λ o, refs [o]) no_facts.
Proof. unfold b6b_socket_new. changes. Qed.
#[local] Hint Resolve changes_socket_new : refs.

Abbreviation opt_ref := (λ r : option loc, match r with Some o => refs [o] | None => refs [] end).

Lemma changes_client_new Γ res socktype k type :
  changes Γ (b6b_socket_client_new res socktype k type) opt_ref no_facts.
Proof. unfold b6b_socket_client_new. changes. Qed.
Lemma changes_server_new Γ res socktype backlog k1 k2 type :
  changes Γ (b6b_server_socket_new res socktype backlog k1 k2 type) opt_ref no_facts.
Proof. unfold b6b_server_socket_new. changes. Qed.
Lemma changes_return_opt Γ o : changes Γ (return_opt o) (λ _ p, - opt_ref o p) no_facts.
Proof. unfold return_opt. destruct o; changes. Qed.
#[local] Hint Resolve changes_client_new changes_server_new changes_return_opt : refs.

Lemma keeps_un_client args : keeps [] (b6b_socket_proc_un_client args).
Proof. unfold b6b_socket_proc_un_client. proc. Qed.
Lemma keeps_un_server args : keeps [] (b6b_socket_proc_un_server args).
Proof. unfold b6b_socket_proc_un_server. proc. Qed.

Lemma changes_drop_all Γ l : changes Γ (miter b6b_unref l) (λ _ o, - refs l o) no_facts.
Proof. apply changes_miter. intros p. apply changes_unref. Qed.
#[local] Hint Resolve changes_drop_all : refs.

Lemma keeps_un_pair args : keeps [] (b6b_socket_proc_un_pair args).
Proof.
  unfold b6b_socket_proc_un_pair. proc.
Qed.
Lemma keeps_bswap_proc max swap args : keeps [] (bswap_proc max swap args).
Proof. unfold bswap_proc. proc. Qed.

(** ** src/b6b_ffi.c *)

Lemma changes_ffi_decode Γ val t : changes Γ (b6b_ffi_decode val t) opt_ref no_facts.
Proof. unfold b6b_ffi_decode. changes. Qed.
Lemma keeps_ffi_encode Γ o t : keeps Γ (b6b_ffi_encode o t).
Proof. unfold b6b_ffi_encode. changes. Qed.
#[local] Hint Resolve changes_ffi_decode keeps_ffi_encode : refs.

Lemma keeps_pack_loop Γ packed fmt args vli buf : keeps Γ (pack_loop packed fmt args vli buf).
Proof. revert Γ vli buf. induction fmt as [|c fmt IH]; intros Γ vli buf; simpl; changes. Qed.
Lemma keeps_unpack_loop Γ packed fmt s off l : l ∈ Γ → keeps Γ (unpack_loop packed fmt s off l).
Proof.
  revert Γ off. induction fmt as [|c fmt IH]; intros Γ off Hl; simpl; [changes|].
  destruct (decide _); [changes|]. destruct (b6b_ffi_type c); [|changes].
  cbv zeta. apply changes_if; [changes|].
  eapply changes_bind; [apply changes_ffi_decode|]. intros [o|]; changes.
Qed.
#[local] Hint Resolve keeps_pack_loop keeps_unpack_loop : refs.

Lemma keeps_buf_new Γ s : keeps Γ (b6b_ffi_buf_new s).
Proof. unfold b6b_ffi_buf_new. changes. Qed.
#[local] Hint Resolve keeps_buf_new : refs.
Lemma keeps_buf args : keeps [] (b6b_ffi_proc_buf args).
Proof. unfold b6b_ffi_proc_buf. proc. Qed.
Lemma keeps_read_memory Γ addr len : keeps Γ (read_memory addr len).
Proof. unfold read_memory. changes. Qed.
#[local] Hint Resolve keeps_read_memory : refs.
Lemma keeps_memcpy args : keeps [] (b6b_ffi_proc_memcpy args).
Proof. unfold b6b_ffi_proc_memcpy. proc. Qed.
Lemma keeps_pack args : keeps [] (b6b_ffi_proc_pack args).
Proof.
  unfold b6b_ffi_proc_pack. eapply changes_then; [apply changes_proc_get_args|].
  intros [argc outs]. changes.
Qed.

(** The number keeps the object whose address it is. *)
Lemma keeps_addr_new Γ addr to : keeps Γ (b6b_ffi_addr_new addr to).
Proof.
  intros s r s' Hf Hk H. unfold b6b_ffi_addr_new in H.
  apply bind_Done in H as (o & s1 & (h1 & H1 & ->)%on_heap_inv & H).
  apply bind_Done in H as (t & s2 & (h2 & H2 & ->)%on_heap_inv & H).
  apply bind_Done in H as ([] & s3 & (h3 & H3 & ->)%on_heap_inv & H). simpl in H2, H3.
  pose proof (sf_heap _ Hf) as Hh.
  destruct (changes_int_new [] _ _ _ _ Hh (Forall_nil_2 _) H1) as (F1 & D1 & K1 & _).
  destruct (changes_ref [] _ _ _ _ F1 (Forall_nil_2 _) H2) as (F2 & D2 & K2 & _).
  assert (∃ n, objs h2 !! o = Some (with_refc n (new_int (s64 addr)))) as [n Ho].
  { rewrite int_new_eq in H1. injection H1 as <- <-. apply ref_inv in H2 as (y & Hy & ->).
    simpl in Hy |- *. destruct (decide (to = next (s_heap s))) as [->|Hne].
    - rewrite lookup_insert_eq in Hy |- *. injection Hy as <-. by eexists.
    - rewrite lookup_insert_ne, lookup_insert_eq by done. by exists 1. }
  destruct (own_changes _ _ _ _ _ F2 Ho H3) as (F3 & D3 & K3); [done..|].
  assert (∀ p, listy (s_heap s) p → listy h3 p) as K by (intros p Hp; by apply K3, K2, K1).
  pose proof (st_fine_heap s h3 Hf F3 K) as Hf3.
  destruct (changes_return [] o _ _ _ Hf3 (Forall_nil_2 _) H) as (F4 & D4 & K4 & _).
  split_and!; [done| |by intros p Hp; apply K4, K|done].
  intros p. rewrite D4. simpl in *. rewrite D3, D2, D1. unfold priv_refs. simpl.
  rewrite refs_nil. lia.
Qed.
#[local] Hint Resolve keeps_addr_new : refs.

Lemma keeps_buf_proc args : keeps [] (b6b_ffi_buf_proc args).
Proof. unfold b6b_ffi_buf_proc. proc. Qed.
Lemma keeps_dlerror Γ : keeps Γ dlerror.
Proof. unfold dlerror. changes. Qed.
Lemma keeps_priv_num Γ o : keeps Γ (priv_num o).
Proof. unfold priv_num. changes. Qed.
#[local] Hint Resolve keeps_dlerror keeps_priv_num : refs.
Lemma keeps_so_proc args : keeps [] (b6b_ffi_so_proc args).
Proof. unfold b6b_ffi_so_proc. proc. Qed.
Lemma keeps_arg_addrs Γ n items : keeps Γ (arg_addrs n items).
Proof. revert Γ items. induction n as [|n IH]; intros Γ [|li items]; simpl; changes. Qed.
#[local] Hint Resolve keeps_arg_addrs : refs.
Lemma keeps_func_proc args : keeps [] (b6b_ffi_func_proc args).
Proof. unfold b6b_ffi_func_proc. proc. Qed.
Lemma keeps_dlopen args : keeps [] (b6b_ffi_proc_dlopen args).
Proof. unfold b6b_ffi_proc_dlopen. repeat first [own | change_step]. Qed.
Lemma keeps_func args : keeps [] (b6b_ffi_proc_func args).
Proof. unfold b6b_ffi_proc_func. repeat first [own | change_step]. Qed.

(** A new object is added to [l] and let go. *)
Lemma give_new_sole l x h o h0 b h2 h3 :
  heap_fresh h → sole l h → o_refc x = 1 → malloc_obj x h = Done (o, h0) →
  b6b_list_add l o h0 = Done (b, h2) → b6b_unref o h2 = Done (tt, h3) → sole l h3.
Proof.
  intros Hf Hs Hr [= <- <-] H2 H3. assert (next h ≠ l) as Hne.
  { intros <-. destruct Hs as (y & Hy & _). by rewrite fresh_none in Hy. }
  assert (sole l h2) as (y & Hy & Hyr).
  { eapply sole_list_add; [exact Hne|exact H2|]. destruct Hs as (y & Hy & Hyr). exists y.
    simpl. by rewrite lookup_insert_ne. }
  unfold b6b_list_add in H2. apply bind_Done in H2 as (b0 & h4 & H4 & H2).
  destruct (do_add_refc _ _ x _ _ _ H4) as (z & Hz & Hzr); [apply lookup_insert_eq|].
  assert (∃ w, objs h2 !! next h = Some w ∧ o_refc w = 2) as (w & Hw & Hwr).
  { destruct b0; [|injection H2 as _ <-; exists z; split; [done|lia]].
    apply bind_Done in H2 as ([] & h5 & (v & Hv & [= ->])%update_obj_inv & [= _ <-]).
    exists z. split; [|lia]. simpl. by rewrite lookup_insert_ne. }
  rewrite (unref_shared _ _ _ Hw) in H3 by lia. injection H3 as <-.
  exists y. simpl. by rewrite lookup_insert_ne.
Qed.

(** [ffi.unpack] destroys the list, which nobody else refers to, when the
    format does not fit. *)
Lemma unpack_loop_sole packed fmt s off l h ok h' :
  heap_fine h → listy h l → sole l h → unpack_loop packed fmt s off l h = Done (ok, h') → sole l h'.
Proof.
  revert off h. induction fmt as [|c fmt IH]; intros off h Hf Hl Hs H; simpl in H.
  { by injection H as _ <-. }
  destruct (decide _); [by injection H as _ <-|].
  destruct (b6b_ffi_type c) as [t|]; [|by injection H as _ <-]. cbv zeta in H.
  destruct (_ && _); [by injection H as _ <-|].
  apply bind_Done in H as (r & h1 & H1 & H).
  destruct (changes_ffi_decode [] _ _ _ _ _ Hf (Forall_nil_2 _) H1) as (F1 & _ & K1 & _).
  unfold b6b_ffi_decode in H1. destruct (_ <? _).
  { injection H1 as <- <-. by injection H as _ <-. }
  apply bind_Done in H1 as (o & h0 & H0 & [= <- <-]).
  assert (∃ x, malloc_obj x h = Done (o, h0) ∧ o_refc x = 1) as (x & Hx & Hr).
  { destruct (ffi_value t _) as [i|f].
    - rewrite int_new_eq in H0. by exists (new_int i).
    - unfold b6b_float_new in H0. rewrite new_eq in H0. by eexists. }
  apply bind_Done in H as (b & h2 & H2 & H). apply bind_Done in H as ([] & h3 & H3 & H).
  destruct (keeps_list_add [l] l o ltac:(by left) _ _ _ F1 (proj2 (Forall_singleton _ _) (K1 l Hl)) H2)
    as (F2 & _ & K2 & _).
  destruct (changes_unref [] _ _ _ _ F2 (Forall_nil_2 _) H3) as (F3 & _ & K3 & _).
  eapply IH; [exact F3|by apply K3, K2, K1| |exact H].
  by eapply (give_new_sole l x); [apply hs_fresh, hf_shape, Hf|..].
Qed.

Lemma unpack_tail Γ packed fmt str :
  keeps Γ (l ← on_heap b6b_list_new;
    s ← on_heap (text str);
    ok ← on_heap (unpack_loop packed fmt s 0 l);
    if ok : bool then b6b_return l else on_heap (b6b_destroy l);; mret B6B_ERR).
Proof.
  intros s r s' Hf Hk H. apply bind_Done in H as (l & s1 & (h1 & H1 & ->)%on_heap_inv & H).
  apply bind_Done in H as (t & s2 & (h2 & H2 & ->)%on_heap_inv & H).
  apply bind_Done in H as (ok & s3 & (h3 & H3 & ->)%on_heap_inv & H). simpl in H2, H3.
  pose proof (sf_heap _ Hf) as Hh.
  destruct (changes_list_new [] _ _ _ Hh (Forall_nil_2 _) H1) as (F1 & D1 & K1 & N1).
  destruct (new_list_sole _ _ _ (hs_fresh _ (hf_shape _ Hh)) H1) as [_ S1].
  unfold text in H2. apply bind_Done in H2 as (x & h0 & [-> Hx]%read_obj_inv & [= <- <-]).
  destruct (keeps_unpack_loop [l] packed fmt (o_s x) 0 l ltac:(by left) _ _ _ F1 N1 H3)
    as (F2 & D2 & K2 & _).
  pose proof (unpack_loop_sole _ _ _ _ _ _ _ _ F1 (proj1 (Forall_singleton _ _) N1) S1 H3) as S2.
  assert (∀ p, listy (s_heap s) p → listy h3 p) as K by (intros p Hp; by apply K2, K1).
  pose proof (st_fine_heap s h3 Hf F2 K) as Hf2. simpl in D1, D2. destruct ok.
  - destruct (changes_return [] l _ _ _ Hf2 (Forall_nil_2 _) H) as (F3 & D3 & K3 & _).
    split_and!; [done| |by intros p Hp; apply K3, K|done].
    intros p. rewrite D3. simpl. rewrite D2, D1. lia.
  - apply bind_Done in H as ([] & s4 & (h4 & H4 & ->)%on_heap_inv & [= <- <-]).
    destruct (destroy_changes _ _ _ F2 S2 H4) as (F3 & D3 & K3).
    split_and!; [apply st_fine_heap; [done|done|]| | |done];
      try (intros p Hp; simpl in *; by apply K3, K).
    intros p. simpl. rewrite D3, D2, D1. lia.
Qed.

Lemma keeps_unpack args : keeps [] (b6b_ffi_proc_unpack args).
Proof.
  unfold b6b_ffi_proc_unpack. eapply changes_then; [apply changes_get_args|].
  intros [argc [|f [|o [|]]]]; try (destruct argc; solve [changes]).
  destruct argc as [|p|p]; [changes| |];
    (eapply changes_then; [solve [changes]|]); intros t;
    (destruct (ffi_format t) as [[packed g]|]; [apply unpack_tail|changes]).
Qed.
End calls.

(** ** Properties *)

(** The ledger and the counts of Heap.v say the same. *)
Lemma well_counted_due R h :
  heap_fine h → well_counted R (objs h) ↔ ∀ o, heap_due (objs h) o = refs R o.
Proof.
  intros Hf. unfold heap_due, counted, refs. split.
  - intros [Hc Hl] o. destruct (objs h !! o) as [x|] eqn:Hx; simpl.
    + destruct (Hc o x Hx) as (-> & _). lia.
    + specialize (Hl o Hx). lia.
  - intros Hd. split.
    + intros o x Hx. specialize (Hd o). rewrite Hx in Hd. simpl in Hd. split_and!; [lia| |].
      * by eapply hf_pos.
      * by destruct (hs_obj _ (hf_shape _ Hf) o x Hx).
    + intros o Hx. specialize (Hd o). rewrite Hx in Hd. simpl in Hd. lia.
Qed.

(** The procedures that neither run code nor let other threads run, all of them
    but [sh]. *)
Definition counted_procs `{Env} : list (loc → M st b6b_res) :=
  [b6b_str_proc_len; b6b_str_proc_index; b6b_str_proc_range; b6b_str_proc_join;
   b6b_str_proc_split; b6b_str_proc_ord; b6b_str_proc_chr; b6b_str_proc_expand;
   b6b_str_proc_in; b6b_str_proc_rtrim; b6b_str_proc_ltrim;
   b6b_list_proc_new; b6b_list_proc_len; b6b_list_proc_append; b6b_list_proc_copy;
   b6b_list_proc_extend; b6b_list_proc_index; b6b_list_proc_range; b6b_list_proc_in;
   b6b_list_proc_pop; b6b_dict_proc_get; b6b_dict_proc_set; b6b_dict_proc_unset;
   b6b_loop_proc_range; b6b_rand_proc_choice; b6b_rand_proc_randint;
   b6b_math_proc_add; b6b_math_proc_sub; b6b_math_proc_mul; b6b_math_proc_div;
   b6b_math_proc_mod; b6b_math_proc_and; b6b_math_proc_or; b6b_math_proc_xor;
   b6b_math_proc_lt; b6b_math_proc_le; b6b_math_proc_gt; b6b_math_proc_ge;
   b6b_logic_proc_not; b6b_logic_proc_eq; b6b_logic_proc_ne; b6b_logic_proc_and;
   b6b_logic_proc_or; b6b_logic_proc_xor;
   b6b_core_proc_nop; b6b_core_proc_echo; b6b_core_proc_yield; b6b_core_proc_continue;
   b6b_core_proc_break; b6b_core_proc_return; b6b_core_proc_exit; b6b_core_proc_throw;
   b6b_core_proc_local; b6b_core_proc_global; b6b_core_proc_export; b6b_core_proc_repr;
   b6b_obj_proc;
   b6b_sem_proc_sem; b6b_timer_proc_timer; b6b_signal_proc_signal; b6b_poll_proc_poll;
   b6b_path_proc_realpath; b6b_linenoise_proc_read; b6b_linenoise_proc_add;
   b6b_linenoise_proc_save; b6b_linenoise_proc_load;
   b6b_socket_proc_un_client; b6b_socket_proc_un_server; b6b_socket_proc_un_pair;
   b6b_socket_proc_bswap16; b6b_socket_proc_bswap32;
   b6b_ffi_proc_buf; b6b_ffi_buf_proc; b6b_ffi_proc_memcpy; b6b_ffi_proc_pack;
   b6b_ffi_proc_unpack; b6b_ffi_proc_dlopen; b6b_ffi_so_proc; b6b_ffi_proc_func;
   b6b_ffi_func_proc].

Create HintDb procs discriminated.
#[export] Hint Constants Opaque : procs.
#[export] Hint Variables Opaque : procs.
#[export] Hint Resolve keeps_str_len keeps_str_index keeps_str_range keeps_str_join keeps_str_split
  keeps_str_ord keeps_str_chr keeps_str_expand keeps_str_in keeps_rtrim keeps_ltrim keeps_list_new
  keeps_list_len keeps_list_append keeps_list_copy keeps_list_extend keeps_list_index
  keeps_list_range keeps_list_in keeps_list_pop keeps_dict_proc_get keeps_dict_proc_set
  keeps_dict_proc_unset keeps_range keeps_choice keeps_randint keeps_int_proc keeps_not
  keeps_eq_proc keeps_truth_proc keeps_echo keeps_leave_proc keeps_throw keeps_core_local
  keeps_core_global keeps_core_export keeps_repr keeps_obj_proc keeps_ret
  keeps_sem keeps_timer keeps_signal keeps_poll keeps_realpath keeps_linenoise_read
  keeps_history_proc keeps_un_client keeps_un_server keeps_un_pair keeps_bswap_proc
  keeps_buf keeps_buf_proc keeps_memcpy keeps_pack keeps_unpack keeps_dlopen keeps_so_proc
  keeps_func keeps_func_proc : procs.
#[export] Hint Extern 2 (changes _ (float_proc _ _) _ _) =>
  (apply keeps_float_proc; intros; changes) : procs.

Lemma procs_keep `{Env} : Forall (λ p, ∀ args, keeps [] (p args)) counted_procs.
Proof.
  unfold counted_procs.
  repeat (apply Forall_cons_2; [intros args|]); [..|apply Forall_nil_2].
  all: first
    [ solve [eauto 2 with procs]
    | match goal with |- changes _ (?p _) _ _ => unfold p; solve [eauto 2 with procs] end ].
Qed.

(** C11: the procedures that run without interruption neither leak nor steal
    references, on every path, for all arguments and whatever the system
    answers: when the counts of all objects are right, with the references
    [R] that the callers hold and those of the interpreter, they are right when
    the procedure returns, and the callers' references are untouched. *)
Theorem procs_return_references `{Env} p args R s r s' :
  p ∈ counted_procs → st_fine s →
  well_counted (R ++ interp_roots (s_in s)) (objs (s_heap s)) → p args s = Done (r, s') →
  st_fine s' ∧ well_counted (R ++ interp_roots (s_in s')) (objs (s_heap s')).
Proof.
  intros Hp Hf Hwc Hr. pose proof (proj1 (Forall_forall _ _) procs_keep p Hp args) as Hk.
  destruct (Hk s r s' Hf (Forall_nil_2 _) Hr) as (F & D & _). split; [done|].
  pose proof (proj1 (well_counted_due _ _ (sf_heap _ Hf)) Hwc) as Hd. clear Hwc.
  apply well_counted_due; [exact (sf_heap _ F)|]. intros o. specialize (D o).
  specialize (Hd o). simpl in D. rewrite refs_app in Hd |- *. lia.
Qed.

(** *** Witness *)

Definition fine_check (s : st) : bool :=
  let h := s_heap s in
  forallb (λ kv,
    (kv.1 <? next h)%N && (0 <? o_refc kv.2) && del_fits kv.2
    && bool_decide (NoDup (li_id <$> o_l kv.2))
    && forallb (λ it, (li_id it <? next h)%N && (li_o it <? next h)%N) (o_l kv.2))
    (map_to_list (objs h))
  && bool_decide (NoDup (t_id <$> threads (s_in s)))
  && forallb (λ o, (o <? next h)%N
       && match objs h !! o with Some x => f_list (o_flags x) | None => true end)
     (frames_roots (interp_frames (s_in s))).

Lemma fine_check_sound s : fine_check s = true → st_fine s.
Proof.
  unfold fine_check. rewrite !andb_true_iff, !forallb_forall, bool_decide_eq_true.
  intros [[Hm Hi] Hl].
  assert (∀ o x, objs (s_heap s) !! o = Some x →
    (o < next (s_heap s))%N ∧ 0 < o_refc x ∧ obj_shape (next (s_heap s)) x) as Ho.
  { intros o x Hx. specialize (Hm (o, x)). rewrite !andb_true_iff, bool_decide_eq_true, forallb_forall in Hm.
    destruct Hm as [[[[H1 H2] H3] H4] H5].
    { by apply list_elem_of_In, elem_of_map_to_list. }
    cbn [fst snd] in *. split_and!; [by apply N.ltb_lt|by apply Z.ltb_lt|]. split; [done|done|].
    intros it Hit. specialize (H5 it (proj1 (list_elem_of_In _ _) Hit)).
    apply andb_true_iff in H5 as [H6 H7]. by apply N.ltb_lt in H6, H7. }
  split; [split; [split|]|done|].
  - intros o [x Hx]. by destruct (Ho o x Hx).
  - intros o x Hx. by destruct (Ho o x Hx) as (_ & _ & ?).
  - intros o x Hx. by destruct (Ho o x Hx) as (_ & ? & _).
  - apply Forall_forall. intros f Hf. apply Forall_forall. intros o Hof. simpl.
    assert (o ∈ frames_roots (interp_frames (s_in s))) as Hin.
    { apply list_elem_of_In, in_concat. exists (frame_roots f). split; [|by apply list_elem_of_In].
      by apply list_elem_of_In, list_elem_of_fmap_2. }
    specialize (Hl o (proj1 (list_elem_of_In _ _) Hin)).
    apply andb_true_iff in Hl as [H1 H2]. split; [by apply N.ltb_lt|]. intros x Hx. by rewrite Hx in H2.
Qed.

(** [list.range {a} 0 1]: the second index is out of range. *)
Definition sample_range : st :=
  mkSt (mkHeap
      {[ 0%N := with_l [] new_list; 1%N := with_l [] new_list;
         2%N := with_l [mkItem 10 3; mkItem 11 4; mkItem 12 5; mkItem 13 6] new_list;
         3%N := new_str (lit "list.range"); 4%N := new_str (lit "{a}");
         5%N := new_int 0; 6%N := new_int 1; 7%N := with_refc 7 (new_str []);
         8%N := new_list ]} 20 no_os)
    (mkInterp [mkThread 0 [mkFrame 0 2] None 7 1 false true false false] 0 (mkFrame 1 8)
       7 7 7 7 7 7 0 0 0 (mkOpts false false false false) []) 1 [].

Lemma procs_return_references_witness :
  ∃ s', b6b_list_proc_range 2 sample_range = Done (B6B_ERR, s') ∧
    well_counted ([] ++ interp_roots (s_in s')) (objs (s_heap s')).
Proof.
  eexists. split; [vm_compute; reflexivity|].
  apply (procs_return_references (H := sample_env) b6b_list_proc_range 2%N [] sample_range B6B_ERR).
  - do 17 apply list_elem_of_further. apply list_elem_of_here.
  - apply fine_check_sound. vm_compute. reflexivity.
  - apply wc_check_sound. vm_compute. reflexivity.
  - vm_compute. reflexivity.
Defined.
