(* ===== verification/Eval.v ===== *)
(** * The evaluator

    [b6b_eval], [b6b_stmt_call], [b6b_call], [b6b_yield] of src/b6b_interp.c
    and the procedures that run code (src/b6b_loop.c, src/b6b_exc.c,
    src/b6b_proc.c, [if], [call], [eval], [spawn], [source]), on the
    resumptions of Switch.v. *)
From Stdlib Require Import ZArith Lia Init.Byte Strings.Byte Strings.String.
From stdpp Require Import base option list numbers gmap.
From S2P Require Import Prelude Sys Float64 Hash Parse Heap Repr ListObj Dict Offload Interp.
From S2P Require Import StrProcs ListProcs CoreProcs.
From S2P Require Import Strm FdOps FdProcs Switch Sockets Streams SysProcs Ffi Zlib.
#[local] Open Scope Z_scope.

(** ** Statements *)

Definition b6b_on_res (res : b6b_res) : IM b6b_res :=
  if decide (res = B6B_YIELD) then b6b_yield;; mret B6B_OK
  else
    lift (set_interp (λ i, with_qstep (u8 (qstep i + 1)) i));;
    s ← lift get;
    t ← lift fg_thread;
    ok ← lift (b6b_local (us (s_in s)) (t_ret t));
    if negb ok then mret B6B_ERR
    else if decide (res = B6B_EXIT) then
      lift (set_interp (with_exit 1));; mret res
    else
      s ← lift get;
      (if qstep (s_in s) =? B6B_QUANT_LEN then b6b_yield;; mret tt else mret tt);;
      mret res.

(** The text before the first newline; nothing when there is none. *)
Fixpoint first_line (s : bytes) : option bytes :=
  match s with
  | [] => None
  | c :: s' =>
      if decide (c = x00) then None
      else if decide (c = x0a) then Some [] else cons c <$> first_line s'
  end.

(** With [B6B_OPT_TRACE]: prints the statement to [stderr], for writes that
    succeed. *)
Definition trace_stmt (args : loc) : M st bool :=
  ok ← on_heap (b6b_as_str args);
  if negb ok then mret false
  else
    s ← on_heap (text args);
    let out := lit "+ " ++ match first_line s with
                           | Some l => l ++ lit " ..." ++ [x0a]
                           | None => s ++ [x0a]
                           end in
    modify (λ t, mkSt (s_heap t) (s_in t) (s_tids t) (s_err t ++ out));;
    mret true.

Section eval.
Context `{Env}.

(** [n] bounds the rounds of a loop; [stmt_call] is [b6b_stmt_call], for
    the recursive calls. *)
Variable n : nat.
Variable b6b_stmt_call : loc → IM b6b_res.

(** [b6b_eval] *)
Definition b6b_eval (exp : loc) : IM b6b_res :=
  s ← hp (text exp);
  match s with
  | c :: s' =>
      if decide (c = "$"%byte) then
        o ← lift (b6b_get_str s');
        match o with
        | Some o => lift (return_ref o)
        | None => mret B6B_ERR
        end
      else if decide (c = "["%byte) then
        if bool_decide (s' = []) || negb (bool_decide (last s = Some "]"%byte)) then
          lift (b6b_return_str (lit "uneven []"));; mret B6B_ERR
        else
          stmt ← hp (b6b_list_from (take (length s' - 1) s'));
          match stmt with
          | None => mret B6B_ERR
          | Some stmt =>
              res ← b6b_stmt_call stmt;
              hp (b6b_unref stmt);;
              mret res
          end
      else lift (return_ref exp)
  | [] => lift (return_ref exp)
  end.

(** The loop of [b6b_call], at the node [li] of the list. *)
Fixpoint call_loop (k : nat) (stmts : loc) (li : option N) : IM b6b_res :=
  match li with
  | None => mret B6B_OK
  | Some i =>
      match k with
      | O => nofuel
      | S k' =>
          o ← hp (item_obj stmts i);
          ok ← hp (b6b_as_str o);
          if negb ok then mret B6B_ERR
          else
            s ← hp (text o);
            res ← match s with
                  | c :: _ =>
                      if decide (c = "#"%byte) then mret B6B_OK else b6b_stmt_call o
                  | [] => mret B6B_OK
                  end;
            if decide (res ≠ B6B_OK) then mret res
            else nx ← hp (b6b_list_next stmts i); call_loop k' stmts nx
      end
  end.

Definition b6b_call (stmts : loc) : IM b6b_res :=
  ok ← hp (b6b_as_list stmts);
  if negb ok then mret B6B_ERR
  else li ← hp (b6b_list_first stmts); call_loop n stmts li.

Definition b6b_call_copy (s : bytes) : IM b6b_res :=
  o ← hp (b6b_str_copy s);
  res ← b6b_call o;
  hp (b6b_unref o);;
  mret res.

(** What [b6b_source] runs of a file: with a shebang, [off] bytes less than
    the file has, from the first newline on. *)
Definition source_text (s : bytes) : option bytes :=
  match s with
  | "#"%byte :: "!"%byte :: _ =>
      match first_line s with
      | None => None
      | Some l =>
          let off := (length l + 1)%nat in
          Some (take (length s - off) (drop (length l) s))
      end
  | _ => Some s
  end.

Definition b6b_source (path : bytes) : IM b6b_res :=
  match read_file path with
  | None | Some [] => mret B6B_ERR
  | Some s =>
      match source_text s with
      | None => mret B6B_ERR
      | Some t =>
          stmts ← hp (b6b_str_copy t);
          res ← b6b_call stmts;
          hp (b6b_unref stmts);;
          mret res
      end
  end.

(** ** Procedures that run code *)

Definition b6b_logic_proc_if (args : loc) : IM b6b_res :=
  r ← lift (get_args args "ooo|o" [false; true; true; true]);
  match r with
  | (0, _) => mret B6B_ERR
  | (_, b :: t :: f) =>
      x ← hp (read_obj b);
      if b6b_obj_istrue x then b6b_call t
      else match f with
           | f :: _ => b6b_call f
           | [] => mret B6B_OK
           end
  | _ => lift ub
  end.

(** The inner loop of [map]: assigns an item to each name. *)
Inductive map_assigned : Set :=
| Not_enough
| Not_set
| Assigned (li : option N).

Fixpoint map_assign (k : nat) (ks l : loc) (kli li : option N) : IM map_assigned :=
  match kli with
  | None => mret (Assigned li)
  | Some ki =>
      match k, li with
      | O, _ => nofuel
      | S _, None => mret Not_enough
      | S k', Some i =>
          ko ← hp (item_obj ks ki);
          o ← hp (item_obj l i);
          ok ← lift (b6b_local ko o);
          if negb ok then mret Not_set
          else
            nli ← hp (b6b_list_next l i);
            nki ← hp (b6b_list_next ks ki);
            map_assign k' ks l nki nli
      end
  end.

Fixpoint map_loop (k : nat) (ks l b r : loc) (li : option N) : IM b6b_res :=
  match li with
  | None => lift (b6b_return r)
  | Some _ =>
      match k with
      | O => nofuel
      | S k' =>
          kli ← hp (b6b_list_first ks);
          a ← map_assign n ks l kli li;
          match a with
          | Not_enough =>
              hp (b6b_destroy r);;
              lift (b6b_return_str (lit "not enough items"));;
              mret B6B_ERR
          | Not_set => hp (b6b_destroy r);; mret B6B_ERR
          | Assigned li =>
              res ← b6b_call b;
              match res with
              | B6B_OK =>
                  t ← lift fg_thread;
                  ok ← hp (b6b_list_add r (t_ret t));
                  if negb ok then hp (b6b_destroy r);; mret B6B_ERR
                  else map_loop k' ks l b r li
              | B6B_CONT => map_loop k' ks l b r li
              | B6B_BREAK => lift (b6b_return r)
              | _ => hp (b6b_destroy r);; mret res
              end
          end
      end
  end.

Definition b6b_loop_proc_map (args : loc) : IM b6b_res :=
  r ← lift (get_args args "ollo" [false; true; true; true]);
  match r with
  | (0, _) => mret B6B_ERR
  | (_, [ks; l; b]) =>
      e ← hp (b6b_list_empty ks);
      if e : bool then mret B6B_ERR
      else
        r ← hp b6b_list_new;
        li ← hp (b6b_list_first l);
        map_loop n ks l b r li
  | _ => lift ub
  end.

Fixpoint loop_loop (k : nat) (b : loc) : IM b6b_res :=
  match k with
  | O => nofuel
  | S k' =>
      res ← b6b_call b;
      match res with
      | B6B_BREAK => mret B6B_OK
      | B6B_OK => loop_loop k' b
      | _ => mret res
      end
  end.

Definition b6b_loop_proc_loop (args : loc) : IM b6b_res :=
  r ← lift (get_args args "oo" [false; true]);
  match r with
  | (0, _) => mret B6B_ERR
  | (_, [b]) => loop_loop n b
  | _ => lift ub
  end.

(** The result of the except block, when the try block failed: [inl] returns
    at once. *)
Definition try_except (argc : Z) (e : option loc) : IM (b6b_res + b6b_res) :=
  s ← lift get;
  if opt_raise (opts (s_in s)) then
    match e with
    | None => mret (inl B6B_ERR)
    | Some e =>
        eres ← b6b_call e;
        mret (inr (if decide (eres = B6B_EXIT) then B6B_EXIT else B6B_ERR))
    end
  else
    match e with
    | None => mret (inl B6B_OK)
    | Some e => eres ← b6b_call e; mret (inr eres)
    end.

(** The finally block runs with [exit] cleared, and the return value is kept. *)
Definition try_finally (f : loc) : IM b6b_res :=
  s ← lift get;
  let ex := exit_ (s_in s) in
  lift (set_interp (with_exit 0));;
  t ← lift fg_thread;
  let o := t_ret t in
  hp (b6b_ref o);;
  fres ← b6b_call f;
  lift (set_ret o);;
  lift (set_interp (with_exit ex));;
  mret fres.

Definition b6b_exc_proc_try (args : loc) : IM b6b_res :=
  r ← lift (get_args args "oo|oo" [false; true; true; true]);
  match r with
  | (0, _) => mret B6B_ERR
  | (argc, t :: ef) =>
      res ← b6b_call t;
      er ← (if decide (res = B6B_ERR) then try_except argc (head ef)
            else mret (inr B6B_ERR));
      match er with
      | inl r => mret r
      | inr eres =>
          match ef with
          | [_; f] =>
              fres ← try_finally f;
              mret (if decide (res = B6B_RET ∨ res = B6B_EXIT) then res
                    else if decide (res = B6B_ERR ∧ eres ≠ B6B_OK) then eres
                    else fres)
          | _ => mret (if decide (res = B6B_ERR) then eres else res)
          end
      end
  | _ => lift ub
  end.

Definition b6b_core_proc_call (args : loc) : IM b6b_res :=
  r ← lift (get_args args "oo" [false; true]);
  match r with
  | (0, _) => mret B6B_ERR
  | (_, [stmts]) => b6b_call stmts
  | _ => lift ub
  end.

Definition b6b_core_proc_eval (args : loc) : IM b6b_res :=
  r ← lift (get_args args "oo" [false; true]);
  match r with
  | (0, _) => mret B6B_ERR
  | (_, [exp]) =>
      ok ← hp (b6b_as_str exp);
      if ok : bool then b6b_eval exp else mret B6B_ERR
  | _ => lift ub
  end.

Definition b6b_core_proc_spawn (args : loc) : IM b6b_res :=
  r ← lift (get_args args "oo" [false; true]);
  match r with
  | (0, _) => mret B6B_ERR
  | (_, [o]) =>
      ok ← lift (b6b_start o);
      mret (if ok : bool then B6B_OK else B6B_ERR)
  | _ => lift ub
  end.

(** The path ends at its first NUL for [open]. *)
Definition b6b_core_proc_source (args : loc) : IM b6b_res :=
  r ← lift (get_args args "os" [false; true]);
  match r with
  | (0, _) => mret B6B_ERR
  | (_, [path]) =>
      p ← hp (text path);
      match p with
      | [] => mret B6B_ERR
      | _ => b6b_source (c_str p)
      end
  | _ => lift ub
  end.

(** [b6b_proc_proc]: calls a procedure the program defined. *)
Definition b6b_proc_proc (args : loc) : IM b6b_res :=
  li ← hp (b6b_list_first args);
  li ← lift (deref li);
  o ← hp (item_obj args li);
  x ← hp (read_obj o);
  match o_priv x with
  | V_proc body priv =>
      f ← lift curr_frame;
      ok ← lift (b6b_frame_set_args f args);
      if negb ok then mret B6B_ERR
      else
        s ← lift get;
        ok ← lift (b6b_local (dot (s_in s)) priv);
        if negb ok then mret B6B_ERR
        else
          res ← b6b_call body;
          mret (if decide (res = B6B_RET) then B6B_OK else res)
  | _ => lift ub
  end.

(** The object is set as a global before its body is, so [o] has no [del]
    while the name is defined. *)
Definition b6b_proc_proc_proc (args : loc) : IM b6b_res :=
  r ← lift (get_args args "oso|o" [false; true; true; true]);
  match r with
  | (0, _) => mret B6B_ERR
  | (argc, nm :: b :: p) =>
      s ← hp (text nm);
      o ← hp (b6b_str_copy s);
      ok ← match s with
           | [] => mret true
           | _ => lift (b6b_global nm o)
           end;
      if negb ok then hp (b6b_destroy o);; mret B6B_ERR
      else
        hp (b6b_ref b);;
        i ← lift get;
        let pr := match p with p :: _ => p | [] => null (s_in i) end in
        hp (b6b_ref pr);;
        hp (update_obj o (λ x, with_proc P_proc_body (with_del D_proc (V_proc b pr) x)));;
        lift (b6b_return o)
  | _ => lift ub
  end.

(** ** Calling a statement *)

(** [o->proc(interp, args)] *)
Definition call_proc (p : b6b_procf) (args : loc) : IM b6b_res :=
  match p with
  | P_obj => lift (b6b_obj_proc args)
  | P_nop => lift (b6b_core_proc_nop args)
  | P_echo => lift (b6b_core_proc_echo args)
  | P_yield => lift (b6b_core_proc_yield args)
  | P_return => lift (b6b_core_proc_return args)
  | P_continue => lift (b6b_core_proc_continue args)
  | P_break => lift (b6b_core_proc_break args)
  | P_throw => lift (b6b_core_proc_throw args)
  | P_exit => lift (b6b_core_proc_exit args)
  | P_local => lift (b6b_core_proc_local args)
  | P_global => lift (b6b_core_proc_global args)
  | P_export => lift (b6b_core_proc_export args)
  | P_eval => b6b_core_proc_eval args
  | P_repr => lift (b6b_core_proc_repr args)
  | P_call => b6b_core_proc_call args
  | P_spawn => b6b_core_proc_spawn args
  | P_source => b6b_core_proc_source args
  | P_not => lift (b6b_logic_proc_not args)
  | P_eq => lift (b6b_logic_proc_eq args)
  | P_ne => lift (b6b_logic_proc_ne args)
  | P_and => lift (b6b_logic_proc_and args)
  | P_or => lift (b6b_logic_proc_or args)
  | P_xor => lift (b6b_logic_proc_xor args)
  | P_if => b6b_logic_proc_if args
  | P_map => b6b_loop_proc_map args
  | P_loop => b6b_loop_proc_loop args
  | P_range => lift (b6b_loop_proc_range args)
  | P_try => b6b_exc_proc_try args
  | P_proc_body => b6b_proc_proc args
  | P_proc => b6b_proc_proc_proc args
  | P_add => lift (b6b_math_proc_add args)
  | P_sub => lift (b6b_math_proc_sub args)
  | P_mul => lift (b6b_math_proc_mul args)
  | P_div => lift (b6b_math_proc_div args)
  | P_mod => lift (b6b_math_proc_mod args)
  | P_band => lift (b6b_math_proc_and args)
  | P_bor => lift (b6b_math_proc_or args)
  | P_bxor => lift (b6b_math_proc_xor args)
  | P_lt => lift (b6b_math_proc_lt args)
  | P_le => lift (b6b_math_proc_le args)
  | P_gt => lift (b6b_math_proc_gt args)
  | P_ge => lift (b6b_math_proc_ge args)
  | P_str_len => lift (b6b_str_proc_len args)
  | P_str_index => lift (b6b_str_proc_index args)
  | P_str_range => lift (b6b_str_proc_range args)
  | P_str_join => lift (b6b_str_proc_join args)
  | P_str_split => lift (b6b_str_proc_split args)
  | P_str_ord => lift (b6b_str_proc_ord args)
  | P_str_chr => lift (b6b_str_proc_chr args)
  | P_str_expand => lift (b6b_str_proc_expand args)
  | P_str_in => lift (b6b_str_proc_in args)
  | P_rtrim => lift (b6b_str_proc_rtrim args)
  | P_ltrim => lift (b6b_str_proc_ltrim args)
  | P_list_new => lift (b6b_list_proc_new args)
  | P_list_len => lift (b6b_list_proc_len args)
  | P_list_copy => lift (b6b_list_proc_copy args)
  | P_list_append => lift (b6b_list_proc_append args)
  | P_list_extend => lift (b6b_list_proc_extend args)
  | P_list_index => lift (b6b_list_proc_index args)
  | P_list_range => lift (b6b_list_proc_range args)
  | P_list_in => lift (b6b_list_proc_in args)
  | P_list_pop => lift (b6b_list_proc_pop args)
  | P_dict_get => lift (b6b_dict_proc_get args)
  | P_dict_set => lift (b6b_dict_proc_set args)
  | P_dict_unset => lift (b6b_dict_proc_unset args)
  | P_choice => lift (b6b_rand_proc_choice args)
  | P_randint => lift (b6b_rand_proc_randint args)
  | P_strm => b6b_strm_proc n args
  | P_open => b6b_file_proc_open n args
  | P_sem => lift (b6b_sem_proc_sem args)
  | P_timer => lift (b6b_timer_proc_timer args)
  | P_sleep => b6b_time_proc_sleep n args
  | P_signal => lift (b6b_signal_proc_signal args)
  | P_poll => lift (b6b_poll_proc_poll args)
  | P_poll_obj => b6b_poll_proc n args
  | P_sh => lift (b6b_sh_proc_sh args)
  | P_realpath => lift (b6b_path_proc_realpath args)
  | P_nslookup => b6b_socket_proc_nslookup n args
  | P_inet_client => b6b_socket_proc_inet_client n args
  | P_un_client => lift (b6b_socket_proc_un_client args)
  | P_inet_server => b6b_socket_proc_inet_server n args
  | P_un_server => lift (b6b_socket_proc_un_server args)
  | P_un_pair => lift (b6b_socket_proc_un_pair args)
  | P_bswap16 => lift (b6b_socket_proc_bswap16 args)
  | P_bswap32 => lift (b6b_socket_proc_bswap32 args)
  | P_ffi_buf => lift (b6b_ffi_proc_buf args)
  | P_ffi_buf_obj => lift (b6b_ffi_buf_proc args)
  | P_ffi_memcpy => lift (b6b_ffi_proc_memcpy args)
  | P_ffi_pack => lift (b6b_ffi_proc_pack args)
  | P_ffi_unpack => lift (b6b_ffi_proc_unpack args)
  | P_ffi_dlopen => lift (b6b_ffi_proc_dlopen args)
  | P_ffi_so => lift (b6b_ffi_so_proc args)
  | P_ffi_func => lift (b6b_ffi_proc_func args)
  | P_ffi_func_obj => lift (b6b_ffi_func_proc args)
  | P_deflate => b6b_zlib_proc_deflate n args
  | P_compress => b6b_zlib_proc_compress n args
  | P_gzip => b6b_zlib_proc_gzip n args
  | P_inflate => b6b_zlib_proc_inflate n args
  | P_decompress => b6b_zlib_proc_decompress n args
  | P_gunzip => b6b_zlib_proc_gunzip n args
  | P_linenoise_read => lift (b6b_linenoise_proc_read args)
  | P_linenoise_add => lift (b6b_linenoise_proc_add args)
  | P_linenoise_save => lift (b6b_linenoise_proc_save args)
  | P_linenoise_load => lift (b6b_linenoise_proc_load args)
  end.

(** The loop of [b6b_stmt_call] that evaluates the items of the statement at
    the node [li] into the frame's arguments; nothing when all of them are
    evaluated, else what it leaves the loop with. *)
Fixpoint stmt_loop (k : nat) (stmt args : loc) (li : option N) (res : b6b_res)
    : IM (option b6b_res) :=
  match li with
  | None => mret None
  | Some i =>
      match k with
      | O => nofuel
      | S k' =>
          o ← hp (item_obj stmt i);
          ok ← hp (b6b_as_str o);
          if negb ok then mret (Some res)
          else
            res ← b6b_eval o;
            if decide (res ≠ B6B_OK) then mret (Some res)
            else
              t ← lift fg_thread;
              ok ← hp (b6b_list_add args (t_ret t));
              if negb ok then mret (Some res)
              else nx ← hp (b6b_list_next stmt i); stmt_loop k' stmt args nx res
      end
  end.

(** The part of [b6b_stmt_call] between the push and the pop of the frame. *)
Definition stmt_body (stmt args : loc) : IM b6b_res :=
  ok ← hp (b6b_as_list stmt);
  if negb ok then mret B6B_ERR
  else
    li ← hp (b6b_list_first stmt);
    r ← stmt_loop n stmt args li B6B_ERR;
    match r with
    | Some res => mret res
    | None =>
        s ← lift get;
        ok ← (if opt_trace (opts (s_in s)) then lift (trace_stmt args) else mret true);
        if negb ok then mret B6B_OK
        else
          hp (b6b_ref (null (s_in s)));;
          lift (set_ret (null (s_in s)));;
          li ← hp (b6b_list_first args);
          li ← lift (deref li);
          o ← hp (item_obj args li);
          x ← hp (read_obj o);
          call_proc (o_proc x) args
    end.

Definition stmt_call_with (stmt : loc) : IM b6b_res :=
  s ← lift get;
  if negb (exit_ (s_in s) =? 0) then mret B6B_EXIT
  else
    f ← lift b6b_frame_push;
    res ← match f with
          | None => mret B6B_ERR
          | Some f =>
              res ← stmt_body stmt (fr_args f);
              lift b6b_frame_pop;;
              mret res
          end;
    b6b_on_res res.
End eval.

(** [b6b_stmt_call] calls itself for the statements in brackets and in the
    bodies procedures run; the C stack bounds the depth by
    [B6B_MAX_NESTING], [n] bounds it together with the rounds of each loop. *)
Fixpoint b6b_stmt_call `{Env} (n : nat) (stmt : loc) : IM b6b_res :=
  match n with
  | O => nofuel
  | S n' => stmt_call_with n' (b6b_stmt_call n') stmt
  end.

Definition call_fuel `{Env} (n : nat) : loc → IM b6b_res := b6b_call n (b6b_stmt_call n).

(** ** Properties *)

Lemma first_line_app l rest :
  x00 ∉ l → x0a ∉ l → first_line (l ++ x0a :: rest) = Some l.
Proof.
  induction l as [|c l IH]; intros H0 Ha; [done|]. simpl.
  rewrite !decide_False by (intros ->; (by destruct H0; left) || (by destruct Ha; left)).
  rewrite IH; [done|..]; intros Hin; [destruct H0|destruct Ha]; by right.
Qed.

(** Of a file that starts with a shebang line, [b6b_source] runs what
    follows the line but for the last byte: the newline that ends the line is
    counted among the bytes to leave out and copied all the same. *)
Theorem shebang_drops_last l rest :
  x00 ∉ l → x0a ∉ l →
  source_text (lit "#!" ++ l ++ x0a :: rest) = Some (take (length rest) (x0a :: rest)).
Proof.
  intros H0 Ha. unfold source_text. change (lit "#!") with ["#"; "!"]%byte. cbn [app].
  assert (first_line ("#" :: "!" :: l ++ x0a :: rest)%byte = Some ("#" :: "!" :: l)%byte) as ->.
  { apply (first_line_app ("#" :: "!" :: l)%byte rest); by rewrite !not_elem_of_cons. }
  f_equal. cbn [length drop]. rewrite drop_app_length, length_app. f_equal. simpl. lia.
Qed.

Lemma shebang_drops_last_witness :
  source_text (lit "#!/b6b" ++ x0a :: lit "{$exit 1}") = Some (x0a :: lit "{$exit 1").
Proof.
  apply (shebang_drops_last (lit "/b6b") (lit "{$exit 1}")); vm_compute; set_solver.
Defined.
