(* ===== verification/Sched.v ===== *)
(** * Starting an interpreter, and running its threads

    [b6b_interp_new] and [b6b_interp_destroy] of src/b6b_interp.c, the tables
    of procedures ([__b6b_ext]), src/b6b_co.c, the part of [main] in
    src/b6b.c around a script, and the machine that switches the processor
    between threads: [swapcontext] stores the rest of the running thread and
    continues another one. *)
From Stdlib Require Import ZArith Lia Init.Byte Strings.Byte Strings.String.
From stdpp Require Import base option list numbers gmap.
From S2P Require Import Prelude Sys Float64 Hash Parse Heap Repr ListObj Dict Offload Interp.
From S2P Require Import StrProcs ListProcs CoreProcs Switch Streams Eval.
#[local] Open Scope Z_scope.

(** ** The tables of procedures *)

(** [.val] is a string or an integer; an integer has no procedure. *)
Record b6b_ext_obj : Set := mkExt {
  eo_name : string;
  eo_val : string + Z;
  eo_proc : option b6b_procf
}.

(** A procedure, whose text is its name. *)
Definition ext (name : string) (p : b6b_procf) : b6b_ext_obj := mkExt name (inl name) (Some p).
Definition ext_int (name : string) (i : Z) : b6b_ext_obj := mkExt name (inr i) None.

#[local] Open Scope string_scope.
Definition b6b_str : list b6b_ext_obj := [
  ext "str.len" P_str_len; ext "str.index" P_str_index;
  ext "str.range" P_str_range; ext "str.join" P_str_join;
  ext "str.split" P_str_split; ext "str.ord" P_str_ord; ext "str.chr" P_str_chr;
  ext "str.expand" P_str_expand; ext "str.in" P_str_in; ext "rtrim" P_rtrim;
  ext "ltrim" P_ltrim].
Definition b6b_list : list b6b_ext_obj := [
  ext "list.new" P_list_new; ext "list.len" P_list_len;
  ext "list.copy" P_list_copy; ext "list.append" P_list_append;
  ext "list.extend" P_list_extend; ext "list.index" P_list_index;
  ext "list.range" P_list_range; ext "list.in" P_list_in;
  ext "list.pop" P_list_pop].
Definition b6b_dict : list b6b_ext_obj := [
  ext "dict.get" P_dict_get; ext "dict.set" P_dict_set;
  ext "dict.unset" P_dict_unset].
Definition b6b_core : list b6b_ext_obj := [
  ext "nop" P_nop; ext "echo" P_echo; ext "yield" P_yield; ext "return" P_return;
  ext "continue" P_continue; ext "break" P_break; ext "throw" P_throw;
  ext "exit" P_exit; ext "local" P_local; ext "global" P_global;
  ext "export" P_export; ext "eval" P_eval; ext "repr" P_repr; ext "call" P_call;
  ext "spawn" P_spawn; ext "source" P_source].
Definition b6b_math : list b6b_ext_obj := [
  ext "+" P_add; ext "-" P_sub; ext "*" P_mul; ext "/" P_div; ext "%" P_mod;
  ext "&" P_band; ext "|" P_bor; ext "^" P_bxor; ext "<" P_lt; ext "<=" P_le;
  ext ">" P_gt; ext ">=" P_ge].
Definition b6b_logic : list b6b_ext_obj := [
  ext "!" P_not; ext "==" P_eq; ext "!=" P_ne; ext "&&" P_and; ext "||" P_or;
  ext "^^" P_xor; ext "if" P_if].
Definition b6b_loop : list b6b_ext_obj := [
  ext "map" P_map; ext "loop" P_loop; ext "range" P_range].
Definition b6b_exc : list b6b_ext_obj := [
  ext "try" P_try].
Definition b6b_proc : list b6b_ext_obj := [
  ext "proc" P_proc].
Definition b6b_file : list b6b_ext_obj := [
  ext "open" P_open].
Definition b6b_socket : list b6b_ext_obj := [
  ext "nslookup" P_nslookup; ext "inet.client" P_inet_client;
  ext "un.client" P_un_client; ext "inet.server" P_inet_server;
  ext "un.server" P_un_server; ext "un.pair" P_un_pair; ext "htonl" P_bswap32;
  ext "ntohl" P_bswap32; ext "htons" P_bswap16; ext "ntohs" P_bswap16].
Definition b6b_timer : list b6b_ext_obj := [
  ext "timer" P_timer].
Definition b6b_signal : list b6b_ext_obj := [
  ext_int "SIGINT" 2; ext_int "SIGTERM" 15; ext_int "SIGHUP" 1;
  ext_int "SIGALRM" 14; ext_int "SIGSTOP" 19; ext_int "SIGCONT" 18;
  ext_int "SIGIO" 29; ext_int "SIGUSR1" 10; ext_int "SIGUSR2" 12;
  ext_int "SIGCHLD" 17; ext "signal" P_signal].
Definition b6b_sh : list b6b_ext_obj := [
  ext "sh" P_sh].
Definition b6b_poll : list b6b_ext_obj := [
  ext "poll" P_poll; ext_int "POLLIN" 1; ext_int "POLLOUT" 4;
  ext_int "POLLINOUT" 5].
Definition b6b_time : list b6b_ext_obj := [
  ext "sleep" P_sleep].
Definition b6b_path : list b6b_ext_obj := [
  ext "realpath" P_realpath].
Definition b6b_rand : list b6b_ext_obj := [
  ext "choice" P_choice; ext "randint" P_randint].
Definition b6b_sem : list b6b_ext_obj := [
  ext "sem" P_sem].
Definition b6b_linenoise : list b6b_ext_obj := [
  ext "linenoise.read" P_linenoise_read; ext "linenoise.add" P_linenoise_add;
  ext "linenoise.save" P_linenoise_save; ext "linenoise.load" P_linenoise_load].
Definition b6b_zlib : list b6b_ext_obj := [
  ext "deflate" P_deflate; ext "compress" P_compress; ext "gzip" P_gzip;
  ext "inflate" P_inflate; ext "decompress" P_decompress; ext "gunzip" P_gunzip].
Definition b6b_ffi : list b6b_ext_obj := [
  ext "ffi.buf" P_ffi_buf; ext "ffi.memcpy" P_ffi_memcpy;
  ext "ffi.pack" P_ffi_pack; ext "ffi.unpack" P_ffi_unpack;
  ext "ffi.dlopen" P_ffi_dlopen; ext "ffi.func" P_ffi_func].

(** The section [_b6b_ext], in the order the files are linked in, but for the
    procedure [b6b] of src/b6b_interp.c. *)
Definition b6b_exts : list b6b_ext_obj :=
  b6b_str ++ b6b_list ++ b6b_dict ++ b6b_core ++ b6b_math ++ b6b_logic ++ b6b_loop ++
  b6b_exc ++ b6b_proc ++ b6b_file ++ b6b_socket ++ b6b_timer ++ b6b_signal ++ b6b_sh ++
  b6b_poll ++ b6b_time ++ b6b_path ++ b6b_rand ++ b6b_sem ++ b6b_linenoise ++ b6b_zlib ++
  b6b_ffi.

(** [B6B_CO_BODY] *)
Definition nl : string := String (Ascii.ascii_of_nat 10) EmptyString.
Definition B6B_CO_BODY : bytes := lit (
  "{$global _fco 1}" ++ nl ++
  "{$global _cos {}}" ++ nl ++
  "{$proc co {" ++
    "{$list.append $_cos $1}" ++ nl ++
    "{$if $_fco {" ++
      "{$spawn {" ++
        "{$loop {" ++
          "{$if $_cos {" ++
            "{$try {" ++
              "{$call [$list.pop $_cos 0]}" ++
            "}}" ++
          "} {" ++
            "{$global _fco 1}" ++ nl ++
            "{$return}" ++
          "}}" ++
        "}}" ++
      "}}" ++ nl ++
      "{$global _fco 0}" ++
    "}}" ++
  "}}").

(** src/b6b_evloop.c *)
Definition B6B_EVLOOP_REMOVE : string :=
  "{$try {" ++
  "{$local fd [$2 fd]}" ++ nl ++
  "{[$list.index $. 0] remove $fd}" ++ nl ++
  "{$map d [$list.range $. 1 5] {" ++
  "{$dict.unset $d $fd}" ++
  "}}" ++
  "} {} {" ++
  "{$2 close}" ++
  "}}".
Definition B6B_EVLOOP_ADD : string :=
  "{$local fd [$2 fd]}" ++ nl ++
  "{$dict.set [$list.index $. 1] $fd $2}" ++ nl ++
  "{$dict.set [$list.index $. 2] $fd $3}" ++ nl ++
  "{$dict.set [$list.index $. 3] $fd $4}" ++ nl ++
  "{$dict.set [$list.index $. 4] $fd $5}" ++ nl ++
  "{$if [$&& $3 $4] {" ++
  "{[$list.index $. 0] add $fd $POLLINOUT}" ++
  "} {" ++
  "{$if $3 {" ++
  "{[$list.index $. 0] add $fd $POLLIN}" ++
  "} {" ++
  "{[$list.index $. 0] add $fd $POLLOUT}" ++
  "}}" ++
  "}}".
Definition B6B_EVLOOP_UPDATE : string :=
  "{[$list.index $. 0] remove [$2 fd]}" ++ nl ++
  "{$0 add $2 $3 $4 $5}".
Definition B6B_EVLOOP_AFTER : string :=
  "{$0 add [$timer $2] [$proc _ {" ++
  "{$call $.}" ++ nl ++
  "{$throw}" ++
  "} [$list.new [$list.new $3]]] {} {}}".
Definition B6B_EVLOOP_EVERY : string :=
  "{$0 add [$timer $2] [$proc _ {" ++
  "{$1 read}" ++ nl ++
  "{$call $.}" ++
  "} [$list.new [$list.new $3]]] {} {}}".
Definition B6B_EVLOOP_WAIT : string :=
  "{$loop {" ++
  "{$map {p strms inps outps errps} $. {" ++
  "{$local n [$list.len $strms]}" ++ nl ++
  "{$if [$== $n 0] {" ++
  "{$return}" ++
  "}}" ++ nl ++
  "{$map {rfds wfds efds} [$p wait [$* $n 1.5] $2] {" ++
  "{$map fd $efds {" ++
  "{$local strm [$dict.get $strms $fd {}]}" ++ nl ++
  "{$if $strm {" ++
  "{$try {" ++
  "{[$dict.get $errps $fd] $strm}" ++
  "} {} {" ++
  "{$0 remove $strm}" ++
  "}}" ++
  "}}" ++
  "}}" ++ nl ++
  "{$map fd $wfds {" ++
  "{$local strm [$dict.get $strms $fd {}]}" ++ nl ++
  "{$if $strm {" ++
  "{$try {" ++
  "{[$dict.get $outps $fd] $strm}" ++
  "} {" ++
  "{$0 remove $strm}" ++
  "}}" ++
  "}}" ++
  "}}" ++ nl ++
  "{$map fd $rfds {" ++
  "{$local strm [$dict.get $strms $fd {}]}" ++ nl ++
  "{$if $strm {" ++
  "{$try {" ++
  "{[$dict.get $inps $fd] $strm}" ++
  "} {" ++
  "{$0 remove $strm}" ++
  "}}" ++
  "}}" ++
  "}}" ++
  "}}" ++
  "}}" ++
  "}}".
Definition B6B_EVLOOP_BODY : string :=
  "{$proc evloop {" ++
  "{$proc _ {" ++
  "{$if [$== $1 remove] {" ++
  B6B_EVLOOP_REMOVE ++
  "} {" ++
  "{$if [$== $1 add] {" ++
  B6B_EVLOOP_ADD ++
  "} {" ++
  "{$if [$== $1 update] {" ++
  B6B_EVLOOP_UPDATE ++
  "} {" ++
  "{$if [$== $1 after] {" ++
  B6B_EVLOOP_AFTER ++
  "} {" ++
  "{$if [$== $1 every] {" ++
  B6B_EVLOOP_EVERY ++
  "} {" ++
  "{$if [$== $1 wait] {" ++
  B6B_EVLOOP_WAIT ++
  "} {" ++
  "{$throw {bad evloop op}}" ++
  "}}" ++
  "}}" ++
  "}}" ++
  "}}" ++
  "}}" ++
  "}}" ++
  "} [$list.new [$poll] {} {} {} {}]}" ++
  "}}".

(** src/b6b_ffi.c *)
Definition B6B_FFI_BODY : string :=
  "{$proc ffi.ptr {" ++
  "{$ffi.pack p [$1 address]}" ++
  "}}" ++ nl ++
  "{$proc ffi.call {" ++
  "{$1 [$map x [$list.range $@ 2 [$- [$list.len $@] 1]] {{$x address}}]}" ++
  "}}".
#[local] Close Scope string_scope.

(** ** Starting *)

(** An interpreter before [b6b_interp_new], with nothing in its memory, when the
    system will give the answers [l]. *)
Definition blank (l : list ans) : st :=
  mkSt (mkHeap ∅ 0 (mkOs l []))
    (mkInterp [] 0 (mkFrame 0 0) 0 0 0 0 0 0 0 0 0
      (mkOpts false false false false) []) 0 [].

Definition b6b_interp_new_ext_obj (eo : b6b_ext_obj) : M st bool :=
  k ← on_heap (b6b_str_copy (lit (eo_name eo)));
  v ← on_heap match eo_val eo with
              | inl s => b6b_str_copy (lit s)
              | inr i => b6b_int_new i
              end;
  match eo_proc eo with
  | Some p => on_heap (update_obj v (with_proc p))
  | None => mret tt
  end;;
  ok ← b6b_global k v;
  if negb ok then on_heap (b6b_destroy v);; on_heap (b6b_destroy k);; mret false
  else on_heap (b6b_unref v);; on_heap (b6b_unref k);; mret true.

Fixpoint new_exts (es : list b6b_ext_obj) : M st bool :=
  match es with
  | [] => mret true
  | e :: es' => ok ← b6b_interp_new_ext_obj e; if negb ok then mret false else new_exts es'
  end.

(** [b6b_thread_self] *)
Definition b6b_thread_self (null : loc) : M st b6b_thread :=
  f ← b6b_frame_new;
  on_heap (b6b_ref null);;
  s ← get;
  modify (λ s, mkSt (s_heap s) (s_in s) (N.succ (s_tids s)) (s_err s));;
  mret (mkThread (s_tids s) [f] None null 1 false true false false).

(** [sizeof(interp->offths) / sizeof(interp->offths[0])], or 1 *)
Definition noffths (o : b6b_opts) : nat := if opt_no_pool o then 1 else 16.

(** Starts the offload threads. Whether [b6b_offload_thread_start] succeeds, which
    is the protocol of Offload.v, is an answer. *)
Fixpoint start_offths (ids : list nat) : HM bool :=
  match ids with
  | [] => mret true
  | j :: ids' =>
      a ← sys_call (C_offload_up j);
      if a_ret a =? 0 then mret false else start_offths ids'
  end.
Definition start_threads (o : b6b_opts) : HM bool :=
  a ← sys_call C_pagesize;
  if a_ret a <=? 0 then mret false else start_offths (seq 0 (noffths o)).

(** [b6b_interp_new] between the start of the offload threads and the init
    functions, for [time(NULL) == now]. *)
Definition interp_setup (args : loc) (now : Z) (o : b6b_opts) : M st bool :=
  null ← on_heap (b6b_str_copy []);
  zero ← on_heap (b6b_int_new 0);
  one ← on_heap (b6b_int_new 1);
  dot ← on_heap (b6b_str_copy (lit "."));
  at_ ← on_heap (b6b_str_copy (lit "@"));
  us ← on_heap (b6b_str_copy (lit "_"));
  global ← b6b_frame_new;
  set_interp (λ _, mkInterp [] 0 global null zero one dot at_ us 0 0 0
    (mkOpts false false (opt_nbf o) false) (replicate (noffths o) B6B_OFFLOAD_IDLE));;
  ok ← b6b_frame_set_args global args;
  if negb ok then mret false
  else
    t ← b6b_thread_self null;
    set_interp (λ i, with_threads (b6b_thread_push (threads i) t None) (with_fg (t_id t) i));;
    set_interp (with_seed (u32 now));;
    new_exts b6b_exts.

Fixpoint new_args (l : loc) (argv : list bytes) : HM unit :=
  match argv with
  | [] => mret tt
  | a :: argv' =>
      o ← b6b_str_copy a;
      b6b_list_add l o;;
      b6b_unref o;;
      new_args l argv'
  end.

(** The answers for an interpreter that starts. *)
Definition starts : list ans := ret_ans 4096 :: replicate 16 (ret_ans 1).

Section interp.
Context `{Env}.

(** The fuel of each call of [b6b_call]. *)
Variable n : nat.

(** [b6b_call_copy(interp, body, sizeof(body) - 1) == B6B_OK] *)
Definition init_body (body : bytes) : IM bool :=
  res ← b6b_call_copy n (b6b_stmt_call n) body;
  mret (bool_decide (res = B6B_OK)).
Definition b6b_evloop_init : IM bool := init_body (lit B6B_EVLOOP_BODY).
Definition b6b_co_init : IM bool := init_body B6B_CO_BODY.
Definition b6b_ffi_init : IM bool := init_body (lit B6B_FFI_BODY).

(** The section [_b6b_init], but for the length of the prompt's history. *)
Definition b6b_inits : list (IM bool) :=
  [lift b6b_stdio_init; b6b_evloop_init; b6b_co_init; b6b_ffi_init].

Fixpoint run_inits (l : list (IM bool)) : IM bool :=
  match l with
  | [] => mret true
  | f :: l' => ok ← f; if negb ok then mret false else run_inits l'
  end.

(** [do {} while (b6b_yield(interp))] *)
Fixpoint yield_loop (k : nat) : IM unit :=
  match k with
  | O => nofuel
  | S k' => r ← b6b_yield; if r : bool then yield_loop k' else mret tt
  end.

Definition b6b_join : IM unit :=
  lift (set_interp (with_exit 1));;
  yield_loop n;;
  s ← lift get;
  match threads (s_in s) with
  | t :: _ => lift (b6b_thread_pop t)
  | [] => mret tt
  end;;
  hp (sys_note (C_offload_down <$> reverse (seq 0 (length (offths (s_in s)))))).

(** There is no thread when [interp->fg] is not set yet. *)
Definition b6b_interp_destroy : IM unit :=
  s ← lift get;
  match threads (s_in s) with [] => mret tt | _ :: _ => b6b_join end;;
  s ← lift get;
  let i := s_in s in
  lift (b6b_frame_destroy (global i));;
  hp (miter b6b_unref [us i; at_ i; dot i; one i; zero i; null i]).

(** [b6b_interp_new_argv] with [b6b_interp_new]. When the threads do not start
    there is nothing else to destroy: all fields are zero, as [interp] of
    src/b6b.c is static. *)
Definition b6b_interp_new_argv (argv : list bytes) (now : Z) (o : b6b_opts) : IM bool :=
  args ← hp b6b_list_new;
  hp (new_args args argv);;
  up ← hp (start_threads o);
  if negb up then hp (b6b_destroy args);; mret false
  else
    ok ← lift (interp_setup args now o);
    ok ← (if ok : bool then run_inits b6b_inits else mret false);
    if negb ok then b6b_interp_destroy;; hp (b6b_destroy args);; mret false
    else
      lift (set_interp (with_opts o));;
      hp (b6b_unref args);;
      mret true.

(** [b6b_thread_routine] *)
Definition b6b_thread_routine (t : N) : IM unit :=
  s ← lift get;
  th ← lift (deref (find_thread t (threads (s_in s))));
  fn ← lift (deref (t_fn th));
  call_fuel n fn;;
  lift (set_interp (λ i, with_threads (map_thread t with_done (threads i)) i));;
  b6b_yield;;
  mret tt.

(** The exit code of [main]. *)
Definition exit_code (r : b6b_res) : M st Z :=
  match r with
  | B6B_OK => mret 0
  | B6B_EXIT =>
      t ← fg_thread;
      x ← on_heap (read_obj (t_ret t));
      if b6b_obj_isnull x then mret 0
      else
        ok ← on_heap (b6b_as_int (t_ret t));
        if negb ok then mret 1
        else
          x ← on_heap (read_obj (t_ret t));
          if (INT_MIN <=? o_i x) && (o_i x <=? INT_MAX) then mret (o_i x) else mret 1
  | _ => mret 1
  end.

(** The run of a script in [main]: with [-c] its argument is the text, else
    it is a path. Nothing when the interpreter does not start. *)
Definition run_script (argv : list bytes) (now : Z) (o : b6b_opts) (cmd : bool)
    : IM (option b6b_res) :=
  ok ← b6b_interp_new_argv argv now o;
  if negb ok then mret None
  else
    arg ← lift (deref (head argv));
    res ← (if cmd then b6b_call_copy n (b6b_stmt_call n) arg
           else b6b_source n (b6b_stmt_call n) arg);
    mret (Some res).

Definition main (argv : list bytes) (now : Z) (o : b6b_opts) (cmd : bool) : IM Z :=
  r ← run_script argv now o cmd;
  match r with
  | None => mret 1
  | Some res =>
      ret ← lift (exit_code res);
      b6b_interp_destroy;;
      mret ret
  end.

(** ** The machine *)

(** The running thread, what is left of its run, and the rests of the threads
    that were suspended. A thread that never ran has no rest yet. *)
Record machine (A : Type) : Type := mkMachine {
  m_run : N;
  m_res : res A + res unit;
  m_susp : gmap N ((st → res A) + (st → res unit))
}.
Arguments mkMachine {A}.
Arguments m_run {A}.
Arguments m_res {A}.
Arguments m_susp {A}.

(** Gives the processor to the thread [u]. *)
Definition resume {A} (u : N) (s : st) (susp : gmap N ((st → res A) + (st → res unit)))
    : machine A :=
  match susp !! u with
  | Some (inl k) => mkMachine u (inl (k s)) (delete u susp)
  | Some (inr k) => mkMachine u (inr (k s)) (delete u susp)
  | None => mkMachine u (inr (b6b_thread_routine u s)) susp
  end.

(** One switch; the result when the main thread returns. A thread routine
    that returns has nowhere to return to. *)
Definition mstep {A} (m : machine A) : machine A + out (A * st) :=
  match m_res m with
  | inl (Ret a s) => inr (Done (a, s))
  | inl Fault | inr Fault => inr Ub
  | inl NoFuel | inr NoFuel => inr Oof
  | inr (Ret _ _) => inr Ub
  | inl (Susp t s k) => inl (resume (fg (s_in s)) s (<[t := inl k]> (m_susp m)))
  | inr (Susp t s k) => inl (resume (fg (s_in s)) s (<[t := inr k]> (m_susp m)))
  end.

Fixpoint mrun {A} (k : nat) (m : machine A) : out (A * st) :=
  match k with
  | O => Oof
  | S k' => match mstep m with inl m' => mrun k' m' | inr r => r end
  end.

(** Runs [p] as the main thread of a process, with the answers [l] of the
    system. *)
Definition run_main {A} (k : nat) (l : list ans) (p : IM A) : out (A * st) :=
  mrun k (mkMachine 0%N (inl (p (blank l))) ∅).
End interp.
