(* ===== verification/Quiet.v ===== *)
(** * Code that leaves the threads alone

    Every procedure that does not run code or switch threads is [quiet]: it
    changes neither the threads, but for their return values, nor which of them
    runs. *)
From Stdlib Require Import ZArith Lia Init.Byte Strings.Byte Strings.String.
From stdpp Require Import base option list numbers gmap.
From S2P Require Import Prelude Sys Float64 Hash Parse Heap Repr ListObj Dict Offload Interp.
From S2P Require Import StrProcs ListProcs CoreProcs.
From S2P Require Import Strm FdOps FdProcs Switch Sockets Streams SysProcs Ffi Zlib Eval.
#[local] Open Scope Z_scope.

(** The threads without their return values. *)
Definition shape (s : st) : list b6b_thread := with_ret 0%N <$> threads (s_in s).
Definition view (s : st) : list b6b_thread * N * N := (shape s, fg (s_in s), s_tids s).

(** ** Computations that leave the threads alone *)

Definition quiet {A} (m : M st A) : Prop :=
  ∀ s a s', m s = Done (a, s') → view s' = view s.

Create HintDb quiet.

Lemma quiet_mret {A} (a : A) : quiet (mret a).
Proof. intros s b s' [= _ <-]. done. Qed.
Lemma quiet_bind {A B} (m : M st A) (f : A → M st B) :
  quiet m → (∀ a, quiet (f a)) → quiet (m ≫= f).
Proof.
  intros Hm Hf s b s' H. apply bind_Done in H as (a & s1 & H1 & H2).
  rewrite (Hf _ _ _ _ H2). by eapply Hm.
Qed.
Lemma quiet_ub {A} : quiet (@ub st A).
Proof. done. Qed.
Lemma quiet_oof {A} : quiet (@oof st A).
Proof. done. Qed.
Lemma quiet_get : quiet (@get st).
Proof. intros s a s' [= _ <-]. done. Qed.
Lemma quiet_deref {A} (x : option A) : quiet (deref x).
Proof. destruct x; [apply quiet_mret|apply quiet_ub]. Qed.
Lemma quiet_lift_out {A} (o : out A) : quiet (lift_out o).
Proof. intros s a s'. unfold lift_out. destruct o; [intros [= _ <-]|..]; done. Qed.
Lemma quiet_on_heap {A} (m : HM A) : quiet (on_heap m).
Proof.
  intros s a s'. unfold on_heap, zoom. destruct (m (s_heap s)) as [[? ?]| |]; [|done..].
  by intros [= _ <-].
Qed.
Lemma quiet_set_interp f :
  (∀ i, threads (f i) = threads i ∧ fg (f i) = fg i) → quiet (set_interp f).
Proof.
  intros Hf s a s' [= _ <-]. unfold view, shape. simpl.
  by destruct (Hf (s_in s)) as [-> ->].
Qed.
#[export] Hint Resolve quiet_mret quiet_ub quiet_oof quiet_get quiet_deref
  quiet_lift_out quiet_on_heap : quiet.

Lemma shape_map_thread u f ts :
  (∀ t, with_ret 0%N (f t) = with_ret 0%N t) →
  with_ret 0%N <$> map_thread u f ts = with_ret 0%N <$> ts.
Proof.
  intros Hf. unfold map_thread. rewrite <- list_fmap_compose. apply list_fmap_ext.
  intros i t _. simpl. by case_decide.
Qed.

Lemma quiet_fg_thread : quiet fg_thread.
Proof. apply quiet_bind; eauto with quiet. Qed.
#[export] Hint Resolve quiet_fg_thread : quiet.

Lemma quiet_update_ret o : quiet (update_fg (with_ret o)).
Proof.
  intros s a s' [= _ <-]. unfold view, shape. simpl. by rewrite shape_map_thread.
Qed.
#[export] Hint Resolve quiet_update_ret : quiet.

(** Solves [quiet] of a term built from the operations above. *)
Ltac quiet1 :=
  match goal with
  | |- quiet (mbind _ _) => apply quiet_bind; [|intros]
  | |- quiet (match ?x with _ => _ end) => destruct x
  | |- quiet (set_interp _) => by apply quiet_set_interp
  | |- quiet (let '(_, _) := ?x in _) => destruct x
  | |- quiet _ => solve [eauto 2 with quiet]
  end.
Ltac quiet_tac := intros; repeat quiet1.

Lemma quiet_set_ret o : quiet (set_ret o).
Proof. unfold set_ret. quiet_tac. Qed.
#[export] Hint Resolve quiet_set_ret : quiet.
Lemma quiet_return o : quiet (b6b_return o).
Proof. unfold b6b_return. quiet_tac. Qed.
#[export] Hint Resolve quiet_return : quiet.
Lemma quiet_return_ref o : quiet (return_ref o).
Proof. unfold return_ref. quiet_tac. Qed.
#[export] Hint Resolve quiet_return_ref : quiet.
Lemma quiet_return_int i : quiet (b6b_return_int i).
Proof. unfold b6b_return_int. quiet_tac. Qed.
Lemma quiet_return_float i : quiet (b6b_return_float i).
Proof. unfold b6b_return_float. quiet_tac. Qed.
Lemma quiet_return_str i : quiet (b6b_return_str i).
Proof. unfold b6b_return_str. quiet_tac. Qed.
Lemma quiet_return_fmt i : quiet (b6b_return_fmt i).
Proof. unfold b6b_return_fmt. quiet_tac. Qed.
Lemma quiet_return_true : quiet b6b_return_true.
Proof. unfold b6b_return_true. quiet_tac. Qed.
Lemma quiet_return_false : quiet b6b_return_false.
Proof. unfold b6b_return_false. quiet_tac. Qed.
#[export] Hint Resolve quiet_return_int quiet_return_float quiet_return_str
  quiet_return_fmt quiet_return_true quiet_return_false : quiet.
Lemma quiet_return_bool b : quiet (b6b_return_bool b).
Proof. unfold b6b_return_bool. quiet_tac. Qed.
Lemma quiet_curr_frame : quiet curr_frame.
Proof. unfold curr_frame. quiet_tac. Qed.
#[export] Hint Resolve quiet_return_bool quiet_curr_frame : quiet.
Lemma quiet_local k v : quiet (b6b_local k v).
Proof. unfold b6b_local. quiet_tac. Qed.
Lemma quiet_global k v : quiet (b6b_global k v).
Proof. unfold b6b_global. quiet_tac. Qed.
Lemma quiet_get_loop fs k : quiet (get_loop fs k).
Proof. induction fs; simpl; quiet_tac. Qed.
#[export] Hint Resolve quiet_local quiet_global quiet_get_loop : quiet.
Lemma quiet_b6b_get k : quiet (b6b_get k).
Proof. unfold b6b_get. quiet_tac. Qed.
#[export] Hint Resolve quiet_b6b_get : quiet.
Lemma quiet_get_str k : quiet (b6b_get_str k).
Proof. unfold b6b_get_str. quiet_tac. Qed.
Lemma quiet_frame_new : quiet b6b_frame_new.
Proof. unfold b6b_frame_new. quiet_tac. Qed.
Lemma quiet_frame_destroy f : quiet (b6b_frame_destroy f).
Proof. unfold b6b_frame_destroy. quiet_tac. Qed.
Lemma quiet_frame_set_args f l : quiet (b6b_frame_set_args f l).
Proof. unfold b6b_frame_set_args. quiet_tac. Qed.
Lemma quiet_proc_get_args l fmt ap : quiet (b6b_proc_get_args l fmt ap).
Proof. unfold b6b_proc_get_args. quiet_tac. Qed.
#[export] Hint Resolve quiet_get_str quiet_frame_new quiet_frame_destroy
  quiet_frame_set_args quiet_proc_get_args : quiet.
Lemma quiet_get_args l fmt ap : quiet (get_args l fmt ap).
Proof. unfold get_args. quiet_tac. Qed.
#[export] Hint Resolve quiet_get_args : quiet.

(** ** The procedures that run no code are quiet *)

Definition quiet_proc (f : loc → M st b6b_res) : Prop := ∀ args, quiet (f args).

Ltac quiet_proc f := intros args; unfold f; quiet_tac.

Lemma quiet_float_proc f : (∀ m n, quiet (f m n)) → quiet_proc (float_proc f).
Proof. intros Hf. quiet_proc float_proc. Qed.
Lemma quiet_int_proc f : quiet_proc (int_proc f).
Proof. quiet_proc int_proc. Qed.
Lemma quiet_eq_proc f : quiet_proc (eq_proc f).
Proof. quiet_proc eq_proc. Qed.
Lemma quiet_truth_proc f : quiet_proc (truth_proc f).
Proof. quiet_proc truth_proc. Qed.
Lemma quiet_leave_proc r : quiet_proc (leave_proc r).
Proof. quiet_proc leave_proc. Qed.
#[export] Hint Resolve quiet_float_proc quiet_int_proc quiet_eq_proc quiet_truth_proc
  quiet_leave_proc : quiet.

Lemma quiet_str_procs :
  quiet_proc b6b_str_proc_len ∧ quiet_proc b6b_str_proc_index ∧
  quiet_proc b6b_str_proc_range ∧ quiet_proc b6b_str_proc_join ∧
  quiet_proc b6b_str_proc_split ∧ quiet_proc b6b_str_proc_ord ∧
  quiet_proc b6b_str_proc_chr ∧ quiet_proc b6b_str_proc_expand ∧
  quiet_proc b6b_str_proc_in ∧ quiet_proc b6b_str_proc_rtrim ∧
  quiet_proc b6b_str_proc_ltrim.
Proof.
  split_and!; [quiet_proc b6b_str_proc_len|quiet_proc b6b_str_proc_index
    |quiet_proc b6b_str_proc_range|quiet_proc b6b_str_proc_join
    |quiet_proc b6b_str_proc_split|quiet_proc b6b_str_proc_ord
    |quiet_proc b6b_str_proc_chr|quiet_proc b6b_str_proc_expand
    |quiet_proc b6b_str_proc_in|quiet_proc b6b_str_proc_rtrim
    |quiet_proc b6b_str_proc_ltrim].
Qed.

Lemma quiet_list_procs :
  quiet_proc b6b_list_proc_new ∧ quiet_proc b6b_list_proc_len ∧
  quiet_proc b6b_list_proc_copy ∧ quiet_proc b6b_list_proc_append ∧
  quiet_proc b6b_list_proc_extend ∧ quiet_proc b6b_list_proc_index ∧
  quiet_proc b6b_list_proc_range ∧ quiet_proc b6b_list_proc_in ∧
  quiet_proc b6b_list_proc_pop ∧ quiet_proc b6b_dict_proc_get ∧
  quiet_proc b6b_dict_proc_set ∧ quiet_proc b6b_dict_proc_unset ∧
  quiet_proc b6b_loop_proc_range.
Proof.
  split_and!; [quiet_proc b6b_list_proc_new|quiet_proc b6b_list_proc_len
    |quiet_proc b6b_list_proc_copy|quiet_proc b6b_list_proc_append
    |quiet_proc b6b_list_proc_extend|quiet_proc b6b_list_proc_index
    |quiet_proc b6b_list_proc_range|quiet_proc b6b_list_proc_in
    |quiet_proc b6b_list_proc_pop|quiet_proc b6b_dict_proc_get
    |quiet_proc b6b_dict_proc_set|quiet_proc b6b_dict_proc_unset
    |quiet_proc b6b_loop_proc_range].
Qed.

Lemma quiet_rand_procs `{Env} :
  quiet_proc b6b_rand_proc_choice ∧ quiet_proc b6b_rand_proc_randint.
Proof.
  assert (quiet next_rand) by (unfold next_rand; quiet_tac).
  split; intros args; [unfold b6b_rand_proc_choice|unfold b6b_rand_proc_randint]; quiet_tac.
Qed.

Lemma quiet_math_procs :
  quiet_proc b6b_math_proc_add ∧ quiet_proc b6b_math_proc_sub ∧
  quiet_proc b6b_math_proc_mul ∧ quiet_proc b6b_math_proc_div ∧
  quiet_proc b6b_math_proc_mod ∧ quiet_proc b6b_math_proc_lt ∧
  quiet_proc b6b_math_proc_le ∧ quiet_proc b6b_math_proc_gt ∧
  quiet_proc b6b_math_proc_ge.
Proof. split_and!; apply quiet_float_proc; quiet_tac. Qed.

Lemma quiet_shared_procs :
  quiet_proc b6b_math_proc_and ∧ quiet_proc b6b_math_proc_or ∧
  quiet_proc b6b_math_proc_xor ∧ quiet_proc b6b_logic_proc_eq ∧
  quiet_proc b6b_logic_proc_ne ∧ quiet_proc b6b_logic_proc_and ∧
  quiet_proc b6b_logic_proc_or ∧ quiet_proc b6b_logic_proc_xor ∧
  quiet_proc b6b_core_proc_return ∧ quiet_proc b6b_core_proc_exit.
Proof.
  split_and!;
    [apply quiet_int_proc|apply quiet_int_proc|apply quiet_int_proc|apply quiet_eq_proc
    |apply quiet_eq_proc|apply quiet_truth_proc|apply quiet_truth_proc|apply quiet_truth_proc
    |apply quiet_leave_proc|apply quiet_leave_proc].
Qed.

Lemma quiet_core_procs :
  quiet_proc b6b_logic_proc_not ∧ quiet_proc b6b_core_proc_nop ∧
  quiet_proc b6b_core_proc_echo ∧ quiet_proc b6b_core_proc_yield ∧
  quiet_proc b6b_core_proc_continue ∧ quiet_proc b6b_core_proc_break ∧
  quiet_proc b6b_core_proc_throw ∧ quiet_proc b6b_core_proc_local ∧
  quiet_proc b6b_core_proc_global ∧ quiet_proc b6b_core_proc_export ∧
  quiet_proc b6b_core_proc_repr.
Proof.
  assert (quiet prev_frame) by (unfold prev_frame; quiet_tac).
  assert (quiet export_frame) by (unfold export_frame; quiet_tac).
  split_and!; [quiet_proc b6b_logic_proc_not|quiet_proc b6b_core_proc_nop
    |quiet_proc b6b_core_proc_echo|quiet_proc b6b_core_proc_yield
    |quiet_proc b6b_core_proc_continue|quiet_proc b6b_core_proc_break
    |quiet_proc b6b_core_proc_throw|quiet_proc b6b_core_proc_local
    |quiet_proc b6b_core_proc_global|quiet_proc b6b_core_proc_export
    |quiet_proc b6b_core_proc_repr].
Qed.

Lemma quiet_obj_proc `{Env} : quiet_proc b6b_obj_proc.
Proof. intros args. unfold b6b_obj_proc. quiet_tac. Qed.
Lemma quiet_trace_stmt args : quiet (trace_stmt args).
Proof.
  unfold trace_stmt. quiet_tac. intros s b s' [= _ <-]. done.
Qed.
#[export] Hint Resolve quiet_obj_proc quiet_trace_stmt : quiet.

(** ** Procedures on descriptors and foreign functions *)

Section io.
Context `{Env}.

Lemma quiet_return_strerror e : quiet (b6b_return_strerror e).
Proof. unfold b6b_return_strerror. quiet_tac. Qed.
Lemma quiet_return_opt o : quiet (return_opt o).
Proof. unfold return_opt. quiet_tac. Qed.
#[local] Hint Resolve quiet_return_strerror quiet_return_opt : quiet.

Lemma quiet_fd_on_read r eof : quiet (b6b_fd_on_read r eof).
Proof. unfold b6b_fd_on_read. quiet_tac. Qed.
Lemma quiet_fd_on_write r : quiet (b6b_fd_on_write r).
Proof. unfold b6b_fd_on_write. quiet_tac. Qed.
#[local] Hint Resolve quiet_fd_on_read quiet_fd_on_write : quiet.

Lemma quiet_fd_peeksz fd : quiet (b6b_fd_peeksz fd).
Proof. unfold b6b_fd_peeksz. quiet_tac. Qed.
Lemma quiet_fd_read fd size eof again : quiet (b6b_fd_read fd size eof again).
Proof. unfold b6b_fd_read. quiet_tac. Qed.
Lemma quiet_fd_recv fd size eof again : quiet (b6b_fd_recv fd size eof again).
Proof. unfold b6b_fd_recv. quiet_tac. Qed.
Lemma quiet_fd_write fd buf : quiet (b6b_fd_write fd buf).
Proof. unfold b6b_fd_write. quiet_tac. Qed.
Lemma quiet_fd_send fd buf : quiet (b6b_fd_send fd buf).
Proof. unfold b6b_fd_send. quiet_tac. Qed.
#[local] Hint Resolve quiet_fd_peeksz quiet_fd_read quiet_fd_recv quiet_fd_write
  quiet_fd_send : quiet.

Lemma quiet_fd_close fd : quiet (b6b_fd_close fd).
Proof. apply quiet_on_heap. Qed.
Lemma quiet_signal_close fd set : quiet (b6b_signal_close fd set).
Proof. apply quiet_on_heap. Qed.
Lemma quiet_fd_peeksz_u64 : quiet b6b_fd_peeksz_u64.
Proof. apply quiet_mret. Qed.
Lemma quiet_signal_peeksz : quiet b6b_signal_peeksz.
Proof. apply quiet_mret. Qed.
#[local] Hint Resolve quiet_fd_close quiet_signal_close quiet_fd_peeksz_u64
  quiet_signal_peeksz : quiet.

Lemma quiet_fd_read_u64 fd size eof again : quiet (b6b_fd_read_u64 fd size eof again).
Proof. unfold b6b_fd_read_u64. quiet_tac. Qed.
Lemma quiet_fd_write_u64 fd buf : quiet (b6b_fd_write_u64 fd buf).
Proof. unfold b6b_fd_write_u64. quiet_tac. Qed.
Lemma quiet_signal_read fd size eof again : quiet (b6b_signal_read fd size eof again).
Proof. unfold b6b_signal_read. quiet_tac. Qed.
Lemma quiet_socket_readfrom o fd size eof again : quiet (b6b_socket_readfrom o fd size eof again).
Proof. unfold b6b_socket_readfrom. quiet_tac. Qed.
Lemma quiet_socket_file_peer p : quiet (b6b_socket_file_peer p).
Proof. unfold b6b_socket_file_peer. quiet_tac. Qed.
Lemma quiet_socket_accept fd k type : quiet (b6b_socket_stream_accept fd k type).
Proof. unfold b6b_socket_stream_accept. quiet_tac. Qed.
#[local] Hint Resolve quiet_fd_read_u64 quiet_fd_write_u64 quiet_signal_read
  quiet_socket_readfrom quiet_socket_file_peer quiet_socket_accept : quiet.

(** Tables of quiet operations. *)
Record quiet_ops (ops : b6b_strm_ops (M st)) : Prop := {
  qo_peeksz : from_option quiet True (op_peeksz ops);
  qo_read : from_option (λ f, ∀ size eof again, quiet (f size eof again)) True (op_read ops);
  qo_write : from_option (λ f, ∀ buf, quiet (f buf)) True (op_write ops);
  qo_peer : from_option quiet True (op_peer ops);
  qo_accept : from_option quiet True (op_accept ops);
  qo_close : from_option quiet True (op_close ops)
}.

Ltac quiet_ops_tac := split; simpl; intros; try done; auto with quiet.

Lemma quiet_sem_ops fd : quiet_ops (b6b_sem_ops fd).
Proof. quiet_ops_tac. Qed.
Lemma quiet_timer_ops fd : quiet_ops (b6b_timer_ops fd).
Proof. quiet_ops_tac. Qed.
Lemma quiet_signal_ops fd set : quiet_ops (b6b_signal_ops fd set).
Proof. quiet_ops_tac. Qed.
Lemma quiet_sh_in_ops pid fd : quiet_ops (b6b_sh_in_ops pid fd).
Proof. quiet_ops_tac. unfold b6b_sh_close. quiet_tac. Qed.
Lemma quiet_sh_out_ops pid fd : quiet_ops (b6b_sh_out_ops pid fd).
Proof. quiet_ops_tac. unfold b6b_sh_close. quiet_tac. Qed.
Lemma quiet_socket_ops o k peer addr fd : quiet_ops (socket_ops o k peer addr fd).
Proof. destruct k; quiet_ops_tac; unfold b6b_socket_close_unlink; quiet_tac. Qed.

Lemma quiet_stdio_init : quiet b6b_stdio_init.
Proof. unfold b6b_stdio_init, b6b_stdio_wrap. quiet_tac. Qed.
Lemma quiet_return_answer a : quiet (return_answer a).
Proof. unfold return_answer. quiet_tac. Qed.
Lemma quiet_poll_ctl c ok : quiet (poll_ctl c ok).
Proof. unfold poll_ctl. quiet_tac. Qed.

Lemma quiet_sh_new_pipe pid k type wr : quiet (b6b_sh_new_pipe pid k type wr).
Proof. unfold b6b_sh_new_pipe. quiet_tac. Qed.
Lemma quiet_sh_start cmd pid i o e f0 f1 f2 : quiet (sh_start cmd pid i o e f0 f1 f2).
Proof. unfold sh_start. quiet_tac. Qed.
Lemma quiet_client_new res socktype k type : quiet (b6b_socket_client_new res socktype k type).
Proof. unfold b6b_socket_client_new. quiet_tac. Qed.
Lemma quiet_server_new res socktype backlog k1 k2 type :
  quiet (b6b_server_socket_new res socktype backlog k1 k2 type).
Proof. unfold b6b_server_socket_new. quiet_tac. Qed.
Lemma quiet_bswap_proc max f : quiet_proc (bswap_proc max f).
Proof. quiet_proc bswap_proc. Qed.
Lemma quiet_history_proc c f : quiet_proc (history_proc c f).
Proof. quiet_proc history_proc. Qed.
Lemma quiet_ffi_addr_new a o : quiet (b6b_ffi_addr_new a o).
Proof. unfold b6b_ffi_addr_new. quiet_tac. Qed.
Lemma quiet_ffi_buf_new s : quiet (b6b_ffi_buf_new s).
Proof. unfold b6b_ffi_buf_new. quiet_tac. Qed.
#[local] Hint Resolve quiet_sh_new_pipe quiet_sh_start quiet_client_new quiet_server_new
  quiet_ffi_addr_new quiet_ffi_buf_new : quiet.

Lemma quiet_fd_procs :
  quiet_proc b6b_sem_proc_sem ∧ quiet_proc b6b_timer_proc_timer ∧
  quiet_proc b6b_signal_proc_signal ∧ quiet_proc b6b_sh_proc_sh ∧
  quiet_proc b6b_poll_proc_poll ∧ quiet_proc b6b_path_proc_realpath ∧
  quiet_proc b6b_linenoise_proc_read ∧ quiet_proc b6b_linenoise_proc_add ∧
  quiet_proc b6b_linenoise_proc_save ∧ quiet_proc b6b_linenoise_proc_load ∧
  quiet_proc b6b_socket_proc_un_client ∧ quiet_proc b6b_socket_proc_un_server ∧
  quiet_proc b6b_socket_proc_un_pair ∧ quiet_proc b6b_socket_proc_bswap16 ∧
  quiet_proc b6b_socket_proc_bswap32.
Proof.
  split_and!;
    [| | | | | | |apply quiet_history_proc|apply quiet_history_proc|apply quiet_history_proc
    | | | |apply quiet_bswap_proc|apply quiet_bswap_proc]; intros args;
    unfold b6b_sem_proc_sem, b6b_timer_proc_timer, b6b_signal_proc_signal, b6b_sh_proc_sh,
      b6b_poll_proc_poll, b6b_path_proc_realpath, b6b_linenoise_proc_read,
      b6b_socket_proc_un_client, b6b_socket_proc_un_server, b6b_socket_proc_un_pair;
    quiet_tac.
Qed.

Lemma quiet_ffi_procs :
  quiet_proc b6b_ffi_proc_buf ∧ quiet_proc b6b_ffi_buf_proc ∧
  quiet_proc b6b_ffi_proc_memcpy ∧ quiet_proc b6b_ffi_proc_pack ∧
  quiet_proc b6b_ffi_proc_unpack ∧ quiet_proc b6b_ffi_proc_dlopen ∧
  quiet_proc b6b_ffi_so_proc ∧ quiet_proc b6b_ffi_proc_func ∧
  quiet_proc b6b_ffi_func_proc.
Proof.
  split_and!; intros args;
    unfold b6b_ffi_proc_buf, b6b_ffi_buf_proc, b6b_ffi_proc_memcpy, b6b_ffi_proc_pack,
      b6b_ffi_proc_unpack, b6b_ffi_proc_dlopen, b6b_ffi_so_proc, b6b_ffi_proc_func,
      b6b_ffi_func_proc;
    quiet_tac.
Qed.
End io.
#[export] Hint Resolve quiet_return_strerror quiet_return_opt quiet_client_new quiet_server_new
  quiet_stdio_init quiet_return_answer quiet_poll_ctl : quiet.
