(* ===== verification/Frames.v ===== *)
(** * The discipline of frames and threads

    A computation keeps an invariant of the thread list ([inv]) at each switch
    of threads, leaves the other threads alone ([others]), and gives the running
    thread its frames back ([stable], [balanced]), however often it is suspended
    in between: [wp] is a weakest precondition over resumptions, with a rely
    condition on what the other threads do while a thread is suspended. What
    switches threads is shown to be so here: [b6b_yield], [b6b_start],
    [b6b_offload], and calls in a frame of their own. *)
From Stdlib Require Import ZArith Lia Init.Byte Strings.Byte Strings.String.
From stdpp Require Import base option list numbers gmap.
From S2P Require Import Prelude Sys Float64 Hash Parse Heap Repr ListObj Dict Offload Interp.
From S2P Require Import Switch Quiet.
#[local] Open Scope Z_scope.

(** ** What the discipline is about *)

(** The stable part of a thread: frames, depth, whether it is done, what it
    runs, and whether it waits for an offload thread. *)
Definition tinfo : Type := list b6b_frame * Z * bool * option loc * bool.
Definition info (t : b6b_thread) : tinfo :=
  (t_curr t, t_depth t, t_done t, t_fn t, t_blocked t).
Definition info_at (u : N) (s : st) : option tinfo := info <$> find_thread u (threads (s_in s)).
Definition is_done (x : tinfo) : bool := snd (fst (fst x)).

(** A thread that was spawned and has not run. *)
Definition fresh_info (x : tinfo) : Prop := ∃ f fn, x = ([f], 1, false, Some fn, false).

(** ** The invariant of the thread list *)

Record inv (s : st) : Prop := {
  inv_ids : NoDup (t_id <$> threads (s_in s));
  inv_fresh : ∀ t, t ∈ threads (s_in s) → (t_id t < s_tids s)%N;
  (** the main thread is the first, and still runs *)
  inv_main : ∃ t, head (threads (s_in s)) = Some t ∧ t_id t = 0%N ∧ t_done t = false;
  (** [fg] is a thread that is not done *)
  inv_fg : ∃ t, find_thread (fg (s_in s)) (threads (s_in s)) = Some t ∧ t_done t = false;
  (** [B6B_THREAD_FG] is set for [fg] alone, [B6B_THREAD_BG] for the others *)
  inv_flags : ∀ t, t ∈ threads (s_in s) →
    t_fg t = bool_decide (t_id t = fg (s_in s)) ∧ t_bg t = negb (t_fg t);
  (** the depth counts the frames and is bounded *)
  inv_depth : ∀ t, t ∈ threads (s_in s) →
    t_depth t = Z.of_nat (length (t_curr t)) ∧ 1 ≤ t_depth t ≤ B6B_MAX_NESTING
}.

(** ** Facts about thread lists *)

Lemma find_thread_Some u ts t : find_thread u ts = Some t → t ∈ ts ∧ t_id t = u.
Proof.
  unfold find_thread. intros ([i x] & H & ->)%fmap_Some.
  apply list_find_Some in H as (H1 & H2 & _). simpl. split; [|done].
  by eapply list_elem_of_lookup_2.
Qed.

Lemma find_thread_cons u t ts :
  find_thread u (t :: ts) = if decide (t_id t = u) then Some t else find_thread u ts.
Proof.
  unfold find_thread. simpl. destruct (decide (t_id t = u)); [done|].
  by destruct (list_find _ ts) as [[]|].
Qed.

Lemma find_thread_elem ts t :
  NoDup (t_id <$> ts) → t ∈ ts → find_thread (t_id t) ts = Some t.
Proof.
  intros Hnd Ht. induction ts as [|x ts IH]; [by apply elem_of_nil in Ht|].
  rewrite find_thread_cons. simpl in Hnd. apply NoDup_cons in Hnd as [Hx Hnd].
  apply elem_of_cons in Ht as [->|Ht]; [by rewrite decide_True|].
  rewrite decide_False; [by apply IH|]. intros Heq. apply Hx. rewrite Heq.
  by apply list_elem_of_fmap_2.
Qed.

Lemma find_thread_is_Some u ts : is_Some (find_thread u ts) ↔ u ∈ t_id <$> ts.
Proof.
  induction ts as [|x ts IH]; [split; [by intros [? ?]|by intros ?%elem_of_nil]|].
  rewrite find_thread_cons. simpl. rewrite elem_of_cons. case_decide as Hd.
  - split; [by left|done].
  - rewrite IH. split; [by right|by intros [->|?]].
Qed.

Lemma find_thread_map u v f ts :
  (∀ t, t_id (f t) = t_id t) →
  find_thread u (map_thread v f ts) =
    (if decide (u = v) then f else id) <$> find_thread u ts.
Proof.
  intros Hf. induction ts as [|x ts IH]; [by destruct (decide (u = v))|].
  change (map_thread v f (x :: ts)) with
    ((if decide (t_id x = v) then f x else x) :: map_thread v f ts).
  rewrite !find_thread_cons.
  assert (t_id (if decide (t_id x = v) then f x else x) = t_id x) as ->.
  { destruct (decide (t_id x = v)); rewrite ?Hf; done. }
  destruct (decide (t_id x = u)) as [Hx|Hx]; [|apply IH].
  subst u. by destruct (decide (t_id x = v)).
Qed.

Lemma find_thread_filter u (P : b6b_thread → Prop) `{∀ t, Decision (P t)} ts t :
  NoDup (t_id <$> ts) →
  find_thread u (filter P ts) = Some t ↔ find_thread u ts = Some t ∧ P t.
Proof.
  intros Hnd. induction ts as [|x ts IH]; [split; [done|by intros [? _]]|].
  simpl in Hnd. apply NoDup_cons in Hnd as [Hx Hnd]. specialize (IH Hnd).
  rewrite filter_cons, find_thread_cons.
  destruct (decide (P x)) as [HP|HP]; rewrite ?find_thread_cons;
    destruct (decide (t_id x = u)) as [Hu|Hu].
  - naive_solver.
  - exact IH.
  - rewrite IH. split.
    + intros [Ht%find_thread_Some _]. destruct Ht as [Ht Hid]. exfalso. apply Hx.
      subst u. rewrite <- Hid. by apply list_elem_of_fmap_2.
    + by intros [[= ->] ?].
  - exact IH.
Qed.

Lemma map_thread_ids v f ts :
  (∀ t, t_id (f t) = t_id t) → t_id <$> map_thread v f ts = t_id <$> ts.
Proof.
  intros Hf. unfold map_thread. rewrite <- list_fmap_compose. apply list_fmap_ext.
  intros i t _. simpl. case_decide; [apply Hf|done].
Qed.

Lemma elem_of_map_thread v f ts t :
  t ∈ map_thread v f ts ↔ ∃ u, u ∈ ts ∧ t = if decide (t_id u = v) then f u else u.
Proof. unfold map_thread. rewrite list_elem_of_fmap. naive_solver. Qed.

(** ** Rely and guarantee *)

(** What a thread does to the others between two switches: it may remove those
    that are done and start new ones. *)
Record others (t : N) (s s' : st) : Prop := {
  oth_tids : (s_tids s ≤ s_tids s')%N;
  oth_new : ∀ u x, u ≠ t → info_at u s' = Some x →
    info_at u s = Some x ∨ (s_tids s ≤ u)%N ∧ fresh_info x;
  oth_keep : ∀ u x, u ≠ t → info_at u s = Some x → is_done x = false →
    info_at u s' = Some x
}.

Lemma others_refl t s : others t s s.
Proof. split; [done|by left|done]. Qed.

Lemma others_trans t s1 s2 s3 : others t s1 s2 → others t s2 s3 → others t s1 s3.
Proof.
  intros [A1 A2 A3] [B1 B2 B3]. split; [lia| |].
  - intros u x Hu [H|[H1 H2]]%B2; [|right; split; [lia|done]|done].
    by apply A2.
  - intros u x Hu H Hd. by apply B3; [|apply A3|].
Qed.

#[export] Instance others_preorder t : PreOrder (others t).
Proof. split; [intros s; apply others_refl|intros s1 s2 s3; apply others_trans]. Qed.

(** The thread [t] leaves the processor in [s] and gets it back in [s']. *)
Record rely (t : N) (s s' : st) : Prop := {
  rely_inv : inv s';
  rely_fg : fg (s_in s') = t;
  rely_info : info_at t s' = info_at t s
}.

Fixpoint wp {A} (t : N) (Q : A → st → Prop) (s0 : st) (r : res A) : Prop :=
  match r with
  | Ret a s => others t s0 s ∧ Q a s
  | Fault | NoFuel => True
  | Susp t' s k =>
      t' = t ∧ others t s0 s ∧ inv s ∧ ∀ s', rely t s s' → wp t Q s' (k s')
  end.

Lemma wp_others {A} t (Q : A → st → Prop) s0 s1 r :
  others t s0 s1 → wp t Q s1 r → wp t Q s0 r.
Proof.
  intros Ho. destruct r as [a s| | |t' s k]; simpl; [| done..|].
  - intros [H1 H2]. split; [by etrans|done].
  - intros (H1 & H2 & H3). split_and!; [done|by etrans|apply H3..].
Qed.

Lemma wp_bind {A B} t (Q : A → st → Prop) (Q' : B → st → Prop) s0 r (f : A → IM B) :
  wp t Q s0 r → (∀ a s, Q a s → wp t Q' s (f a s)) → wp t Q' s0 (res_bind r f).
Proof.
  intros Hr Hf. revert s0 Hr. induction r as [a s| | |t' s k IH]; intros s0 Hr; simpl in *;
    [| done..|].
  - destruct Hr as [H1 H2]. eapply wp_others; [done|by apply Hf].
  - destruct Hr as (H1 & H2 & H3 & H4). split_and!; [done..|].
    intros s' Hs. apply IH. by apply H4.
Qed.

Lemma wp_mono {A} t (Q Q' : A → st → Prop) s0 r :
  wp t Q s0 r → (∀ a s, Q a s → Q' a s) → wp t Q' s0 r.
Proof.
  intros Hr HQ. revert s0 Hr. induction r as [a s| | |t' s k IH]; intros s0 Hr; simpl in *;
    [| done..|].
  - split; [apply Hr|by apply HQ, Hr].
  - destruct Hr as (H1 & H2 & H3 & H4). split_and!; [done..|].
    intros s' Hs. apply IH. by apply H4.
Qed.

(** The running thread gets its frames back, and the others are left alone. *)
Record kept (s s' : st) : Prop := {
  kept_inv : inv s';
  kept_fg : fg (s_in s') = fg (s_in s);
  kept_info : info_at (fg (s_in s)) s' = info_at (fg (s_in s)) s
}.

Lemma kept_refl s : inv s → kept s s.
Proof. by split. Qed.
Lemma kept_trans s1 s2 s3 : kept s1 s2 → kept s2 s3 → kept s1 s3.
Proof.
  intros [A1 A2 A3] [B1 B2 B3]. split; [done|congruence|].
  rewrite A2 in B3. congruence.
Qed.

(** The running thread does not wait for an offload thread. *)
Definition ready (s : st) : Prop := snd <$> info_at (fg (s_in s)) s = Some false.

Lemma kept_ready s s' : kept s s' → ready s → ready s'.
Proof. intros [_ K2 K3]. unfold ready. by rewrite K2, K3. Qed.

(** [m] keeps the thread's frames and flags, when it starts with [P]. *)
Definition keeps (P : st → Prop) {A} (m : IM A) : Prop :=
  ∀ s, inv s → P s → wp (fg (s_in s)) (λ _ s', kept s s') s (m s).

(** Code that may run while the thread waits, and code that may not. *)
Definition stable {A} (m : IM A) : Prop := keeps (λ _, True) m.
Definition balanced {A} (m : IM A) : Prop := keeps ready m.

Create HintDb balanced.

Lemma stable_balanced {A} (m : IM A) : stable m → balanced m.
Proof. intros Hm s Hs _. by apply Hm. Qed.

Lemma keeps_bind P {A B} (m : IM A) (f : A → IM B) :
  (∀ s s', kept s s' → P s → P s') →
  keeps P m → (∀ a, keeps P (f a)) → keeps P (m ≫= f).
Proof.
  intros HP Hm Hf s Hs Hp. eapply wp_bind; [by apply Hm|]. intros a s1 Hk.
  pose proof (Hf a s1 (kept_inv _ _ Hk) (HP _ _ Hk Hp)) as H. rewrite (kept_fg _ _ Hk) in H.
  eapply wp_mono; [exact H|]. intros ? s2 Hk2. exact (kept_trans _ _ _ Hk Hk2).
Qed.

Lemma stable_mret {A} (a : A) : stable (mret a).
Proof. intros s Hs _. split; [done|by apply kept_refl]. Qed.
Lemma stable_nofuel {A} : stable (@nofuel A).
Proof. done. Qed.
Lemma stable_bind {A B} (m : IM A) (f : A → IM B) :
  stable m → (∀ a, stable (f a)) → stable (m ≫= f).
Proof. by apply keeps_bind. Qed.

Lemma balanced_mret {A} (a : A) : balanced (mret a).
Proof. apply stable_balanced, stable_mret. Qed.
Lemma balanced_nofuel {A} : balanced (@nofuel A).
Proof. done. Qed.
Lemma balanced_bind {A B} (m : IM A) (f : A → IM B) :
  balanced m → (∀ a, balanced (f a)) → balanced (m ≫= f).
Proof. apply keeps_bind, kept_ready. Qed.

(** *** Code that does not switch threads *)

(** [m] keeps the invariant and its own frames. *)
Definition steady {A} (m : M st A) : Prop :=
  ∀ s a s', inv s → m s = Done (a, s') → others (fg (s_in s)) s s' ∧ kept s s'.

Lemma stable_lift {A} (m : M st A) : steady m → stable (lift m).
Proof.
  intros Hm s Hs _. unfold lift. destruct (m s) as [[a s']| |] eqn:E; [|done..].
  by apply (Hm s a s').
Qed.

Lemma find_thread_shape u s :
  with_ret 0%N <$> find_thread u (threads (s_in s)) = find_thread u (shape s).
Proof.
  unfold shape. induction (threads (s_in s)) as [|t ts IH]; [done|].
  rewrite fmap_cons, !find_thread_cons. simpl. by destruct (decide (t_id t = u)).
Qed.

Lemma view_eq s s' :
  view s' = view s →
  shape s' = shape s ∧ fg (s_in s') = fg (s_in s) ∧ s_tids s' = s_tids s.
Proof. unfold view. by intros [= -> -> ->]. Qed.

Lemma view_info s s' u : view s' = view s → info_at u s' = info_at u s.
Proof.
  intros (Hv & _ & _)%view_eq. unfold info_at.
  assert (∀ o : option b6b_thread, info <$> o = info <$> (with_ret 0%N <$> o)) as Hi.
  { by intros []. }
  by rewrite (Hi (find_thread u (threads (s_in s')))), (Hi (find_thread u (threads (s_in s)))),
    !find_thread_shape, Hv.
Qed.

(** A thread of [s'] stands at the same place in [s], but for what it
    returned. *)
Lemma view_elem s s' t :
  view s' = view s → t ∈ threads (s_in s') →
  ∃ u, u ∈ threads (s_in s) ∧ with_ret 0%N u = with_ret 0%N t.
Proof.
  intros (Hv & _ & _)%view_eq Ht. apply (list_elem_of_fmap_2 (with_ret 0%N)) in Ht.
  change (with_ret 0%N t ∈ shape s') in Ht. rewrite Hv in Ht.
  apply list_elem_of_fmap in Ht as (u & -> & Hu). by exists u.
Qed.

Lemma view_inv s s' : view s' = view s → inv s → inv s'.
Proof.
  intros Hv [I1 I2 I3 I4 I5 I6]. pose proof (view_eq _ _ Hv) as (Hs & Hf & Ht). split.
  - replace (t_id <$> threads (s_in s')) with (t_id <$> threads (s_in s)); [done|].
    transitivity (t_id <$> shape s); [|rewrite <- Hs]; unfold shape;
      by rewrite <- list_fmap_compose.
  - intros t (u & Hu & [= <- _ _ _ _ _ _ _])%(view_elem s); [|done]. rewrite Ht. by apply I2.
  - destruct I3 as (t & H1 & H2 & H3). unfold shape in Hs.
    destruct (threads (s_in s)) as [|t1 ts]; [done|]. injection H1 as ->.
    destruct (threads (s_in s')) as [|t' ts']; [done|].
    injection Hs as Hi _ _ _ _ _ Hd _ _. exists t'. split_and!; [done|congruence..].
  - destruct I4 as (t & H1 & H2). rewrite Hf.
    assert (info_at (fg (s_in s)) s' = Some (info t)) as Hi.
    { rewrite (view_info s s') by done. unfold info_at. by rewrite H1. }
    apply fmap_Some in Hi as (t' & Ht' & Hi). exists t'. split; [done|].
    unfold info in Hi. congruence.
  - intros t (u & Hu & [= E1 _ _ _ E2 E3 _ _])%(view_elem s); [|done].
    rewrite Hf, <- E1, <- E2, <- E3. by apply I5.
  - intros t (u & Hu & [= _ E1 _ E2 _ _ _ _])%(view_elem s); [|done].
    rewrite <- E1, <- E2. by apply I6.
Qed.

Lemma view_others t s s' : view s' = view s → others t s s'.
Proof.
  intros Hv. pose proof (view_eq _ _ Hv) as (_ & _ & Ht). split; [lia| |].
  - intros u x _ Hx. left. by rewrite <- (view_info s s').
  - intros u x _ Hx _. by rewrite (view_info s s').
Qed.

Lemma view_kept s s' : inv s → view s' = view s → kept s s'.
Proof. intros Hs Hv. split; [by eapply view_inv|by apply view_eq|by apply view_info]. Qed.

Lemma quiet_steady {A} (m : M st A) : quiet m → steady m.
Proof.
  intros Hm s a s' Hs H. apply Hm in H as Hv.
  split; [by apply view_others|by apply view_kept].
Qed.

Lemma stable_quiet {A} (m : M st A) : quiet m → stable (lift m).
Proof. intros Hm. by apply stable_lift, quiet_steady. Qed.
Lemma stable_hp {A} (m : HM A) : stable (hp m).
Proof. apply stable_quiet, quiet_on_heap. Qed.
Lemma balanced_quiet {A} (m : M st A) : quiet m → balanced (lift m).
Proof. intros Hm. by apply stable_balanced, stable_quiet. Qed.
Lemma balanced_hp {A} (m : HM A) : balanced (hp m).
Proof. apply stable_balanced, stable_hp. Qed.
#[export] Hint Resolve stable_mret stable_nofuel stable_hp
  balanced_mret balanced_nofuel balanced_hp : balanced.

Ltac balanced1 :=
  match goal with
  | |- balanced (mbind _ _) => apply balanced_bind; [|intros]
  | |- balanced (match ?x with _ => _ end) => destruct x
  | |- balanced (lift _) => apply balanced_quiet; quiet_tac; fail
  | |- balanced _ => solve [eauto 2 with balanced]
  end.
Ltac balanced_tac := intros; repeat balanced1.

Ltac stable1 :=
  match goal with
  | |- stable (mbind _ _) => apply stable_bind; [|intros]
  | |- stable (match ?x with _ => _ end) => destruct x
  | |- stable (lift _) => apply stable_quiet; quiet_tac; fail
  | |- stable _ => solve [eauto 2 with balanced]
  end.
Ltac stable_tac := intros; repeat stable1.

(** ** [b6b_wait]: threads that are done are removed *)

(** [s'] is [s] after the removal of threads that are done. *)
Record pruned (s s' : st) : Prop := {
  pr_inv : inv s';
  pr_fg : fg (s_in s') = fg (s_in s);
  pr_tids : s_tids s' = s_tids s;
  pr_info : ∀ u, info_at u s' = info_at u s ∨
    info_at u s' = None ∧ ∃ x, info_at u s = Some x ∧ is_done x = true
}.

Lemma pruned_refl s : inv s → pruned s s.
Proof. intros Hs. split; [done..|by left]. Qed.

Lemma pruned_trans s1 s2 s3 : pruned s1 s2 → pruned s2 s3 → pruned s1 s3.
Proof.
  intros [A1 A2 A3 A4] [B1 B2 B3 B4]. split; [done|congruence..|].
  intros u. destruct (B4 u) as [B|(B & x & Hx & Hd)], (A4 u) as [A|(A & y & Hy & Hd')].
  - left. congruence.
  - right. split; [congruence|by exists y].
  - right. split; [done|]. exists x. split; [congruence|done].
  - congruence.
Qed.

Lemma quiet_pruned {A} (m : M st A) s a s' :
  quiet m → inv s → m s = Done (a, s') → pruned s s'.
Proof.
  intros Hm Hs H. apply Hm in H as Hv. pose proof (view_eq _ _ Hv) as (_ & ? & ?).
  split; [by eapply view_inv|done..|]. intros u. left. by apply view_info.
Qed.

Lemma fg_info s : inv s → ∃ x, info_at (fg (s_in s)) s = Some x ∧ is_done x = false.
Proof.
  intros Hs. destruct (inv_fg s Hs) as (t & Ht & Hd). exists (info t).
  unfold info_at. by rewrite Ht.
Qed.

Lemma pruned_kept t s s' :
  inv s → fg (s_in s) = t → pruned s s' → others t s s' ∧ kept s s'.
Proof.
  intros Hs Hfg [P1 P2 P3 P4]. split; split; [lia| | |done..|].
  - intros u x _ Hx. left. destruct (P4 u) as [<-|[H _]]; [done|congruence].
  - intros u x _ Hx Hd. destruct (P4 u) as [->|(_ & y & Hy & Hd')]; [done|congruence].
  - destruct (fg_info s Hs) as (x & Hx & Hd).
    destruct (P4 (fg (s_in s))) as [->|(_ & y & Hy & Hd')]; [done|congruence].
Qed.

(** Removing one of them. *)
Definition drop_thread (u : N) : M st unit :=
  set_interp (λ i, with_threads (filter (λ t, t_id t ≠ u) (threads i)) i).

Lemma elem_of_info t s :
  inv s → t ∈ threads (s_in s) → info_at (t_id t) s = Some (info t).
Proof.
  intros Hs Ht. unfold info_at. rewrite find_thread_elem; [done|apply Hs|done].
Qed.

Lemma filter_ids_NoDup (P : b6b_thread → Prop) `{∀ t, Decision (P t)} ts :
  NoDup (t_id <$> ts) → NoDup (t_id <$> filter P ts).
Proof.
  induction ts as [|t ts IH]; [done|]. simpl. intros [Ht Hnd]%NoDup_cons.
  rewrite filter_cons. case_decide; [|by apply IH]. simpl. apply NoDup_cons.
  split; [|by apply IH]. intros (u & Hu & [_ Hin]%list_elem_of_filter)%list_elem_of_fmap.
  apply Ht. rewrite Hu. by apply list_elem_of_fmap_2.
Qed.

Lemma drop_thread_pruned u s s' :
  inv s → (∀ x, info_at u s = Some x → is_done x = true) →
  drop_thread u s = Done (tt, s') → pruned s s'.
Proof.
  intros Hs Hu [= <-]. pose proof Hs as [I1 I2 I3 I4 I5 I6].
  assert (∀ t, t ∈ threads (s_in s) → t_done t = false → t_id t ≠ u) as Hne.
  { intros t Ht Hd <-. pose proof (Hu _ (elem_of_info t s Hs Ht)) as H.
    unfold is_done, info in H. simpl in H. congruence. }
  split; [split|done..|]; simpl.
  - by apply filter_ids_NoDup.
  - intros t [_ Ht]%list_elem_of_filter. by apply I2.
  - destruct I3 as (t & H1 & H2 & H3). exists t. split_and!; [|done..].
    destruct (threads (s_in s)) as [|t1 ts]; [done|]. injection H1 as ->.
    rewrite filter_cons_True; [done|]. apply Hne; [by left|done].
  - destruct I4 as (t & H1 & H2). exists t. split; [|done].
    apply find_thread_filter; [done|]. split; [done|].
    apply find_thread_Some in H1 as [H1 _]. by apply Hne.
  - intros t [_ Ht]%list_elem_of_filter. by apply I5.
  - intros t [_ Ht]%list_elem_of_filter. by apply I6.
  - intros v. unfold info_at at 1 3. simpl.
    destruct (find_thread v (filter _ _)) as [t|] eqn:E.
    + apply find_thread_filter in E as [E _]; [|done]. left. unfold info_at. by rewrite E.
    + destruct (find_thread v (threads (s_in s))) as [t|] eqn:E2.
      * right. split; [done|].
        destruct (decide (t_id t = u)) as [Heq|Hneq].
        { pose proof (find_thread_Some _ _ _ E2) as [_ Hv].
          exists (info t). unfold info_at. rewrite E2. split; [done|].
          apply Hu. unfold info_at. rewrite <- Heq, Hv, E2. done. }
        { exfalso. assert (find_thread v (filter (λ t, t_id t ≠ u) (threads (s_in s))) = Some t)
            as H by (apply find_thread_filter; done). congruence. }
      * left. unfold info_at. by rewrite E2.
Qed.

Lemma quiet_thread_destroy t : quiet (b6b_thread_destroy t).
Proof. unfold b6b_thread_destroy. quiet_tac. Qed.

Lemma wait_loop_pruned l s s' :
  inv s → (∀ t, t ∈ l → t_done t = true → ∀ x, info_at (t_id t) s = Some x → is_done x = true) →
  miter (λ t, if t_done t then b6b_thread_pop t else mret tt) l s = Done (tt, s') →
  pruned s s'.
Proof.
  revert s. induction l as [|t l IH]; intros s Hs Hl Hr; simpl in Hr.
  { injection Hr as <-. by apply pruned_refl. }
  apply bind_Done in Hr as ([] & s1 & H1 & Hr).
  assert (pruned s s1) as Hp.
  { destruct (t_done t) eqn:Ed; [|injection H1 as <-; by apply pruned_refl].
    unfold b6b_thread_pop in H1. apply bind_Done in H1 as ([] & s2 & H2 & H1).
    assert (pruned s s2) as H3.
    { eapply (drop_thread_pruned (t_id t)); [done| |exact H2]. by apply Hl; [left|]. }
    eapply pruned_trans; [exact H3|]. eapply quiet_pruned; [|apply H3|exact H1].
    apply quiet_thread_destroy. }
  eapply pruned_trans; [exact Hp|]. apply IH; [apply Hp| |done].
  intros u Hu Hd x Hx. destruct (pr_info _ _ Hp (t_id u)) as [E|[E _]]; [|congruence].
  apply (Hl u); [by right|done|congruence].
Qed.

Lemma wait_pruned s s' : inv s → b6b_wait s = Done (tt, s') → pruned s s'.
Proof.
  intros Hs H. unfold b6b_wait in H. apply bind_Done in H as (s1 & s2 & [= <- <-] & H).
  eapply wait_loop_pruned; [done| |exact H]. intros t Ht Hd x Hx.
  rewrite (elem_of_info t s Hs Ht) in Hx. by injection Hx as <-.
Qed.

Lemma stable_wait : stable (lift b6b_wait).
Proof.
  apply stable_lift. intros s [] s' Hs H. eapply pruned_kept; [done..|].
  by apply wait_pruned.
Qed.
#[export] Hint Resolve stable_wait : balanced.

(** ** [b6b_yield] *)

Lemma split_at_elem u ts before after t :
  split_at u ts = (before, after) → t ∈ after ++ before → t ∈ ts.
Proof.
  revert before. induction ts as [|x ts IH]; intros before H Ht; simpl in H.
  { injection H as <- <-. done. }
  case_decide.
  - injection H as <- <-. rewrite app_nil_r in Ht. by right.
  - destruct (split_at u ts) as [b a]. injection H as <- <-.
    apply elem_of_app in Ht as [Ht|Ht].
    + right. eapply IH; [done|]. apply elem_of_app. by left.
    + apply elem_of_cons in Ht as [->|Ht]; [by left|].
      right. eapply IH; [done|]. apply elem_of_app. by right.
Qed.

Lemma pick_Some u ts t : pick u ts = Some t → t ∈ ts ∧ t_bg t = true ∧ t_done t = false.
Proof.
  unfold pick. destruct (split_at u ts) as [before after] eqn:E.
  intros ([i x] & H & ->)%fmap_Some. apply list_find_Some in H as (H1 & H2 & _).
  simpl. split; [eapply split_at_elem, list_elem_of_lookup_2; done|].
  unfold pending in H2. apply Is_true_true in H2. apply andb_prop in H2 as [? H2].
  split; [done|]. by apply negb_true_iff.
Qed.

(** The state after the switch to the thread [t]. *)
Definition switched (t : N) (s : st) : st :=
  mkSt (s_heap s)
    (with_qstep 0 (with_fg t
       (with_threads (swap_flags (fg (s_in s)) t (threads (s_in s))) (s_in s))))
    (s_tids s) (s_err s).

Lemma switched_info t s u : info_at u (switched t s) = info_at u s.
Proof.
  unfold info_at, switched, swap_flags. simpl. rewrite !find_thread_map by done.
  destruct (decide _), (decide _), (find_thread u _); done.
Qed.

Lemma swap_flags_ids a b ts : t_id <$> swap_flags a b ts = t_id <$> ts.
Proof. unfold swap_flags. by rewrite !map_thread_ids. Qed.

Lemma elem_of_swap_flags a b ts t :
  t ∈ swap_flags a b ts → ∃ u, u ∈ ts ∧ t_id t = t_id u ∧ info t = info u ∧
    (t_fg t, t_bg t) = if decide (t_id u = a) then (false, true)
                       else if decide (t_id u = b) then (true, false)
                       else (t_fg u, t_bg u).
Proof.
  unfold swap_flags. intros (v & Hv & ->)%elem_of_map_thread.
  apply elem_of_map_thread in Hv as (u & Hu & ->). exists u. split; [done|].
  destruct (decide (t_id u = b)), (decide (t_id u = a)); simpl;
    repeat case_decide; try done; simpl in *; congruence.
Qed.

Lemma switched_inv t s :
  inv s → t ∈ threads (s_in s) → t_bg t = true → t_done t = false →
  inv (switched (t_id t) s).
Proof.
  intros Hs Ht Hbg Hd. pose proof Hs as [I1 I2 I3 I4 I5 I6].
  assert (t_id t ≠ fg (s_in s)) as Hne.
  { destruct (I5 t Ht) as [H1 H2]. intros E. rewrite bool_decide_true in H1 by done.
    rewrite H1, Hbg in H2. done. }
  split; simpl.
  - by rewrite swap_flags_ids.
  - intros x (u & Hu & -> & _)%elem_of_swap_flags. by apply I2.
  - destruct I3 as (m & H1 & H2 & H3).
    destruct (threads (s_in s)) as [|t1 ts]; [done|]. injection H1 as ->.
    unfold swap_flags, map_thread. eexists. split; [done|].
    by repeat case_decide.
  - pose proof (switched_info (t_id t) s (t_id t)) as Hi.
    rewrite (elem_of_info t s Hs Ht) in Hi. unfold info_at in Hi. simpl in Hi.
    apply fmap_Some in Hi as (x & Hx & Hi). exists x. split; [done|].
    unfold info in Hi. congruence.
  - intros x (u & Hu & E1 & _ & E2)%elem_of_swap_flags. destruct (I5 u Hu) as [F1 F2].
    rewrite E1. revert E2.
    destruct (decide (t_id u = fg (s_in s))), (decide (t_id u = t_id t)); intros [= -> ->].
    1, 2: by rewrite bool_decide_false by congruence.
    + by rewrite bool_decide_true.
    + rewrite F2, F1, !bool_decide_false by congruence. done.
  - intros x (u & Hu & _ & [= -> -> _ _] & _)%elem_of_swap_flags. by apply I6.
Qed.

Lemma switched_others t u s : others t s (switched u s).
Proof.
  split; [done| |].
  - intros v x _ Hx. left. by rewrite switched_info in Hx.
  - intros v x _ Hx _. by rewrite switched_info.
Qed.

(** [b6b_yield] with a thread to switch to. *)
Lemma yield_eq s :
  b6b_yield s =
    match pick (fg (s_in s)) (threads (s_in s)) with
    | None => (lift b6b_wait;; mret false) s
    | Some t => Susp (fg (s_in s)) (switched (t_id t) s) (λ s', (lift b6b_wait;; mret true) s')
    end.
Proof.
  unfold b6b_yield. unfold mbind at 1, IM_bind at 1. simpl.
  by destruct (pick _ _).
Qed.

Lemma stable_yield : stable b6b_yield.
Proof.
  intros s Hs _. rewrite yield_eq.
  destruct (pick (fg (s_in s)) (threads (s_in s))) as [t|] eqn:E.
  - apply pick_Some in E as (Ht & Hbg & Hd). simpl. split_and!; [done|..].
    + apply switched_others.
    + by apply switched_inv.
    + intros s' [R1 R2 R3].
      assert (stable (lift b6b_wait;; mret true)) as Hw by stable_tac.
      pose proof (Hw s' R1 I) as H. rewrite R2 in H. eapply wp_mono; [exact H|].
      intros _ s2 [K1 K2 K3]. split; [done|congruence|].
      rewrite R2 in K3. rewrite K3, R3. apply switched_info.
  - assert (stable (lift b6b_wait;; mret false)) as Hw by stable_tac.
    by apply Hw.
Qed.
Lemma balanced_yield : balanced b6b_yield.
Proof. apply stable_balanced, stable_yield. Qed.
#[export] Hint Resolve stable_yield balanced_yield : balanced.

(** ** [b6b_start] *)

Lemma insert_after_elem u t ts x : x ∈ insert_after u t ts → x ∈ ts ∨ x = t.
Proof.
  induction ts as [|y ts IH]; [by left|]. simpl. case_decide; rewrite !elem_of_cons; naive_solver.
Qed.

Lemma insert_after_ids u t ts :
  NoDup (t_id <$> ts) → t_id t ∉ t_id <$> ts → NoDup (t_id <$> insert_after u t ts).
Proof.
  induction ts as [|y ts IH]; [done|]. simpl. intros [Hy Hnd]%NoDup_cons Ht.
  apply not_elem_of_cons in Ht as [Hne Ht].
  case_decide; simpl; rewrite !NoDup_cons.
  - split_and!; [|done..]. by apply not_elem_of_cons.
  - split; [|by apply IH]. intros (x & Hx & Hin)%list_elem_of_fmap.
    apply insert_after_elem in Hin as [Hin| ->]; [|done].
    apply Hy. rewrite Hx. by apply list_elem_of_fmap_2.
Qed.

Lemma insert_after_find u t ts v :
  u ∈ t_id <$> ts → t_id t ∉ t_id <$> ts →
  find_thread v (insert_after u t ts) =
    if decide (v = t_id t) then Some t else find_thread v ts.
Proof.
  induction ts as [|y ts IH]; [by intros ?%elem_of_nil|]. simpl.
  intros Hu Ht. apply not_elem_of_cons in Ht as [Hne Ht].
  apply elem_of_cons in Hu. rewrite find_thread_cons.
  destruct (decide (t_id y = u)) as [Hy|Hy]; rewrite !find_thread_cons.
  - destruct (decide (t_id y = v)), (decide (t_id t = v)), (decide (v = t_id t)); congruence.
  - destruct Hu as [Hu|Hu]; [congruence|]. rewrite IH by done.
    destruct (decide (t_id y = v)), (decide (v = t_id t)); congruence.
Qed.

(** The state with a new thread, that runs [fn] in the frame [f]. *)
Definition started (f : b6b_frame) (fn nl : loc) (s : st) : st :=
  let t := mkThread (s_tids s) [f] (Some fn) nl 1 true false false false in
  mkSt (s_heap s)
    (with_threads (insert_after (fg (s_in s)) t (threads (s_in s))) (s_in s))
    (N.succ (s_tids s)) (s_err s).

Lemma start_inv stmts s ok s' :
  b6b_start stmts s = Done (ok, s') →
  ∃ f nl s1, view s1 = view s ∧ s' = started f stmts nl s1.
Proof.
  intros H. unfold b6b_start, b6b_thread_new in H.
  apply bind_Done in H as (s1 & s2 & [= <- <-] & H).
  apply bind_Done in H as (t & s3 & Ht & H).
  apply bind_Done in Ht as (s4 & s5 & [= <- <-] & Ht).
  apply bind_Done in Ht as ([] & s6 & [= <-] & Ht).
  apply bind_Done in Ht as (f & s7 & H1 & Ht). apply quiet_frame_new in H1.
  apply bind_Done in Ht as (o & s8 & H2 & Ht). apply quiet_on_heap in H2.
  apply bind_Done in Ht as (o2 & s9 & H3 & Ht). apply quiet_on_heap in H3.
  injection Ht as <- <-.
  apply bind_Done in H as ([] & s10 & [= <-] & H). injection H as _ <-.
  assert (view s9 = view (mkSt (s_heap s) (s_in s) (N.succ (s_tids s)) (s_err s))) as Hv by congruence.
  unfold view in Hv. cbn in Hv. injection Hv as Ht Hfg E1.
  exists f, (null (s_in s)), (mkSt (s_heap s9) (s_in s9) (s_tids s) (s_err s9)).
  split; [|unfold started; cbn; by rewrite E1].
  unfold view, shape in *. cbn in *. by rewrite Ht, Hfg.
Qed.

Lemma started_info f fn nl s u :
  inv s →
  info_at u (started f fn nl s) =
    if decide (u = s_tids s) then Some ([f], 1, false, Some fn, false) else info_at u s.
Proof.
  intros Hs. unfold info_at, started. simpl. rewrite insert_after_find.
  - simpl. by case_decide.
  - apply find_thread_is_Some. destruct (inv_fg s Hs) as (t & -> & _). by eexists.
  - simpl. intros (t & Hid & Ht)%list_elem_of_fmap. pose proof (inv_fresh s Hs t Ht). lia.
Qed.

Lemma info_at_fresh s u x : inv s → info_at u s = Some x → (u < s_tids s)%N.
Proof.
  intros Hs (t & Ht & _)%fmap_Some. apply find_thread_Some in Ht as [Ht <-].
  by apply inv_fresh.
Qed.

Lemma started_inv f fn nl s : inv s → inv (started f fn nl s).
Proof.
  intros Hs. pose proof Hs as [I1 I2 I3 I4 I5 I6].
  assert (s_tids s ∉ t_id <$> threads (s_in s)) as Hnew.
  { intros (t & Hid & Ht)%list_elem_of_fmap. pose proof (I2 t Ht). lia. }
  assert (fg (s_in s) < s_tids s)%N as Hfg.
  { destruct I4 as (t & [Ht <-]%find_thread_Some & _). by apply I2. }
  split; simpl.
  - by apply insert_after_ids.
  - intros t [Ht| ->]%insert_after_elem; simpl; [|lia]. pose proof (I2 t Ht). lia.
  - destruct I3 as (m & H1 & H2 & H3). exists m.
    destruct (threads (s_in s)) as [|t1 ts]; [done|]. simpl. by case_decide.
  - destruct I4 as (t & H1 & H2). exists t. split; [|done].
    rewrite insert_after_find; [|apply find_thread_is_Some; by eexists|done].
    simpl. rewrite decide_False by lia. done.
  - intros t [Ht| ->]%insert_after_elem; simpl; [by apply I5|].
    rewrite bool_decide_false by lia. done.
  - intros t [Ht| ->]%insert_after_elem; simpl; [by apply I6|]. unfold B6B_MAX_NESTING. lia.
Qed.

Lemma steady_start stmts : steady (b6b_start stmts).
Proof.
  intros s ok s' Hs H. apply start_inv in H as (f & nl & s1 & Hv & ->).
  assert (inv s1) as Hs1 by (by eapply view_inv).
  pose proof (view_eq _ _ Hv) as (_ & Hfg & Ht).
  assert (fg (s_in s) < s_tids s)%N as Hlt.
  { destruct (fg_info s Hs) as (x & Hx & _). by eapply info_at_fresh. }
  split; split; simpl.
  - lia.
  - intros u x Hu Hx. rewrite started_info in Hx by done. case_decide as Hd.
    + right. split; [lia|]. injection Hx as <-. by exists f, stmts.
    + left. by rewrite <- (view_info s s1).
  - intros u x Hu Hx _. rewrite started_info by done. rewrite decide_False.
    + by rewrite (view_info s s1).
    + pose proof (info_at_fresh _ _ _ Hs Hx). lia.
  - by apply started_inv.
  - done.
  - rewrite started_info by done. rewrite decide_False by lia. by apply view_info.
Qed.

Lemma balanced_start stmts : balanced (lift (b6b_start stmts)).
Proof. apply stable_balanced, stable_lift, steady_start. Qed.
#[export] Hint Resolve balanced_start : balanced.

(** ** Frames *)

(** The state with other frames for the running thread. *)
Definition reframed (c : list b6b_frame) (d : Z) (s : st) : st :=
  mkSt (s_heap s)
    (with_threads (map_thread (fg (s_in s)) (with_curr c d) (threads (s_in s))) (s_in s))
    (s_tids s) (s_err s).

Lemma reframed_info c d s u :
  info_at u (reframed c d s) =
    if decide (u = fg (s_in s)) then (λ '(_, _, dn, fn, bl), (c, d, dn, fn, bl)) <$> info_at u s
    else info_at u s.
Proof.
  unfold info_at, reframed. simpl. rewrite find_thread_map by done.
  case_decide; by destruct (find_thread u _).
Qed.

Lemma reframed_inv c d s :
  inv s → d = Z.of_nat (length c) → 1 ≤ d ≤ B6B_MAX_NESTING → inv (reframed c d s).
Proof.
  intros [I1 I2 I3 I4 I5 I6] Hd Hr. split; simpl.
  - by rewrite map_thread_ids.
  - intros t (u & Hu & ->)%elem_of_map_thread. pose proof (I2 u Hu). by destruct (decide _).
  - destruct I3 as (m & H1 & H2 & H3). destruct (threads (s_in s)) as [|t1 ts]; [done|].
    injection H1 as ->. unfold map_thread. eexists. split; [done|]. by destruct (decide _).
  - destruct I4 as (t & H1 & H2). rewrite find_thread_map, decide_True, H1 by done.
    by eexists.
  - intros t (u & Hu & ->)%elem_of_map_thread. pose proof (I5 u Hu). by destruct (decide _).
  - intros t (u & Hu & ->)%elem_of_map_thread. destruct (decide _); [done|by apply I6].
Qed.

Lemma reframed_others c d s : others (fg (s_in s)) s (reframed c d s).
Proof.
  split; [done| |]; intros u x Hu Hx; rewrite reframed_info in *;
    rewrite decide_False in * by done; [by left|done].
Qed.

Lemma map_thread_at u f g ts t :
  NoDup (t_id <$> ts) → find_thread u ts = Some t → f t = g t →
  map_thread u f ts = map_thread u g ts.
Proof.
  intros Hnd Ht Hfg. unfold map_thread. apply list_fmap_ext. intros i x Hx. simpl.
  case_decide as Hi; [|done]. apply list_elem_of_lookup_2 in Hx.
  pose proof (find_thread_elem _ _ Hnd Hx). congruence.
Qed.

Lemma fg_thread_Done s t s' :
  fg_thread s = Done (t, s') → s' = s ∧ find_thread (fg (s_in s)) (threads (s_in s)) = Some t.
Proof.
  unfold fg_thread. intros (s1 & s2 & [= <- <-] & H)%bind_Done.
  unfold deref in H. destruct (find_thread _ _); [|done]. by injection H as -> ->.
Qed.

(** The effect of [update_fg] on the frames of the running thread. *)
Lemma update_curr_eq s t f c d s' :
  inv s → find_thread (fg (s_in s)) (threads (s_in s)) = Some t →
  f t = with_curr c d t →
  update_fg f s = Done (tt, s') → s' = reframed c d s.
Proof.
  intros Hs Ht Hf [= <-]. unfold reframed. do 2 f_equal.
  by apply (map_thread_at _ _ _ _ t); [apply Hs|..].
Qed.

Lemma info_find u s x :
  info_at u s = Some x → ∃ t, find_thread u (threads (s_in s)) = Some t ∧ x = info t.
Proof. intros (t & H1 & H2)%fmap_Some. by exists t. Qed.

(** [t] has the frames [c] in [s]. *)
Definition frames_at (s : st) (c : list b6b_frame) (d : Z) (dn : bool) (fn : option loc)
    (bl : bool) : Prop :=
  info_at (fg (s_in s)) s = Some (c, d, dn, fn, bl).

(** [s'] is [s] with other frames for the running thread. *)
Record moved (s s' : st) (c : list b6b_frame) (d : Z) (dn : bool) (fn : option loc)
    (bl : bool) : Prop := {
  mv_inv : inv s';
  mv_fg : fg (s_in s') = fg (s_in s);
  mv_others : others (fg (s_in s)) s s';
  mv_frames : frames_at s' c d dn fn bl
}.

Lemma frames_find s c d dn fn bl :
  inv s → frames_at s c d dn fn bl →
  ∃ t, find_thread (fg (s_in s)) (threads (s_in s)) = Some t ∧ info t = (c, d, dn, fn, bl) ∧
    d = Z.of_nat (length c) ∧ 1 ≤ d ≤ B6B_MAX_NESTING.
Proof.
  intros Hs (t & Ht & Hi)%info_find. exists t. split_and!; [done|done|..];
    apply find_thread_Some in Ht as [Ht _]; pose proof (inv_depth s Hs t Ht) as [? ?];
    injection Hi as -> -> _ _ _; lia.
Qed.

(** A quiet computation, then an assignment of the frames. *)
Lemma moved_reframed s s1 c d c' d' dn fn bl :
  inv s → view s1 = view s → frames_at s c d dn fn bl →
  d' = Z.of_nat (length c') → 1 ≤ d' ≤ B6B_MAX_NESTING →
  moved s (reframed c' d' s1) c' d' dn fn bl.
Proof.
  intros Hs Hv Hi Hl Hr. pose proof (view_eq _ _ Hv) as (_ & Hfg & _).
  split; [|done| |].
  - apply reframed_inv; [by eapply view_inv|done..].
  - etrans; [by apply view_others|]. rewrite <- Hfg. apply reframed_others.
  - unfold frames_at. simpl. rewrite reframed_info, decide_True by done.
    rewrite Hfg, (view_info s s1) by done. unfold frames_at in Hi. by rewrite Hi.
Qed.

Lemma push_spec s r s' c d dn fn bl :
  inv s → frames_at s c d dn fn bl → b6b_frame_push s = Done (r, s') →
  match r with
  | None => view s' = view s
  | Some f => moved s s' (f :: c) (d + 1) dn fn bl
  end.
Proof.
  intros Hs Hi H. unfold b6b_frame_push in H.
  apply bind_Done in H as (t & s1 & [-> Ht]%fg_thread_Done & H).
  destruct (frames_find _ _ _ _ _ _ Hs Hi) as (t1 & Ht1 & Hinfo & Hl & Hr).
  rewrite Ht in Ht1. injection Ht1 as <-. injection Hinfo as Hc Hd _ _ _.
  destruct (Z.leb_spec B6B_MAX_NESTING (t_depth t)) as [Hle|Hlt].
  { apply bind_Done in H as (x & s2 & H2 & H). injection H as <- <-.
    by eapply quiet_return_str. }
  apply bind_Done in H as (f & s2 & H2 & H). apply quiet_frame_new in H2 as Hv.
  apply bind_Done in H as ([] & s3 & H3 & H). injection H as <- <-.
  assert (inv s2) as Hs2 by (by eapply view_inv).
  assert (frames_at s2 c d dn fn bl) as Hi2.
  { unfold frames_at. destruct (view_eq _ _ Hv) as (_ & -> & _).
    by rewrite (view_info s s2). }
  destruct (frames_find _ _ _ _ _ _ Hs2 Hi2) as (t2 & Ht2 & Hinfo2 & _).
  injection Hinfo2 as Ec Ed _ _ _.
  apply (update_curr_eq s2 t2 _ (f :: c) (d + 1)) in H3 as ->; [|done..|].
  - eapply moved_reframed; [done..|simpl; lia|lia].
  - unfold u32. rewrite Ec, Ed. unfold B6B_MAX_NESTING in *.
    by rewrite Z.mod_small by lia.
Qed.

Lemma pop_spec s s' f c d dn fn bl :
  inv s → frames_at s (f :: c) d dn fn bl → 2 ≤ d → b6b_frame_pop s = Done (tt, s') →
  moved s s' c (d - 1) dn fn bl.
Proof.
  intros Hs Hi H2d H. unfold b6b_frame_pop in H.
  apply bind_Done in H as (t & s1 & [-> Ht]%fg_thread_Done & H).
  destruct (frames_find _ _ _ _ _ _ Hs Hi) as (t1 & Ht1 & Hinfo & Hl & Hr).
  rewrite Ht in Ht1. injection Ht1 as <-. injection Hinfo as Hc Hd _ _ _. rewrite Hc in H.
  apply bind_Done in H as ([] & s2 & H2 & H). apply quiet_frame_destroy in H2 as Hv.
  assert (inv s2) as Hs2 by (by eapply view_inv).
  assert (frames_at s2 (f :: c) d dn fn bl) as Hi2.
  { unfold frames_at. destruct (view_eq _ _ Hv) as (_ & -> & _).
    by rewrite (view_info s s2). }
  destruct (frames_find _ _ _ _ _ _ Hs2 Hi2) as (t2 & Ht2 & Hinfo2 & _).
  injection Hinfo2 as Ec Ed _ _ _.
  apply (update_curr_eq s2 t2 _ c (d - 1)) in H as ->; [|done..|].
  - eapply moved_reframed; [done..|simpl in Hl; lia|lia].
  - unfold u32. rewrite Ed. unfold B6B_MAX_NESTING in *.
    by rewrite Z.mod_small by lia.
Qed.

(** A balanced computation between a push and the matching pop. *)
Lemma framed_wp {A} (body : b6b_frame → IM A) (none : IM A) s r s' :
  (∀ f, balanced (body f)) → balanced none → inv s → ready s →
  b6b_frame_push s = Done (r, s') →
  wp (fg (s_in s)) (λ _ s2, kept s s2) s
    (match r with
     | None => none
     | Some f => res ← body f; lift b6b_frame_pop;; mret res
     end s').
Proof.
  intros Hb Hn Hs Hrd E. destruct (fg_info s Hs) as ([[[[c d] dn] fn] bl] & Hi & Hd).
  apply (push_spec _ _ _ _ _ _ _ _ Hs Hi) in E. destruct r as [f|].
  2:{ pose proof (view_kept _ _ Hs E) as Hk.
      eapply wp_others; [by apply view_others|]. pose proof (Hn s' (kept_inv _ _ Hk) (kept_ready _ _ Hk Hrd)) as H.
      rewrite (kept_fg _ _ Hk) in H. eapply wp_mono; [exact H|].
      intros ? s2 Hk2. exact (kept_trans _ _ _ Hk Hk2). }
  destruct E as [M1 M2 M3 M4]. eapply wp_others; [exact M3|].
  assert (ready s') as Hrd'.
  { unfold ready, frames_at in *. rewrite M4. rewrite Hi in Hrd. exact Hrd. }
  pose proof (Hb f _ M1 Hrd') as H. rewrite M2 in H.
  eapply wp_bind; [exact H|]. clear H. intros a s3 [K1 K2 K3].
  assert (frames_at s3 (f :: c) (d + 1) dn fn bl) as K4.
  { unfold frames_at in *. by rewrite K2, K3. }
  unfold mbind, IM_bind, lift.
  destruct (b6b_frame_pop s3) as [[[] s4]| |] eqn:E; [|done..]. cbn [res_bind].
  destruct (frames_find _ _ _ _ _ _ Hs Hi) as (_ & _ & _ & _ & Hr).
  apply (pop_spec _ _ _ _ _ _ _ _ K1 K4) in E as [P1 P2 P3 P4]; [|lia].
  split; [congruence|]. split; [done|congruence|].
  unfold frames_at in P4. rewrite P2, K2, M2 in P4. rewrite P4, Hi.
  do 5 f_equal. lia.
Qed.

Lemma balanced_framed {A B} (body : b6b_frame → IM A) (none : IM A) (k : A → IM B) :
  (∀ f, balanced (body f)) → balanced none → (∀ a, balanced (k a)) →
  balanced (f ← lift b6b_frame_push;
            a ← match f with
                | None => none
                | Some f => res ← body f; lift b6b_frame_pop;; mret res
                end;
            k a).
Proof.
  intros Hb Hn Hk s Hs Hrd. unfold mbind at 1, IM_bind at 1, lift at 1.
  destruct (b6b_frame_push s) as [[r s']| |] eqn:E; [|done..]. cbn [res_bind].
  pose proof (framed_wp body none s r s' Hb Hn Hs Hrd E) as H.
  eapply wp_bind; [exact H|]. intros a s2 H2.
  pose proof (Hk a s2 (kept_inv _ _ H2) (kept_ready _ _ H2 Hrd)) as H3. rewrite (kept_fg _ _ H2) in H3.
  eapply wp_mono; [exact H3|]. intros ? s3 H4. exact (kept_trans _ _ _ H2 H4).
Qed.

(** ** [b6b_offload] *)

(** The thread [t] runs, and its stable part is [x]. *)
Record at_info (t : N) (x : tinfo) (s : st) : Prop := {
  ai_inv : inv s;
  ai_fg : fg (s_in s) = t;
  ai_info : info_at t s = Some x
}.

(** [m] changes the stable part of its thread from [x] to [y]. *)
Definition turns (t : N) (x y : tinfo) {A} (m : IM A) : Prop :=
  ∀ s, at_info t x s → wp t (λ _ s', at_info t y s') s (m s).

Lemma turns_bind t x y z {A B} (m : IM A) (f : A → IM B) :
  turns t x y m → (∀ a, turns t y z (f a)) → turns t x z (m ≫= f).
Proof.
  intros Hm Hf s Hs. eapply wp_bind; [by apply Hm|]. intros a s1 H1. by apply Hf.
Qed.

Lemma turns_stable t x {A} (m : IM A) : stable m → turns t x x m.
Proof.
  intros Hm s [S1 S2 S3]. pose proof (Hm s S1 I) as H. rewrite S2 in H.
  eapply wp_mono; [exact H|]. intros a s' [K1 K2 K3]. split; [done|congruence|].
  rewrite S2 in K3. congruence.
Qed.

Lemma turns_balanced {A} (m : IM A) :
  (∀ t c d dn fn, turns t (c, d, dn, fn, false) (c, d, dn, fn, false) m) → balanced m.
Proof.
  intros Hm s Hs Hr. destruct (fg_info s Hs) as ([[[[c d] dn] fn] bl] & Hi & _).
  unfold ready in Hr. rewrite Hi in Hr. injection Hr as Hr. simpl in Hr. subst bl.
  eapply wp_mono; [by apply (Hm _ c d dn fn)|]. intros a s' [K1 K2 K3].
  split; [done..|congruence].
Qed.

(** [b6b_thread_block], [b6b_thread_unblock] *)
Definition blocking (b : bool) (s : st) : st :=
  mkSt (s_heap s)
    (with_threads (map_thread (fg (s_in s)) (with_blocked b) (threads (s_in s))) (s_in s))
    (s_tids s) (s_err s).

Lemma blocking_info b s u :
  info_at u (blocking b s) =
    if decide (u = fg (s_in s)) then (λ '(c, d, dn, fn, _), (c, d, dn, fn, b)) <$> info_at u s
    else info_at u s.
Proof.
  unfold info_at, blocking. simpl. rewrite find_thread_map by done.
  case_decide; by destruct (find_thread u _).
Qed.

Lemma blocking_inv b s : inv s → inv (blocking b s).
Proof.
  intros [I1 I2 I3 I4 I5 I6]. split; simpl.
  - by rewrite map_thread_ids.
  - intros t (u & Hu & ->)%elem_of_map_thread. pose proof (I2 u Hu). by destruct (decide _).
  - destruct I3 as (m & H1 & H2 & H3). destruct (threads (s_in s)) as [|t1 ts]; [done|].
    injection H1 as ->. unfold map_thread. eexists. split; [done|]. by destruct (decide _).
  - destruct I4 as (t & H1 & H2). rewrite find_thread_map, decide_True, H1 by done.
    by eexists.
  - intros t (u & Hu & ->)%elem_of_map_thread. pose proof (I5 u Hu). by destruct (decide _).
  - intros t (u & Hu & ->)%elem_of_map_thread. destruct (decide _); exact (I6 u Hu).
Qed.

Lemma turns_blocked t c d dn fn b0 b :
  turns t (c, d, dn, fn, b0) (c, d, dn, fn, b) (lift (update_fg (with_blocked b))).
Proof.
  intros s [S1 S2 S3]. simpl. change (others t s (blocking b s) ∧ at_info t (c, d, dn, fn, b) (blocking b s)).
  split; split.
  - done.
  - intros u x Hu Hx. left. rewrite blocking_info, decide_False in Hx; [done|congruence].
  - intros u x Hu Hx _. rewrite blocking_info, decide_False; [done|congruence].
  - by apply blocking_inv.
  - done.
  - by rewrite blocking_info, decide_True, S3.
Qed.

Lemma stable_wait_ready k : stable (wait_ready k).
Proof. induction k as [|k IH]; simpl; stable_tac. Qed.

Lemma stable_wait_done k pending : stable (wait_done k pending).
Proof. revert pending. induction k as [|k IH]; intros pending; simpl; stable_tac. Qed.
#[export] Hint Resolve stable_wait_ready stable_wait_done : balanced.

(** One step of [b6b_offload]: its block and unblock, or code that keeps. *)
Ltac turns1 :=
  match goal with
  | |- turns _ _ _ (lift (update_fg (with_blocked _)) ≫= _) =>
      eapply turns_bind; [apply turns_blocked|intros []]
  | |- turns _ ?x ?x (mret _) => apply turns_stable, stable_mret
  | |- turns _ _ _ (mbind _ _) => eapply turns_bind; [apply turns_stable; stable_tac|intros]
  | |- turns _ _ _ (match ?x with _ => _ end) => destruct x
  end.

(** Whatever happens, the thread no longer waits when [b6b_offload] returns. *)
Lemma balanced_offload {A} n (fn : HM A) : balanced (b6b_offload n fn).
Proof.
  apply turns_balanced. intros t c d dn f. unfold b6b_offload, set_offth. repeat turns1.
Qed.
#[export] Hint Resolve balanced_offload : balanced.
