(* ===== verification/Words.v ===== *)
(** * Statements of words

    What a statement of plain words and variables does, as a function of its
    text: [b6b_stmt_call] of src/b6b_interp.c parses it, looks the variables
    up, and calls the procedure the first word stands for with a list of the
    values. *)
From Stdlib Require Import ZArith Lia Init.Byte Strings.Byte Strings.String.
From stdpp Require Import base option list numbers gmap.
From S2P Require Import Prelude Sys Float64 Hash Parse Heap Repr ListObj Types AsList Dict Offload Interp.
From S2P Require Import Switch Eval Frames.
#[local] Open Scope Z_scope.

(** ** What evaluating a word keeps *)

(** [x'] reads like [x] did: its list if it was one, its text if it was cached,
    and what it does when it is called. *)
Record reads_same (x x' : b6b_obj) : Prop := {
  rs_list : f_list (o_flags x) = true → f_list (o_flags x') = true ∧ o_l x' = o_l x;
  rs_str : f_str (o_flags x) = true → f_str (o_flags x') = true ∧ o_s x' = o_s x;
  rs_proc : o_proc x' = o_proc x;
  rs_del : o_del x' = o_del x;
  rs_priv : o_priv x' = o_priv x
}.

(** From [h] to [h'] no object but the argument list [a] reads differently,
    unless it is gone; texts that do not depend on [a] are kept, and the values
    [vs] are added to [a]. *)
Record stays (a : loc) (vs : list loc) (h h' : heap) : Prop := {
  st_next : (next h ≤ next h')%N;
  st_obj : ∀ o x', o ≠ a → (o < next h)%N → objs h' !! o = Some x' →
    ∃ x, objs h !! o = Some x ∧ reads_same x x';
  st_text : ∀ D o s, a ∈ D → is_Some (objs h' !! o) →
    text_of (live D (objs h)) o s → text_of (live D (objs h')) o s;
  st_args : ∀ x, objs h !! a = Some x → f_list (o_flags x) = true →
    ∃ x', objs h' !! a = Some x' ∧ f_list (o_flags x') = true ∧
      li_o <$> o_l x' = (li_o <$> o_l x) ++ vs
}.

(** The heap while the arguments of a call are collected in [a], for the
    references [R] of the program. *)
Record collecting (R : list loc) (a : loc) (h : heap) : Prop := {
  co_counted : well_counted R (objs h);
  co_hashes : hashes_ok (objs h);
  co_fresh : heap_fresh h;
  co_root : a ∈ R;
  co_list : ∃ x, list_at h a x
}.

Lemma reads_same_refl x : reads_same x x.
Proof. by split. Qed.

Lemma reads_same_trans x y z : reads_same x y → reads_same y z → reads_same x z.
Proof.
  intros [A1 A2 A3 A4 A5] [B1 B2 B3 B4 B5]. split; [| |congruence..].
  - intros [F1 F2]%A1. destruct (B1 F1) as [-> ->]. done.
  - intros [F1 F2]%A2. destruct (B2 F1) as [-> ->]. done.
Qed.

Lemma reads_same_refc x r : reads_same x (with_refc r x).
Proof. by split. Qed.

Lemma reads_same_ext m o x x' : obj_ext m o x x' → reads_same x x'.
Proof.
  intros [(s & hs & fs & fh & ->) Hstr _ _ _]. split; [by simpl|exact Hstr|done..].
Qed.

Lemma text_live m o s : text_of m o s → is_Some (m !! o).
Proof. intros [[|n] Hn]; [done|]. rewrite sval_S in Hn. destruct (m !! o); [by eexists|done]. Qed.

Lemma stays_trans a vs ws h1 h2 h3 :
  heap_fresh h1 → stays a vs h1 h2 → stays a ws h2 h3 → stays a (vs ++ ws) h1 h3.
Proof.
  intros Hfr [A1 A2 A3 A4] [B1 B2 B3 B4]. split; [lia| | |].
  - intros o z Ho Hn Hz. destruct (B2 o z Ho ltac:(lia) Hz) as (y & Hy & Ryz).
    destruct (A2 o y Ho Hn Hy) as (x & Hx & Rxy). exists x. split; [done|by eapply reads_same_trans].
  - intros D o s Ha [z Hz] Ht. pose proof (text_live _ _ _ Ht) as [x [Ho Hx]%live_Some].
    apply B3; [done|by eexists|]. apply A3; [done| |done].
    destruct (B2 o z) as (y & Hy & _); [by intros ->| |done|by eexists].
    pose proof (Hfr o (ex_intro _ _ Hx)). lia.
  - intros x Hx Hl. destruct (A4 x Hx Hl) as (y & Hy & Ly & Ey).
    destruct (B4 y Hy Ly) as (z & Hz & Lz & Ez). exists z.
    split_and!; [done..|]. by rewrite Ez, Ey, app_assoc.
Qed.

(** [x'] at [o] has the text of [x], at least as long as the items have theirs. *)
Record text_same (m : gmap loc b6b_obj) (o : loc) (x x' : b6b_obj) : Prop := {
  ts_str : f_str (o_flags x) = true → f_str (o_flags x') = true ∧ o_s x' = o_s x;
  ts_new : f_str (o_flags x) = false → f_str (o_flags x') = true → text_of m o (o_s x');
  ts_rest : f_str (o_flags x) = false →
    f_list (o_flags x') = f_list (o_flags x) ∧ o_l x' = o_l x ∧
    f_float (o_flags x') = f_float (o_flags x) ∧ o_f x' = o_f x ∧ o_i x' = o_i x
}.

Lemma text_same_refc m o x r : text_same m o x (with_refc r x).
Proof. split; [done|simpl; congruence|done]. Qed.

Lemma text_same_refl m o x : text_same m o x x.
Proof. split; [done|simpl; congruence|done]. Qed.

Lemma text_same_ext m o x x' : obj_ext m o x x' → text_same m o x x'.
Proof. intros [(s & hs & fs & fh & ->) H1 H2 _ _]. by split. Qed.

Lemma text_live_of D m o s : text_of (live D m) o s → text_of m o s.
Proof.
  induction D as [|d D IH]; [done|]. intros [k Hk]. apply IH. exists k. by eapply sval_delete.
Qed.

Lemma texts_kept R D m m' o s :
  well_counted R m' →
  (∀ p x x', p ∉ D → m !! p = Some x → m' !! p = Some x' → text_same m p x x') →
  is_Some (m' !! o) → text_of (live D m) o s → text_of (live D m') o s.
Proof.
  intros Hwc Hsame Ho [n Hn]. exists n. revert o s Ho Hn.
  induction n as [|n IH]; intros o s [x' Hx'] Hn; [done|].
  assert (text_of m o s) as Ht by (apply (text_live_of D); by exists (S n)).
  rewrite sval_S in Hn |- *. destruct (live D m !! o) as [x|] eqn:Ex; [|done].
  apply live_Some in Ex as [HoD Hx]. rewrite live_lookup, Hx' by done. simpl in Hn |- *.
  destruct (Hsame o x x' HoD Hx Hx') as [S1 S2 S3].
  destruct (f_str (o_flags x)) eqn:Hf; [by destruct (S1 eq_refl) as [-> ->]|].
  destruct (f_str (o_flags x')) eqn:Hf'.
  { f_equal. eapply text_of_det; [by apply S2|done]. }
  destruct (S3 eq_refl) as (El & Eo & -> & -> & ->). rewrite El, Eo.
  destruct (f_list (o_flags x)) eqn:Hl; [|done].
  apply fmap_Some in Hn as (ts & H & ->). apply fmap_Some. exists ts. split; [|done].
  eapply mapM_impl; [|exact H]. intros it t Hit. apply IH.
  apply (well_counted_closed R m' o x'); [done..|]. rewrite refs_of_list by done.
  apply elem_of_app. left. apply list_elem_of_fmap_2. by rewrite Eo.
Qed.

(** *** Steps *)

(** Caching texts and hashes. *)
Lemma ext_step R a h h' :
  collecting R a h → ext (objs h) (objs h') → next h' = next h → collecting R a h' ∧ stays a [] h h'.
Proof.
  intros [Hwc Hok Hfr Ha [x Hx]] He Hn. split.
  - split; [by eapply ext_well_counted|by eapply ext_hashes_ok| |done|].
    + intros o [y Hy]. destruct (ext_lookup_inv _ _ _ _ He Hy) as (z & Hz & _).
      rewrite Hn. apply Hfr. by eexists.
    + destruct (list_at_ext _ _ _ _ He Hn Hx) as (x' & Hx' & _). by exists x'.
  - split; [lia| | |].
    + intros o y _ _ Hy. destruct (ext_lookup_inv _ _ _ _ He Hy) as (z & Hz & Ho).
      exists z. split; [done|by eapply reads_same_ext].
    + intros D o s _. apply (texts_kept R); [by eapply ext_well_counted|].
      intros p y z _ Hy Hz. destruct (ext_lookup _ _ _ _ He Hy) as (w & Hw & Ho).
      simplify_eq. by apply text_same_ext.
    + intros y Hy Hl. destruct (ext_lookup _ _ _ _ He Hy) as (z & Hz & Ho). exists z.
      destruct (reads_same_ext _ _ _ _ Ho) as [Hr _ _ _ _]. destruct (Hr Hl) as [-> ->].
      by rewrite app_nil_r.
Qed.

(** Taking and dropping references. *)
Lemma shrink_step R R' a h h' :
  collecting R a h → a ∈ R' → well_counted R' (objs h') → shrinks (objs h) (objs h') →
  next h' = next h → collecting R' a h' ∧ stays a [] h h'.
Proof.
  intros [Hwc Hok Hfr Ha [x [L1 L2 L3 L4]]] Ha' Hwc' Hs Hn.
  destruct (well_counted_root _ _ _ Hwc' Ha') as (x' & Hx' & _).
  assert (x' = with_refc (o_refc x') x) as Ex.
  { destruct (Hs a x' Hx') as (y & Hy & Hr). congruence. }
  split.
  - split; [done|by eapply hashes_shrinks| |done|].
    + intros o [y Hy]. destruct (Hs o y Hy) as (z & Hz & _). rewrite Hn. apply Hfr. by eexists.
    + exists x'. split; [done|by rewrite Ex|by rewrite Ex|]. rewrite Ex, Hn. exact L4.
  - split; [lia| | |].
    + intros o y _ _ Hy. destruct (Hs o y Hy) as (z & Hz & ->). exists z.
      split; [done|apply reads_same_refc].
    + intros D o s _. apply (texts_kept R'); [done|].
      intros p y z _ Hy Hz. destruct (Hs p z Hz) as (w & Hw & ->).
      simplify_eq. apply text_same_refc.
    + intros y Hy Hl. assert (y = x) as -> by congruence. exists x'.
      split_and!; [done|by rewrite Ex|by rewrite app_nil_r, Ex].
Qed.

(** A new object without references. *)
Lemma alloc_step R a y h :
  collecting R a h → refs_of y = [] → o_refc y = 1 → del_ok y → hash_ok y →
  let h' := mkHeap (<[next h := y]> (objs h)) (N.succ (next h)) (h_os h) in
  collecting (next h :: R) a h' ∧ stays a [] h h'.
Proof.
  intros [Hwc Hok Hfr Ha [x [L1 L2 L3 L4]]] Hy1 Hy2 Hy3 Hy4 h'. pose proof (fresh_none h Hfr) as Hnew.
  assert (a ≠ next h) as Hne by congruence. split.
  - split; [by apply well_counted_alloc| | |by right|].
    + intros o z. simpl. rewrite lookup_insert. case_decide; [by intros [= <-]|apply Hok].
    + intros o. simpl. rewrite lookup_insert. case_decide as Ho; [subst; lia|].
      intros Hs%Hfr. lia.
    + exists x. split; simpl; [by rewrite lookup_insert_ne|done|done|].
      intros it Hit. pose proof (L4 it Hit). lia.
  - split; simpl; [lia| | |].
    + intros o z _ Ho. rewrite lookup_insert_ne by lia. intros Hz. exists z.
      split; [done|apply reads_same_refl].
    + intros D o t _. apply (texts_kept (next h :: R)); [by apply well_counted_alloc|].
      intros p z z' _ Hz. rewrite lookup_insert_ne by congruence. intros Hz'. simplify_eq.
      apply text_same_refl.
    + intros z Hz Hl. exists z. by rewrite lookup_insert_ne, app_nil_r by done.
Qed.

(** Adding an argument. *)
Lemma add_step R a v h :
  collecting R a h → is_Some (objs h !! v) →
  ∃ h', b6b_list_add a v h = Done (true, h') ∧ collecting R a h' ∧ stays a [v] h h' ∧
    ∀ o, is_Some (objs h !! o) → is_Some (objs h' !! o).
Proof.
  intros [Hwc Hok Hfr Ha [x Hx]] Hv.
  destruct (list_add_ok R a x v h Hwc Hx Hv)
    as (h' & x' & E & Hwc' & Hx' & Hl & Hfl & Hs & Hn & _).
  exists h'. split; [done|]. split_and!.
  - split; [done| | |done|by exists x'].
    + eapply (hashes_kept a _ _ x'); [done|by apply same_but_shrinks|apply Hx'|].
      unfold hash_ok. by rewrite Hfl.
    + intros o Ho. rewrite Hn. destruct (decide (o = a)) as [->|Hne].
      * pose proof (Hfr a (ex_intro _ _ (la_obj _ _ _ Hx))). lia.
      * enough (o < next h)%N by lia. apply Hfr. specialize (Hs o Hne). destruct Ho as [y Hy].
        rewrite Hy in Hs. destruct (objs h !! o); [by eexists|done].
  - split; [lia| | |].
    + intros o y Hne _ Hy. specialize (Hs o Hne). rewrite Hy in Hs.
      destruct (objs h !! o) as [z|]; [|done]. simpl in Hs. exists z. split; [done|].
      rewrite Hs. apply reads_same_refc.
    + intros D o s HaD. apply (texts_kept R); [done|].
      intros p y z HpD Hy Hz. specialize (Hs p ltac:(by intros ->)). rewrite Hy, Hz in Hs.
      simpl in Hs. rewrite Hs. apply text_same_refc.
    + intros y Hy _. pose proof (la_obj _ _ _ Hx). simplify_eq. exists x'.
      split_and!; [apply Hx'|apply Hx'|]. by rewrite Hl, fmap_app.
  - intros o Ho. destruct (decide (o = a)) as [->|Hne]; [eexists; apply Hx'|].
    by eapply same_but_is_Some.
Qed.

(** *** The statement *)

(** The statement at [stmt] is a list, whose items [its] have the texts [ws],
    which do not depend on the objects [D], [a] among them. *)
Record words_at (D : list loc) (a stmt : loc) (h : heap) (its : list b6b_litem) (ws : list bytes) : Prop := {
  wa_in : a ∈ D;
  wa_stmt : stmt ≠ a;
  wa_list : ∃ x, list_at h stmt x ∧ o_l x = its;
  wa_texts : Forall2 (λ it w, li_o it ≠ a ∧ text_of (live D (objs h)) (li_o it) w) its ws
}.

(** An object that is a list or was not parsed yet. *)
Definition stmt_text (h : heap) (stmt : loc) (x : b6b_obj) (ws : list bytes) : Prop :=
  if f_list (o_flags x) then
    list_at h stmt x ∧ Forall2 (λ it w, text_of (objs h) (li_o it) w) (o_l x) ws
  else f_str (o_flags x) = true ∧ b6b_do_as_list (o_s x) = (ws, true).

Lemma as_list_objects R o x ts h h' p y :
  as_list_ok R o x ts true h h' → heap_fresh h → objs h' !! p = Some y → p ≠ o →
  objs h !! p = Some y ∨ ((next h ≤ p)%N ∧ ∃ t, y = new_str t).
Proof.
  intros [_ _ _ Hk (its & _ & Hits)] Hfr Hy Hp. destruct (decide (p < next h)%N) as [Hlt|Hge].
  { left. by rewrite <- (Hk p Hp Hlt). }
  right. split; [lia|]. destruct Hits as [I1 _ _ _ I5].
  destruct (list_elem_of_fmap li_o its p) as [[it [-> Hit]] _].
  { apply I5; [lia|by eexists]. }
  apply list_elem_of_lookup in Hit as [k Hk'].
  destruct (Forall2_lookup_l _ _ _ _ _ I1 Hk') as (t & _ & _ & Ht). exists t. congruence.
Qed.

Lemma parse_step R D a stmt x ts h :
  collecting R a h → a ∈ D → (∀ d, d ∈ D → (d < next h)%N) → stmt ≠ a → objs h !! stmt = Some x → f_list (o_flags x) = false →
  f_str (o_flags x) = true → b6b_do_as_list (o_s x) = (ts, true) →
  ∃ h' its, b6b_as_list stmt h = Done (true, h') ∧ collecting R a h' ∧ stays a [] h h' ∧
    words_at D a stmt h' its ts.
Proof.
  intros [Hwc Hok Hfr Ha [z Hz]] HaD HD Hne Hx Hl Hs Et.
  destruct (as_list_total R stmt x h Hwc Hfr Hx Hl Hs) as (h' & E & A). rewrite Et in E, A.
  pose proof (λ p y, as_list_objects _ _ _ _ _ _ p y A Hfr) as Hobj.
  destruct A as [A1 A2 A3 A4 (its & Hx' & I)].
  assert (a < next h)%N as Han by (apply Hfr; eexists; apply Hz).
  assert (stmt < next h)%N as Hsn by (apply Hfr; by eexists).
  exists h', its. split_and!; [done| | |].
  - split; [done| |done|done|].
    + intros p y Hy. destruct (decide (p = stmt)) as [->|Hp].
      * rewrite Hx' in Hy. injection Hy as <-. exact (Hok stmt x Hx).
      * destruct (Hobj p y Hy Hp) as [Hy'|[_ [t ->]]]; [exact (Hok p y Hy')|done].
    + exists z. destruct Hz as [L1 L2 L3 L4]. split; [by rewrite A4|done|done|].
      intros it Hit. pose proof (L4 it Hit). lia.
  - split; [done| | |].
    + intros p y _ Hp Hy. destruct (decide (p = stmt)) as [->|Hps].
      * rewrite Hx' in Hy. injection Hy as <-. exists x. split; [done|]. split; [congruence|done..].
      * rewrite (A4 p Hps Hp) in Hy. exists y. split; [done|apply reads_same_refl].
    + intros D' o s _. apply (texts_kept R); [done|]. intros p y y' _ Hy Hy'.
      destruct (decide (p = stmt)) as [->|Hps].
      * simplify_eq. split; [done|simpl; congruence|simpl; congruence].
      * rewrite (A4 p Hps) in Hy' by (apply Hfr; by eexists). simplify_eq. apply text_same_refl.
    + intros y Hy Hyl. exists y. rewrite app_nil_r. split_and!; [by rewrite A4|done..].
  - destruct I as [I1 I2 I3 I4 I5]. split; [done|done| |].
    + eexists. split; [split; [exact Hx'|done|exact I2|]|done].
      intros it Hit. by apply I4.
    + eapply Forall2_impl; [exact I1|]. intros it t [Hge Ht]. split; [lia|].
      exists 1%nat. rewrite sval_S, live_lookup by (intros Hin%HD; lia).
      by rewrite Ht.
Qed.

Lemma words_stay R D a vs stmt h h' its ws :
  heap_fresh h → well_counted R (objs h') → stays a vs h h' → stmt ∈ R →
  words_at D a stmt h its ws → words_at D a stmt h' its ws.
Proof.
  intros Hfr Hwc [S1 S2 S3 _] HR [HaD Hne (x & [L1 L2 L3 L4] & El) Ht].
  destruct (well_counted_root _ _ _ Hwc HR) as (x' & Hx' & _).
  destruct (S2 stmt x' Hne) as (y & Hy & [Rl _ _ _ _]); [|done|].
  { apply Hfr. by eexists. }
  assert (y = x) as -> by congruence. destruct (Rl L2) as [L2' El'].
  split; [done|done| |].
  - exists x'. split; [|congruence]. split; [done..|by rewrite El'|].
    intros it Hit. rewrite El' in Hit. pose proof (L4 it Hit). lia.
  - eapply Forall2_impl_elem; [exact Ht|]. intros it w Hit [Hia Hw]. split; [done|].
    apply S3; [done| |done]. apply (well_counted_closed R _ stmt x'); [done..|].
    rewrite refs_of_list by done. apply elem_of_app. left. apply list_elem_of_fmap_2. congruence.
Qed.

(** *** Variables *)

(** The locals of the frame [f] hold the bindings [kvs], and the keys do not
    depend on [a]. *)
Definition binds (a : loc) (h : heap) (f : b6b_frame) (kvs : list (bytes * loc)) : Prop :=
  fr_locals f ≠ a ∧ ∃ x, objs h !! fr_locals f = Some x ∧ f_list (o_flags x) = true ∧
    pairs_of (live [fr_locals f; a] (objs h)) (o_l x) kvs.

Lemma binds_stay R a vs h h' f kvs :
  heap_fresh h → well_counted R (objs h') → stays a vs h h' → fr_locals f ∈ R →
  binds a h f kvs → binds a h' f kvs.
Proof.
  intros Hfr Hwc [S1 S2 S3 _] HR [Hne (x & Hx & Hl & Hp)]. split; [done|].
  destruct (well_counted_root _ _ _ Hwc HR) as (x' & Hx' & _).
  destruct (S2 _ x' Hne) as (y & Hy & [Rl _ _ _ _]); [|done|].
  { apply Hfr. by eexists. }
  assert (y = x) as -> by congruence. destruct (Rl Hl) as [Hl' El]. exists x'.
  split_and!; [done..|]. rewrite El. eapply pairs_of_impl; [|exact Hp].
  intros it s Hit. apply S3; [by do 2 constructor|].
  apply (well_counted_closed R _ _ _ _ Hwc Hx'). rewrite refs_of_list by done.
  apply elem_of_app. left. apply list_elem_of_fmap_2. congruence.
Qed.

Lemma binds_holds a h fs kvss :
  Forall2 (binds a h) fs kvss → frames_hold h fs kvss.
Proof.
  intros HF. eapply Forall2_impl; [exact HF|]. intros f kvs [Hne (x & Hx & Hl & Hp)]. exists x. split_and!; [done..|].
  eapply pairs_of_impl; [|exact Hp]. intros it s _ [n Hn]. exists n. simpl in Hn.
  rewrite delete_delete in Hn. by apply sval_delete in Hn.
Qed.

Lemma pairs_of_value m items kvs s v :
  pairs_of m items kvs → assoc s kvs = Some v → v ∈ li_o <$> items.
Proof.
  revert items. induction kvs as [|[k w] kvs IH]; intros items Hp Hv; [done|].
  destruct items as [|kli [|vli rest]]; [done..|]. destruct Hp as (_ & <- & Hp).
  rewrite !fmap_cons. simpl in Hv. case_decide.
  - injection Hv as <-. right. by left.
  - do 2 right. by eapply IH.
Qed.

Lemma lookup_live R a h fs kvss s v :
  well_counted R (objs h) → Forall2 (binds a h) fs kvss → lookup_chain s kvss = Some v →
  is_Some (objs h !! v).
Proof.
  intros Hwc HF. induction HF as [|f kvs fs kvss [_ (x & Hx & Hl & Hp)] HF IH]; [done|]. simpl.
  destruct (assoc s kvs) as [w|] eqn:Ha; [|done]. intros [= <-].
  apply (well_counted_closed R _ _ x _ Hwc Hx). rewrite refs_of_list by done.
  apply elem_of_app. left. by eapply pairs_of_value.
Qed.

(** ** Evaluating a word *)

(** A word that is looked up, or stands for itself. *)
Definition simple_word (kvss : list (list (bytes * loc))) (w : bytes) : Prop :=
  match w with
  | [] => True
  | c :: name =>
      if decide (c = "$"%byte) then is_Some (lookup_chain name kvss) else c ≠ "["%byte
  end.

(** [v] is the value of the word [w]: the object the name is bound to, or an
    object with the text of the word. *)
Definition word_value (kvss : list (list (bytes * loc))) (m : gmap loc b6b_obj)
    (w : bytes) (v : loc) : Prop :=
  match w with
  | [] => text_of m v w
  | c :: name =>
      if decide (c = "$"%byte) then lookup_chain name kvss = Some v else text_of m v w
  end.

(** The state [s] with the heap [h] and the return value [v]. *)
Definition returned (h : heap) (v : loc) (s : st) : st :=
  mkSt h (with_threads (map_thread (fg (s_in s)) (with_ret v) (threads (s_in s))) (s_in s))
    (s_tids s) (s_err s).

Lemma set_ret_eq v t s h' :
  find_thread (fg (s_in s)) (threads (s_in s)) = Some t →
  b6b_unref (t_ret t) (s_heap s) = Done (tt, h') →
  set_ret v s = Done (tt, returned h' v s).
Proof.
  intros Ht E. unfold set_ret. rewrite (bind_eq _ _ _ _ _ (fg_thread_eq _ _ Ht)).
  by rewrite (bind_eq _ _ _ _ _ (on_heap_eq _ _ _ _ E)).
Qed.

(** What is said of the references of the program is said of a bag. *)
Lemma collecting_perm R R' a h : (∀ o, occ o R = occ o R') → collecting R a h → collecting R' a h.
Proof.
  intros HR [W1 W2 W3 W4 W5]. split; [by eapply well_counted_perm|done|done| |done].
  apply occ_elem. rewrite <- HR. by apply occ_elem.
Qed.

Lemma collecting_swap R o p a h : collecting (o :: p :: R) a h → collecting (p :: o :: R) a h.
Proof. apply collecting_perm. intros q. simpl. lia. Qed.

Lemma give_ret_ok R a v t s :
  find_thread (fg (s_in s)) (threads (s_in s)) = Some t →
  collecting (t_ret t :: R) a (s_heap s) → a ∈ R → is_Some (objs (s_heap s) !! v) →
  ∃ h1 h2, b6b_ref v (s_heap s) = Done (v, h1) ∧
    set_ret v (mkSt h1 (s_in s) (s_tids s) (s_err s)) = Done (tt, returned h2 v s) ∧
    collecting (v :: R) a h2 ∧ stays a [] (s_heap s) h2.
Proof.
  intros Ht Hr Ha [x Hx]. pose proof (co_counted _ _ _ Hr) as Hwc.
  pose proof (wc_refc _ _ Hwc v x Hx) as (_ & Hpos & _).
  set (h1 := mkHeap (<[v := with_refc (o_refc x + 1) x]> (objs (s_heap s)))
               (next (s_heap s)) (h_os (s_heap s))).
  destruct (shrink_step _ (v :: t_ret t :: R) a _ h1 Hr) as [R1 T1];
    [set_solver|by apply well_counted_take|by apply shrinks_with_refc|done|].
  apply collecting_swap in R1.
  destruct (unref_total (v :: R) (t_ret t) h1 (co_counted _ _ _ R1)) as (h2 & E2 & W2 & N2 & S2).
  destruct (shrink_step _ (v :: R) a _ h2 R1) as [R2 T2]; [set_solver|done..|].
  exists h1, h2. split_and!; [by apply ref_eq; [|lia]| |done|].
  - exact (set_ret_eq v t (mkSt h1 _ _ _) h2 Ht E2).
  - exact (stays_trans _ [] [] _ _ _ (co_fresh _ _ _ Hr) T1 T2).
Qed.

Lemma return_ref_ok R a v t s :
  find_thread (fg (s_in s)) (threads (s_in s)) = Some t →
  collecting (t_ret t :: R) a (s_heap s) → a ∈ R → is_Some (objs (s_heap s) !! v) →
  ∃ h', return_ref v s = Done (B6B_OK, returned h' v s) ∧ collecting (v :: R) a h' ∧
    stays a [] (s_heap s) h'.
Proof.
  intros Ht Hr Ha Hv. destruct (give_ret_ok R a v t s Ht Hr Ha Hv) as (h1 & h2 & E1 & E2 & R2 & S2).
  exists h2. split_and!; [|done..]. unfold return_ref.
  rewrite (bind_eq _ _ _ _ _ (on_heap_eq _ _ _ _ E1)). unfold b6b_return.
  by rewrite (bind_eq _ _ _ _ _ E2).
Qed.

(** The frames [fs] hold the bindings [kvss] and stay alive. *)
Definition chain_binds (R : list loc) (a : loc) (h : heap) (fs : list b6b_frame)
    (kvss : list (list (bytes * loc))) : Prop :=
  Forall2 (binds a h) fs kvss ∧ Forall (λ f, fr_locals f ∈ R) fs.

Lemma chain_stays R Q R' a vs h h' fs kvss :
  collecting Q a h → collecting R' a h' → stays a vs h h' → R ⊆ R' →
  chain_binds R a h fs kvss → chain_binds R a h' fs kvss.
Proof.
  intros [_ _ Hfr _ _] [Hwc _ _ _ _] Hs Hsub [HF HR]. split; [|done].
  eapply Forall2_impl_elem; [exact HF|]. intros f kvs Hf. eapply binds_stay; [done..|].
  apply Hsub. rewrite Forall_forall in HR. by apply HR.
Qed.

(** The frames a name is looked up in. *)
Definition chain (t : b6b_thread) (s : st) : list b6b_frame := t_curr t ++ [global (s_in s)].

Definition at_heap (h : heap) (s : st) : st := mkSt h (s_in s) (s_tids s) (s_err s).

(** The name on the stack: created, looked up, dropped. *)
Lemma get_str_ok R a name v kvss t s :
  find_thread (fg (s_in s)) (threads (s_in s)) = Some t → collecting R a (s_heap s) →
  chain_binds R a (s_heap s) (chain t s) kvss → lookup_chain name kvss = Some v →
  ∃ h', b6b_get_str name s = Done (Some v, at_heap h' s) ∧ collecting R a h' ∧
    stays a [] (s_heap s) h'.
Proof.
  intros Ht Hr Hc Hv. set (h := s_heap s) in *. destruct (alloc_step R a (new_str name) h Hr) as [R1 T1]; [done..|].
  set (h1 := mkHeap (<[next h := new_str name]> (objs h)) (N.succ (next h)) (h_os h)) in *.
  assert (objs h1 !! next h = Some (new_str name)) as Hn1 by apply lookup_insert_eq.
  destruct (chain_stays R _ _ a [] h h1 _ _ Hr R1 T1 ltac:(set_solver) Hc) as [Hb1 _].
  destruct (get_ok (next h) name kvss t v (at_heap h1 s)) as (h2 & E2 & X2 & N2);
    [apply R1|done|by apply (binds_holds a)|by exists 1%nat; rewrite sval_S; cbn [at_heap s_heap]; rewrite Hn1|done|].
  destruct (ext_step _ _ _ h2 R1 X2 N2) as [R2 T2].
  destruct (ext_lookup _ _ _ _ X2 Hn1) as (x & Hx & [(? & ? & ? & ? & Ex) _ _ _ _]).
  destruct (shrink_step _ R a h2 (mkHeap (delete (next h) (objs h2)) (next h2) (h_os h2)) R2)
    as [R3 T3].
  - apply Hr.
  - pose proof (well_counted_last R _ _ x (co_counted _ _ _ R2) Hx) as W3.
    rewrite Ex in W3. by apply W3.
  - apply shrinks_delete.
  - done.
  - eexists. split_and!; [|exact R3|].
    + unfold b6b_get_str. rewrite (bind_eq _ _ _ _ _ (on_heap_eq _ _ _ _ (str_copy_eq name h))).
      fold h1. rewrite (bind_eq _ _ _ _ _ E2).
      by rewrite (bind_eq _ _ _ _ _ (on_heap_eq _ _ _ (mkSt h2 _ _ _) (free_obj_eq _ _ _ Hx))).
    + apply (stays_trans _ [] [] _ _ _ (co_fresh _ _ _ Hr) T1).
      exact (stays_trans _ [] [] _ _ _ (co_fresh _ _ _ R1) T2 T3).
Qed.

Lemma lift_eq {A B} (m : M st A) (f : A → IM B) a s s' :
  m s = Done (a, s') → (lift m ≫= f) s = f a s'.
Proof. intros E. unfold mbind, IM_bind, lift. by rewrite E. Qed.

Lemma im_bind_eq {A B} (m m' : IM A) (f : A → IM B) s s' :
  m s = m' s' → (m ≫= f) s = (m' ≫= f) s'.
Proof. intros E. unfold mbind, IM_bind. by rewrite E. Qed.

Lemma hp_eq {A B} (m : HM A) (f : A → IM B) a h' s :
  m (s_heap s) = Done (a, h') → (hp m ≫= f) s = f a (at_heap h' s).
Proof. intros E. by apply lift_eq, on_heap_eq. Qed.

Lemma at_heap_id s : at_heap (s_heap s) s = s.
Proof. by destruct s. Qed.
Lemma returned_at h h' v s : returned h v (at_heap h' s) = returned h v s.
Proof. done. Qed.
Lemma at_heap_returned h h' v s : at_heap h (returned h' v s) = returned h v s.
Proof. done. Qed.

Section words.
Context `{Env}.
Variable n : nat.
Variable b6b_stmt_call : loc → IM b6b_res.

Lemma eval_word_ok R D a o w kvss t s :
  a ∈ D →
  find_thread (fg (s_in s)) (threads (s_in s)) = Some t →
  collecting (t_ret t :: R) a (s_heap s) → a ∈ R →
  chain_binds R a (s_heap s) (chain t s) kvss → simple_word kvss w →
  holds_text (objs (s_heap s)) o w → text_of (live D (objs (s_heap s))) o w →
  ∃ h' v, b6b_eval b6b_stmt_call o s = Ret B6B_OK (returned h' v s) ∧ collecting (v :: R) a h' ∧
    stays a [] (s_heap s) h' ∧ word_value kvss (live D (objs h')) w v ∧
    is_Some (objs h' !! v).
Proof.
  intros HaD Ht Hr Ha Hc Hw Ho Hlo.
  unfold b6b_eval. rewrite (hp_eq _ _ _ _ _ (text_eq o w (s_heap s) Ho)), at_heap_id.
  assert (is_Some (objs (s_heap s) !! o)) as Hos by (destruct Ho as (x & Hx & _); by eexists).
  assert ((∀ name, w ≠ "$"%byte :: name) →
    ∃ h' v, lift (return_ref o) s = Ret B6B_OK (returned h' v s) ∧ collecting (v :: R) a h' ∧
      stays a [] (s_heap s) h' ∧ word_value kvss (live D (objs h')) w v ∧
      is_Some (objs h' !! v)) as Hself.
  { intros Hd. destruct (return_ref_ok R a o t s Ht Hr Ha Hos) as (h' & E & R' & T').
    assert (is_Some (objs h' !! o)) as Ho'.
    { destruct (well_counted_root _ _ o (co_counted _ _ _ R')) as (x & Hx & _); [by left|by eexists]. }
    exists h', o. split_and!; [by unfold lift; rewrite E|done|done| |done].
    assert (text_of (live D (objs h')) o w) as Hlo'
      by (eapply st_text; [exact T'|exact HaD|done..]).
    destruct w as [|c w]; cbn [word_value]; [done|]. case_decide as Hc'; [|done].
    by destruct (Hd w); rewrite Hc'. }
  destruct w as [|c name]; [by apply Hself|]. cbn [simple_word] in Hw.
  case_decide as Hd.
  - clear Hself. destruct Hw as [v Hv].
    destruct (get_str_ok _ a name v kvss t s Ht Hr) as (h1 & E1 & R1 & T1); [|done|].
    { destruct Hc as [HF HR]. split; [done|]. eapply Forall_impl; [exact HR|]. by right. }
    rewrite (lift_eq _ _ _ _ _ E1).
    destruct (return_ref_ok R a v t (at_heap h1 s) Ht R1 Ha) as (h2 & E2 & R2 & T2).
    { destruct (chain_stays R _ _ a [] _ h1 _ _ Hr R1 T1 ltac:(set_solver) Hc) as [Hb _].
      eapply lookup_live; [apply R1|exact Hb|exact Hv]. }
    exists h2, v. split_and!; [by unfold lift; rewrite E2|done|..].
    + exact (stays_trans _ [] [] _ _ _ (co_fresh _ _ _ Hr) T1 T2).
    + cbn [word_value]. by rewrite decide_True.
    + destruct (well_counted_root _ _ v (co_counted _ _ _ R2)) as (x & Hx & _);
        [by left|by eexists].
  - rewrite decide_False by done. apply Hself. congruence.
Qed.
(** ** The loop over the words *)

Definition after (s s' : st) : Prop := s' = s ∨ ∃ h v, s' = returned h v s.

Lemma returned_twice h h' v v' s : returned h' v' (returned h v s) = returned h' v' s.
Proof.
  unfold returned. cbn [s_in s_heap s_tids s_err with_threads fg threads]. f_equal.
  destruct (s_in s). unfold with_threads. simpl. f_equal. unfold map_thread.
  rewrite <- list_fmap_compose. apply list_fmap_ext. intros _ t _. simpl.
  destruct (decide (t_id t = _)) as [Ht|Ht]; simpl; by case_decide.
Qed.

Lemma after_returned h v s s' : after (returned h v s) s' → after s s'.
Proof.
  intros [->|(h' & v' & ->)]; right; [by eexists _, _|]. rewrite returned_twice. by eexists _, _.
Qed.

Lemma returned_thread h v t s :
  find_thread (fg (s_in s)) (threads (s_in s)) = Some t →
  find_thread (fg (s_in (returned h v s))) (threads (s_in (returned h v s))) = Some (with_ret v t).
Proof.
  intros Ht. cbn [returned s_in with_threads fg threads].
  rewrite find_thread_map by done. by rewrite decide_True, Ht by done.
Qed.

Lemma value_kept D a vs kvss h h' w v :
  a ∈ D → stays a vs h h' → is_Some (objs h' !! v) →
  word_value kvss (live D (objs h)) w v → word_value kvss (live D (objs h')) w v.
Proof.
  intros HaD Hs Hv. pose proof (st_text _ _ _ _ Hs D v w HaD Hv) as Ht.
  destruct w as [|c w]; [exact Ht|]. cbn [word_value]. case_decide; [done|exact Ht].
Qed.

(** An argument stays alive. *)
Lemma arg_live R Q a v vs h h' :
  collecting R a h → stays a vs h h' → collecting Q a h' → v ∈ vs → is_Some (objs h' !! v).
Proof.
  intros [_ _ _ _ [x [L1 L2 _ _]]] Hs [Hwc _ _ _ _] Hv.
  destruct (st_args _ _ _ _ Hs x L1 L2) as (z & Hz & Lz & Ez).
  apply (well_counted_closed Q _ a z _ Hwc Hz). rewrite refs_of_list by done.
  apply elem_of_app. left. rewrite Ez. set_solver.
Qed.

Lemma values_kept D a us kvss h h' ws vs :
  a ∈ D → stays a us h h' → (∀ v, v ∈ vs → is_Some (objs h' !! v)) →
  Forall2 (word_value kvss (live D (objs h))) ws vs →
  Forall2 (word_value kvss (live D (objs h'))) ws vs.
Proof.
  intros HaD Hs Hv HF. induction HF as [|w v ws vs Hw HF IH]; [done|]. constructor.
  - eapply value_kept; [done|done| |done]. apply Hv. by left.
  - apply IH. intros. apply Hv. by right.
Qed.

(** One round: the word of the node [it]. *)
Lemma stmt_round R D a stmt kvss its1 it its2 ws k t s res :
  find_thread (fg (s_in s)) (threads (s_in s)) = Some t →
  collecting (t_ret t :: R) a (s_heap s) → a ∈ R → stmt ∈ R →
  chain_binds R a (s_heap s) (chain t s) kvss →
  words_at D a stmt (s_heap s) (its1 ++ it :: its2) ws →
  Forall (simple_word kvss) ws →
  ∃ h' v w, ws !! length its1 = Some w ∧
    stmt_loop b6b_stmt_call (S k) stmt a (Some (li_id it)) res s
      = stmt_loop b6b_stmt_call k stmt a (li_id <$> head its2) B6B_OK (returned h' v s) ∧
    collecting (v :: R) a h' ∧ stays a [v] (s_heap s) h' ∧
    word_value kvss (live D (objs h')) w v.
Proof.
  intros Ht Hr Ha Hst Hc Hw Hsimple. pose proof Hw as [HaD Hne (x & Hx & El) HF].
  destruct (Forall2_lookup_l _ _ _ (length its1) it HF) as (w & Hwk & Hia & Hlw).
  { by rewrite lookup_app_r, Nat.sub_diag by done. }
  assert (simple_word kvss w) as Hsw by (rewrite Forall_lookup in Hsimple; by eapply Hsimple).
  assert (text_of (objs (s_heap s)) (li_o it) w) as Htw
    by (by eapply text_live_of).
  destruct (as_str_total _ _ _ Htw) as (h1 & E1 & X1 & N1 & T1).
  destruct (ext_step _ _ _ h1 Hr X1 N1) as [R1 S1].
  assert (∀ h x', objs h !! stmt = Some x' → o_l x' = its1 ++ it :: its2 → list_at h stmt x' →
    find_item (li_id it) (o_l x') = Some (it, its2)) as Hfind.
  { intros h x' _ E L. rewrite E. apply find_item_at. rewrite <- E. apply L. }
  destruct (eval_word_ok R D a (li_o it) w kvss t (at_heap h1 s)) as (h2 & v & E2 & R2 & S2 & V2 & L2);
    [done|done|exact R1|done| |done|done| |].
  { exact (chain_stays R _ _ a [] _ h1 _ _ Hr R1 S1 ltac:(set_solver) Hc). }
  { eapply st_text; [exact S1|exact HaD| |exact Hlw].
    destruct T1 as (y & Hy & _). by eexists. }
  destruct (add_step (v :: R) a v h2 R2 L2) as (h3 & E3 & R3 & S3 & _).
  pose proof (stays_trans _ [] [] _ _ _ (co_fresh _ _ _ Hr) S1 S2) as S12.
  pose proof (stays_trans _ [] [v] _ _ _ (co_fresh _ _ _ Hr) S12 S3) as S13. simpl in S13.
  assert (words_at D a stmt h3 (its1 ++ it :: its2) ws) as Hw3.
  { eapply words_stay; [apply Hr|apply R3|exact S13|by right|done]. }
  destruct Hw3 as [_ _ (x3 & Hx3 & El3) _].
  exists h3, v, w. split_and!; [done| |done|done|].
  - cbn [stmt_loop].
    rewrite (hp_eq _ _ _ _ _ (item_obj_eq _ _ _ _ _ _ (la_obj _ _ _ Hx)
      (Hfind _ _ (la_obj _ _ _ Hx) El Hx))), at_heap_id.
    rewrite (hp_eq _ _ _ _ _ E1). cbn [negb]. unfold mbind at 1, IM_bind at 1. rewrite E2.
    cbn [res_bind]. rewrite decide_False by (intros []; done). rewrite returned_at.
    rewrite (lift_eq _ _ _ _ _ (fg_thread_eq _ _ (returned_thread _ v _ _ Ht))).
    cbn [t_ret with_ret]. rewrite (hp_eq _ _ _ _ (returned h2 v s) E3). cbn [negb].
    rewrite at_heap_returned.
    by rewrite (hp_eq _ _ _ _ (returned h3 v s) (list_next_eq _ _ _ _ _ h3 (la_obj _ _ _ Hx3)
      (Hfind _ _ (la_obj _ _ _ Hx3) El3 Hx3))).
  - eapply value_kept; [exact HaD|exact S3| |exact V2].
    destruct (well_counted_root _ _ v (co_counted _ _ _ R3)) as (y & Hy & _); [by left|by eexists].
Qed.

Lemma stmt_loop_ok R D a stmt kvss ws : ∀ its2 its1 ws2 ws1 k t s res,
  find_thread (fg (s_in s)) (threads (s_in s)) = Some t →
  collecting (t_ret t :: R) a (s_heap s) → a ∈ R → stmt ∈ R →
  chain_binds R a (s_heap s) (chain t s) kvss →
  words_at D a stmt (s_heap s) (its1 ++ its2) ws →
  ws = ws1 ++ ws2 → length its1 = length ws1 →
  Forall (simple_word kvss) ws → (length its2 ≤ k)%nat →
  ∃ s' t' vs, stmt_loop b6b_stmt_call k stmt a (li_id <$> head its2) res s = Ret None s' ∧
    after s s' ∧ find_thread (fg (s_in s')) (threads (s_in s')) = Some t' ∧
    collecting (t_ret t' :: R) a (s_heap s') ∧ stays a vs (s_heap s) (s_heap s') ∧
    Forall2 (word_value kvss (live D (objs (s_heap s')))) ws2 vs.
Proof.
  induction its2 as [|it its2 IH];
    intros its1 ws2 ws1 k t s res Ht Hr Ha Hst Hc Hw -> Hlen Hsw Hk.
  - assert (ws2 = []) as ->.
    { pose proof (Forall2_length _ _ _ (wa_texts _ _ _ _ _ _ Hw)) as Hl.
      rewrite !length_app in Hl. destruct ws2; [done|simpl in Hl; lia]. }
    exists s, t, []. split_and!; [by destruct k|by left|done|done| |constructor].
    apply (ext_step _ _ _ _ Hr); done.
  - destruct k as [|k]; [simpl in Hk; lia|].
    destruct (stmt_round R D a stmt kvss its1 it its2 _ k t s res Ht Hr Ha Hst Hc Hw Hsw)
      as (h1 & v & w & Hwk & E1 & R1 & S1 & V1).
    destruct ws2 as [|w' ws2].
    { rewrite app_nil_r, lookup_ge_None_2 in Hwk by lia. done. }
    rewrite lookup_app_r, Hlen, Nat.sub_diag in Hwk by lia. injection Hwk as ->.
    assert (words_at D a stmt h1 ((its1 ++ [it]) ++ its2) (ws1 ++ w :: ws2)) as Hw1.
    { rewrite <- app_assoc.
      eapply words_stay; [apply Hr|apply R1|exact S1|by right|done]. }
    destruct (IH (its1 ++ [it]) ws2 (ws1 ++ [w]) k (with_ret v t) (returned h1 v s) B6B_OK)
      as (s' & t' & vs & E2 & A2 & Ht' & R2 & S2 & V2);
      [by apply returned_thread|exact R1|done|done|
       exact (chain_stays R _ _ a [v] _ h1 _ _ Hr R1 S1 ltac:(set_solver) Hc)|exact Hw1|
       by rewrite <- app_assoc|rewrite !length_app; simpl; lia|done|simpl in Hk; lia|].
    exists s', t', (v :: vs). split_and!; [cbn [head fmap option_fmap option_map]; by rewrite E1| | |done| |].
    + by eapply after_returned.
    + done.
    + exact (stays_trans _ [v] vs _ _ _ (co_fresh _ _ _ Hr) S1 S2).
    + constructor; [|done]. eapply value_kept; [apply Hw|exact S2| |exact V1].
      eapply (arg_live _ _ a v (v :: vs)); [exact Hr| |exact R2|by left].
      exact (stays_trans _ [v] vs _ _ _ (co_fresh _ _ _ Hr) S1 S2).
Qed.

(** *** The call *)

(** In the heap [h] the list [a] holds the values of the words [ws], with texts
    that do not depend on the objects [D], and the first value is the procedure
    [p]. *)
Definition called (D : list loc) (kvss : list (list (bytes * loc))) (a : loc) (ws : list bytes) (h : heap)
    (p : b6b_obj) : Prop :=
  ∃ x v vs, objs h !! a = Some x ∧ f_list (o_flags x) = true ∧ li_o <$> o_l x = v :: vs ∧
    objs h !! v = Some p ∧ Forall2 (word_value kvss (live D (objs h))) ws (v :: vs).

Lemma value_full D kvss m w v : word_value kvss (live D m) w v → word_value kvss m w v.
Proof.
  pose proof (text_live_of D m v w) as Ht. destruct w as [|c w]; [exact Ht|]. cbn [word_value]. case_decide; [done|exact Ht].
Qed.

Lemma after_interp {A} (f : b6b_interp → A) s s' :
  (∀ ts i, f (with_threads ts i) = f i) → after s s' → f (s_in s') = f (s_in s).
Proof. intros Hf [->|(h & v & ->)]; [done|]. apply Hf. Qed.

Lemma after_then h v s s' : after s s' → returned h v s' = returned h v s.
Proof. intros [->|(h' & v' & ->)]; [done|apply returned_twice]. Qed.

Lemma args_called R Q D a kvss ws vs h h' x :
  collecting Q a h → stays a vs h h' → collecting R a h' → objs h !! a = Some x → o_l x = [] →
  ws ≠ [] → Forall2 (word_value kvss (live D (objs h'))) ws vs →
  ∃ y it its p, list_at h' a y ∧ o_l y = it :: its ∧ objs h' !! li_o it = Some p ∧
    called D kvss a ws h' p.
Proof.
  intros [_ _ _ _ [z Hz]] Hs [Hwc _ _ _ [y Hy]] Hx El Hws HF.
  assert (z = x) as -> by (pose proof (la_obj _ _ _ Hz); congruence).
  destruct (st_args _ _ _ _ Hs x Hx (la_list _ _ _ Hz)) as (y' & Hy' & _ & Ev).
  assert (y' = y) as -> by (pose proof (la_obj _ _ _ Hy); congruence).
  rewrite El in Ev. simpl in Ev.
  destruct (o_l y) as [|it its] eqn:Ey.
  { simpl in Ev. subst vs. by apply Forall2_nil_inv_r in HF. }
  destruct (item_live R a y it h' Hwc Hy) as [p Hp]; [rewrite Ey; by left|].
  exists y, it, its, p. split_and!; [done..|].
  exists y, (li_o it), (li_o <$> its). rewrite Ey. split_and!; [done|apply Hy|done|done|].
  rewrite fmap_cons in Ev. by rewrite Ev.
Qed.

(** The statement is parsed, or was before. *)
Definition parses (R D : list loc) (a stmt : loc) (ws : list bytes) (h : heap) : Prop :=
  ∃ h1 its, b6b_as_list stmt h = Done (true, h1) ∧ collecting R a h1 ∧ stays a [] h h1 ∧
    words_at D a stmt h1 its ws.

(** After the loop: the return value is reset and the first argument called. *)
Definition call_first (args : loc) : IM b6b_res :=
  s ← lift get;
  ok ← (if opt_trace (opts (s_in s)) then lift (trace_stmt args) else mret true);
  if negb ok then mret B6B_OK
  else
    hp (b6b_ref (null (s_in s)));;
    lift (set_ret (null (s_in s)));;
    li ← hp (b6b_list_first args);
    li ← lift (deref li);
    o ← hp (item_obj args li);
    x ← hp (read_obj o);
    call_proc n b6b_stmt_call (o_proc x) args.

Lemma stmt_body_eq stmt a its h1 s s' :
  b6b_as_list stmt (s_heap s) = Done (true, h1) →
  b6b_list_first stmt h1 = Done (li_id <$> head its, h1) →
  stmt_loop b6b_stmt_call n stmt a (li_id <$> head its) B6B_ERR (at_heap h1 s) = Ret None s' →
  stmt_body n b6b_stmt_call stmt a s = call_first a s'.
Proof.
  intros E1 E2 E3. unfold stmt_body. rewrite (hp_eq _ _ _ _ _ E1). cbn [negb].
  rewrite (hp_eq _ _ _ _ (at_heap h1 s) E2).
  change (at_heap h1 (at_heap h1 s)) with (at_heap h1 s).
  unfold mbind at 1, IM_bind at 1. by rewrite E3.
Qed.

Lemma call_first_eq a y it its p h1 h2 s :
  opt_trace (opts (s_in s)) = false →
  b6b_ref (null (s_in s)) (s_heap s) = Done (null (s_in s), h1) →
  set_ret (null (s_in s)) (at_heap h1 s) = Done (tt, returned h2 (null (s_in s)) s) →
  list_at h2 a y → o_l y = it :: its → objs h2 !! li_o it = Some p →
  call_first a s = call_proc n b6b_stmt_call (o_proc p) a (returned h2 (null (s_in s)) s).
Proof.
  intros Htr E1 E2 Hy Ey Hp. unfold call_first. rewrite (lift_eq _ _ s s s) by done. rewrite Htr.
  unfold mbind at 1, IM_bind at 1. cbn [mret IM_ret res_bind negb].
  rewrite (hp_eq _ _ _ _ _ E1), (lift_eq _ _ _ _ _ E2).
  set (s2 := returned h2 (null (s_in s)) s).
  assert (at_heap h2 s2 = s2) as Es2 by done.
  rewrite (hp_eq _ _ _ _ s2 (head_first _ _ _ (la_obj _ _ _ Hy))), Ey, Es2.
  cbn [head fmap option_fmap option_map]. erewrite lift_eq by reflexivity.
  assert (find_item (li_id it) (o_l y) = Some (it, its)) as Hf
    by (rewrite Ey; simpl; by rewrite decide_True).
  rewrite (hp_eq _ _ _ _ s2 (item_obj_eq _ _ _ _ _ _ (la_obj _ _ _ Hy) Hf)), Es2.
  by rewrite (hp_eq _ _ _ _ s2 (read_obj_eq _ _ _ Hp)).
Qed.

Lemma stmt_body_ok R D a stmt x kvss ws t s :
  find_thread (fg (s_in s)) (threads (s_in s)) = Some t →
  collecting (t_ret t :: R) a (s_heap s) → a ∈ R → stmt ∈ R → null (s_in s) ∈ R →
  opt_trace (opts (s_in s)) = false →
  chain_binds R a (s_heap s) (chain t s) kvss → parses (t_ret t :: R) D a stmt ws (s_heap s) →
  objs (s_heap s) !! a = Some x → o_l x = [] →
  Forall (simple_word kvss) ws → ws ≠ [] → (length ws ≤ n)%nat →
  ∃ h' p, stmt_body n b6b_stmt_call stmt a s
      = call_proc n b6b_stmt_call (o_proc p) a (returned h' (null (s_in s)) s) ∧
    collecting (null (s_in s) :: R) a h' ∧ called D kvss a ws h' p ∧
    ∃ vs, stays a vs (s_heap s) h'.
Proof.
  intros Ht Hr Ha Hst Hnull Htr Hc (h1 & its & E1 & R1 & S1 & W1) Hx Hxl Hsw Hws Hn.
  pose proof (chain_stays R _ _ a [] _ h1 _ _ Hr R1 S1 ltac:(set_solver) Hc) as Hc1.
  pose proof W1 as [HaD _ (z & Hz & Ez) HF].
  destruct (stmt_loop_ok R D a stmt kvss ws its [] ws [] n t (at_heap h1 s) B6B_ERR)
    as (s' & t' & vs & E2 & A2 & Ht' & R2 & S2 & V2); [done..|by rewrite (Forall2_length _ _ _ HF)|].
  assert (null (s_in s') = null (s_in s)) as Enull by exact (after_interp null _ _ ltac:(done) A2).
  assert (opts (s_in s') = opts (s_in s)) as Eopts by exact (after_interp opts _ _ ltac:(done) A2).
  destruct (well_counted_root _ _ (null (s_in s')) (co_counted _ _ _ R2)) as (nl & Hnl & _);
    [rewrite Enull; by right|].
  destruct (give_ret_ok R a (null (s_in s')) t' s' Ht' R2 Ha) as (h2 & h3 & E3 & E4 & R3 & S3);
    [by eexists|].
  pose proof (stays_trans _ _ _ _ _ _ (co_fresh _ _ _ Hr) S1
    (stays_trans _ _ _ _ _ _ (co_fresh _ _ _ R1) S2 S3)) as S13.
  simpl in S13. rewrite app_nil_r in S13.
  destruct (args_called _ _ D a kvss ws vs _ _ x Hr S13 R3 Hx Hxl Hws)
    as (y & it & its' & p & Hy & Ey & Hp & Hcall).
  { eapply values_kept; [exact HaD|exact S3| |exact V2]. intros v. exact (arg_live _ _ a v vs _ _ Hr S13 R3). }
  exists h3, p. split_and!; [|rewrite <- Enull; exact R3|done|by eexists].
  rewrite (stmt_body_eq stmt a its h1 s s' E1); [|by rewrite (head_first _ _ _ (la_obj _ _ _ Hz)), Ez|done].
  rewrite (call_first_eq a y it its' p h2 h3 s'); [|by rewrite Eopts|done..].
  by rewrite Enull, (after_then _ _ _ _ A2), returned_at.
Qed.
End words.

(** ** The frame of the call *)

(** The state [s] with the frame [f] for the running thread. *)
Definition framed (f : b6b_frame) (s : st) : st :=
  mkSt (s_heap s)
    (with_threads (map_thread (fg (s_in s))
       (λ t, with_curr (f :: t_curr t) (u32 (t_depth t + 1)) t) (threads (s_in s))) (s_in s))
    (s_tids s) (s_err s).

(** The next frame: its objects are new. *)
Definition next_frame (h : heap) : b6b_frame := mkFrame (next h) (N.succ (next h)).

Definition with_frame (h : heap) : heap :=
  mkHeap (<[N.succ (next h) := new_list]> (<[next h := new_list]> (objs h)))
    (N.succ (N.succ (next h))) (h_os h).

Lemma list_new_eq h :
  b6b_list_new h =
    Done (next h, mkHeap (<[next h := new_list]> (objs h)) (N.succ (next h)) (h_os h)).
Proof.
  unfold b6b_list_new, b6b_new, malloc_obj.
  erewrite bind_eq by reflexivity.
  erewrite bind_eq by (apply update_obj_eq; simpl; apply lookup_insert_eq).
  erewrite bind_eq by (apply update_obj_eq; simpl; apply lookup_insert_eq).
  simpl. by rewrite !insert_insert_eq.
Qed.

Lemma push_eq t s :
  find_thread (fg (s_in s)) (threads (s_in s)) = Some t → t_depth t < B6B_MAX_NESTING →
  b6b_frame_push s =
    Done (Some (next_frame (s_heap s)), at_heap (with_frame (s_heap s)) (framed (next_frame (s_heap s)) s)).
Proof.
  intros Ht Hd. unfold b6b_frame_push. rewrite (bind_eq _ _ _ _ _ (fg_thread_eq _ _ Ht)).
  rewrite (proj2 (Z.leb_gt _ _)) by done. unfold b6b_frame_new. rewrite bind_assoc.
  rewrite (bind_eq _ _ _ _ _ (on_heap_eq _ _ _ _ (list_new_eq (s_heap s)))), bind_assoc.
  by rewrite (bind_eq _ _ _ _ _ (on_heap_eq _ _ _ (mkSt _ _ _ _) (list_new_eq (mkHeap _ _ _)))).
Qed.

Lemma frame_collecting R h :
  well_counted R (objs h) → hashes_ok (objs h) → heap_fresh h →
  collecting (N.succ (next h) :: next h :: R) (N.succ (next h)) (with_frame h).
Proof.
  intros Hwc Hok Hfr. pose proof (fresh_none h Hfr) as Hl.
  assert (objs h !! N.succ (next h) = None) as Ha.
  { destruct (objs h !! N.succ (next h)) eqn:E; [|done].
    pose proof (Hfr _ (ex_intro _ _ E)). lia. }
  split; [| | |by left|].
  - apply well_counted_alloc; [by apply well_counted_alloc| |done..].
    by rewrite lookup_insert_ne by lia.
  - intros o x. simpl. rewrite !lookup_insert.
    repeat case_decide; [by intros [= <-]..|]. apply Hok.
  - intros o. simpl. rewrite !lookup_insert. repeat case_decide; [lia..|].
    intros Hs%Hfr. lia.
  - exists new_list. split; [apply lookup_insert_eq|done|constructor|].
    by intros it Hit%elem_of_nil.
Qed.

(** Texts do not depend on the objects of the new frame. *)
Lemma frame_text D h o s :
  heap_fresh h → text_of (live D (objs h)) o s →
  text_of (live (D ++ [N.succ (next h)]) (objs (with_frame h))) o s.
Proof.
  intros Hfr [k Hk]. exists k. unfold live. rewrite foldr_app. simpl.
  rewrite delete_insert_id.
  2: { rewrite lookup_insert_ne by lia. destruct (objs h !! N.succ (next h)) eqn:E; [|done].
       pose proof (Hfr _ (ex_intro _ _ E)). lia. }
  change (sval k (live D (<[next h := new_list]> (objs h))) o = Some s).
  destruct (decide (next h ∈ D)) as [Hin|Hin]; [by rewrite live_insert_dead|].
  rewrite live_insert by done. apply sval_insert_fresh; [|done].
  rewrite live_lookup by done. by apply fresh_none.
Qed.

(** Nothing depends on an address that is not used. *)
Lemma fresh_text h o s : heap_fresh h → text_of (objs h) o s → text_of (live [next h] (objs h)) o s.
Proof. intros Hfr. simpl. by rewrite delete_id by (by apply fresh_none). Qed.

Lemma frame_chain R h fs kvss :
  heap_fresh h → frames_hold h fs kvss → Forall (λ f, fr_locals f ∈ R) fs →
  chain_binds (next h :: R) (N.succ (next h)) (with_frame h) (next_frame h :: fs) ([] :: kvss).
Proof.
  intros Hfr HF HR. split.
  - constructor.
    + split; [simpl; lia|]. exists new_list. simpl. rewrite lookup_insert_ne by lia.
      by rewrite lookup_insert_eq.
    + eapply Forall2_impl; [exact HF|]. intros f kvs (x & Hx & Hl & Hp).
      pose proof (Hfr _ (ex_intro _ _ Hx)) as Hlt. split; [lia|]. exists x.
      split_and!; [by simpl; rewrite !lookup_insert_ne by lia|done|].
      eapply pairs_of_impl; [|exact Hp]. intros it s _. exact (frame_text [fr_locals f] h _ _ Hfr).
  - constructor; [by left|]. eapply Forall_impl; [exact HR|]. intros f Hf. by right.
Qed.

Lemma frame_parses R h stmt x ws :
  well_counted R (objs h) → hashes_ok (objs h) → heap_fresh h →
  objs h !! stmt = Some x → stmt_text h stmt x ws →
  parses (N.succ (next h) :: next h :: R) [next h; N.succ (next h)] (N.succ (next h)) stmt ws (with_frame h).
Proof.
  intros Hwc Hok Hfr Hx Hs. pose proof (frame_collecting R h Hwc Hok Hfr) as Hr.
  pose proof (Hfr _ (ex_intro _ _ Hx)) as Hlt.
  assert (objs (with_frame h) !! stmt = Some x) as Hx'
    by (simpl; by rewrite !lookup_insert_ne by lia).
  unfold stmt_text in Hs. destruct (f_list (o_flags x)) eqn:Hl.
  - destruct Hs as [[L1 L2 L3 L4] HF]. exists (with_frame h), (o_l x).
    split_and!; [|done|by apply (ext_step _ _ _ _ Hr)|].
    + unfold b6b_as_list. by rewrite (bind_eq _ _ _ _ _ (read_obj_eq _ _ _ Hx')), Hl.
    + split; [by do 2 constructor|lia| |].
      * exists x. split; [|done]. split; [done..|]. intros it Hit. pose proof (L4 it Hit). simpl. lia.
      * eapply Forall2_impl; [exact HF|]. intros it w Hw. split; [|apply (frame_text [next h] h _ _ Hfr), fresh_text; done].
        pose proof (Hfr _ (text_live _ _ _ Hw)). lia.
  - destruct Hs as [Hstr Et]. eapply parse_step; [done|by do 2 constructor| |lia|done..].
    intros d [->|[->|[]%elem_of_nil]%elem_of_cons]%elem_of_cons; simpl; lia.
Qed.

(** *** The whole call *)

(** What a statement needs: the running thread [t] and its frames, the heap and
    the references [R] of the program, and the text [ws] of the statement. *)
Record callable (R : list loc) (t : b6b_thread) (kvss : list (list (bytes * loc)))
    (stmt : loc) (ws : list bytes) (s : st) : Prop := {
  ca_thread : find_thread (fg (s_in s)) (threads (s_in s)) = Some t;
  ca_depth : t_depth t < B6B_MAX_NESTING;
  ca_exit : exit_ (s_in s) = 0;
  ca_trace : opt_trace (opts (s_in s)) = false;
  ca_counted : well_counted (t_ret t :: R) (objs (s_heap s));
  ca_hashes : hashes_ok (objs (s_heap s));
  ca_fresh : heap_fresh (s_heap s);
  ca_stmt : stmt ∈ R;
  ca_null : null (s_in s) ∈ R;
  ca_locals : Forall (λ f, fr_locals f ∈ R) (chain t s);
  ca_frames : frames_hold (s_heap s) (chain t s) kvss;
  ca_text : ∃ x, objs (s_heap s) !! stmt = Some x ∧ stmt_text (s_heap s) stmt x ws;
  ca_words : Forall (simple_word kvss) ws;
  ca_some : ws ≠ []
}.

(** The result of the procedure is handled after the frame is popped. *)
Definition pop_after (m : IM b6b_res) : IM b6b_res :=
  res ← (res ← m; lift b6b_frame_pop;; mret res); b6b_on_res res.

Lemma stmt_call_ok `{Env} n R t kvss stmt ws s :
  callable R t kvss stmt ws s → (length ws ≤ n)%nat →
  let h := s_heap s in
  let f := next_frame h in
  ∃ h' p vs, b6b_stmt_call (S n) stmt s
      = pop_after (call_proc n (b6b_stmt_call n) (o_proc p) (fr_args f))
          (returned h' (null (s_in s)) (framed f s)) ∧
    collecting (null (s_in s) :: fr_args f :: fr_locals f :: R) (fr_args f) h' ∧
    called [fr_locals f; fr_args f] ([] :: kvss) (fr_args f) ws h' p ∧
    stays (fr_args f) vs (with_frame h) h'.
Proof.
  intros [Ht Hd Hex Htr Hwc Hok Hfr Hst Hnull HR HF (x & Hx & Hs) Hsw Hws] Hn h f.
  fold h in Hwc, Hok, Hfr, HF, Hx, Hs.
  assert (∀ o, occ o (fr_args f :: fr_locals f :: t_ret t :: R)
    = occ o (t_ret t :: fr_args f :: fr_locals f :: R)) as Hperm by (intros o; simpl; lia).
  pose proof (collecting_perm _ _ _ _ Hperm (frame_collecting _ h Hwc Hok Hfr)) as Hr.
  destruct (stmt_body_ok n (b6b_stmt_call n) (fr_args f :: fr_locals f :: R) [fr_locals f; fr_args f]
    (fr_args f) stmt new_list
    ([] :: kvss) ws (with_curr (f :: t_curr t) (u32 (t_depth t + 1)) t)
    (at_heap (with_frame h) (framed f s))) as (h' & p & E & W & C & vs & S).
  - cbn [at_heap framed s_in with_threads fg threads]. rewrite find_thread_map by done.
    by rewrite decide_True, Ht by done.
  - exact Hr.
  - by left.
  - by do 2 right.
  - by do 2 right.
  - exact Htr.
  - destruct (frame_chain R h (chain t s) kvss Hfr HF HR) as [HB HL]. split; [exact HB|].
    eapply Forall_impl; [exact HL|]. intros g Hg. by right.
  - destruct (frame_parses _ h stmt x ws Hwc Hok Hfr Hx Hs) as (h1 & its & E1 & R1 & S1 & W1).
    exists h1, its. split_and!; [done|by eapply collecting_perm|done..].
  - apply lookup_insert_eq.
  - done.
  - exact Hsw.
  - done.
  - done.
  - exists h', p, vs. split_and!; [|exact W|exact C|exact S].
    cbn [b6b_stmt_call]. unfold stmt_call_with.
    rewrite (lift_eq _ _ s s s) by done. rewrite Hex. cbn [Z.eqb negb].
    rewrite (lift_eq _ _ _ _ _ (push_eq t s Ht Hd)).
    cbn beta iota. apply im_bind_eq, im_bind_eq. exact E.
Qed.

(** ** Properties *)

(** C4: a statement of plain words and variables calls the procedure the first
    word stands for: the statement is parsed, if it was not yet, a frame of its
    own is pushed, the list of the arguments in it holds for [$name] the
    innermost binding of the name and for another word an object with its text,
    in order, the return value is the null object, all counts are right and no
    object reads differently; the result of the call is handled after the frame
    is popped. *)
Theorem stmt_call_words `{Env} n R t kvss stmt ws s :
  callable R t kvss stmt ws s → (length ws ≤ n)%nat →
  let h := s_heap s in
  let f := next_frame h in
  ∃ h' p, b6b_stmt_call (S n) stmt s
      = pop_after (call_proc n (b6b_stmt_call n) (o_proc p) (fr_args f))
          (returned h' (null (s_in s)) (framed f s)) ∧
    well_counted (null (s_in s) :: fr_args f :: fr_locals f :: R) (objs h') ∧
    called [] kvss (fr_args f) ws h' p ∧
    (∀ o y', (o < next h)%N → objs h' !! o = Some y' →
       ∃ y, objs h !! o = Some y ∧ reads_same y y').
Proof.
  intros Hc Hn h f. destruct (stmt_call_ok n R t kvss stmt ws s Hc Hn) as (h' & p & us & E & W & C & S).
  exists h', p. split_and!; [exact E|apply W| |].
  - destruct C as (x & v & vs & Hx & Hl & Ev & Hp & HF). exists x, v, vs.
    split_and!; [done..|]. eapply Forall2_impl; [exact HF|]. intros w u Hu.
    exact (value_full _ ([] :: kvss) _ w u Hu).
  - intros o y' Ho Hy. unfold f, h in *. destruct (st_obj _ _ _ _ S o y') as (y & Hy0 & Hsame);
      [simpl; lia|simpl; lia|done|].
    exists y. split; [|done]. simpl in Hy0. by rewrite !lookup_insert_ne in Hy0 by lia.
Qed.

(** *** Witness *)

(** A thread with one frame, with x bound in it and say in the global one; the
    statement 8 is not parsed yet. *)
Definition words_state : st :=
  let hp := mkHeap
    {[ 0%N := with_l [mkItem 10 4; mkItem 11 5] new_list;
       1%N := with_l [mkItem 12 6; mkItem 13 7] new_list;
       2%N := with_refc 2 new_list;
       3%N := with_refc 2 (new_str []);
       4%N := new_str (lit "x");
       5%N := new_int 7;
       6%N := new_str (lit "say");
       7%N := with_proc P_echo (new_str (lit "say"));
       8%N := new_str (lit "$say hello $x") ]} 20 no_os in
  let t := mkThread 0 [mkFrame 0 2] None 3 1 false true false false in
  mkSt hp (mkInterp [t] 0 (mkFrame 1 2) 3 3 3 3 3 3 0 0 0
    (mkOpts false false false false) []) 1 [].

Lemma words_state_callable :
  callable [0; 1; 2; 2; 3; 8]%N (mkThread 0 [mkFrame 0 2] None 3 1 false true false false)
    [[(lit "x", 5%N)]; [(lit "say", 7%N)]] 8%N [lit "$say"; lit "hello"; lit "$x"] words_state.
Proof.
  split.
  - reflexivity.
  - reflexivity.
  - reflexivity.
  - reflexivity.
  - apply wc_check_sound. vm_compute. reflexivity.
  - apply hashes_check_sound. vm_compute. reflexivity.
  - intros o [y Hy]. simpl in Hy |- *.
    do 8 (apply lookup_insert_Some in Hy as [[<- _]|[_ Hy]]; [lia|]).
    apply lookup_singleton_Some in Hy as [<- _]. lia.
  - set_solver.
  - set_solver.
  - repeat constructor; set_solver.
  - repeat constructor; (eexists; split; [vm_compute; reflexivity|]; split; [reflexivity|]);
      (split_and!; [by exists 1%nat|done|done]).
  - eexists. split; [vm_compute; reflexivity|split; reflexivity].
  - repeat constructor; vm_compute; eauto; discriminate.
  - done.
Qed.

Lemma stmt_call_words_witness :
  ∃ h' p, b6b_stmt_call (H := sample_env) 4 8%N words_state
      = pop_after (call_proc (H := sample_env) 3 (b6b_stmt_call (H := sample_env) 3) (o_proc p) 21%N)
          (returned h' 3%N (framed (mkFrame 20 21) words_state)) ∧
    o_proc p = P_echo ∧
    ∃ x a, objs h' !! 21%N = Some x ∧ li_o <$> o_l x = [7%N; a; 5%N] ∧
      text_of (objs h') a (lit "hello").
Proof.
  destruct (stmt_call_words (H := sample_env) 3 _ _ _ _ _ _ words_state_callable (le_n 3))
    as (h' & p & E & W & (x & v & vs & Hx & _ & Hl & Hp & HF) & K).
  exists h', p. split; [exact E|].
  inversion HF as [|w1 v1 ws1 vs1 V1 HF1]; subst.
  inversion HF1 as [|w2 v2 ws2 vs2 V2 HF2]; subst.
  inversion HF2 as [|w3 v3 ws3 vs3 V3 HF3]; subst. inversion HF3; subst.
  injection V1 as <-. injection V3 as <-.
  split; [|exists x, v2; by split_and!].
  destruct (K 7%N p) as (y & Hy & [_ _ -> _ _]); [vm_compute; reflexivity|done|].
  vm_compute in Hy. by injection Hy as <-.
Defined.
