(* ===== verification/Calls.v ===== *)
(** * Calling a procedure of the program

    The composition of a statement (Words.v), the frame of a procedure
    ([b6b_frame_set_args]) and its body: what the code of a procedure finds when
    a statement of words calls it. *)
From Stdlib Require Import ZArith Lia Init.Byte Strings.Byte Strings.String.
From stdpp Require Import base option list numbers gmap.
From S2P Require Import Prelude Sys Float64 Hash Parse Heap Repr ListObj Types AsList Dict Offload.
From S2P Require Import Interp Switch Eval Frames Words.
#[local] Open Scope Z_scope.

(** ** Fresh names in a dictionary *)

Lemma search_absent R d k s kvs h :
  collecting R d h → dict_at h d kvs → text_of (delete d (objs h)) k s → assoc s kvs = None →
  ∃ h1 h2 x1 x2, b6b_obj_hash k h = Done (true, h1) ∧ objs h1 !! d = Some x1 ∧
    dict_set_find k (o_l x1) h1 = Done (Absent, h2) ∧ o_l x2 = o_l x1 ∧ list_at h2 d x2 ∧
    pairs_of (delete d (objs h2)) (o_l x2) kvs ∧ text_of (delete d (objs h2)) k s ∧
    collecting R d h2 ∧ stays d [] h h2 ∧ ∀ o, is_Some (objs h !! o) → is_Some (objs h2 !! o).
Proof.
  intros Hr Hd Hk Hs. pose proof (co_hashes _ _ _ Hr) as Hok.
  destruct (obj_hash_total k s h Hok (text_of_delete _ _ _ _ Hk)) as (h1 & E1 & X1 & N1 & T1).
  pose proof (dict_at_ext _ _ _ _ X1 N1 Hd) as (x1 & L1 & P1).
  destruct (dict_find_ok k s (o_l x1) kvs h1) as (h2 & E2 & X2 & N2);
    [by eapply ext_hashes_ok|by eapply pairs_of_delete|done|].
  assert (find_result (o_l x1) kvs s = Absent) as Ef.
  { pose proof (find_result_assoc (o_l x1) kvs s _ P1) as Hf. rewrite Hs in Hf.
    by destruct (find_result (o_l x1) kvs s). }
  rewrite Ef in E2. assert (ext (objs h) (objs h2)) as X by (by etrans).
  destruct (list_at_ext h1 h2 d x1 X2 N2 L1) as (x2 & L2 & I2).
  destruct (ext_step _ _ _ h2 Hr X ltac:(congruence)) as [R2 S2].
  exists h1, h2, x1, x2. split_and!; [done|apply L1| |done|done| | |done|done|].
  - by rewrite (dict_set_find_eq _ k _ _ h1 P1).
  - rewrite I2. eapply pairs_of_impl; [|exact P1]. intros it t _ [m Hm]. exists m.
    exact (ext_sval_delete _ _ _ _ _ _ X2 Hm).
  - destruct Hk as [m Hm]. exists m. exact (ext_sval_delete _ _ _ _ _ _ X Hm).
  - intros o [y Hy]. destruct (ext_lookup _ _ _ _ X Hy) as (z & Hz & _). by eexists.
Qed.

(** [b6b_dict_set] of a name that is not there adds the pair. *)
Lemma dict_add_step R d k s v kvs h :
  collecting R d h → dict_at h d kvs → text_of (delete d (objs h)) k s → assoc s kvs = None →
  is_Some (objs h !! v) →
  ∃ h', b6b_dict_set d k v h = Done (true, h') ∧ collecting R d h' ∧ stays d [k; v] h h' ∧
    dict_at h' d (kvs ++ [(s, v)]) ∧ ∀ o, is_Some (objs h !! o) → is_Some (objs h' !! o).
Proof.
  intros Hr Hd Hk Hs Hv.
  destruct (search_absent R d k s kvs h Hr Hd Hk Hs)
    as (h1 & h2 & x1 & x2 & E1 & Hx1 & E2 & I2 & L2 & P2 & K2 & R2 & S2 & G2).
  destruct (add_pair_ok R d x2 k v s kvs h2) as (h3 & h4 & E3 & E4 & _ & _ & D4 & _);
    [apply R2|apply R2|done|done|done|by apply G2|].
  destruct (add_step R d k h2 R2) as (h3' & E3' & R3 & S3 & G3); [by apply G2, (text_live _ k s), (text_of_delete _ d)|].
  assert (h3' = h3) as -> by congruence.
  destruct (add_step R d v h3 R3) as (h4' & E4' & R4 & S4 & G4); [by apply G3, G2|].
  assert (h4' = h4) as -> by congruence.
  exists h4. split_and!; [|done| |done|by intros o Ho; apply G4, G3, G2].
  - unfold b6b_dict_set. rewrite (bind_eq _ _ _ _ _ E1). cbn [negb].
    rewrite (bind_eq _ _ _ _ _ (read_obj_eq _ _ _ Hx1)), (bind_eq _ _ _ _ _ E2).
    rewrite (bind_eq _ _ _ _ _ E3). cbn [negb]. by rewrite (bind_eq _ _ _ _ _ E4).
  - apply (stays_trans _ [] [k; v] _ _ _ (co_fresh _ _ _ Hr) S2).
    exact (stays_trans _ [k] [v] _ _ _ (co_fresh _ _ _ R2) S3 S4).
Qed.

(** *** The arguments *)

(** The bindings of the arguments [os], numbered from [i] on. *)
Fixpoint numbered (i : Z) (os : list loc) : list (bytes * loc) :=
  match os with
  | [] => []
  | o :: os' => (fmt_int i, o) :: numbered (i + 1) os'
  end.

Lemma assoc_app s kvs1 kvs2 :
  assoc s (kvs1 ++ kvs2) = match assoc s kvs1 with Some v => Some v | None => assoc s kvs2 end.
Proof. induction kvs1 as [|[k v] kvs1 IH]; simpl; [done|]. by case_decide. Qed.

Lemma assoc_numbered os : ∀ i k o,
  os !! k = Some o → assoc (fmt_int (i + Z.of_nat k)) (numbered i os) = Some o.
Proof.
  induction os as [|p os IH]; intros i k o Hk; [done|]. destruct k as [|k]; simpl in *.
  - injection Hk as ->. by rewrite Z.add_0_r, decide_True.
  - rewrite decide_False by (intros Hi%fmt_int_inj; lia).
    replace (i + Z.of_nat (S k)) with (i + 1 + Z.of_nat k) by lia. by apply IH.
Qed.

Lemma assoc_numbered_other s os : ∀ i,
  (∀ j, s ≠ fmt_int j) → assoc s (numbered i os) = None.
Proof.
  induction os as [|o os IH]; intros i Hs; simpl; [done|].
  rewrite decide_False by (intros E; by destruct (Hs i)). by apply IH.
Qed.

Lemma bind_arg_step R d i v kvs h :
  collecting R d h → dict_at h d kvs → assoc (fmt_int i) kvs = None → is_Some (objs h !! v) →
  ∃ h1 h2 h3 us, b6b_int_new i h = Done (next h, h1) ∧
    b6b_dict_set d (next h) v h1 = Done (true, h2) ∧ b6b_unref (next h) h2 = Done (tt, h3) ∧
    collecting R d h3 ∧ stays d us h h3 ∧ dict_at h3 d (kvs ++ [(fmt_int i, v)]).
Proof.
  intros Hr Hd Hi Hv. destruct (alloc_step R d (new_int i) h Hr) as [R1 S1]; [done..|].
  pose proof (fresh_none h (co_fresh _ _ _ Hr)) as Hnew.
  assert (d ≠ next h) as Hne by (destruct Hd as (x & [Hx _ _ _] & _); congruence).
  set (h1 := mkHeap (<[next h := new_int i]> (objs h)) (N.succ (next h)) (h_os h)) in *.
  destruct (dict_add_step _ d (next h) (fmt_int i) v kvs h1 R1) as (h2 & E2 & R2 & S2 & D2 & _).
  - by apply dict_at_fresh.
  - exists 1%nat. rewrite sval_S. simpl. by rewrite lookup_delete_ne, lookup_insert_eq.
  - done.
  - destruct Hv as [y Hy]. exists y. simpl. by rewrite lookup_insert_ne by congruence.
  - destruct (unref_total R (next h) h2 (co_counted _ _ _ R2)) as (h3 & E3 & W3 & N3 & K3).
    destruct (shrink_step _ R d h2 h3 R2 (co_root _ _ _ Hr) W3 K3 N3) as [R3 S3].
    exists h1, h2, h3, ([] ++ ([next h; v] ++ [])). split_and!; [apply int_new_eq|done|done|done| |].
    + apply (stays_trans _ _ _ _ _ _ (co_fresh _ _ _ Hr) S1).
      exact (stays_trans _ _ _ _ _ _ (co_fresh _ _ _ R1) S2 S3).
    + by eapply dict_at_shrinks; [exact W3|apply Hr|..].
Qed.

(** An object the program refers to, after a step. *)
Lemma root_kept R Q d us h h' o :
  collecting Q d h → collecting R d h' → stays d us h h' → o ∈ R → o ≠ d → is_Some (objs h !! o) →
  ∃ x x', objs h !! o = Some x ∧ objs h' !! o = Some x' ∧ reads_same x x'.
Proof.
  intros [_ _ Hfr _ _] [Hwc _ _ _ _] Hs HR Hne Ho.
  destruct (well_counted_root _ _ _ Hwc HR) as (x' & Hx' & _).
  destruct (st_obj _ _ _ _ Hs o x' Hne (Hfr o Ho) Hx') as (x & Hx & Hsame). by exists x, x'.
Qed.

Lemma list_root_kept R Q d us h h' o x :
  collecting Q d h → collecting R d h' → stays d us h h' → o ∈ R → o ≠ d →
  objs h !! o = Some x → f_list (o_flags x) = true →
  ∃ x', objs h' !! o = Some x' ∧ f_list (o_flags x') = true ∧ o_l x' = o_l x.
Proof.
  intros Hq Hr Hs HR Hne Hx Hl.
  destruct (root_kept R Q d us h h' o Hq Hr Hs HR Hne) as (y & x' & Hy & Hx' & [Rl _ _ _ _]);
    [by eexists|].
  assert (y = x) as -> by congruence. exists x'. by destruct (Rl Hl).
Qed.

Lemma list_item_live R m o x it :
  well_counted R m → m !! o = Some x → f_list (o_flags x) = true → it ∈ o_l x →
  is_Some (m !! li_o it).
Proof.
  intros Hwc Hx Hl Hit. apply (well_counted_closed R m o x); [done..|].
  rewrite refs_of_list by done. apply elem_of_app. left. by apply list_elem_of_fmap_2.
Qed.

Lemma bind_args_ok R d args : ∀ items i kvs h x,
  collecting R d h → dict_at h d kvs → args ∈ R → args ≠ d →
  objs h !! args = Some x → f_list (o_flags x) = true → (∀ it, it ∈ items → it ∈ o_l x) →
  (∀ j, i ≤ j → assoc (fmt_int j) kvs = None) →
  ∃ h' us, set_args_loop d items i h = Done (true, h') ∧ collecting R d h' ∧ stays d us h h' ∧
    dict_at h' d (kvs ++ numbered i (li_o <$> items)).
Proof.
  induction items as [|it items IH]; intros i kvs h x Hr Hd HR Hne Hx Hl Hin Hi.
  { exists h, []. rewrite app_nil_r. split_and!; [done|done| |done]. by apply (ext_step _ _ _ _ Hr). }
  destruct (bind_arg_step R d i (li_o it) kvs h Hr Hd (Hi i ltac:(lia)))
    as (h1 & h2 & h3 & us & E1 & E2 & E3 & R3 & S3 & D3).
  { eapply list_item_live; [apply Hr|exact Hx|done|]. apply Hin. by left. }
  destruct (list_root_kept R R d us h h3 args x Hr R3 S3 HR Hne Hx Hl) as (x3 & Hx3 & Hl3 & El3).
  destruct (IH (i + 1) _ h3 x3 R3 D3 HR Hne Hx3 Hl3) as (h' & vs & E & R' & S' & D').
  - intros it' Hit'. rewrite El3. apply Hin. by right.
  - intros j Hj. rewrite assoc_app, Hi by lia. simpl.
    by rewrite decide_False by (intros Hij%fmt_int_inj; lia).
  - exists h', (us ++ vs). split_and!; [|done| |].
    + cbn [set_args_loop]. rewrite (bind_eq _ _ _ _ _ E1), (bind_eq _ _ _ _ _ E2). cbn [negb].
      by rewrite (bind_eq _ _ _ _ _ E3).
    + exact (stays_trans _ _ _ _ _ _ (co_fresh _ _ _ Hr) S3 S').
    + by rewrite <- app_assoc in D'.
Qed.

(** ** The frame of a procedure *)

Lemma new_frame_args R f args x sa s :
  let h := s_heap s in
  let d := fr_locals f in
  collecting R d h → dict_at h d [] → args ∈ R → args ≠ d →
  objs h !! args = Some x → f_list (o_flags x) = true →
  text_of (delete d (objs h)) (at_ (s_in s)) sa → (∀ i, sa ≠ fmt_int i) →
  ∃ h' us, b6b_frame_set_args f args s = Done (true, at_heap h' s) ∧ collecting R d h' ∧
    stays d us h h' ∧ dict_at h' d ((sa, args) :: numbered 0 (li_o <$> o_l x)).
Proof.
  intros h d Hr Hd HR Hne Hx Hl Ha Hai.
  destruct (dict_add_step R d (at_ (s_in s)) sa args [] h Hr Hd Ha) as (h1 & E1 & R1 & S1 & D1 & _);
    [done|by eexists|].
  destruct (list_root_kept R R d _ h h1 args x Hr R1 S1 HR Hne Hx Hl) as (x1 & Hx1 & Hl1 & El1).
  destruct (bind_args_ok R d args (o_l x1) 0 _ h1 x1 R1 D1 HR Hne Hx1 Hl1) as (h2 & us & E2 & R2 & S2 & D2).
  { done. }
  { intros j _. simpl. rewrite decide_False; [done|]. intros E. by destruct (Hai j). }
  exists h2, ([at_ (s_in s); args] ++ us). split_and!; [|done| |].
  - unfold b6b_frame_set_args. rewrite (bind_eq _ _ s true s).
    2: { unfold on_heap, zoom, b6b_as_list.
         rewrite (bind_eq _ _ _ _ _ (read_obj_eq args x (s_heap s) Hx)), Hl. by destruct s. }
    cbn [negb]. rewrite (bind_eq _ _ s s s) by done.
    rewrite (bind_eq _ _ _ _ _ (on_heap_eq _ _ _ _ E1)). cbn [negb].
    rewrite (bind_eq _ _ _ _ _ (on_heap_eq (read_obj args) x1 h1 (at_heap h1 s) (read_obj_eq args x1 h1 Hx1))).
    exact (on_heap_eq _ _ _ (at_heap h1 s) E2).
  - exact (stays_trans _ _ _ _ _ _ (co_fresh _ _ _ Hr) S1 S2).
  - rewrite El1 in D2. exact D2.
Qed.

Lemma curr_frame_eq t f fs s :
  find_thread (fg (s_in s)) (threads (s_in s)) = Some t → t_curr t = f :: fs →
  curr_frame s = Done (f, s).
Proof.
  intros Ht Hf. unfold curr_frame. rewrite (bind_eq _ _ _ _ _ (fg_thread_eq _ _ Ht)).
  rewrite (bind_eq _ _ s s s) by done. by rewrite Hf.
Qed.

Lemma local_eq t f fs k v h' s :
  find_thread (fg (s_in s)) (threads (s_in s)) = Some t → t_curr t = f :: fs →
  b6b_dict_set (fr_locals f) k v (s_heap s) = Done (true, h') →
  b6b_local k v s = Done (true, at_heap h' s).
Proof.
  intros Ht Hf E. unfold b6b_local. rewrite (bind_eq _ _ _ _ _ (curr_frame_eq t f fs s Ht Hf)).
  by apply on_heap_eq.
Qed.

(** The bindings a procedure starts with. *)
Definition proc_locals (sa sd : bytes) (args : loc) (os : list loc) (priv : loc)
    : list (bytes * loc) :=
  ((sa, args) :: numbered 0 os) ++ [(sd, priv)].

Section proc.
Context `{Env}.
Variable n : nat.
Variable b6b_stmt_call : loc → IM b6b_res.

(** The body of a procedure. *)
Definition proc_body (body : loc) : IM b6b_res :=
  res ← b6b_call n b6b_stmt_call body;
  mret (if decide (res = B6B_RET) then B6B_OK else res).

(** The procedure object the first argument is. *)
Record defined_proc (h : heap) (args d body priv : loc) (x : b6b_obj) : Prop := {
  dp_args : objs h !! args = Some x;
  dp_list : f_list (o_flags x) = true;
  dp_first : ∃ it its p, o_l x = it :: its ∧ li_o it ≠ d ∧ objs h !! li_o it = Some p ∧
    o_priv p = V_proc body priv ∧ o_del p = D_proc
}.

Lemma proc_priv_live R h h' us d args body priv x :
  collecting R d h → collecting R d h' → stays d us h h' → args ∈ R → args ≠ d →
  defined_proc h args d body priv x → is_Some (objs h' !! priv).
Proof.
  intros Hr Hr' Hs HR Hne [Hx Hl (it & its & p & El & Hid & Hp & Hpr & Hdel)].
  destruct (list_root_kept R R d us h h' args x Hr Hr' Hs HR Hne Hx Hl) as (x' & Hx' & Hl' & El').
  destruct (list_item_live R _ args x' it (co_counted _ _ _ Hr') Hx' Hl') as [p' Hp'].
  { rewrite El', El. by left. }
  destruct (st_obj _ _ _ _ Hs (li_o it) p' Hid) as (y & Hy & [_ _ _ Rd Rp]); [|done|].
  { apply (co_fresh _ _ _ Hr). by eexists. }
  assert (y = p) as -> by congruence. rewrite Hdel in Rd. rewrite Hpr in Rp.
  apply (well_counted_closed R _ _ p' _ (co_counted _ _ _ Hr') Hp').
  unfold refs_of, priv_refs. rewrite Rd, Rp. set_solver.
Qed.

Lemma proc_proc_ok R t f fs args body priv x sa sd s :
  let h := s_heap s in
  let d := fr_locals f in
  find_thread (fg (s_in s)) (threads (s_in s)) = Some t → t_curr t = f :: fs →
  collecting R d h → dict_at h d [] → args ∈ R → args ≠ d → defined_proc h args d body priv x →
  text_of (delete d (objs h)) (at_ (s_in s)) sa → (∀ i, sa ≠ fmt_int i) →
  text_of (delete d (objs h)) (dot (s_in s)) sd → (∀ i, sd ≠ fmt_int i) → sa ≠ sd →
  dot (s_in s) ∈ R →
  ∃ h' us, b6b_proc_proc n b6b_stmt_call args s = proc_body body (at_heap h' s) ∧
    collecting R d h' ∧ stays d us h h' ∧
    dict_at h' d (proc_locals sa sd args (li_o <$> o_l x) priv).
Proof.
  intros h d Ht Hf Hr Hd HR Hne Hp Hsa Hsai Hsd Hsdi Hsad Hdot.
  pose proof Hp as [Hx Hl (it & its & p & El & Hid & Hpo & Hpr & Hdel)].
  destruct (new_frame_args R f args x sa s Hr Hd HR Hne Hx Hl Hsa Hsai)
    as (h1 & us & E1 & R1 & S1 & D1).
  destruct (well_counted_root _ _ _ (co_counted _ _ _ R1) Hdot) as (z & Hz & _).
  destruct (dict_add_step R d (dot (s_in s)) sd priv _ h1 R1 D1) as (h2 & E2 & R2 & S2 & D2 & _).
  { eapply (st_text _ _ _ _ S1 [d]); [by left|by eexists|exact Hsd]. }
  { simpl. rewrite decide_False by done. by apply assoc_numbered_other. }
  { exact (proc_priv_live R h h1 us d args body priv x Hr R1 S1 HR Hne Hp). }
  exists h2, (us ++ [dot (s_in s); priv]). split_and!; [|done| |exact D2].
  - unfold b6b_proc_proc.
    rewrite (hp_eq _ _ _ _ s (head_first _ x (s_heap s) Hx)), at_heap_id, El. cbn [head fmap option_fmap option_map].
    rewrite (lift_eq _ _ (li_id it) s s) by done.
    assert (find_item (li_id it) (o_l x) = Some (it, its)) as Hfi
      by (rewrite El; simpl; by rewrite decide_True).
    rewrite (hp_eq _ _ _ _ s (item_obj_eq _ _ _ _ _ (s_heap s) Hx Hfi)), at_heap_id.
    rewrite (hp_eq _ _ _ _ s (read_obj_eq _ _ (s_heap s) Hpo)), at_heap_id, Hpr.
    rewrite (lift_eq _ _ _ _ _ (curr_frame_eq t f fs s Ht Hf)).
    rewrite (lift_eq _ _ _ _ _ E1). cbn [negb].
    rewrite (lift_eq _ _ (at_heap h1 s) (at_heap h1 s) (at_heap h1 s)) by done.
    by rewrite (lift_eq _ _ _ _ _ (local_eq t f fs _ priv h2 (at_heap h1 s) Ht Hf E2)).
  - exact (stays_trans _ _ _ _ _ _ (co_fresh _ _ _ Hr) S1 S2).
Qed.
End proc.

Lemma pop_after_eq m m' s s' : m s = m' s' → pop_after m s = pop_after m' s'.
Proof. intros E. unfold pop_after. by apply im_bind_eq, im_bind_eq. Qed.

(** ** From the statement to the body *)

(** A text that depends on none of two objects does not depend on the first. *)
Lemma text_one l a m o s : text_of (live [l; a] m) o s → text_of (delete l m) o s.
Proof.
  intros [k Hk]. exists k. simpl in Hk. rewrite delete_delete in Hk. by eapply sval_delete.
Qed.

Lemma text_at_call h h' us o s :
  let f := next_frame h in
  heap_fresh h → stays (fr_args f) us (with_frame h) h' → is_Some (objs h' !! o) →
  text_of (objs h) o s → text_of (live [fr_locals f; fr_args f] (objs h')) o s.
Proof.
  intros f Hfr Hs Ho Ht. eapply st_text; [exact Hs|by do 2 constructor|done|].
  by apply (frame_text [next h] h _ _ Hfr), fresh_text.
Qed.

(** The locals of the new frame are still empty when the procedure is called. *)
Lemma empty_locals R h h' us :
  let f := next_frame h in
  collecting R (fr_args f) h' → fr_locals f ∈ R → stays (fr_args f) us (with_frame h) h' →
  collecting R (fr_locals f) h' ∧ dict_at h' (fr_locals f) [].
Proof.
  intros f [Hwc Hok Hfr _ _] HR Hs. destruct (well_counted_root _ _ _ Hwc HR) as (x & Hx & _).
  destruct (st_obj _ _ _ _ Hs (fr_locals f) x) as (y & Hy & [Rl _ _ _ _]); [simpl; lia|simpl; lia|done|].
  assert (y = new_list) as ->.
  { simpl in Hy. rewrite lookup_insert_ne, lookup_insert_eq in Hy by lia. congruence. }
  destruct (Rl eq_refl) as [Hl El].
  assert (list_at h' (fr_locals f) x) as Hx'.
  { split; [done|done|by rewrite El; constructor|]. rewrite El. by intros it Hit%elem_of_nil. }
  split; [by split; [..|exists x]|]. exists x. by rewrite El.
Qed.

(** The objects of the values stay when the locals are filled. *)
Lemma values_at_body R Q D a d us kvss ws vs h h' x :
  collecting Q d h → collecting R d h' → stays d us h h' → d ∈ D → a ∈ R → a ≠ d →
  objs h !! a = Some x → f_list (o_flags x) = true → li_o <$> o_l x = vs →
  Forall2 (word_value kvss (live D (objs h))) ws vs →
  ∃ x', objs h' !! a = Some x' ∧ li_o <$> o_l x' = vs ∧
    Forall2 (word_value kvss (objs h')) ws vs.
Proof.
  intros Hq Hr Hs HdD HR Hne Hx Hl Ev HF.
  destruct (list_root_kept R Q d us h h' a x Hq Hr Hs HR Hne Hx Hl) as (x' & Hx' & Hl' & El').
  exists x'. split_and!; [done|by rewrite El'|].
  assert (∀ v, v ∈ vs → is_Some (objs h' !! v)) as Hlive.
  { intros v Hv. rewrite <- Ev in Hv. apply list_elem_of_fmap in Hv as (it & -> & Hit).
    eapply list_item_live; [apply Hr|exact Hx'|done|by rewrite El']. }
  pose proof (values_kept D d us kvss h h' ws vs HdD Hs Hlive HF) as HF'.
  eapply Forall2_impl; [exact HF'|]. intros w v. apply value_full.
Qed.

(** A name that is bound to a procedure of the program. *)
Record proc_named (kvss : list (list (bytes * loc))) (h : heap) (name : bytes)
    (v body priv : loc) : Prop := {
  pn_bound : lookup_chain name kvss = Some v;
  pn_obj : ∃ q, objs h !! v = Some q ∧ o_proc q = P_proc_body ∧ o_del q = D_proc ∧
    o_priv q = V_proc body priv
}.

(** The names of the arguments and of the private data are no numbers. *)
Record arg_names (R : list loc) (sa sd : bytes) (s : st) : Prop := {
  an_roots : at_ (s_in s) ∈ R ∧ dot (s_in s) ∈ R;
  an_at : text_of (objs (s_heap s)) (at_ (s_in s)) sa;
  an_dot : text_of (objs (s_heap s)) (dot (s_in s)) sd;
  an_at_int : ∀ i, sa ≠ fmt_int i;
  an_dot_int : ∀ i, sd ≠ fmt_int i;
  an_differ : sa ≠ sd
}.

Lemma called_proc_ok `{Env} n R t kvss stmt name ws v body priv sa sd s :
  callable R t kvss stmt (("$"%byte :: name) :: ws) s → (S (length ws) ≤ n)%nat →
  proc_named kvss (s_heap s) name v body priv → arg_names R sa sd s →
  let h := s_heap s in
  let f := next_frame h in
  ∃ h' x vs, b6b_stmt_call (S n) stmt s
      = pop_after (proc_body n (b6b_stmt_call n) body) (returned h' (null (s_in s)) (framed f s)) ∧
    collecting (null (s_in s) :: fr_args f :: fr_locals f :: R) (fr_locals f) h' ∧
    objs h' !! fr_args f = Some x ∧ li_o <$> o_l x = v :: vs ∧
    Forall2 (word_value kvss (objs h')) ws vs ∧
    dict_at h' (fr_locals f) (proc_locals sa sd (fr_args f) (v :: vs) priv).
Proof.
  intros Hc Hn [Hv (q & Hq & Hqp & Hqd & Hqr)] [[Hat Hdot] Ha Hd Hai Hdi Had] h f.
  pose proof (ca_fresh _ _ _ _ _ _ Hc) as Hfr. fold h in Hfr, Hq, Ha, Hd.
  destruct (stmt_call_ok n R t kvss stmt _ s Hc Hn) as (h1 & p & us & E & W & C & S).
  fold h f in E, W, C, S. destruct C as (x & v' & vs & Hx & Hxl & Ev & Hp & HF).
  pose proof HF as [Hv' _]%Forall2_cons.
  assert (v' = v) as -> by (cbn in Hv'; congruence).
  assert (v < next h)%N as Hvn by (apply Hfr; by eexists).
  destruct (st_obj _ _ _ _ S v p) as (y & Hy & [_ _ Rp Rd Rr]); [simpl; lia|simpl; lia|done|].
  assert (y = q) as -> by (simpl in Hy; rewrite !lookup_insert_ne in Hy by lia; congruence).
  destruct (empty_locals _ h h1 us W ltac:(set_solver) S) as [W1 D1]. fold f in W1, D1.
  set (s1 := returned h1 (null (s_in s)) (framed f s)) in *.
  assert (∀ o, o ∈ R → is_Some (objs h1 !! o)) as Hroots.
  { intros o Ho. destruct (well_counted_root _ _ o (co_counted _ _ _ W)) as (z & Hz & _);
      [set_solver|by eexists]. }
  destruct (proc_proc_ok n (b6b_stmt_call n) (null (s_in s) :: fr_args f :: fr_locals f :: R)
    (with_ret (null (s_in s)) (with_curr (f :: t_curr t) (u32 (t_depth t + 1)) t)) f (t_curr t)
    (fr_args f) body priv x sa sd s1) as (h2 & us2 & E2 & W2 & S2 & D2).
  - apply returned_thread. cbn [framed s_in with_threads fg threads].
    rewrite find_thread_map by done. by rewrite decide_True, (ca_thread _ _ _ _ _ _ Hc) by done.
  - done.
  - exact W1.
  - exact D1.
  - set_solver.
  - simpl. lia.
  - split; [done|done|]. destruct (o_l x) as [|it its] eqn:El; [done|]. injection Ev as Ei Evs.
    exists it, its, p. rewrite Ei. split_and!; [done|simpl; lia|done|congruence..].
  - apply (text_one _ (fr_args f)). exact (text_at_call h h1 us _ _ Hfr S (Hroots _ Hat) Ha).
  - done.
  - apply (text_one _ (fr_args f)). exact (text_at_call h h1 us _ _ Hfr S (Hroots _ Hdot) Hd).
  - done.
  - done.
  - set_solver.
  - destruct (values_at_body _ _ [fr_locals f; fr_args f] (fr_args f) (fr_locals f) us2 ([] :: kvss) _ _
      h1 h2 x W1 W2 S2 ltac:(by left) ltac:(set_solver) ltac:(simpl; lia) Hx Hxl Ev HF) as (x2 & Hx2 & Ev2 & HF2).
    apply Forall2_cons in HF2 as [_ HF2]. rewrite Ev in D2.
    exists h2, x2, vs. split_and!; [|exact W2|exact Hx2|exact Ev2|exact HF2|exact D2].
    rewrite E. apply pop_after_eq. rewrite Rp, Hqp. exact E2.
Qed.

(** ** Properties *)

(** C3: when a statement of words calls a procedure of the program, its body
    runs in a frame of its own with the return value null; the list of the
    arguments there holds the procedure and the values of the words, in order;
    the locals bind the name @ to that list, the number of every argument to its
    value and the name . to the private data of the procedure, and all counts are
    right. After the body the frame is popped, and [return] has become an
    ordinary end. *)
Theorem proc_call_words `{Env} n R t kvss stmt name ws v body priv sa sd s :
  callable R t kvss stmt (("$"%byte :: name) :: ws) s → (S (length ws) ≤ n)%nat →
  proc_named kvss (s_heap s) name v body priv → arg_names R sa sd s →
  let f := next_frame (s_heap s) in
  ∃ h' x vs kvs, b6b_stmt_call (S n) stmt s
      = pop_after (proc_body n (b6b_stmt_call n) body) (returned h' (null (s_in s)) (framed f s)) ∧
    well_counted (null (s_in s) :: fr_args f :: fr_locals f :: R) (objs h') ∧
    objs h' !! fr_args f = Some x ∧ li_o <$> o_l x = v :: vs ∧
    Forall2 (word_value kvss (objs h')) ws vs ∧ dict_at h' (fr_locals f) kvs ∧
    assoc sa kvs = Some (fr_args f) ∧ assoc sd kvs = Some priv ∧
    ∀ k o, (v :: vs) !! k = Some o → assoc (fmt_int (Z.of_nat k)) kvs = Some o.
Proof.
  intros Hc Hn Hp Ha f.
  destruct (called_proc_ok n R t kvss stmt name ws v body priv sa sd s Hc Hn Hp Ha)
    as (h' & x & vs & E & W & Hx & Ev & HF & HD).
  destruct Ha as [_ _ _ Hai Hdi Had].
  exists h', x, vs, (proc_locals sa sd (fr_args f) (v :: vs) priv).
  split_and!; [exact E|apply W|exact Hx|exact Ev|exact HF|exact HD| | |].
  - unfold proc_locals. rewrite assoc_app. cbn [assoc]. by rewrite decide_True.
  - unfold proc_locals. rewrite assoc_app. cbn [assoc]. rewrite decide_False by done.
    rewrite assoc_numbered_other by done. by rewrite decide_True.
  - intros k o Hk. unfold proc_locals. rewrite assoc_app. cbn [assoc].
    rewrite decide_False by done. pose proof (assoc_numbered _ 0 k o Hk) as E'.
    rewrite Z.add_0_l in E'. by rewrite E'.
Qed.

(** *** Witness *)

(** As [words_state], with say a procedure of the program. *)
Definition proc_state : st :=
  let hp := mkHeap
    {[ 0%N := with_l [mkItem 30 4; mkItem 31 5] new_list;
       1%N := with_l [mkItem 32 6; mkItem 33 7] new_list;
       2%N := with_refc 2 new_list;
       3%N := with_refc 3 (new_str []);
       4%N := new_str (lit "x");
       5%N := new_int 7;
       6%N := new_str (lit "say");
       7%N := with_proc P_proc_body (with_del D_proc (V_proc 11 3) (new_str (lit "say")));
       8%N := new_str (lit "$say hello $x");
       9%N := new_str (lit "@");
       10%N := new_str (lit ".");
       11%N := new_str (lit "{$return $1}") ]} 40 no_os in
  let t := mkThread 0 [mkFrame 0 2] None 3 1 false true false false in
  mkSt hp (mkInterp [t] 0 (mkFrame 1 2) 3 3 3 10 9 3 0 0 0
    (mkOpts false false false false) []) 1 [].

Lemma proc_state_callable :
  callable [0; 1; 2; 2; 3; 8; 9; 10]%N (mkThread 0 [mkFrame 0 2] None 3 1 false true false false)
    [[(lit "x", 5%N)]; [(lit "say", 7%N)]] 8%N [lit "$say"; lit "hello"; lit "$x"] proc_state.
Proof.
  split.
  - reflexivity.
  - reflexivity.
  - reflexivity.
  - reflexivity.
  - apply wc_check_sound. vm_compute. reflexivity.
  - apply hashes_check_sound. vm_compute. reflexivity.
  - intros o [y Hy]. simpl in Hy |- *.
    do 11 (apply lookup_insert_Some in Hy as [[<- _]|[_ Hy]]; [lia|]).
    apply lookup_singleton_Some in Hy as [<- _]. lia.
  - set_solver.
  - set_solver.
  - repeat constructor; set_solver.
  - repeat constructor; (eexists; split; [vm_compute; reflexivity|]; split; [reflexivity|]);
      (split_and!; [by exists 1%nat|done|done]).
  - eexists. split; [vm_compute; reflexivity|split; reflexivity].
  - repeat constructor; vm_compute; eauto; discriminate.
  - done.
Qed.

(** A single character that is no digit is the text of no integer. *)
Lemma char_no_int c : (∀ d, 0 ≤ d < 10 → c ≠ digit d) → c ≠ "-"%byte → ∀ i, [c] ≠ fmt_int i.
Proof.
  intros Hd Hm i E. unfold fmt_int in E. destruct (i <? 0); [by injection E|].
  destruct (dec_head i) as (d & s & Hd' & Ed & _). rewrite Ed in E. injection E as E _.
  by destruct (Hd d).
Qed.

Lemma proc_call_words_witness :
  ∃ h' x a kvs, b6b_stmt_call (H := sample_env) 4 8%N proc_state
      = pop_after (proc_body 3 (b6b_stmt_call (H := sample_env) 3) 11%N)
          (returned h' 3%N (framed (mkFrame 40 41) proc_state)) ∧
    objs h' !! 41%N = Some x ∧ li_o <$> o_l x = [7%N; a; 5%N] ∧
    text_of (objs h') a (lit "hello") ∧ dict_at h' 40%N kvs ∧
    assoc (lit "@") kvs = Some 41%N ∧ assoc (lit ".") kvs = Some 3%N ∧
    assoc (lit "1") kvs = Some a ∧ assoc (lit "2") kvs = Some 5%N.
Proof.
  destruct (proc_call_words (H := sample_env) 3 _ _ _ _ (lit "say") [lit "hello"; lit "$x"] 7%N 11%N 3%N
    (lit "@") (lit ".") proc_state proc_state_callable (le_n 3))
    as (h' & x & vs & kvs & E & W & Hx & Hl & HF & HD & H1 & H2 & H3).
  - split; [reflexivity|]. eexists. split; [vm_compute; reflexivity|by split_and!].
  - split; [split; set_solver|by exists 1%nat|by exists 1%nat|..|done].
    + apply char_no_int; [|done]. intros d Hd. by digit_cases d.
    + apply char_no_int; [|done]. intros d Hd. by digit_cases d.
  - inversion HF as [|w1 v1 ws1 vs1 V1 HF1]; subst.
    inversion HF1 as [|w2 v2 ws2 vs2 V2 HF2]; subst. inversion HF2; subst. injection V2 as <-.
    exists h', x, v1, kvs. split_and!; [exact E|exact Hx|exact Hl|exact V1|exact HD|exact H1|exact H2| |].
    + exact (H3 1%nat v1 eq_refl).
    + exact (H3 2%nat 5%N eq_refl).
Defined.
