(* ===== verification/Sources.v ===== *)
(** * Streams on descriptors, as sources

    The streams of the program that read from a descriptor keep the promises of
    the class [Source] of Strm.v: those of src/b6b_sh.c, src/b6b_sem.c,
    src/b6b_timer.c, src/b6b_signal.c and src/b6b_socket.c. What they have
    handed over is read off the log of the system calls. *)
From Stdlib Require Import ZArith Lia Init.Byte Strings.Byte Strings.String.
From stdpp Require Import base option list numbers gmap.
From S2P Require Import Prelude Sys Float64 Heap Repr ListObj Interp Strm FdOps.
From S2P Require Import Switch Sockets Streams Types Ledger Frames Words.
#[local] Open Scope Z_scope.

(** ** What a log says *)

(** Calls that read a descriptor. *)
Definition reads (c : call) : bool :=
  match c with C_read _ _ | C_recv _ _ | C_recvfrom _ _ => true | _ => false end.

(** From [o] to [o'] no call was answered, and what was logged reads nothing. *)
Definition only_notes (o o' : os) : Prop :=
  os_next o' = os_next o ∧
  ∃ l, os_log o' = l ++ os_log o ∧ Forall (λ ca, reads (fst ca) = false) l.

#[export] Instance only_notes_preorder : PreOrder only_notes.
Proof.
  split.
  - intros o. split; [done|]. by exists [].
  - intros o1 o2 o3 [N1 (l1 & L1 & F1)] [N2 (l2 & L2 & F2)]. split; [congruence|].
    exists (l2 ++ l1). rewrite L2, L1, app_assoc. split; [done|]. by apply Forall_app.
Qed.

Definition notes (m : loc → HM unit) : Prop :=
  ∀ o h h', m o h = Done (tt, h') → only_notes (h_os h) (h_os h').

Lemma miter_notes f l h h' : notes f → miter f l h = Done (tt, h') → only_notes (h_os h) (h_os h').
Proof.
  intros Hf. revert h. induction l as [|o l IH]; intros h Hr; simpl in *; [by injection Hr as <-|].
  apply bind_Done in Hr as ([] & h1 & H1%Hf & H2%IH). by etrans.
Qed.

Lemma del_calls_read_nothing x : Forall (λ c, reads c = false) (del_calls x).
Proof. unfold del_calls, close_calls. repeat case_match; repeat constructor. Qed.

Lemma note_only_notes cs h :
  Forall (λ c, reads c = false) cs → only_notes (h_os h) (os_note cs (h_os h)).
Proof.
  intros Hcs. split; [done|]. eexists. split; [reflexivity|].
  apply Forall_reverse, Forall_fmap. eapply Forall_impl; [exact Hcs|]. done.
Qed.

(** [b6b_unref] asks nothing of the system. *)
Lemma unref_notes : notes b6b_unref.
Proof.
  assert (∀ n, notes (b6b_unref_fuel n)) as Hn; [|intros o h; apply Hn].
  induction n as [|n IH]; intros o h h' Hr; [done|]. simpl in Hr.
  apply bind_Done in Hr as (x & h1 & [-> Hx]%read_obj_inv & Hr). destruct (o_refc x <=? 0); [done|].
  apply bind_Done in Hr as ([] & h1 & (y & Hy & [= ->])%update_obj_inv & Hr).
  destruct (_ =? 0); [|by injection Hr as <-].
  apply destroy_is_drop in Hr as (z & h1 & Hz & _ & H1 & H2).
  unfold free_obj in H2. destruct (objs h1 !! o); [|done]. injection H2 as <-.
  unfold drop_all in H1. apply bind_Done in H1 as ([] & h2 & H2 & H1).
  apply bind_Done in H1 as ([] & h3 & [= <-] & H1).
  apply (miter_notes _ _ _ _ IH) in H1, H2. simpl in *.
  etrans; [exact H2|]. etrans; [|exact H1]. apply note_only_notes, del_calls_read_nothing.
Qed.

(** The bytes that [f] sees in the log, in the order of the calls. *)
Definition logged (f : call → ans → bytes) (s : st) : bytes :=
  concat (reverse ((λ ca, f (fst ca) (snd ca)) <$> os_log (h_os (s_heap s)))).

(** [f] sees something only in calls that read. *)
Definition sees_reads (f : call → ans → bytes) : Prop := ∀ c a, reads c = false → f c a = [].

Lemma logged_notes f s s' :
  sees_reads f → only_notes (h_os (s_heap s)) (h_os (s_heap s')) → logged f s' = logged f s.
Proof.
  intros Hf [_ (l & L & Hl)]. unfold logged. rewrite L. clear L.
  rewrite fmap_app, reverse_app, concat_app.
  enough (concat (reverse ((λ ca, f (fst ca) (snd ca)) <$> l)) = []) as -> by apply app_nil_r.
  induction Hl as [|[c a] l Hc Hl IH]; [done|].
  rewrite fmap_cons, reverse_cons, concat_app, IH. simpl in *. by rewrite Hf.
Qed.

Lemma logged_call f c a s s' :
  asked_os c a s s' → logged f s' = logged f s ++ f c a.
Proof.
  intros Ha. unfold logged, asked_os in *. rewrite Ha. cbn [os_log].
  rewrite fmap_cons, reverse_cons, concat_app. simpl. by rewrite app_nil_r.
Qed.

(** What the streams hand over: the bytes that a call stored, the number that a
    semaphore or a timer stored, the number of a signal. *)
Definition raw_bytes (fd : Z) (c : call) (a : ans) : bytes :=
  match c with
  | C_read fd' size | C_recv fd' size | C_recvfrom fd' size =>
      if decide (fd' = fd ∧ 0 ≤ a_ret a) then take (Z.to_nat size) (a_out a) else []
  | _ => []
  end.
Definition number_text (w : nat) (pick : bytes → bytes) (fd : Z) (c : call) (a : ans) : bytes :=
  match c with
  | C_read fd' size =>
      let u := take w (a_out a) in
      if decide (fd' = fd ∧ size = Z.of_nat w ∧ 0 ≤ a_ret a ∧ length u = w)
      then dec (le_value (pick u)) else []
  | _ => []
  end.
Definition counter_text : Z → call → ans → bytes := number_text 8 id.
Definition signal_text : Z → call → ans → bytes := number_text sizeof_siginfo (take 4).

Lemma raw_sees_reads fd : sees_reads (raw_bytes fd).
Proof. by intros []. Qed.
Lemma number_sees_reads w pick fd : sees_reads (number_text w pick fd).
Proof. by intros []. Qed.

(** ** The state while a stream is read *)

(** The system has [k] answers left, where an answer of [FIONREAD] that does not
    fail has a size; the program holds the return value of the running thread
    and [R]. *)
Record reading (R : list loc) (k : nat) (s : st) : Prop := {
  rd_answers : (k ≤ length (os_next (h_os (s_heap s))))%nat;
  rd_sizes : Forall (λ a, 0 ≤ a_ret a → a_nums a ≠ []) (os_next (h_os (s_heap s)));
  rd_fresh : heap_fresh (s_heap s);
  rd_counted : ∃ t, find_thread (fg (s_in s)) (threads (s_in s)) = Some t ∧
    well_counted (t_ret t :: R) (objs (s_heap s))
}.

(** A bound of what the answers can hand over: a number has twenty digits at
    most. *)
Definition bytes_left (s : st) : nat :=
  foldr (λ a k, 20 + length (a_out a) + k)%nat O (os_next (h_os (s_heap s))).

(** The objects the program holds are as they were, but for their counts. *)
Definition held_same (R : list loc) (s s' : st) : Prop :=
  ∀ o x, o ∈ R → objs (s_heap s) !! o = Some x →
    ∃ r, objs (s_heap s') !! o = Some (with_refc r x).

Section sources.
Context `{Env}.

Lemma reading_less R k s : reading R (S k) s → reading R k s.
Proof. intros [A1 A2 A3 A4]. split; [lia|done..]. Qed.

(** One call. *)
Lemma call_ok R k c s :
  reading R (S k) s →
  ∃ a s', on_heap (sys_call c) s = Done (a, s') ∧ asked_os c a s s' ∧ reading R k s' ∧
    objs (s_heap s') = objs (s_heap s) ∧ (0 ≤ a_ret a → a_nums a ≠ []) ∧
    (bytes_left s' + (20 + length (a_out a)) = bytes_left s)%nat.
Proof.
  intros [A1 A2 A3 A4]. destruct (os_next (h_os (s_heap s))) as [|a rest] eqn:En; [simpl in A1; lia|].
  apply Forall_cons in A2 as [Ha A2]. eexists a, _.
  split; [exact (sys_call_eq c a rest s En)|]. split_and!.
  - unfold asked_os. cbn [s_heap h_os]. by rewrite En.
  - split; [simpl in *; lia|done|exact A3|exact A4].
  - done.
  - exact Ha.
  - unfold bytes_left. cbn [s_heap h_os os_next]. rewrite En. cbn [foldr]. lia.
Qed.

(** [b6b_return_strerror] succeeds. *)
Lemma strerror_ok R k e s :
  reading R k s →
  ∃ s', b6b_return_strerror e s = Done (B6B_ERR, s') ∧ reading R k s' ∧
    only_notes (h_os (s_heap s)) (h_os (s_heap s')) ∧ held_same R s s'.
Proof.
  intros [A1 A2 A3 (t & Ht & Hwc)].
  set (y := new_str (strerror e)). set (v := next (s_heap s)).
  pose proof (fresh_none _ A3) as Hv.
  set (h1 := mkHeap (<[v := y]> (objs (s_heap s))) (N.succ v) (h_os (s_heap s))).
  assert (well_counted (v :: t_ret t :: R) (objs h1)) as W1.
  { by apply well_counted_alloc. }
  assert (well_counted (t_ret t :: v :: R) (objs h1)) as W1'.
  { eapply well_counted_perm; [|exact W1]. intros p. simpl. lia. }
  destruct (unref_total (v :: R) (t_ret t) h1 W1') as (h2 & E2 & W2 & N2 & S2).
  pose proof (unref_notes _ _ _ E2) as Hnote. simpl in Hnote.
  exists (returned h2 v s). split_and!.
  - unfold b6b_return_strerror.
    rewrite (bind_eq _ _ _ _ _ (on_heap_eq _ _ _ _ (str_copy_eq (strerror e) (s_heap s)))).
    by rewrite (bind_eq _ _ _ _ _ (set_ret_eq v t (mkSt h1 _ _ _) h2 Ht E2)).
  - destruct Hnote as [Hn _]. unfold returned. split; cbn [s_heap s_in]; [by rewrite Hn|by rewrite Hn| |].
    + intros p [z Hz]. destruct (S2 p z Hz) as (w & Hw & _). simpl in Hw.
      rewrite N2. simpl.
      apply lookup_insert_Some in Hw as [[<- _]|[_ Hw]]; [lia|].
      pose proof (A3 p (ex_intro _ _ Hw)). unfold v. lia.
    + exists (with_ret v t). split; [|done].
      change (find_thread (fg (s_in s)) (map_thread (fg (s_in s)) (with_ret v) (threads (s_in s)))
        = Some (with_ret v t)).
      rewrite find_thread_map, Ht, decide_True by done. done.
  - exact Hnote.
  - intros o x Ho Hx. simpl.
    destruct (well_counted_root _ _ o W2 ltac:(by right)) as (z & Hz & _).
    destruct (S2 o z Hz) as (w & Hw & Ez). simpl in Hw.
    rewrite lookup_insert_ne in Hw by (unfold v; congruence).
    assert (w = x) as -> by congruence. exists (o_refc z). by rewrite <- Ez.
Qed.

(** ** Reading *)

(** What [b6b_fd_on_read] makes of the answer to a call that stores at most
    [size] bytes. *)
Definition read_out (size : Z) (a : ans) : option bytes :=
  if a_ret a <? 0 then if a_errno a =? EAGAIN then Some [] else None
  else Some (take (Z.to_nat size) (a_out a)).

(** A read made the call [c], which had the answer [a]: from [s] to [s'] this is
    all that was asked, [*eof] was not set, and the objects of [R] are there. *)
Record read_once (R : list loc) (k : nat) (c : call) (a : ans) (eof eof' : Z) (s s' : st) : Prop := {
  ro_reading : reading R k s';
  ro_logged : ∀ f, sees_reads f → logged f s' = logged f s ++ f c a;
  ro_left : (bytes_left s' + (20 + length (a_out a)) = bytes_left s)%nat;
  ro_eof : eof' ≠ 0 → eof ≠ 0
}.

Lemma on_read_ok R k r eof s :
  reading R k s →
  ∃ eof' s', b6b_fd_on_read r eof s =
      Done (match r with
            | Sys_err e => if e =? EAGAIN then Some [] else None
            | Sys_ok data => Some data
            end, eof', s') ∧
    reading R k s' ∧ only_notes (h_os (s_heap s)) (h_os (s_heap s')) ∧ held_same R s s' ∧
    (eof' ≠ 0 → eof ≠ 0).
Proof.
  intros Hs. assert (held_same R s s) as Hsame.
  { intros o x _ Hx. exists (o_refc x). rewrite Hx. by destruct x. }
  destruct r as [[|c data]|e]; cbn [b6b_fd_on_read].
  - by exists 0, s.
  - by exists eof, s.
  - destruct (e =? EAGAIN); [by exists eof, s|].
    destruct (strerror_ok R k e s Hs) as (s' & E & Hs' & Hn & Hk). exists eof, s'.
    by rewrite (bind_eq _ _ _ _ _ E).
Qed.

Lemma left_notes s s' :
  only_notes (h_os (s_heap s)) (h_os (s_heap s')) → bytes_left s' = bytes_left s.
Proof. intros [E _]. unfold bytes_left. by rewrite E. Qed.

(** The part that [b6b_fd_read] and [b6b_fd_recv] share. *)
Lemma read_call_ok R k c size eof s :
  reading R (S k) s →
  ∃ a eof' s', (r ← on_heap (sys_bytes c size); b6b_fd_on_read r eof) s =
      Done (read_out size a, eof', s') ∧ read_once R k c a eof eof' s s'.
Proof.
  intros Hs. destruct (call_ok R k c s Hs) as (a & s1 & E1 & Ha & Hs1 & _ & _ & Hl).
  destruct (on_read_ok R k (if a_ret a <? 0 then Sys_err (a_errno a)
    else Sys_ok (take (Z.to_nat size) (a_out a))) eof s1 Hs1)
    as (eof' & s' & E2 & Hs' & Hn & _ & He).
  exists a, eof', s'. split.
  - assert (on_heap (sys_bytes c size) s =
      Done (if a_ret a <? 0 then Sys_err (a_errno a)
            else Sys_ok (take (Z.to_nat size) (a_out a)), s1)) as E.
    { unfold on_heap, zoom, sys_bytes, mbind, M_bind in E1 |- *.
      destruct (sys_call c (s_heap s)) as [[b h]| |]; [|done..]. by injection E1 as -> <-. }
    rewrite (bind_eq _ _ _ _ _ E), E2. unfold read_out. by destruct (a_ret a <? 0).
  - split; [done| |rewrite (left_notes _ _ Hn); lia|done].
    intros f Hf. rewrite (logged_notes f s1 s' Hf Hn). by apply logged_call.
Qed.

Lemma fd_read_ok R k fd size eof again s :
  reading R (S k) s →
  ∃ a eof' s', b6b_fd_read fd size eof again s = Done (read_out size a, eof', again, s') ∧
    read_once R k (C_read fd size) a eof eof' s s'.
Proof.
  intros Hs. destruct (read_call_ok R k (C_read fd size) size eof s Hs) as (a & eof' & s' & E & Hr).
  exists a, eof', s'. split; [|done]. unfold b6b_fd_read.
  rewrite <- bind_assoc. by rewrite (bind_eq _ _ _ _ _ E).
Qed.

Lemma fd_recv_ok R k fd size eof again s :
  reading R (S k) s →
  ∃ a eof' s', b6b_fd_recv fd size eof again s = Done (read_out size a, eof', again, s') ∧
    read_once R k (C_recv fd size) a eof eof' s s'.
Proof.
  intros Hs. destruct (read_call_ok R k (C_recv fd size) size eof s Hs) as (a & eof' & s' & E & Hr).
  exists a, eof', s'. split; [|done]. unfold b6b_fd_recv.
  rewrite <- bind_assoc. by rewrite (bind_eq _ _ _ _ _ E).
Qed.

Lemma fd_peeksz_ok R k fd s :
  reading R (S k) s →
  ∃ est s', b6b_fd_peeksz fd s = Done (est, s') ∧ reading R k s' ∧
    (∀ f, sees_reads f → logged f s' = logged f s) ∧ (bytes_left s' ≤ bytes_left s)%nat ∧
    objs (s_heap s') = objs (s_heap s).
Proof.
  intros Hs. destruct (call_ok R k (C_fionread fd) s Hs) as (a & s1 & E1 & Ha & Hs1 & Ho & Hn & Hl).
  eexists _, s1. split.
  - unfold b6b_fd_peeksz. rewrite (bind_eq _ _ _ _ _ E1). destruct (Z.ltb_spec (a_ret a) 0).
    + instantiate (1 := if a_ret a <? 0 then -1 else default 0 (head (a_nums a))).
      by rewrite (proj2 (Z.ltb_lt _ _)).
    + rewrite (proj2 (Z.ltb_ge _ _)) by done. specialize (Hn ltac:(lia)).
      by destruct (a_nums a).
  - split_and!; [done| |lia|done]. intros f Hf. rewrite (logged_call f _ _ _ _ Ha).
    by rewrite Hf, app_nil_r.
Qed.

(** ** The tables *)

(** [o] is the stream of a socket. *)
Definition socket_at (o : loc) (s : st) : Prop :=
  ∃ x k peer addr fd c e, objs (s_heap s) !! o = Some x ∧
    o_priv x = V_strm (mkStrm k (S_socket peer addr fd) c e).

Lemma socket_same R o s s' : o ∈ R → held_same R s s' → socket_at o s → socket_at o s'.
Proof.
  intros Ho Hs (x & k & peer & addr & fd & c & e & Hx & Hp).
  destruct (Hs o x Ho Hx) as [r Hr]. by exists (with_refc r x), k, peer, addr, fd, c, e.
Qed.

(** Assigning the peer of a socket. *)
Lemma set_peer_ok R k o p s :
  reading R k s → socket_at o s →
  ∃ s', on_heap (set_peer o p) s = Done (tt, s') ∧ reading R k s' ∧ socket_at o s' ∧
    h_os (s_heap s') = h_os (s_heap s).
Proof.
  intros [A1 A2 A3 (t & Ht & Hwc)] (x & kd & peer & addr & fd & c & e & Hx & Hp).
  set (x' := with_del (o_del x) (V_strm (mkStrm kd (S_socket p addr fd) c e)) x).
  set (h' := mkHeap (<[o := x']> (objs (s_heap s))) (next (s_heap s)) (h_os (s_heap s))).
  exists (at_heap h' s). split_and!.
  - unfold on_heap, zoom, set_peer. rewrite (bind_eq _ _ _ _ _ (read_obj_eq _ _ _ Hx)), Hp.
    by rewrite (update_obj_eq _ _ _ _ Hx).
  - split; [done|done|by eapply fresh_insert|]. exists t. split; [done|].
    destruct (wc_refc _ _ Hwc o x Hx) as (_ & _ & Hd).
    apply (well_counted_give _ _ [] o x); [done|done| |done|].
    + intros q. unfold refs_of, x', priv_refs. simpl. by rewrite Hp.
    + unfold del_ok, del_fits in *. simpl. by rewrite Hp in Hd.
  - exists x', kd, p, addr, fd, c, e. split; [apply lookup_insert_eq|done].
  - done.
Qed.

Lemma readfrom_ok R k o fd size eof again s :
  o ∈ R → reading R (S k) s → socket_at o s →
  ∃ a eof' s', b6b_socket_readfrom o fd size eof again s = Done (read_out size a, eof', 0, s') ∧
    read_once R k (C_recvfrom fd size) a eof eof' s s' ∧ socket_at o s'.
Proof.
  intros Ho Hs Hp. destruct (call_ok R k (C_recvfrom fd size) s Hs) as (a & s1 & E1 & Ha & Hs1 & Eo & _ & Hl).
  assert (socket_at o s1) as Hp1.
  { unfold socket_at. by rewrite Eo. }
  assert (∃ s2, (match a_addrs a with p :: _ => on_heap (set_peer o p) | [] => mret tt end) s1
      = Done (tt, s2) ∧ reading R k s2 ∧ socket_at o s2 ∧ h_os (s_heap s2) = h_os (s_heap s1))
    as (s2 & E2 & Hs2 & Hp2 & Eh).
  { destruct (a_addrs a) as [|p l]; [by exists s1|]. by apply set_peer_ok. }
  destruct (on_read_ok R k (if a_ret a <? 0 then Sys_err (a_errno a)
    else Sys_ok (take (Z.to_nat size) (a_out a))) eof s2 Hs2)
    as (eof' & s' & E3 & Hs' & Hn & Hk & He).
  exists a, eof', s'. split_and!; [| |by eapply socket_same].
  - unfold b6b_socket_readfrom. rewrite (bind_eq _ _ _ _ _ E1), (bind_eq _ _ _ _ _ E2).
    rewrite (bind_eq _ _ _ _ _ E3). unfold read_out. by destruct (a_ret a <? 0).
  - rewrite Eh in Hn. split; [done| |rewrite (left_notes _ _ Hn); lia|done].
    intros f Hf. rewrite (logged_notes f s1 s' Hf Hn). by apply logged_call.
Qed.

(** What a read hands over is what it stored. *)
Lemma raw_out fd c size a :
  (c = C_read fd size ∨ c = C_recv fd size ∨ c = C_recvfrom fd size) → 0 < size →
  (length (raw_bytes fd c a) ≤ length (a_out a))%nat ∧
  ∀ data, read_out size a = Some data →
    raw_bytes fd c a = data ∧ Z.of_nat (length data) ≤ size.
Proof.
  intros Hc Hsz.
  assert (raw_bytes fd c a = if a_ret a <? 0 then [] else take (Z.to_nat size) (a_out a)) as ->.
  { destruct Hc as [-> | [-> | ->]]; simpl; (case_decide as Hd;
      destruct (Z.ltb_spec (a_ret a) 0); [lia|done|done|exfalso; apply Hd; split; [done|lia]]). }
  unfold read_out. destruct (a_ret a <? 0).
  - split; [simpl; lia|]. destruct (_ =? _); [|done]. intros data [= <-].
    split; [done|simpl; lia].
  - rewrite length_take. split; [lia|]. intros data [= <-].
    split; [done|]. rewrite length_take. lia.
Qed.

(** A number of at most eight bytes has at most twenty digits. *)
Lemma le_value_range s : 0 ≤ le_value s < 256 ^ Z.of_nat (length s).
Proof.
  induction s as [|c s IH]; [by simpl|]. cbn [le_value length]. pose proof (uchar_range c).
  rewrite Nat2Z.inj_succ, Z.pow_succ_r by lia. lia.
Qed.

Lemma dec_le_length s : (length s ≤ 8)%nat → (length (dec (le_value s)) ≤ 20)%nat.
Proof.
  intros Hs. pose proof (le_value_range s) as Hr. unfold dec. rewrite digits_length.
  apply ndigits_bound; [|lia]. split; [lia|]. eapply Z.lt_trans; [apply Hr|].
  eapply Z.le_lt_trans; [apply (Z.pow_le_mono_r 256 _ 8); lia|done].
Qed.

(** What the operations of a table have to do; [P] is what else the state has to
    be, and stays. *)
Definition asks_size (R : list loc) (f : call → ans → bytes) (P : st → Prop) (m : M st Z) : Prop :=
  ∀ k s, reading R (S k) s → P s → ∃ est s', m s = Done (est, s') ∧ reading R k s' ∧ P s' ∧
    logged f s' = logged f s ∧ (bytes_left s' ≤ bytes_left s)%nat.
Definition reads_logged (R : list loc) (f : call → ans → bytes) (P : st → Prop)
    (rd : Z → Z → Z → M st (option bytes * Z * Z)) : Prop :=
  ∀ k size eof again s, 0 < size → reading R (S k) s → P s →
  ∃ c a out eof' again' s', rd size eof again s = Done (out, eof', again', s') ∧
    read_once R k c a eof eof' s s' ∧ P s' ∧ (length (f c a) ≤ 20 + length (a_out a))%nat ∧
    ∀ data, out = Some data → f c a = data ∧ Z.of_nat (length data) ≤ size.

Lemma logged_source ops R f P rd :
  sees_reads f → from_option (asks_size R f P) True (op_peeksz ops) →
  op_read ops = Some rd → reads_logged R f P rd →
  Source ops (logged f) (λ _, False) bytes_left (λ k s, reading R k s ∧ P s).
Proof.
  intros Hf Hpk Hrd Hr. split.
  - intros k s [Hs Hp]. split; [by apply reading_less|done].
  - intros m k s Em [Hs Hp]. rewrite Em in Hpk.
    destruct (Hpk k s Hs Hp) as (est & s' & E & Hs' & Hp' & Hg & Hl). by exists est, s'.
  - exists rd. split; [done|]. intros k size eof again s Hsz [Hs Hp].
    destruct (Hr k size eof again s Hsz Hs Hp)
      as (c & a & out & eof' & again' & s' & E & [R1 R2 R3 R4] & Hp' & Hl & Hout).
    exists out, eof', again', (f c a), s'. split_and!; [done|by apply R2|lia|done|done|].
    intros data Hd. destruct (Hout data Hd) as [-> Hle]. split_and!; [done|done|].
    intros He. left. by apply R4.
Qed.

Lemma asks_size_fd R f fd : sees_reads f → asks_size R f (λ _, True) (b6b_fd_peeksz fd).
Proof.
  intros Hf k s Hs _. destruct (fd_peeksz_ok R k fd s Hs) as (est & s' & E & Hs' & Hg & Hl & _).
  exists est, s'. split_and!; auto.
Qed.

Lemma asks_size_socket R f o fd : sees_reads f → asks_size R f (socket_at o) (b6b_fd_peeksz fd).
Proof.
  intros Hf k s Hs Hp. destruct (fd_peeksz_ok R k fd s Hs) as (est & s' & E & Hs' & Hg & Hl & Ho).
  exists est, s'. split_and!; auto. unfold socket_at. by rewrite Ho.
Qed.

Lemma asks_size_const R f z : asks_size R f (λ _, True) (mret z).
Proof.
  intros k s Hs _. exists z, s. split_and!; [done|by apply reading_less|done|done|lia].
Qed.

Lemma reads_fd R fd : reads_logged R (raw_bytes fd) (λ _, True) (b6b_fd_read fd).
Proof.
  intros k size eof again s Hsz Hs _.
  destruct (fd_read_ok R k fd size eof again s Hs) as (a & eof' & s' & E & Hr).
  destruct (raw_out fd (C_read fd size) size a) as [Hl Hd]; [by left|done|].
  eexists _, a, _, eof', again, s'. split_and!; [exact E|exact Hr|done|lia|exact Hd].
Qed.

Lemma reads_socket R fd : reads_logged R (raw_bytes fd) (λ _, True) (b6b_fd_recv fd).
Proof.
  intros k size eof again s Hsz Hs _.
  destruct (fd_recv_ok R k fd size eof again s Hs) as (a & eof' & s' & E & Hr).
  destruct (raw_out fd (C_recv fd size) size a) as [Hl Hd]; [by right; left|done|].
  eexists _, a, _, eof', again, s'. split_and!; [exact E|exact Hr|done|lia|exact Hd].
Qed.

Lemma reads_dgram R o fd :
  o ∈ R → reads_logged R (raw_bytes fd) (socket_at o) (b6b_socket_readfrom o fd).
Proof.
  intros Ho k size eof again s Hsz Hs Hp.
  destruct (readfrom_ok R k o fd size eof again s Ho Hs Hp) as (a & eof' & s' & E & Hr & Hp').
  destruct (raw_out fd (C_recvfrom fd size) size a) as [Hl Hd]; [by right; right|done|].
  eexists _, a, _, eof', 0, s'. split_and!; [exact E|exact Hr|exact Hp'|lia|exact Hd].
Qed.

(** [b6b_fd_read_u64] and [b6b_signal_read] are the same but for the size of
    what they read and where the number is in it. *)
Lemma reads_number R fd (w : nat) pick :
  w ≠ O → (∀ u : bytes, length u = w → (length (pick u) ≤ 8)%nat) →
  reads_logged R (number_text w pick fd) (λ _, True) (λ size eof again,
    '(out, eof, again) ← b6b_fd_read fd (Z.of_nat w) eof again;
    match out with
    | None => mret (None, eof, again)
    | Some [] => mret (Some [], eof, again)
    | Some u =>
        if negb (bool_decide (length u = w)) then mret (None, eof, again)
        else
          let s := dec (le_value (pick u)) in
          if size <=? Z.of_nat (length s) then mret (None, eof, again)
          else mret (Some s, eof, 0)
    end).
Proof.
  intros Hw Hpick k size eof again s Hsz Hs _.
  destruct (fd_read_ok R k fd (Z.of_nat w) eof again s Hs) as (a & eof' & s' & E & Hr).
  assert (length (number_text w pick fd (C_read fd (Z.of_nat w)) a) ≤ 20)%nat as Hl.
  { simpl. case_decide as Hd; [|simpl; lia]. apply dec_le_length, Hpick, Hd. }
  rewrite (bind_eq _ _ _ _ _ E). unfold read_out. rewrite Nat2Z.id.
  destruct (Z.ltb_spec (a_ret a) 0) as [Hneg|Hpos].
  { assert (number_text w pick fd (C_read fd (Z.of_nat w)) a = []) as En
      by (apply decide_False; intros (_ & _ & Hge & _); lia).
    destruct (a_errno a =? EAGAIN); (eexists _, a, _, eof', again, s';
      split_and!; [reflexivity|exact Hr|done|lia|]); intros data [= <-].
    split; [exact En|simpl; lia]. }
  destruct (take w (a_out a)) as [|c u] eqn:Eu.
  { eexists _, a, _, eof', again, s'. split_and!; [reflexivity|exact Hr|done|lia|].
    intros data [= <-]. split; [|simpl; lia]. apply decide_False. rewrite Eu.
    intros (_ & _ & _ & E0). by apply Hw. }
  destruct (bool_decide (length (c :: u) = w)) eqn:El; cbn [negb].
  2: { by eexists _, a, _, eof', again, s'; split_and!; [reflexivity|exact Hr|done|lia|]. }
  apply bool_decide_eq_true in El.
  destruct (Z.leb_spec size (Z.of_nat (length (dec (le_value (pick (c :: u))))))).
  { by eexists _, a, _, eof', again, s'; split_and!; [reflexivity|exact Hr|done|lia|]. }
  eexists _, a, _, eof', 0, s'. split_and!; [reflexivity|exact Hr|done|lia|].
  intros data [= <-]. split; [|lia]. cbn [number_text]. rewrite Eu. by apply decide_True.
Qed.

Lemma reads_counter R fd : reads_logged R (counter_text fd) (λ _, True) (b6b_fd_read_u64 fd).
Proof. apply (reads_number R fd 8 id); [done|simpl; lia]. Qed.
Lemma reads_signal R fd : reads_logged R (signal_text fd) (λ _, True) (b6b_signal_read fd).
Proof. apply (reads_number R fd sizeof_siginfo (take 4)); [done|].
  intros u _. rewrite length_take. lia. Qed.

(** The tables with an operation [read], for a stream [o] on the descriptor [fd]:
    what they hand over, and what [o] has to be. *)
Inductive reads_descriptor (o : loc) (fd : Z)
    : b6b_strm_ops (M st) → (call → ans → bytes) → (st → Prop) → Prop :=
| rd_sh_out pid : reads_descriptor o fd (b6b_sh_out_ops pid fd) (raw_bytes fd) (λ _, True)
| rd_sem : reads_descriptor o fd (b6b_sem_ops fd) (counter_text fd) (λ _, True)
| rd_timer : reads_descriptor o fd (b6b_timer_ops fd) (counter_text fd) (λ _, True)
| rd_signal set : reads_descriptor o fd (b6b_signal_ops fd set) (signal_text fd) (λ _, True)
| rd_tcp_client peer :
    reads_descriptor o fd (b6b_tcp_client_ops peer fd) (raw_bytes fd) (λ _, True)
| rd_un_stream_client peer :
    reads_descriptor o fd (b6b_un_stream_client_ops peer fd) (raw_bytes fd) (λ _, True)
| rd_udp_client peer :
    reads_descriptor o fd (b6b_udp_client_ops o peer fd) (raw_bytes fd) (socket_at o)
| rd_un_dgram_client peer :
    reads_descriptor o fd (b6b_un_dgram_client_ops o peer fd) (raw_bytes fd) (socket_at o)
| rd_udp_server peer :
    reads_descriptor o fd (b6b_udp_server_ops o peer fd) (raw_bytes fd) (socket_at o)
| rd_un_dgram_server peer addr :
    reads_descriptor o fd (b6b_un_dgram_server_ops o peer addr fd) (raw_bytes fd) (socket_at o).

Lemma table_source R o fd ops f P :
  o ∈ R → reads_descriptor o fd ops f P →
  Source ops (logged f) (λ _, False) bytes_left (λ k s, reading R k s ∧ P s).
Proof.
  intros Ho [pid| | |set|peer|peer|peer|peer|peer|peer addr];
    (eapply logged_source; [first [apply raw_sees_reads|apply number_sees_reads]| |reflexivity|]);
    first [apply asks_size_fd, raw_sees_reads|apply asks_size_socket, raw_sees_reads
      |apply asks_size_const|apply reads_fd|apply reads_counter|apply reads_signal
      |apply reads_socket|by apply reads_dgram].
Qed.

(** ** In the monad of the program *)

Lemma lift_then {A B} (m : M st A) (f : A → M st B) (g : A → IM B) s :
  (∀ a s', lift (f a) s' = g a s') → lift (m ≫= f) s = (lift m ≫= g) s.
Proof.
  intros Hf. unfold lift, mbind, M_bind, IM_bind.
  destruct (m s) as [[a s']| |]; [|done..]. apply Hf.
Qed.

Lemma peeksz_lift ops s : b6b_strm_peeksz (lift_ops ops) s = lift (b6b_strm_peeksz ops) s.
Proof.
  unfold b6b_strm_peeksz. destruct ops as [[m|] ? ? ? ? ? ?]; simpl; [|done].
  symmetry. by apply lift_then.
Qed.

Lemma read_loop_lift ops rd n : ∀ buf len est want eof again s,
  read_loop (lift_ops ops) (λ size eof again, lift (rd size eof again)) n buf len est want eof again s =
    lift (read_loop ops rd n buf len est want eof again) s.
Proof.
  induction n as [|n IH]; intros; [done|]. cbn [read_loop]. destruct (est =? 0); [done|].
  symmetry. apply lift_then. intros [[[data|] eof'] again'] s1; [|done].
  destruct (_ <? _); [done|]. destruct (negb _); [done|]. destruct (_ || _); [done|].
  destruct (_ =? 0); [done|].
  unfold mbind at 2, IM_bind. rewrite peeksz_lift.
  apply (lift_then (b6b_strm_peeksz ops)). intros [est'|] s2; [|done].
  destruct (est' =? 0); [done|]. symmetry. apply IH.
Qed.

(** What the program runs is what Strm.v is about. *)
Lemma strm_read_lift ops n closed eof want s :
  b6b_strm_read (lift_ops ops) n closed eof want s = lift (b6b_strm_read ops n closed eof want) s.
Proof.
  unfold b6b_strm_read. destruct eof; [done|]. destruct closed; [done|].
  destruct ops as [pk [rd|] wr pr ac fdv cl]; [|done]. cbn [lift_ops op_read fmap option_fmap option_map].
  unfold mbind at 1, IM_bind. rewrite peeksz_lift. symmetry.
  apply (lift_then (b6b_strm_peeksz (mkOps pk (Some rd) wr pr ac fdv cl))).
  intros [est|] s1; [|done]. unfold mbind at 2, IM_bind. rewrite read_loop_lift.
  apply (lift_then (read_loop (mkOps pk (Some rd) wr pr ac fdv cl) rd n [] 1 _ want 0 1)).
  intros [[[len buf] e]|] s2; [|done]. by destruct (_ <=? _).
Qed.

(** ** Properties *)

(** C36: reading a stream on a descriptor (the output of a process, a semaphore, a
    timer, a signal, a connected or datagram socket): when the system has
    enough answers, the read ends, leaves all counts right, and the stream is
    never marked as ended, since [b6b_fd_on_read] sets [*eof] to 0 when the
    system call returns 0. What it returns is what its system calls stored,
    in their order and no more than wanted; or it returns an error, and then
    what they stored is lost. *)
Theorem fd_strm_read R o fd ops f P n want s :
  reads_descriptor o fd ops f P → o ∈ R → P s → 0 < want →
  (rounds bytes_left want s ≤ n)%nat → reading R (S (2 * rounds bytes_left want s)) s →
  ∃ a data s', b6b_strm_read (lift_ops ops) n false false want s = Ret (a, false) s' ∧
    logged f s' = logged f s ++ data ∧ reading R 0 s' ∧
    (a = R_str data ∧ Z.of_nat (length data) ≤ want ∨ a = R_err).
Proof.
  intros Ht Ho Hp Hw Hn Hs. pose proof (table_source R o fd ops f P Ho Ht) as Hsrc.
  destruct (strm_read_ok ops (logged f) (λ _, False) bytes_left _ n want s Hw Hn (conj Hs Hp))
    as (a & data & eof & s' & E & Hg & [Hs' _] & Ha & He & _).
  assert (eof = false) as -> by (destruct eof; [by destruct (He eq_refl)|done]).
  exists a, data, s'. rewrite strm_read_lift. unfold lift. rewrite E.
  split_and!; [done|done|done|]. destruct Ha as [Ha|[Ha _]]; [by left|by right].
Qed.
End sources.

(** *** Witness *)

(** A process has written five bytes, of which two are wanted. *)
Lemma fd_strm_read_witness :
  let s := answers_state [mkAns 0 0 [] [5] []; mkAns 2 0 (lit "hello") [0] [];
    err_ans EAGAIN; err_ans EAGAIN; err_ans EAGAIN] in
  ∃ a data s', b6b_strm_read (lift_ops (b6b_sh_out_ops (H := sample_env) 6 3)) 2 false false 2 s
      = Ret (a, false) s' ∧
    logged (raw_bytes 3) s' = logged (raw_bytes 3) s ++ data ∧ reading [0; 1; 2; 6]%N 0 s' ∧
    (a = R_str data ∧ Z.of_nat (length data) ≤ 2 ∨ a = R_err).
Proof.
  apply (fd_strm_read (H := sample_env) [0; 1; 2; 6]%N 6%N 3
    (b6b_sh_out_ops (H := sample_env) 6 3) (raw_bytes 3) (λ _, True) 2 2
    (answers_state [mkAns 0 0 [] [5] []; mkAns 2 0 (lit "hello") [0] [];
      err_ans EAGAIN; err_ans EAGAIN; err_ans EAGAIN])).
  - constructor.
  - do 3 apply list_elem_of_further. apply list_elem_of_here.
  - done.
  - lia.
  - vm_compute. lia.
  - split.
    + vm_compute. lia.
    + apply Forall_forall. intros a Ha. simpl in Ha.
      repeat (apply elem_of_cons in Ha as [->|Ha]; [simpl; (discriminate || lia)|]).
      by apply elem_of_nil in Ha.
    + apply fresh_check_sound. vm_compute. reflexivity.
    + eexists. split; [reflexivity|]. apply wc_check_sound. vm_compute. reflexivity.
Defined.
