(* ===== verification/Balanced.v ===== *)
(** * Every procedure is balanced

    The procedures that switch threads or run code, and with them the evaluator,
    keep the discipline of Frames.v. *)
From Stdlib Require Import ZArith Lia Init.Byte Strings.Byte Strings.String.
From stdpp Require Import base option list numbers gmap.
From S2P Require Import Prelude Sys Float64 Hash Parse Heap Repr ListObj Dict Offload Interp.
From S2P Require Import StrProcs ListProcs CoreProcs.
From S2P Require Import Strm FdOps FdProcs Switch Sockets Streams SysProcs Ffi Zlib Eval.
From S2P Require Import Quiet Frames.
#[local] Open Scope Z_scope.

(** ** Streams *)

(** Tables of balanced operations. *)
Record balanced_ops (ops : b6b_strm_ops IM) : Prop := {
  bo_peeksz : from_option balanced True (op_peeksz ops);
  bo_read : from_option (λ f, ∀ size eof again, balanced (f size eof again)) True (op_read ops);
  bo_write : from_option (λ f, ∀ buf, balanced (f buf)) True (op_write ops);
  bo_peer : from_option balanced True (op_peer ops);
  bo_accept : from_option balanced True (op_accept ops);
  bo_close : from_option balanced True (op_close ops)
}.

Lemma lift_ops_balanced ops : quiet_ops ops → balanced_ops (lift_ops ops).
Proof.
  intros [Q1 Q2 Q3 Q4 Q5 Q6]. destruct ops as [p r w pe a fd c]. split; simpl in *;
    [destruct p|destruct r|destruct w|destruct pe|destruct a|destruct c];
    simpl in *; intros; try done; by apply balanced_quiet.
Qed.

Section strm.
Variable ops : b6b_strm_ops IM.
Hypothesis Hops : balanced_ops ops.

Lemma balanced_strm_peeksz : balanced (b6b_strm_peeksz ops).
Proof.
  unfold b6b_strm_peeksz. destruct (op_peeksz ops) as [f|] eqn:E; [|balanced_tac].
  pose proof (bo_peeksz _ Hops) as H. rewrite E in H. simpl in H. balanced_tac.
Qed.
#[local] Hint Resolve balanced_strm_peeksz : balanced.

Lemma balanced_ub {A} : balanced (@m_ub IM _ A).
Proof. done. Qed.
Lemma balanced_oof {A} : balanced (@m_oof IM _ A).
Proof. done. Qed.
#[local] Hint Resolve balanced_ub balanced_oof : balanced.

Lemma balanced_read_loop read n :
  (∀ size eof again, balanced (read size eof again)) →
  ∀ buf len est want eof again, balanced (read_loop ops read n buf len est want eof again).
Proof.
  intros Hr. induction n as [|n IH]; intros; cbn [read_loop]; balanced_tac.
Qed.

Lemma balanced_strm_read n closed eof want : balanced (b6b_strm_read ops n closed eof want).
Proof.
  unfold b6b_strm_read. destruct (op_read ops) as [read|] eqn:E; [|balanced_tac].
  pose proof (bo_read _ Hops) as H. rewrite E in H. simpl in H.
  pose proof (balanced_read_loop read n H). balanced_tac.
Qed.

Lemma balanced_write_loop write n :
  (∀ buf, balanced (write buf)) → ∀ buf out, balanced (write_loop write n buf out).
Proof.
  intros Hw. induction n as [|n IH]; intros; cbn [write_loop]; balanced_tac.
Qed.

Lemma balanced_strm_write closed buf : balanced (b6b_strm_write ops closed buf).
Proof.
  unfold b6b_strm_write. destruct (op_write ops) as [write|] eqn:E; [|balanced_tac].
  pose proof (bo_write _ Hops) as H. rewrite E in H. simpl in H.
  pose proof (balanced_write_loop write (length buf) H). balanced_tac.
Qed.

Lemma balanced_strm_writeln closed buf : balanced (b6b_strm_writeln ops closed buf).
Proof. apply balanced_strm_write. Qed.
End strm.

Section io.
Context `{Env}.
Variable n : nat.

Lemma balanced_stdio_seek fp off whence : balanced (stdio_seek n fp off whence).
Proof. unfold stdio_seek. balanced_tac. Qed.
#[local] Hint Resolve balanced_stdio_seek : balanced.

Lemma balanced_stdio_peeksz o : balanced (b6b_stdio_peeksz n o).
Proof. unfold b6b_stdio_peeksz. balanced_tac. Qed.
Lemma balanced_stdio_read o size eof again : balanced (b6b_stdio_read n o size eof again).
Proof. unfold b6b_stdio_read. balanced_tac. Qed.
Lemma balanced_stdio_write_loop o k fp copy total :
  balanced (stdio_write_loop n o k fp copy total).
Proof. revert total. induction k as [|k IH]; intros total; simpl; balanced_tac. Qed.
#[local] Hint Resolve balanced_stdio_write_loop : balanced.
Lemma balanced_stdio_write o buf : balanced (b6b_stdio_write n o buf).
Proof. unfold b6b_stdio_write. balanced_tac. Qed.
Lemma balanced_stdio_close o : balanced (b6b_stdio_close n o).
Proof. unfold b6b_stdio_close. balanced_tac. Qed.
#[local] Hint Resolve balanced_stdio_peeksz balanced_stdio_read balanced_stdio_write
  balanced_stdio_close : balanced.

(** What [ops_of] gives has balanced operations. *)
Lemma ops_of_balanced o s {A} (f : b6b_strm_ops IM → IM A) :
  (∀ ops, balanced_ops ops → balanced (f ops)) → balanced (ops_of n o s ≫= f).
Proof.
  intros Hf. assert (∀ ops, balanced_ops ops → balanced (mret ops ≫= f)) as Hm.
  { intros ops Hops s0 Hs. by apply Hf. }
  unfold ops_of. destruct (strm_ops s), (strm_priv s); try done; apply Hm;
    try (apply lift_ops_balanced;
      solve [apply quiet_sem_ops|apply quiet_timer_ops|apply quiet_signal_ops
        |apply quiet_sh_in_ops|apply quiet_sh_out_ops|apply quiet_socket_ops]);
    split; simpl; intros; try done; auto with balanced.
Qed.

(** As [balanced_tac], for code that starts with [ops_of]. *)
Ltac with_ops := apply ops_of_balanced; intros ops Hops.

Lemma balanced_strm_close o : balanced (b6b_strm_close n o).
Proof.
  unfold b6b_strm_close. apply balanced_bind; [balanced_tac|intros s].
  destruct (strm_closed s); [balanced_tac|]. with_ops.
  pose proof (bo_close _ Hops) as H1. destruct (op_close ops); simpl in H1; balanced_tac.
Qed.

Lemma balanced_accept_loop accept k l :
  balanced accept → balanced (accept_loop accept k l).
Proof. intros Ha. induction k as [|k IH]; simpl; balanced_tac. Qed.

Lemma balanced_strm_accept o : balanced (b6b_strm_accept n o).
Proof.
  unfold b6b_strm_accept. apply balanced_bind; [balanced_tac|intros s]. with_ops.
  pose proof (bo_accept _ Hops) as H1. destruct (strm_closed s); [balanced_tac|].
  destruct (op_accept ops) as [accept|]; simpl in H1; [|balanced_tac].
  pose proof (balanced_accept_loop accept n). balanced_tac.
Qed.

Lemma balanced_strm_peer o : balanced (b6b_strm_peer n o).
Proof.
  unfold b6b_strm_peer. apply balanced_bind; [balanced_tac|intros s]. with_ops.
  pose proof (bo_peer _ Hops) as H1. destruct (op_peer ops); simpl in H1; balanced_tac.
Qed.

Lemma balanced_strm_fd o : balanced (b6b_strm_fd n o).
Proof.
  unfold b6b_strm_fd. apply balanced_bind; [balanced_tac|intros s].
  destruct (strm_closed s); [balanced_tac|]. with_ops. balanced_tac.
Qed.

Lemma balanced_read o want : balanced (strm_read n o want).
Proof.
  unfold strm_read. apply balanced_bind; [balanced_tac|intros s]. with_ops.
  pose proof (balanced_strm_read ops Hops n). balanced_tac.
Qed.

Lemma balanced_write write o arg :
  (∀ ops closed buf, balanced_ops ops → balanced (write ops closed buf)) →
  balanced (strm_write n write o arg).
Proof.
  intros Hw. unfold strm_write. apply balanced_bind; [balanced_tac|intros ok].
  destruct (negb ok); [balanced_tac|]. apply balanced_bind; [balanced_tac|intros s]. with_ops.
  pose proof (λ closed buf, Hw ops closed buf Hops). balanced_tac.
Qed.
#[local] Hint Resolve balanced_strm_close balanced_strm_accept balanced_strm_peer
  balanced_strm_fd balanced_read : balanced.

Lemma balanced_strm_proc args : balanced (b6b_strm_proc n args).
Proof.
  pose proof (λ o arg, balanced_write b6b_strm_write o arg
    (λ ops closed buf H, balanced_strm_write ops H closed buf)).
  pose proof (λ o arg, balanced_write b6b_strm_writeln o arg
    (λ ops closed buf H, balanced_strm_writeln ops H closed buf)).
  unfold b6b_strm_proc. balanced_tac.
Qed.

(** ** Files, system calls, sockets, compression *)

Lemma balanced_open_file path mode : balanced (open_file n path mode).
Proof. unfold open_file. balanced_tac. Qed.
Lemma balanced_syscall c : balanced (b6b_syscall n c).
Proof. unfold b6b_syscall. balanced_tac. Qed.
#[local] Hint Resolve balanced_open_file balanced_syscall : balanced.

Lemma balanced_sleep_loop k sec nsec : balanced (sleep_loop n k sec nsec).
Proof. revert sec nsec. induction k as [|k IH]; intros; simpl; balanced_tac. Qed.
Lemma balanced_poll_wait p num t : balanced (poll_wait n p num t).
Proof. unfold poll_wait. balanced_tac. Qed.
Lemma balanced_resolve host service socktype :
  balanced (b6b_socket_resolve n host service socktype).
Proof. unfold b6b_socket_resolve. balanced_tac. Qed.
#[local] Hint Resolve balanced_sleep_loop balanced_poll_wait balanced_resolve : balanced.

Lemma balanced_deflate_text src level wbits max finish :
  balanced (deflate_text n src level wbits max finish).
Proof. unfold deflate_text. balanced_tac. Qed.
Lemma balanced_inflate_text src wbits dlen : balanced (inflate_text n src wbits dlen).
Proof. unfold inflate_text. balanced_tac. Qed.
#[local] Hint Resolve balanced_deflate_text balanced_inflate_text : balanced.
Lemma balanced_deflate args wbits head foot finish :
  balanced (b6b_zlib_deflate n args wbits head foot finish).
Proof. unfold b6b_zlib_deflate. balanced_tac. Qed.
Lemma balanced_inflate args wbits head foot get_size :
  balanced (b6b_zlib_inflate n args wbits head foot get_size).
Proof. unfold b6b_zlib_inflate. balanced_tac. Qed.

Lemma balanced_io_procs args :
  balanced (b6b_strm_proc n args) ∧ balanced (b6b_file_proc_open n args) ∧
  balanced (b6b_time_proc_sleep n args) ∧ balanced (b6b_poll_proc n args) ∧
  balanced (b6b_socket_proc_nslookup n args) ∧ balanced (b6b_socket_proc_inet_client n args) ∧
  balanced (b6b_socket_proc_inet_server n args) ∧
  balanced (b6b_zlib_proc_deflate n args) ∧ balanced (b6b_zlib_proc_compress n args) ∧
  balanced (b6b_zlib_proc_gzip n args) ∧ balanced (b6b_zlib_proc_inflate n args) ∧
  balanced (b6b_zlib_proc_decompress n args) ∧ balanced (b6b_zlib_proc_gunzip n args).
Proof.
  split_and!;
    [apply balanced_strm_proc| | | | | | |apply balanced_deflate|apply balanced_deflate
    |apply balanced_deflate|apply balanced_inflate|apply balanced_inflate
    |apply balanced_inflate];
    unfold b6b_file_proc_open, b6b_time_proc_sleep, b6b_poll_proc, b6b_socket_proc_nslookup,
      b6b_socket_proc_inet_client, b6b_socket_proc_inet_server; balanced_tac.
Qed.
End io.

(** ** The evaluator is balanced *)

Lemma balanced_on_res r : balanced (b6b_on_res r).
Proof. unfold b6b_on_res. balanced_tac. Qed.
#[export] Hint Resolve balanced_on_res : balanced.

Section eval.
Context `{Env}.
Variable n : nat.
Variable b6b_stmt_call : loc → IM b6b_res.
Hypothesis Hstmt : ∀ stmt, balanced (b6b_stmt_call stmt).

Abbreviation call := (b6b_call n b6b_stmt_call).

Lemma balanced_eval exp : balanced (b6b_eval b6b_stmt_call exp).
Proof. unfold b6b_eval. balanced_tac. Qed.

Lemma balanced_call_loop k stmts li : balanced (call_loop b6b_stmt_call k stmts li).
Proof.
  revert li. induction k as [|k IH]; intros [i|]; simpl; balanced_tac.
Qed.

Lemma balanced_call stmts : balanced (call stmts).
Proof. unfold b6b_call. balanced_tac. apply balanced_call_loop. Qed.
#[local] Hint Resolve balanced_eval balanced_call : balanced.

Lemma balanced_call_copy s : balanced (b6b_call_copy n b6b_stmt_call s).
Proof. unfold b6b_call_copy. balanced_tac. Qed.

Lemma balanced_source path : balanced (b6b_source n b6b_stmt_call path).
Proof. unfold b6b_source. balanced_tac. Qed.
#[local] Hint Resolve balanced_source : balanced.

Lemma balanced_map_assign k ks l kli li : balanced (map_assign k ks l kli li).
Proof.
  revert kli li. induction k as [|k IH]; intros [ki|] [i|]; simpl; balanced_tac.
Qed.
#[local] Hint Resolve balanced_map_assign : balanced.

Lemma balanced_map_loop k ks l b r li :
  balanced (map_loop n b6b_stmt_call k ks l b r li).
Proof.
  revert li. induction k as [|k IH]; intros [i|]; simpl; balanced_tac.
Qed.
#[local] Hint Resolve balanced_map_loop : balanced.

Lemma balanced_loop_loop k b : balanced (loop_loop n b6b_stmt_call k b).
Proof. induction k as [|k IH]; simpl; balanced_tac. Qed.
#[local] Hint Resolve balanced_loop_loop : balanced.

Lemma balanced_try_except argc e : balanced (try_except n b6b_stmt_call argc e).
Proof. unfold try_except. balanced_tac. Qed.
Lemma balanced_try_finally f : balanced (try_finally n b6b_stmt_call f).
Proof. unfold try_finally. balanced_tac. Qed.
#[local] Hint Resolve balanced_try_except balanced_try_finally : balanced.

Lemma balanced_try args : balanced (b6b_exc_proc_try n b6b_stmt_call args).
Proof. unfold b6b_exc_proc_try. balanced_tac. Qed.

Lemma balanced_code_procs args :
  balanced (b6b_logic_proc_if n b6b_stmt_call args) ∧
  balanced (b6b_loop_proc_map n b6b_stmt_call args) ∧
  balanced (b6b_loop_proc_loop n b6b_stmt_call args) ∧
  balanced (b6b_core_proc_call n b6b_stmt_call args) ∧
  balanced (b6b_core_proc_eval b6b_stmt_call args) ∧
  balanced (b6b_core_proc_spawn args) ∧
  balanced (b6b_core_proc_source n b6b_stmt_call args) ∧
  balanced (b6b_proc_proc n b6b_stmt_call args) ∧
  balanced (b6b_proc_proc_proc args).
Proof.
  unfold b6b_logic_proc_if, b6b_loop_proc_map, b6b_loop_proc_loop, b6b_core_proc_call,
    b6b_core_proc_eval, b6b_core_proc_spawn, b6b_core_proc_source, b6b_proc_proc,
    b6b_proc_proc_proc.
  split_and!; balanced_tac.
Qed.

Lemma balanced_call_proc p args : balanced (call_proc n b6b_stmt_call p args).
Proof.
  pose proof quiet_str_procs. pose proof quiet_list_procs. pose proof quiet_rand_procs.
  pose proof quiet_math_procs. pose proof quiet_core_procs.
  pose proof quiet_shared_procs. pose proof quiet_fd_procs. pose proof quiet_ffi_procs.
  pose proof (balanced_code_procs args). pose proof (balanced_io_procs n args). destruct_and!.
  destruct p; simpl; try done; try (by apply balanced_try);
    apply balanced_quiet; first [by auto with quiet | by apply quiet_obj_proc].
Qed.
#[local] Hint Resolve balanced_call_proc : balanced.

Lemma balanced_stmt_loop k stmt args li r :
  balanced (stmt_loop b6b_stmt_call k stmt args li r).
Proof.
  revert li r. induction k as [|k IH]; intros [i|] r; simpl; balanced_tac.
Qed.
#[local] Hint Resolve balanced_stmt_loop : balanced.

Lemma balanced_stmt_body stmt args : balanced (stmt_body n b6b_stmt_call stmt args).
Proof. unfold stmt_body. balanced_tac. Qed.

Lemma balanced_stmt_call_with stmt : balanced (stmt_call_with n b6b_stmt_call stmt).
Proof.
  unfold stmt_call_with. apply balanced_bind; [balanced_tac|intros s].
  destruct (negb _); [balanced_tac|].
  apply (balanced_framed (λ f, stmt_body n b6b_stmt_call stmt (fr_args f)));
    [intros; apply balanced_stmt_body|balanced_tac..].
Qed.
End eval.

Lemma balanced_stmt_call `{Env} n stmt : balanced (b6b_stmt_call n stmt).
Proof.
  revert stmt. induction n as [|n IH]; intros stmt; [done|].
  by apply balanced_stmt_call_with.
Qed.
