(* ===== verification/Threads.v ===== *)
(** * The scheduler

    The machine of Sched.v under the discipline of Frames.v: what holds at
    every switch of threads of every program, what [b6b_yield] picks, and that
    the routine of a thread never returns. *)
From Stdlib Require Import ZArith Lia Init.Byte Strings.Byte Strings.String.
From stdpp Require Import base option list numbers gmap.
From S2P Require Import Prelude Sys Float64 Hash Parse Heap Repr ListObj Dict Interp.
From S2P Require Import CoreProcs Switch Streams Eval Sched Quiet Frames Balanced.
#[local] Open Scope Z_scope.

(** ** Which thread is picked *)

Lemma split_at_others u ts before after t :
  split_at u ts = (before, after) → t ∈ ts → t_id t ≠ u → t ∈ after ++ before.
Proof.
  revert before. induction ts as [|x ts IH]; intros before H Ht Hu; simpl in H.
  { by apply elem_of_nil in Ht. }
  case_decide as Hd.
  - injection H as <- <-. rewrite app_nil_r. by apply elem_of_cons in Ht as [->|].
  - destruct (split_at u ts) as [b a]. injection H as <- <-.
    apply elem_of_cons in Ht as [->|Ht].
    + apply elem_of_app. right. by left.
    + pose proof (IH b eq_refl Ht Hu) as Hin. apply elem_of_app in Hin.
      apply elem_of_app. destruct Hin; [by left|right; by right].
Qed.

Lemma pick_None u ts t : pick u ts = None → t ∈ ts → t_id t ≠ u → pending t = false.
Proof.
  unfold pick. destruct (split_at u ts) as [before after] eqn:E.
  intros H Ht Hu. apply fmap_None in H. rewrite list_find_None in H.
  pose proof (split_at_others _ _ _ _ _ E Ht Hu) as Hin.
  rewrite Forall_forall in H. specialize (H t Hin).
  destruct (pending t); [by destruct H|done].
Qed.

(** ** The end of a thread *)

Definition donned (u : N) (s : st) : st :=
  mkSt (s_heap s) (with_threads (map_thread u with_done (threads (s_in s))) (s_in s))
    (s_tids s) (s_err s).

Lemma donned_info u s v :
  info_at v (donned u s) =
    if decide (v = u) then (λ '(c, d, _, fn, bl), (c, d, true, fn, bl)) <$> info_at v s
    else info_at v s.
Proof.
  unfold info_at, donned. simpl. rewrite find_thread_map by done.
  case_decide; by destruct (find_thread v _).
Qed.

Lemma donned_inv u s : inv s → u ≠ fg (s_in s) → u ≠ 0%N → inv (donned u s).
Proof.
  intros [I1 I2 I3 I4 I5 I6] Hfg H0. split; simpl.
  - by rewrite map_thread_ids.
  - intros t (x & Hx & ->)%elem_of_map_thread. pose proof (I2 x Hx). destruct (decide _); done.
  - destruct I3 as (m & H1 & H2 & H3). destruct (threads (s_in s)) as [|t1 ts]; [done|].
    injection H1 as ->. unfold map_thread. eexists. split; [done|].
    by rewrite decide_False by congruence.
  - destruct I4 as (t & H1 & H2). rewrite find_thread_map, decide_False, H1 by done.
    by exists t.
  - intros t (x & Hx & ->)%elem_of_map_thread. pose proof (I5 x Hx). destruct (decide _); done.
  - intros t (x & Hx & ->)%elem_of_map_thread. destruct (decide _); exact (I6 x Hx).
Qed.

Lemma switched_donned u v s : switched v (donned u s) = donned u (switched v s).
Proof.
  unfold switched, donned, swap_flags, map_thread. simpl. do 2 f_equal.
  unfold with_qstep, with_fg, with_threads. simpl. f_equal.
  rewrite <- !list_fmap_compose. apply list_fmap_ext. intros i t _. simpl.
  destruct t as [id c f r d b g dn bl]. simpl.
  destruct (decide (id = u)) as [->|]; simpl;
    destruct (decide (_ = v)) as [->|]; simpl; repeat case_decide; simpl;
    try done; simpl in *; congruence.
Qed.

(** A main thread that is not running can be picked. *)
Lemma main_pending s : inv s → fg (s_in s) ≠ 0%N → ∃ m, m ∈ threads (s_in s) ∧
  t_id m = 0%N ∧ pending m = true.
Proof.
  intros Hs Hfg. destruct (inv_main s Hs) as (m & H1 & H2 & H3).
  assert (m ∈ threads (s_in s)) as Hm.
  { destruct (threads (s_in s)) as [|x ts]; [done|]. injection H1 as ->. by left. }
  exists m. split_and!; [done..|]. unfold pending. destruct (inv_flags s Hs m Hm) as [E1 E2].
  rewrite E2, E1, H2, H3, bool_decide_false by congruence. done.
Qed.

Lemma done_yield_wp u s (k : bool → IM unit) :
  inv s → fg (s_in s) = u → u ≠ 0%N →
  wp u (λ _ _, False) s ((b6b_yield ≫= k) (donned u s)).
Proof.
  intros Hs Hfg H0. unfold mbind, IM_bind. rewrite yield_eq. simpl.
  destruct (main_pending s Hs) as (m & Hm & Hid & Hp); [congruence|].
  assert (∀ t, t_id t ≠ u → t ∈ map_thread u with_done (threads (s_in s)) ↔
    t ∈ threads (s_in s)) as Hmap.
  { intros t Ht. rewrite elem_of_map_thread. split.
    - intros (x & Hx & ->). destruct (decide (t_id x = u)) as [E|E]; [|done].
      by destruct Ht.
    - intros Hx. exists t. by rewrite decide_False. }
  destruct (pick (fg (s_in s)) (map_thread u with_done (threads (s_in s)))) as [t|] eqn:E.
  2:{ exfalso. pose proof (pick_None _ _ m E) as Hn. rewrite Hmap in Hn by congruence.
      rewrite Hn in Hp; [done..|congruence]. }
  apply pick_Some in E as (Ht & Hbg & Hd).
  assert (t_id t ≠ u) as Hne.
  { apply elem_of_map_thread in Ht as (x & Hx & ->).
    destruct (decide (t_id x = u)) as [Ex|Ex]; [by simpl in Hd|done]. }
  rewrite Hmap in Ht by done. simpl.
  assert (inv (switched (t_id t) s)) as Hsw by (by apply switched_inv).
  rewrite switched_donned. split_and!; [done|..].
  - split; [done| |]; intros v x Hv Hx; rewrite donned_info, switched_info in *;
      rewrite decide_False in * by done; [by left|done].
  - by apply donned_inv.
  - intros s' [R1 R2 R3]. exfalso. destruct (fg_info s' R1) as (x & Hx & Hdn).
    rewrite R2, R3, donned_info, decide_True, switched_info in Hx by done.
    apply fmap_Some in Hx as ([[[[? ?] ?] ?] ?] & _ & ->). done.
Qed.

Lemma routine_wp `{Env} n u s f fn :
  inv s → fg (s_in s) = u → u ≠ 0%N → info_at u s = Some ([f], 1, false, Some fn, false) →
  wp u (λ _ _, False) s (b6b_thread_routine n u s).
Proof.
  intros Hs Hfg H0 Hi. unfold b6b_thread_routine.
  pose proof Hi as Hi'. apply info_find in Hi' as (t & Ht & [= _ _ _ Hfn _]).
  unfold mbind, IM_bind, lift. simpl. rewrite Ht. simpl. rewrite <- Hfn. simpl.
  pose proof (balanced_call n (b6b_stmt_call n) (balanced_stmt_call n) fn s Hs) as H1.
  rewrite Hfg in H1. specialize (H1 ltac:(unfold ready; by rewrite Hfg, Hi)). eapply wp_bind; [exact H1|]. intros a s1 [K1 K2 K3].
  apply (done_yield_wp u s1 (λ _, mret tt)); [done|congruence|done].
Qed.

(** ** The machine *)

Section machine.
Context `{Env} {A : Type}.
Variable n : nat.
(** What the main thread is proved to leave behind. *)
Variable main_post : A → st → Prop.

(** The rest of a suspended thread, whose stable part is [x]. *)
Definition rest_ok (u : N) (c : (st → res A) + (st → res unit)) (x : tinfo) : Prop :=
  match c with
  | inl k => u = 0%N ∧ ∀ s', inv s' → fg (s_in s') = u → info_at u s' = Some x →
      wp u main_post s' (k s')
  | inr k => u ≠ 0%N ∧ ∀ s', inv s' → fg (s_in s') = u → info_at u s' = Some x →
      wp u (λ _ _, False) s' (k s')
  end.

(** The running thread, which got the processor in [s0]. *)
Definition run_ok (u : N) (s0 : st) (r : res A + res unit) : Prop :=
  match r with
  | inl r => u = 0%N ∧ wp u main_post s0 r
  | inr r => u ≠ 0%N ∧ wp u (λ _ _, False) s0 r
  end.

(** The suspended threads, in the state [s] where [u] runs: those that have no
    rest never ran. *)
Definition susp_ok (u : N) (s : st) (m : gmap N ((st → res A) + (st → res unit))) : Prop :=
  (∀ v c, m !! v = Some c → v ≠ u → (v < s_tids s)%N ∧ ∀ x, info_at v s = Some x → rest_ok v c x) ∧
  (∀ v x, m !! v = None → v ≠ u → info_at v s = Some x → fresh_info x ∧ v ≠ 0%N).

Definition machine_ok (m : machine A) : Prop :=
  ∃ s0, inv s0 ∧ fg (s_in s0) = m_run _ m ∧ run_ok (m_run _ m) s0 (m_res _ m) ∧
    susp_ok (m_run _ m) s0 (m_susp _ m).

(** Between two switches, the others stay as they were. *)
Lemma susp_ok_others u s0 s m :
  inv s0 → susp_ok u s0 m → others u s0 s → susp_ok u s m.
Proof.
  intros Hs0 [H1 H2] [O1 O2 O3]. split.
  - intros v c Hv Hne. destruct (H1 v c Hv Hne) as [Hlt Hr]. split; [lia|].
    intros x Hx. destruct (O2 v x Hne Hx) as [Hx0|[Hge _]]; [by apply Hr|lia].
  - intros v x Hv Hne Hx. destruct (O2 v x Hne Hx) as [Hx0|[Hge Hf]]; [by apply H2|].
    split; [done|]. destruct (inv_main s0 Hs0) as (t & Ht & Hid & _).
    pose proof (inv_fresh s0 Hs0 t) as Hlt. rewrite Hid in Hlt.
    destruct (threads (s_in s0)) as [|t1 ts]; [done|]. injection Ht as ->.
    specialize (Hlt ltac:(by left)). lia.
Qed.

(** The thread [t] was suspended in [s] and the rest [c] was stored. *)
Lemma resume_ok t s c m :
  inv s → susp_ok t s m → (t < s_tids s)%N →
  (∀ x, info_at t s = Some x → rest_ok t c x) →
  machine_ok (resume n (fg (s_in s)) s (<[t := c]> m)).
Proof.
  intros Hs [H1 H2] Hlt Hc. set (u := fg (s_in s)).
  destruct (fg_info s Hs) as (y & Hy & Hyd). fold u in Hy.
  assert (∀ v c', <[t:=c]> m !! v = Some c' →
    (v < s_tids s)%N ∧ ∀ z, info_at v s = Some z → rest_ok v c' z) as Hall.
  { intros v c'. rewrite lookup_insert. case_decide as Hv; [subst v|intros Hm; by apply H1].
    by intros [= <-]. }
  assert (∀ m', (∀ v, v ≠ u → m' !! v = <[t:=c]> m !! v) → susp_ok u s m') as Hsusp.
  { intros m' Hm'. split.
    - intros v c' Hv Hne. apply Hall. by rewrite <- Hm'.
    - intros v z Hv Hne Hz. rewrite Hm', lookup_insert in Hv by done.
      case_decide; [done|]. by apply (H2 v z). }
  exists s. unfold resume. destruct (<[t:=c]> m !! u) as [[k|k]|] eqn:E; simpl.
  - destruct (Hall u _ E) as [_ Hr]. destruct (Hr y Hy) as [H0 Hk].
    split_and!; [done..|by apply Hk|]. apply Hsusp. intros v Hv. by apply lookup_delete_ne.
  - destruct (Hall u _ E) as [_ Hr]. destruct (Hr y Hy) as [H0 Hk].
    split_and!; [done..|by apply Hk|]. apply Hsusp. intros v Hv. by apply lookup_delete_ne.
  - rewrite lookup_insert in E. case_decide as Htu; [done|].
    destruct (H2 u y E) as [(f & fn & ->) H0]; [congruence|done|].
    split_and!; [done..|by eapply routine_wp|by apply Hsusp].
Qed.

Lemma mstep_ok m m' : machine_ok m → mstep n m = inl m' → machine_ok m'.
Proof.
  intros (s0 & Hs0 & Hfg & Hrun & Hsusp) Hstep. unfold mstep in Hstep.
  assert (m_run _ m < s_tids s0)%N as Hlt.
  { destruct (fg_info s0 Hs0) as (y & Hy & _). rewrite Hfg in Hy. by eapply info_at_fresh. }
  destruct (m_res _ m) as [r|r]; destruct r as [a s| | |t s k]; try discriminate Hstep;
    injection Hstep as <-; destruct Hrun as [H0 (-> & Ho & Hs & Hk)];
    pose proof (susp_ok_others _ _ _ _ Hs0 Hsusp Ho) as Hsusp';
    pose proof (oth_tids _ _ _ Ho) as Htids;
    (apply resume_ok; [done|done|lia|]; intros x Hx; split; [done|]);
    intros s' R1 R2 R3; apply Hk; split; congruence.
Qed.

(** Any number of switches. *)
Fixpoint msteps (k : nat) (m : machine A) : option (machine A) :=
  match k with
  | O => Some m
  | S k' => match mstep n m with inl m' => msteps k' m' | inr _ => None end
  end.

Lemma msteps_ok k m m' : machine_ok m → msteps k m = Some m' → machine_ok m'.
Proof.
  revert m. induction k as [|k IH]; intros m Hm; simpl; [by intros [= <-]|].
  destruct (mstep n m) as [m1|] eqn:E; [|done]. apply IH. by eapply mstep_ok.
Qed.
End machine.

(** ** From the start of the process *)

Lemma quiet_new_exts es : quiet (new_exts es).
Proof.
  induction es as [|e es IH]; simpl; [quiet_tac|].
  unfold b6b_interp_new_ext_obj. quiet_tac.
Qed.

(** After [interp_setup] there is no thread yet or the main thread is alone. *)
Definition alone (s : st) : Prop :=
  ∃ f nl, view s = ([mkThread 0 [f] None nl 1 false true false false], 0%N, 1%N).

Lemma setup_alone args now o s ok s' :
  s_tids s = 0%N → interp_setup args now o s = Done (ok, s') →
  alone s' ∨ ok = false ∧ threads (s_in s') = [].
Proof.
  intros Ht H. unfold interp_setup in H. revert H. generalize b6b_exts. intros es H.
  do 6 (apply bind_Done in H as (? & ? & ?%quiet_on_heap & H)).
  apply bind_Done in H as (g & s1 & Hg%quiet_frame_new & H).
  apply bind_Done in H as ([] & s2 & [= <-] & H).
  apply bind_Done in H as (ok1 & s3 & Hsa%quiet_frame_set_args & H).
  assert (threads (s_in s3) = []) as E3.
  { apply view_eq in Hsa as (Hsa & _). by apply fmap_nil_inv in Hsa. }
  destruct ok1; [|injection H as <- <-; by right]. left. simpl in H.
  apply bind_Done in H as (t & s4 & Hth & H).
  unfold b6b_thread_self in Hth.
  apply bind_Done in Hth as (f & s5 & Hf%quiet_frame_new & Hth).
  apply bind_Done in Hth as (? & s6 & Hr%quiet_on_heap & Hth).
  apply bind_Done in Hth as (? & ? & [= <- <-] & Hth).
  apply bind_Done in Hth as ([] & ? & [= <-] & [= <- <-]).
  assert (threads (s_in s6) = []) as E6.
  { assert (shape s6 = []) as E.
    { transitivity (shape s3); [|by unfold shape; rewrite E3].
      transitivity (shape s5); [by apply view_eq in Hr as (-> & _)|by apply view_eq in Hf as (-> & _)]. }
    by apply fmap_nil_inv in E. }
  apply bind_Done in H as ([] & ? & [= <-] & H). cbn [s_in s_heap s_tids s_err] in H. rewrite E6 in H.
  apply bind_Done in H as ([] & ? & [= <-] & H). simpl in H.
  apply quiet_new_exts in H. exists f, 0%N. rewrite H. unfold view, shape. simpl.
  assert (s_tids s6 = 0%N) as ->.
  { rewrite <- Ht. repeat match goal with E : view _ = view _ |- _ =>
      apply view_eq in E as (_ & _ & E) end. simpl in *. congruence. }
  done.
Qed.

Lemma alone_inv s f nl :
  view s = ([mkThread 0 [f] None nl 1 false true false false], 0%N, 1%N) → inv s.
Proof.
  unfold view, shape. intros [= Hts Hfg Ht].
  destruct (threads (s_in s)) as [|t [|]] eqn:E; try done. simpl in Hts.
  injection Hts as H1 H2 H3 _ H4 H5 H6 H7 _.
  assert (∀ u, u ∈ threads (s_in s) → u = t) as Hone.
  { intros u Hu. rewrite E in Hu. by apply list_elem_of_singleton in Hu. }
  split.
  - rewrite E. simpl. apply NoDup_singleton.
  - intros u ->%Hone. rewrite H1, Ht. done.
  - exists t. rewrite E. done.
  - exists t. rewrite E, Hfg. unfold find_thread. simpl. by rewrite H1.
  - intros u ->%Hone. rewrite H1, H5, H6, Hfg. done.
  - intros u ->%Hone. rewrite H2, H4. done.
Qed.

Lemma alone_info s f nl :
  view s = ([mkThread 0 [f] None nl 1 false true false false], 0%N, 1%N) →
  fg (s_in s) = 0%N ∧ ∀ u, info_at u s =
    if decide (u = 0%N) then Some ([f], 1, false, None, false) else None.
Proof.
  intros Hv. unfold view, shape in Hv. injection Hv as Hts Hfg _. split; [done|].
  intros u. unfold info_at.
  destruct (threads (s_in s)) as [|t [|]]; try done. injection Hts as Ha Hb Hc _ Hd _ _ He Hbl.
  rewrite find_thread_cons, Ha.
  destruct (decide (0%N = u)), (decide (u = 0%N)); try done.
  simpl. unfold info. by rewrite Hb, Hc, Hd, He, Hbl.
Qed.

Section script.
Context `{Env}.
Variable n : nat.

(** [run_script] after [interp_setup], and what is left of it when the
    interpreter does not start. *)
Definition end_early (args : loc) : IM bool :=
  b6b_interp_destroy n;; hp (b6b_destroy args);; mret false.
Definition script_rest (args : loc) (argv : list bytes) (o : b6b_opts) (cmd : bool) (ok : bool)
    : IM (option b6b_res) :=
  ok ← (ok ← (if ok : bool then run_inits (b6b_inits n) else mret false);
        if negb ok then end_early args
        else lift (set_interp (with_opts o));; hp (b6b_unref args);; mret true);
  if negb ok then mret None
  else
    arg ← lift (deref (head argv));
    res ← (if cmd then b6b_call_copy n (b6b_stmt_call n) arg
           else b6b_source n (b6b_stmt_call n) arg);
    mret (Some res).

Lemma balanced_inits : balanced (run_inits (b6b_inits n)).
Proof.
  pose proof (balanced_call_copy n _ (balanced_stmt_call n)) as Hc.
  assert (∀ body, balanced (init_body n body)) as Hb by (unfold init_body; balanced_tac).
  unfold run_inits, b6b_inits, b6b_evloop_init, b6b_co_init, b6b_ffi_init. balanced_tac.
Qed.

Lemma balanced_script argv cmd : balanced (
  arg ← lift (deref (head argv));
  res ← (if cmd : bool then b6b_call_copy n (b6b_stmt_call n) arg
         else b6b_source n (b6b_stmt_call n) arg);
  mret (Some res)).
Proof.
  pose proof (balanced_stmt_call n) as Hs.
  pose proof (balanced_call_copy n _ Hs) as Hc. pose proof (balanced_source n _ Hs) as Hsrc.
  balanced_tac.
Qed.

Lemma IM_bind_run {B C} (m : IM B) (f : B → IM C) s : (m ≫= f) s = res_bind (m s) f.
Proof. done. Qed.

Lemma lift_bind_run {B C} (m : M st B) (f : B → IM C) s :
  (lift m ≫= f) s =
    match m s with Done (a, s') => f a s' | Ub => Fault | Oof => NoFuel end.
Proof. rewrite IM_bind_run. unfold lift. by destruct (m s) as [[a s']| |]. Qed.

(** *** The end of an interpreter that does not start *)

Lemma wp_lift {B} t (m : M st B) s :
  (∀ a s', m s = Done (a, s') → others t s s') → wp t (λ _ _, True) s (lift m s).
Proof.
  intros Hm. unfold lift. destruct (m s) as [[a s']| |]; [|done..]. split; [by apply (Hm a)|done].
Qed.
Lemma wp_quiet {B} t (m : M st B) s : quiet m → wp t (λ _ _, True) s (lift m s).
Proof. intros Hq. apply wp_lift. intros a s' E. by apply view_others, (Hq _ _ _ E). Qed.

Lemma stable_yield_loop k : stable (yield_loop k).
Proof. induction k as [|k IH]; simpl; stable_tac. Qed.

Lemma pop_others t s s' : inv s → b6b_thread_pop t s = Done (tt, s') → others (t_id t) s s'.
Proof.
  intros Hs Hp. unfold b6b_thread_pop in Hp. apply bind_Done in Hp as ([] & s1 & [= <-] & Hp).
  apply quiet_thread_destroy in Hp. etrans; [|by apply view_others].
  assert (∀ u, u ≠ t_id t → find_thread u (filter (λ v, t_id v ≠ t_id t) (threads (s_in s))) =
    find_thread u (threads (s_in s))) as E.
  { intros u Hu. apply option_eq. intros v. rewrite find_thread_filter by apply Hs. split; [by intros [? _]|].
    intros Hv. split; [done|]. by apply find_thread_Some in Hv as [_ ->]. }
  split; [done|..]; unfold info_at; simpl; intros u x Hu Hx; [left|]; by rewrite E in *.
Qed.

(** Nothing is promised of the state in the end, but it is left to no other
    thread. *)
Lemma ends_early_wp args s :
  inv s → fg (s_in s) = 0%N → wp 0%N (λ ok _, ok = false) s (end_early args s).
Proof.
  intros Hs Hfg. destruct (inv_main s Hs) as (m & Hm & Hid & _).
  unfold end_early, b6b_interp_destroy, hp. eapply wp_bind with (Q := λ _ _, True).
  2:{ intros [] s1 _. eapply wp_bind; [apply wp_quiet, quiet_on_heap|]. intros [] s2 _.
      by split. }
  rewrite IM_bind_run. simpl. destruct (threads (s_in s)) as [|t ts] eqn:E; [done|].
  injection Hm as ->. eapply wp_bind with (Q := λ _ _, True).
  - assert (stable (lift (set_interp (with_exit 1)))) as Hx by (apply stable_quiet; quiet_tac).
    specialize (Hx s Hs I). rewrite Hfg in Hx. unfold b6b_join. eapply wp_bind; [exact Hx|].
    intros [] s0 [K1 K2 _]. pose proof (stable_yield_loop n s0 K1 I) as Hy. rewrite K2, Hfg in Hy.
    eapply wp_bind; [exact Hy|]. clear K1 K2. intros [] s1 [K1 K2 _]. rewrite lift_bind_run. simpl.
    destruct (inv_main s1 K1) as (m1 & Hm1 & Hid1 & _).
    destruct (threads (s_in s1)) as [|t1 ts1]; [done|]. injection Hm1 as ->.
    eapply wp_bind with (Q := λ _ _, True); [|intros [] s2 _; apply wp_quiet, quiet_on_heap].
    apply wp_lift. intros [] s2 H2. rewrite <- Hid1. by apply pop_others.
  - intros [] s1 _. rewrite lift_bind_run. simpl. eapply wp_bind; [apply wp_quiet; quiet_tac|].
    intros [] s2 _. apply wp_quiet, quiet_on_heap.
Qed.

Definition script_post (x0 : tinfo) (r : option b6b_res) (s : st) : Prop :=
  r ≠ None → inv s ∧ fg (s_in s) = 0%N ∧ info_at 0%N s = Some x0.

Lemma script_rest_wp args argv o cmd ok s f nl :
  view s = ([mkThread 0 [f] None nl 1 false true false false], 0%N, 1%N) →
  wp 0%N (script_post ([f], 1, false, None, false)) s (script_rest args argv o cmd ok s).
Proof.
  intros Hv. pose proof (alone_inv s f nl Hv) as Hs. destruct (alone_info s f nl Hv) as [Hfg Hi].
  assert (ready s) as Hr by (unfold ready; by rewrite Hfg, Hi).
  assert (wp 0%N (λ ok s', ok = true → kept s s') s
    ((ok ← (if ok : bool then run_inits (b6b_inits n) else mret false);
      if negb ok then end_early args
      else lift (set_interp (with_opts o));; hp (b6b_unref args);; mret true) s)) as Hnew.
  { assert (balanced (if ok then run_inits (b6b_inits n) else mret false)) as Hb
      by (destruct ok; [apply balanced_inits|apply balanced_mret]).
    specialize (Hb s Hs Hr). rewrite Hfg in Hb. eapply wp_bind; [exact Hb|].
    intros [] s1 K; simpl.
    - assert (balanced (lift (set_interp (with_opts o));; hp (b6b_unref args);; mret true)) as H1
        by balanced_tac.
      specialize (H1 s1 (kept_inv _ _ K) (kept_ready _ _ K Hr)). rewrite (kept_fg _ _ K), Hfg in H1.
      eapply wp_mono; [exact H1|]. intros a s2 K2 _. exact (kept_trans _ _ _ K K2).
    - eapply wp_mono; [apply ends_early_wp; [apply K|rewrite (kept_fg _ _ K); exact Hfg]|].
      by intros a s2 -> [=]. }
  eapply wp_bind; [exact Hnew|]. intros [] s1 K; [|by split]. specialize (K eq_refl). simpl.
  pose proof (balanced_script argv cmd s1 (kept_inv _ _ K) (kept_ready _ _ K Hr)) as Hb.
  rewrite (kept_fg _ _ K), Hfg in Hb. eapply wp_mono; [exact Hb|]. intros a s2 K2 _.
  destruct (kept_trans _ _ _ K K2) as [A B C]. rewrite Hfg in B, C. by rewrite C, Hi.
Qed.

(** The end of [b6b_interp_destroy]. *)
Definition finish : M st unit :=
  s ← get;
  let i := s_in s in
  b6b_frame_destroy (global i);;
  on_heap (miter b6b_unref [us i; at_ i; dot i; one i; zero i; null i]).

Lemma finish_eq s :
  (s ← lift get;
   let i := s_in s in
   lift (b6b_frame_destroy (global i));;
   hp (miter b6b_unref [us i; at_ i; dot i; one i; zero i; null i])) s = lift finish s.
Proof.
  rewrite lift_bind_run. simpl. rewrite lift_bind_run. unfold finish, lift, mbind, M_bind. simpl.
  by destruct (b6b_frame_destroy (global (s_in s)) s) as [[[] s1]| |].
Qed.

(** [b6b_interp_new_argv] before the init functions, with the result of
    [interp_setup] when the threads start. *)
Definition set_up (argv : list bytes) (now : Z) (o : b6b_opts) : M st (loc * option bool) :=
  args ← on_heap b6b_list_new;
  on_heap (new_args args argv);;
  up ← on_heap (start_threads o);
  if negb up then mret (args, None)
  else ok ← interp_setup args now o; mret (args, Some ok).

Lemma M_bind_run {B C} (m : M st B) (f : B → M st C) s :
  (m ≫= f) s = match m s with Done (a, s') => f a s' | Ub => Ub | Oof => Oof end.
Proof. unfold mbind, M_bind. by destruct (m s) as [[]| |]. Qed.

Lemma run_script_eq argv now o cmd s :
  run_script n argv now o cmd s =
    match set_up argv now o s with
    | Done ((args, None), s') => lift (on_heap (b6b_destroy args);; mret None) s'
    | Done ((args, Some ok), s') => script_rest args argv o cmd ok s'
    | Ub => Fault
    | Oof => NoFuel
    end.
Proof.
  unfold run_script, b6b_interp_new_argv, set_up, hp. rewrite IM_bind_run, lift_bind_run, M_bind_run.
  destruct (on_heap b6b_list_new s) as [[args s1]| |]; [|done..]. rewrite lift_bind_run, M_bind_run.
  destruct (on_heap (new_args args argv) s1) as [[[] s2]| |]; [|done..]. rewrite lift_bind_run, M_bind_run.
  destruct (on_heap (start_threads o) s2) as [[[] s3]| |]; [|..|done|done]; cbn [negb].
  - rewrite lift_bind_run, M_bind_run. by destruct (interp_setup args now o s3) as [[ok s4]| |].
  - rewrite lift_bind_run. unfold lift. cbn [mret M_ret]. rewrite M_bind_run.
    by destruct (on_heap (b6b_destroy args) s3) as [[[] s4]| |].
Qed.

(** Without threads there is nothing to wait for. *)
Lemma script_rest_early args argv o cmd s :
  threads (s_in s) = [] →
  script_rest args argv o cmd false s = lift ((finish;; on_heap (b6b_destroy args));; mret None) s.
Proof.
  intros Hts. unfold script_rest, end_early, b6b_interp_destroy.
  rewrite !IM_bind_run. cbn [mret IM_ret res_bind negb]. rewrite IM_bind_run, lift_bind_run. simpl.
  rewrite Hts, IM_bind_run. cbn [mret IM_ret res_bind]. rewrite finish_eq.
  unfold lift at 1 3. rewrite !M_bind_run. destruct (finish s) as [[[] s1]| |]; [|done..].
  cbn [res_bind]. unfold hp. rewrite lift_bind_run.
  by destruct (on_heap (b6b_destroy args) s1) as [[[] s2]| |].
Qed.

Lemma set_up_alone argv now o s args ok s' :
  s_tids s = 0%N → set_up argv now o s = Done ((args, Some ok), s') →
  alone s' ∨ ok = false ∧ threads (s_in s') = [].
Proof.
  intros Ht Hu. unfold set_up in Hu. apply bind_Done in Hu as (ar & s1 & E1 & Hu).
  apply bind_Done in Hu as ([] & s2 & E2 & Hu). apply bind_Done in Hu as (up & s3 & E3 & Hu).
  destruct up; [|done]. apply bind_Done in Hu as (ok' & s4 & E4 & [= -> -> ->]).
  apply quiet_on_heap, view_eq in E1 as (_ & _ & T1). apply quiet_on_heap, view_eq in E2 as (_ & _ & T2).
  apply quiet_on_heap, view_eq in E3 as (_ & _ & T3). eapply setup_alone; [|exact E4]. congruence.
Qed.

Lemma lift_None (m : M st unit) s :
  let r := lift (m;; mret (@None b6b_res)) s in r = Fault ∨ r = NoFuel ∨ ∃ s', r = Ret None s'.
Proof. simpl. unfold lift. rewrite M_bind_run. destruct (m s) as [[[] s']| |]; eauto. Qed.

Lemma script_start argv now o cmd s0 :
  s_tids s0 = 0%N →
  let r := run_script n argv now o cmd s0 in
  r = Fault ∨ r = NoFuel ∨ (∃ s, r = Ret None s) ∨
  ∃ args ok s, r = script_rest args argv o cmd ok s ∧ alone s.
Proof.
  intros Ht. simpl. rewrite run_script_eq.
  destruct (set_up argv now o s0) as [[[args [ok|]] s]| |] eqn:E; [| |by left|by right; left].
  - apply set_up_alone in E as [Ha|[-> Hts]]; [do 3 right; by exists args, ok, s| |done].
    rewrite script_rest_early by done.
    destruct (lift_None (finish;; on_heap (b6b_destroy args)) s) as [?|[?|?]]; auto.
  - destruct (lift_None (on_heap (b6b_destroy args)) s) as [?|[?|?]]; auto.
Qed.

(** The machine of a script, as it starts. *)
Definition script_machine (l : list ans) (argv : list bytes) (now : Z) (o : b6b_opts) (cmd : bool)
    : machine (option b6b_res) :=
  mkMachine _ 0%N (inl (run_script n argv now o cmd (blank l))) ∅.

Lemma script_machine_ok l argv now o cmd :
  mstep n (script_machine l argv now o cmd) = inr Ub ∨
  mstep n (script_machine l argv now o cmd) = inr Oof ∨
  (∃ s, mstep n (script_machine l argv now o cmd) = inr (Done (None, s))) ∨
  ∃ f, machine_ok (script_post ([f], 1, false, None, false)) (script_machine l argv now o cmd).
Proof.
  unfold script_machine.
  destruct (script_start argv now o cmd (blank l) eq_refl)
    as [->|[->|[(s & ->)|(args & ok & s & -> & f & nl & Hv)]]];
    [by left|by right; left|right; right; left; by exists s|].
  do 3 right. exists f, s. pose proof (alone_inv s f nl Hv) as Hs.
  destruct (alone_info s f nl Hv) as [Hfg Hi].
  split_and!; [done|done|..]; simpl.
  - split; [done|]. by eapply script_rest_wp.
  - split; [done|]. intros v x _ Hv0 Hx. rewrite Hi in Hx. by case_decide.
Qed.
End script.

(** ** Fairness *)

(** The states at the switches of threads that yield at once. *)
Fixpoint yields (j : nat) (s : st) : option st :=
  match j with
  | O => Some s
  | S j' => match b6b_yield s with Susp _ s' _ => yields j' s' | _ => None end
  end.

Lemma split_at_mid ts1 t ts2 :
  t_id t ∉ t_id <$> ts1 → split_at (t_id t) (ts1 ++ t :: ts2) = (ts1, ts2).
Proof.
  induction ts1 as [|x ts1 IH]; simpl; intros Hn; [by rewrite decide_True|].
  apply not_elem_of_cons in Hn as [Hx Hn]. rewrite decide_False by done. by rewrite IH.
Qed.

Lemma pick_next s i t :
  inv s → (∀ t, t ∈ threads (s_in s) → t_done t = false) →
  (2 ≤ length (threads (s_in s)))%nat →
  threads (s_in s) !! i = Some t → t_id t = fg (s_in s) →
  pick (fg (s_in s)) (threads (s_in s)) =
    threads (s_in s) !! ((i + 1) mod length (threads (s_in s)))%nat.
Proof.
  intros Hs Hd Hlen Hi Hfg. set (ts := threads (s_in s)) in *.
  assert (∀ u, u ∈ ts → t_id u ≠ fg (s_in s) → pending u = true) as Hp.
  { intros u Hu Hne. unfold pending. destruct (inv_flags s Hs u Hu) as [E1 E2].
    by rewrite E2, E1, bool_decide_false, Hd by done. }
  pose proof (inv_ids s Hs) as Hnd. fold ts in Hnd.
  apply list_elem_of_split_length in Hi as (ts1 & ts2 & Ets & Ei).
  clearbody ts. subst ts i. rewrite fmap_app, fmap_cons in Hnd.
  apply NoDup_app in Hnd as (Hnd1 & Hnd2 & Hnd3). apply NoDup_cons in Hnd3 as [Hnd3 _].
  assert (∀ u, u ∈ ts2 ++ ts1 → pending u = true) as Hall.
  { intros u Hu. apply Hp.
    - apply elem_of_app in Hu as [Hu|Hu]; apply elem_of_app; [right; by right|by left].
    - rewrite <- Hfg. intros E. apply elem_of_app in Hu as [Hu|Hu];
        apply (list_elem_of_fmap_2 t_id) in Hu; rewrite E in Hu; [done|].
      apply (Hnd2 _ Hu). by left. }
  unfold pick. rewrite <- Hfg, split_at_mid.
  2:{ intros Hin. apply (Hnd2 _ Hin). by left. }
  assert (∀ u l, ts2 ++ ts1 = u :: l → snd <$> list_find pending (ts2 ++ ts1) = Some u) as Hhd.
  { intros u l E. rewrite E in Hall |- *. simpl. rewrite decide_True; [done|].
    apply Is_true_true. apply Hall. by left. }
  rewrite length_app in Hlen |- *. cbn [length] in Hlen |- *.
  destruct ts2 as [|u ts2].
  - destruct ts1 as [|u ts1]; [cbn in Hlen; lia|]. rewrite (Hhd u ts1) by done.
    cbn [length]. by rewrite Nat.Div0.mod_same.
  - rewrite (Hhd u (ts2 ++ ts1)) by done. cbn [length] in *.
    rewrite Nat.mod_small by lia. rewrite lookup_app_r by lia.
    by replace (length ts1 + 1 - length ts1)%nat with 1%nat by lia.
Qed.

Lemma switched_not_done u s :
  (∀ t, t ∈ threads (s_in s) → t_done t = false) →
  ∀ t, t ∈ threads (s_in (switched u s)) → t_done t = false.
Proof.
  intros Hd t (x & Hx & _ & Hi & _)%elem_of_swap_flags. injection Hi as _ _ -> _. by apply Hd.
Qed.

(** ** Properties *)

(** C1: for every script, whatever its threads do, at every switch of threads
    the invariant of the thread list holds: exactly the running thread is
    marked as such and it is not done, the main thread is there, and every
    thread has as many frames as its depth says, at most
    [B6B_MAX_NESTING]. When the script ends the main thread has the frame it
    started with and no other; the routine of a thread never returns. (When the
    interpreter does not start, there is no script and it is destroyed.) *)
Theorem threads_disciplined `{Env} n l argv now o cmd k m :
  msteps n k (script_machine n l argv now o cmd) = Some m →
  match m_res _ m with
  | inl (Susp t s _) | inr (Susp t s _) => t = m_run _ m ∧ inv s
  | inl (Ret (Some _) s) =>
      inv s ∧ fg (s_in s) = 0%N ∧ ∃ f, info_at 0%N s = Some ([f], 1, false, None, false)
  | inr (Ret _ _) => False
  | _ => True
  end.
Proof.
  intros Hm. destruct (script_machine_ok n l argv now o cmd) as [E|[E|[(s0 & E)|(f & Hok)]]].
  1-3: destruct k; simpl in Hm; [injection Hm as <-|by rewrite E in Hm];
    unfold mstep in E; simpl in E |- *; destruct (run_script _ _ _ _ _ _) as [[]| | |]; first [done|congruence].
  destruct (msteps_ok n (script_post ([f], 1, false, None, false)) k _ _ Hok Hm)
    as (s0 & _ & _ & Hrun & _).
  destruct (m_res _ m) as [r|r]; destruct Hrun as [_ Hr]; destruct r as [a s| | |t s c];
    simpl in Hr; try done.
  - destruct a as [a|]; [|done]. destruct Hr as (_ & Hp). destruct Hp as (? & ? & ?); eauto.
  - by destruct Hr as (? & _ & ? & _).
  - by destruct Hr as (_ & []).
  - by destruct Hr as (? & _ & ? & _).
Qed.

(** C21: round robin. When the [n >= 2] threads that are not done do nothing but
    yield, the thread [j] places after the running one, counted around the
    list, gets the processor at the [j]-th switch: each gets its turn within
    [n] switches. *)
Theorem b6b_yield_round_robin s i j :
  inv s → (∀ t, t ∈ threads (s_in s) → t_done t = false) →
  (2 ≤ length (threads (s_in s)))%nat →
  (t_id <$> threads (s_in s)) !! i = Some (fg (s_in s)) →
  ∃ s', yields j s = Some s' ∧ t_id <$> threads (s_in s') = t_id <$> threads (s_in s) ∧
    (t_id <$> threads (s_in s)) !! ((i + j) mod length (threads (s_in s)))%nat
      = Some (fg (s_in s')).
Proof.
  revert s i. induction j as [|j IH]; intros s i Hs Hd Hlen Hi.
  { exists s. rewrite Nat.add_0_r, Nat.mod_small; [done|].
    apply lookup_lt_Some in Hi. by rewrite length_fmap in Hi. }
  rewrite list_lookup_fmap in Hi. apply fmap_Some in Hi as (t & Ht & Hfg).
  simpl. rewrite yield_eq, (pick_next s i t) by done.
  destruct (threads (s_in s) !! ((i + 1) mod length (threads (s_in s)))%nat) as [u|] eqn:Hu.
  2:{ apply lookup_ge_None in Hu.
      assert (length (threads (s_in s)) ≠ 0%nat) as Hn0 by lia.
      exfalso. exact (proj1 (Nat.lt_nge _ _) (Nat.mod_upper_bound (i + 1) _ Hn0) Hu). }
  pose proof (swap_flags_ids (fg (s_in s)) (t_id u) (threads (s_in s))) as Hids.
  assert (length (threads (s_in (switched (t_id u) s))) = length (threads (s_in s))) as Hl.
  { rewrite <- (length_fmap t_id). simpl. by rewrite Hids, length_fmap. }
  assert (pick (fg (s_in s)) (threads (s_in s)) = Some u) as Hp
    by (by rewrite (pick_next s i t)).
  apply pick_Some in Hp as (Hin & Hbg & Hdn).
  destruct (IH (switched (t_id u) s) ((i + 1) mod length (threads (s_in s)))%nat)
    as (s' & H1 & H2 & H3).
  - by apply switched_inv.
  - by apply switched_not_done.
  - by rewrite Hl.
  - simpl. rewrite Hids, list_lookup_fmap. by rewrite Hu.
  - exists s'. rewrite Hl in H3. simpl in H2, H3. rewrite Hids in H2, H3.
    split_and!; [done..|]. rewrite Nat.Div0.add_mod_idemp_l in H3.
    by replace (i + S j)%nat with (i + 1 + j)%nat by lia.
Qed.

(** C7: calls are balanced. Whatever code [b6b_stmt_call] runs, and whatever
    other threads do while the caller is suspended in it, the caller gets its
    own stack of frames and its depth back when the call returns, and does not
    wait for an offload thread, on every path: results, errors, call stack
    overflow, system calls that fail. *)
Theorem b6b_stmt_call_balanced `{Env} n stmt s :
  inv s → ready s → wp (fg (s_in s)) (λ _ s', kept s s') s (b6b_stmt_call n stmt s).
Proof. intros Hs Hr. by apply balanced_stmt_call. Qed.

(** *** Witnesses *)

(** A script that starts another thread, and the machine after three switches. *)
Definition sample_script : bytes :=
  lit "{$spawn {{$yield} {$yield}}} {$yield} {$yield} {$yield}".

Lemma threads_disciplined_witness :
  let run := msteps (H := sample_env) 100 3
    (script_machine (H := sample_env) 100 starts [sample_script] 0
      (mkOpts false false false false) true) in
  match run with
  | Some m =>
      match m_res _ m with
      | inl (Susp t s _) | inr (Susp t s _) => t = m_run _ m ∧ inv s
      | inl (Ret (Some _) s) =>
          inv s ∧ fg (s_in s) = 0%N ∧ ∃ f, info_at 0%N s = Some ([f], 1, false, None, false)
      | inr (Ret _ _) => False
      | _ => True
      end
  | None => False
  end.
Proof.
  intros run. assert (match run with Some _ => true | None => false end = true) as Hsome
    by (vm_compute; reflexivity).
  destruct run as [m|] eqn:E; [|discriminate Hsome].
  exact (threads_disciplined (H := sample_env) 100 starts _ _ _ _ 3 m E).
Defined.

(** The main thread and two others, with the procedure [yield] among the global
    variables and the statement [$yield] at 7. *)
Definition three_threads : st :=
  let f := mkFrame 0 1 in
  let hp := mkHeap
    {[ 0%N := with_refc 9 (with_l [mkItem 8 4; mkItem 9 5] new_list);
       1%N := with_refc 9 new_list;
       2%N := with_refc 9 (new_str []);
       4%N := new_str (lit "yield");
       5%N := with_proc P_yield (new_str (lit "yield"));
       6%N := with_refc 2 (new_str (lit "_"));
       7%N := new_str (lit "$yield") ]} 10 no_os in
  let i := mkInterp [mkThread 0 [f] None 2 1 false true false false] 0 f 2 2 2 2 2 6 0 0 0
    (mkOpts false false false false) [] in
  started f 7 2 (started f 7 2 (mkSt hp i 1 [])).

Lemma three_threads_inv : inv three_threads.
Proof. do 2 apply started_inv. by eapply alone_inv. Qed.

Lemma b6b_stmt_call_balanced_witness :
  match b6b_stmt_call (H := sample_env) 9 7%N three_threads with
  | Susp t s _ => t = 0%N ∧ fg (s_in s) = 2%N
  | _ => False
  end ∧
  wp 0%N (λ _ s', kept three_threads s') three_threads
    (b6b_stmt_call (H := sample_env) 9 7%N three_threads).
Proof.
  split; [vm_compute; split; reflexivity|].
  apply (b6b_stmt_call_balanced (H := sample_env) 9 7%N three_threads three_threads_inv).
  vm_compute. reflexivity.
Defined.

Lemma b6b_yield_round_robin_witness :
  ∃ s', yields 4 three_threads = Some s' ∧ fg (s_in s') = 2%N.
Proof.
  destruct (b6b_yield_round_robin three_threads 0 4 three_threads_inv) as (s' & H1 & _ & H3).
  - intros t Ht. vm_compute in Ht. repeat (apply elem_of_cons in Ht as [->|Ht]; [done|]).
    by apply elem_of_nil in Ht.
  - vm_compute. lia.
  - reflexivity.
  - exists s'. split; [exact H1|]. enough (Some (fg (s_in s')) = Some 2%N) by congruence.
    rewrite <- H3. reflexivity.
Defined.
