(* ===== verification/Dues.v ===== *)
(** * References across switches of threads

    The ledger of Ledger.v for code that can be suspended. What a suspended
    thread holds is its due: the other threads keep it as they keep each
    other's, so that the entries of the ledger are at most the sum of what all
    threads hold. [pays] says that code returns what it takes, however often it
    is suspended and whatever the others do meanwhile. It is an inequality: an
    object that [b6b_destroy] frees loses all its references, not just one. *)
From Stdlib Require Import ZArith Lia Init.Byte Strings.Byte Strings.String.
From stdpp Require Import base option list numbers gmap.
From S2P Require Import Prelude Sys Float64 Hash Parse Heap Repr ListObj Dict Types Offload Interp.
From S2P Require Import Switch Quiet Frames Ledger Counted.
#[local] Open Scope Z_scope.

(** ** Code that is not suspended *)

(** Like [changes], but an entry may become lower than that. *)
Definition lowers {S} `{Ledger S} {A} (Γ : list loc) (m : M S A) (d : A → loc → Z)
    (Γ' : A → list loc) : Prop :=
  ∀ s a s', l_fine s → Forall (l_knows s) Γ → m s = Done (a, s') →
    l_fine s' ∧ (∀ o, l_due s' o ≤ l_due s o + d a o) ∧
    (∀ o, l_knows s o → l_knows s' o) ∧ Forall (l_knows s') (Γ' a).

Abbreviation frugal Γ m := (lowers Γ m nothing no_facts).

Section lowers.
Context {S : Type} `{Ledger S}.

Lemma lowers_changes {A} Γ (m : M S A) d Γ' : changes Γ m d Γ' → lowers Γ m d Γ'.
Proof.
  intros Hm s a s' Hf Hk E. destruct (Hm s a s' Hf Hk E) as (F & D & K & N).
  split_and!; [done| |done|done]. intros o. by rewrite D.
Qed.

Lemma lowers_conseq {A} Γ (m : M S A) d1 d2 Γ1 Γ2 :
  lowers Γ m d1 Γ1 → (∀ a o, d1 a o ≤ d2 a o) → (∀ a, Γ2 a ⊆ Γ1 a ++ Γ) → lowers Γ m d2 Γ2.
Proof.
  intros Hm Hd HΓ s a s' Hf Hk E. destruct (Hm s a s' Hf Hk E) as (F & D & K & N).
  split_and!; [done| |done|].
  - intros o. specialize (D o). specialize (Hd a o). lia.
  - rewrite Forall_forall in Hk, N |- *. intros o [Ho|Ho]%HΓ%elem_of_app; auto.
Qed.

Lemma lowers_bind {A B} Γ (m : M S A) (f : A → M S B) d1 Γ1 d Γ2 :
  lowers Γ m d1 Γ1 → (∀ a, lowers (Γ1 a ++ Γ) (f a) (λ b o, d b o - d1 a o) Γ2) →
  lowers Γ (m ≫= f) d Γ2.
Proof.
  intros Hm Hf s b s' Hfi Hk E. apply bind_Done in E as (a & s1 & E1 & E2).
  destruct (Hm _ _ _ Hfi Hk E1) as (F1 & D1 & K1 & N1).
  assert (Forall (l_knows s1) (Γ1 a ++ Γ)) as Hk1.
  { apply Forall_app. split; [done|]. by eapply Forall_impl. }
  destruct (Hf a _ _ _ F1 Hk1 E2) as (F2 & D2 & K2 & N2).
  split_and!; [done| |auto|done]. intros o. specialize (D1 o). specialize (D2 o). lia.
Qed.

Lemma lowers_if {A} Γ (b : bool) (m1 m2 : M S A) d Γ' :
  lowers Γ m1 d Γ' → lowers Γ m2 d Γ' → lowers Γ (if b then m1 else m2) d Γ'.
Proof. by destruct b. Qed.
Lemma lowers_ret {A} Γ (a : A) (d : A → loc → Z) Γ' :
  (∀ o, d a o = 0) → Γ' a ⊆ Γ → lowers Γ (mret (M := M S) a) d Γ'.
Proof. intros Hd HΓ. by apply lowers_changes, changes_ret. Qed.
Lemma lowers_ub {A} Γ d Γ' : lowers Γ (@ub S A) d Γ'.
Proof. by intros ? ? ? ? ? [=]. Qed.
Lemma lowers_oof {A} Γ d Γ' : lowers Γ (@oof S A) d Γ'.
Proof. by intros ? ? ? ? ? [=]. Qed.
Lemma lowers_then_oof {A B} Γ (m : M S B) d Γ' : lowers Γ (m;; @oof S A) d Γ'.
Proof. intros s ? ? ? ? E. unfold mbind, M_bind in E. by destruct (m s) as [[]| |]. Qed.
End lowers.

Lemma lowers_on_heap {A} Γ (m : HM A) d Γ' : lowers Γ m d Γ' → lowers Γ (on_heap m) d Γ'.
Proof.
  intros Hm s a s' Hf Hk (h & E & ->)%on_heap_inv.
  destruct (Hm _ _ _ (sf_heap _ Hf) Hk E) as (F & D & K & N).
  split_and!; [by apply st_fine_heap| |done|done]. intros o. specialize (D o). simpl in *. lia.
Qed.

Lemma lowers_destroy Γ o : lowers Γ (b6b_destroy o) (λ _ p, - refs [o] p) no_facts.
Proof.
  intros h [] h' Hf Hk E. destruct (destroy_effect o h h' Hf E) as (x & c & _ & Hc & F & D & K).
  split_and!; [done| |done|done]. intros p. simpl. rewrite D. unfold refs. simpl. case_decide; lia.
Qed.

(** ** Code that can be suspended *)

(** What threads are like at switches, and between operations: the running
    thread is not done, and one that is has only its first frame left, which is
    destroyed with it. *)
Record settled (s : st) : Prop := {
  se_ids : NoDup (t_id <$> threads (s_in s));
  se_fresh : ∀ t, t ∈ threads (s_in s) → (t_id t < s_tids s)%N;
  se_fg : ∃ t, find_thread (fg (s_in s)) (threads (s_in s)) = Some t ∧ t_done t = false;
  se_lean : ∀ t, t ∈ threads (s_in s) → t_done t = true → ∃ f, t_curr t = [f]
}.

Record calm (s : st) : Prop := {
  ca_fine : st_fine s;
  ca_settled : settled s
}.

(** Facts last. *)
Definition later (s s' : st) : Prop := ∀ o, l_knows s o → l_knows s' o.

#[export] Instance later_preorder : PreOrder later.
Proof. split; [by intros s o|]. intros s1 s2 s3 H1 H2 o Ho. by apply H2, H1. Qed.

Lemma later_known s s' Γ : later s s' → Forall (l_knows s) Γ → Forall (l_knows s') Γ.
Proof. intros Hl Hk. by eapply Forall_impl. Qed.

Definition awake (t : N) (s : st) : Prop := ∃ x, info_at t s = Some x ∧ is_done x = false.

(** The entries are at most [e] when the run starts from [s0], and when it ends
    at most [d] more; while it is suspended they can become what they will, as
    long as it gets back the [c] it holds. *)
Fixpoint accounts {A} (r : res A) (s0 : st) (e : loc → Z) (d : A → loc → Z)
    (Γ' : A → list loc) : Prop :=
  match r with
  | Ret a s =>
      calm s ∧ later s0 s ∧ (∀ o, l_due s o ≤ e o + d a o) ∧ Forall (l_knows s) (Γ' a)
  | Fault | NoFuel => True
  | Susp t s k =>
      calm s ∧ later s0 s ∧ awake t s ∧ ∃ c, (∀ o, l_due s o ≤ e o + c o) ∧
        ∀ s' e', calm s' → later s s' → (∀ o, l_due s' o ≤ e' o + c o) →
          accounts (k s') s' e' d Γ'
  end.

Definition pays {A} (Γ : list loc) (m : IM A) (d : A → loc → Z) (Γ' : A → list loc) : Prop :=
  ∀ s e, calm s → Forall (l_knows s) Γ → (∀ o, l_due s o ≤ e o) → accounts (m s) s e d Γ'.

Abbreviation pays_all Γ m := (pays Γ m nothing no_facts).

Section rules.
Context {A : Type}.
Implicit Types (r : res A) (m : IM A).

Lemma accounts_later r s0 s1 e d Γ' : later s0 s1 → accounts r s1 e d Γ' → accounts r s0 e d Γ'.
Proof.
  intros Hl. destruct r as [a s| | |t s k]; cbn [accounts]; [|done..|].
  - intros (H1 & H2 & H3). split_and!; [done|by etrans|apply H3..].
  - intros (H1 & H2 & H3 & H4). split_and!; [done|by etrans|done|done].
Qed.

Lemma accounts_conseq r s0 e Γ d1 d2 Γ1 Γ2 :
  accounts r s0 e d1 Γ1 → Forall (l_knows s0) Γ →
  (∀ a o, d1 a o ≤ d2 a o) → (∀ a, Γ2 a ⊆ Γ1 a ++ Γ) → accounts r s0 e d2 Γ2.
Proof.
  intros Hr Hk Hd HΓ. revert s0 e Hr Hk.
  induction r as [a s| | |t s k IH]; intros s0 e Hr Hk; cbn [accounts res_bind] in *; [|done..|].
  - destruct Hr as (H1 & H2 & H3 & H4). split_and!; [done|done| |].
    + intros o. specialize (H3 o). specialize (Hd a o). lia.
    + pose proof (later_known _ _ _ H2 Hk) as Hk'. rewrite Forall_forall in H4, Hk' |- *.
      intros o [Ho|Ho]%HΓ%elem_of_app; auto.
  - destruct Hr as (H1 & H2 & Haw & c & H3 & H4). split_and!; [done|done|done|]. exists c. split; [done|].
    intros s' e' Hc Hl Hdue. apply IH; [by apply H4|]. eapply later_known; [exact Hl|].
    by eapply later_known.
Qed.

(** What the run holds when it starts is part of what it can return. *)
Lemma accounts_shift r s0 e c d Γ' :
  accounts r s0 (λ o, e o + c o) (λ a o, d a o - c o) Γ' → accounts r s0 e d Γ'.
Proof.
  revert s0 e. induction r as [a s| | |t s k IH]; intros s0 e Hr; cbn [accounts res_bind] in *; [|done..|].
  - destruct Hr as (H1 & H2 & H3 & H4). split_and!; [done|done| |done].
    intros o. specialize (H3 o). lia.
  - destruct Hr as (H1 & H2 & Haw & c1 & H3 & H4). split_and!; [done|done|done|].
    exists (λ o, c o + c1 o). split; [intros o; specialize (H3 o); lia|].
    intros s' e' Hc Hl Hdue. apply IH, H4; [done|done|]. intros o. specialize (Hdue o). lia.
Qed.
End rules.

Lemma accounts_bind {A B} (r : res A) (f : A → IM B) s0 e Γ d1 Γ1 d Γ2 :
  accounts r s0 e d1 Γ1 → Forall (l_knows s0) Γ →
  (∀ a s e', calm s → Forall (l_knows s) (Γ1 a ++ Γ) → (∀ o, l_due s o ≤ e' o + d1 a o) →
    accounts (f a s) s e' d Γ2) →
  accounts (res_bind r f) s0 e d Γ2.
Proof.
  intros Hr Hk Hf. revert s0 e Hr Hk.
  induction r as [a s| | |t s k IH]; intros s0 e Hr Hk; cbn [accounts res_bind] in *; [|done..|].
  - destruct Hr as (H1 & H2 & H3 & H4). eapply accounts_later; [exact H2|]. apply Hf; [done| |done].
    apply Forall_app. split; [done|]. by eapply later_known.
  - destruct Hr as (H1 & H2 & Haw & c & H3 & H4). split_and!; [done|done|done|]. exists c. split; [done|].
    intros s' e' Hc Hl Hdue. apply IH; [by apply H4|]. eapply later_known; [exact Hl|].
    by eapply later_known.
Qed.

Lemma pays_ext {A} Γ (m m' : IM A) d Γ' : (∀ s, m s = m' s) → pays Γ m d Γ' → pays Γ m' d Γ'.
Proof. intros E Hm s e Hc Hk Hd. rewrite <- E. by apply Hm. Qed.

Lemma pays_weaken {A} Γ1 Γ2 (m : IM A) d1 d2 Γ1' Γ2' :
  pays Γ1 m d1 Γ1' → Γ1 ⊆ Γ2 → (∀ a o, d1 a o ≤ d2 a o) → (∀ a, Γ2' a ⊆ Γ1' a ++ Γ2) →
  pays Γ2 m d2 Γ2'.
Proof.
  intros Hm HΓ Hd HΓ' s e Hc Hk Hdue. eapply accounts_conseq; [|exact Hk|done|done].
  apply Hm; [done| |done]. rewrite Forall_forall in Hk |- *. auto.
Qed.

Lemma pays_conseq {A} Γ (m : IM A) d1 d2 Γ1 Γ2 :
  pays Γ m d1 Γ1 → (∀ a o, d1 a o ≤ d2 a o) → (∀ a, Γ2 a ⊆ Γ1 a ++ Γ) → pays Γ m d2 Γ2.
Proof. intros Hm. by apply (pays_weaken _ _ _ _ _ _ _ Hm). Qed.

Lemma pays_bind {A B} Γ (m : IM A) (f : A → IM B) d1 Γ1 d Γ2 :
  pays Γ m d1 Γ1 → (∀ a, pays (Γ1 a ++ Γ) (f a) (λ b o, d b o - d1 a o) Γ2) →
  pays Γ (m ≫= f) d Γ2.
Proof.
  intros Hm Hf s e Hc Hk Hd. eapply accounts_bind; [by apply Hm|exact Hk|].
  intros a s' e' Hc' Hk' Hd'. apply (accounts_shift _ _ _ (d1 a)). by apply Hf.
Qed.

Lemma pays_assoc {A B C} Γ (m : IM A) (f : A → IM B) (g : B → IM C) d Γ' :
  pays Γ (m ≫= λ a, f a ≫= g) d Γ' → pays Γ ((m ≫= f) ≫= g) d Γ'.
Proof.
  intros Hm s e Hc Hk Hdue. specialize (Hm s e Hc Hk Hdue). unfold mbind, IM_bind in *.
  revert Hm. generalize (m s). clear. intros r. revert s e.
  induction r as [a s'| | |t s' k IH]; intros s e Hm; cbn [accounts res_bind] in *; [done..|].
  destruct Hm as (H1 & H2 & Haw & c & H3 & H4). split_and!; [done|done|done|]. exists c. split; [done|].
  intros s2 e' Hc Hl Hdue. by apply IH, H4.
Qed.

Lemma pays_then {A B} Γ (m : IM A) (f : A → IM B) Γ1 d Γ2 :
  pays Γ m nothing Γ1 → (∀ a, pays (Γ1 a ++ Γ) (f a) d Γ2) → pays Γ (m ≫= f) d Γ2.
Proof.
  intros Hm Hf. eapply pays_bind; [exact Hm|]. intros a.
  eapply pays_conseq; [apply Hf| |set_solver]. intros b o. simpl. lia.
Qed.

Lemma pays_ret {A} Γ (a : A) (d : A → loc → Z) Γ' :
  (∀ o, d a o = 0) → Γ' a ⊆ Γ → pays Γ (mret (M := IM) a) d Γ'.
Proof.
  intros Hd HΓ s e Hc Hk Hdue. split_and!; [done|done| |].
  - intros o. specialize (Hdue o). rewrite Hd. lia.
  - rewrite Forall_forall in Hk |- *. auto.
Qed.
Lemma pays_nofuel {A} Γ d Γ' : pays Γ (@nofuel A) d Γ'.
Proof. done. Qed.
Lemma pays_ub {A} Γ d Γ' : pays Γ (lift (@ub st A)) d Γ'.
Proof. done. Qed.
Lemma pays_oof {A} Γ d Γ' : pays Γ (lift (@oof st A)) d Γ'.
Proof. done. Qed.
Lemma pays_m_ub {A} Γ d Γ' : pays Γ (@m_ub IM _ A) d Γ'.
Proof. done. Qed.
Lemma pays_m_oof {A} Γ d Γ' : pays Γ (@m_oof IM _ A) d Γ'.
Proof. done. Qed.
Lemma pays_if {A} Γ (b : bool) (m1 m2 : IM A) d Γ' :
  pays Γ m1 d Γ' → pays Γ m2 d Γ' → pays Γ (if b then m1 else m2) d Γ'.
Proof. by destruct b. Qed.
Lemma pays_deref {A B} Γ (x : option A) (f : A → IM B) d Γ' :
  (∀ a, x = Some a → pays Γ (f a) d Γ') → pays Γ (lift (deref x) ≫= f) d Γ'.
Proof. destruct x as [a|]; intros Hf; [by apply Hf|done]. Qed.

(** *** Code that does not switch threads *)

Lemma view_settled s s' : view s' = view s → settled s → settled s'.
Proof.
  intros Hv [Hi Hfr Hfg Hl]. pose proof (view_eq _ _ Hv) as (Es & Efg & Et). split.
  - replace (t_id <$> threads (s_in s')) with (t_id <$> threads (s_in s)); [done|].
    transitivity (t_id <$> shape s); [|rewrite <- Es]; unfold shape;
      by rewrite <- list_fmap_compose.
  - intros t (u & Hu & [= <- _ _ _ _ _ _ _])%(view_elem s); [|done]. rewrite Et. by apply Hfr.
  - destruct Hfg as (t & Ht & Hd). rewrite Efg.
    assert (info_at (fg (s_in s)) s' = Some (info t)) as Hinfo.
    { rewrite (view_info s s') by done. unfold info_at. by rewrite Ht. }
    apply fmap_Some in Hinfo as (t' & Ht' & E). exists t'. split; [done|]. unfold info in E. congruence.
  - intros t (u & Hu & [= _ E1 _ _ _ _ E2 _])%(view_elem s); [|done]. rewrite <- E1, <- E2. by apply Hl.
Qed.

Definition soothes {A} (m : M st A) : Prop :=
  ∀ s a s', settled s → m s = Done (a, s') → settled s'.

Lemma quiet_soothes {A} (m : M st A) : quiet m → soothes m.
Proof. intros Hm s a s' Hc E. eapply view_settled; [by eapply Hm|done]. Qed.
Lemma soothes_bind {A B} (m : M st A) (f : A → M st B) :
  soothes m → (∀ a, soothes (f a)) → soothes (m ≫= f).
Proof. intros Hm Hf s b s' Hs (a & s1 & H1 & H2)%bind_Done. by eapply Hf, H2; eapply Hm, H1. Qed.

Lemma pays_lift {A} Γ (m : M st A) d Γ' : soothes m → lowers Γ m d Γ' → pays Γ (lift m) d Γ'.
Proof.
  intros Hs Hm s e Hc Hk Hdue. unfold lift. destruct (m s) as [[a s']| |] eqn:E; [|done..].
  destruct (Hm s a s' (ca_fine _ Hc) Hk E) as (F & D & K & N).
  split_and!; [split; [done|]|done| |done].
  - eapply Hs; [apply Hc|exact E].
  - intros o. specialize (D o). specialize (Hdue o). lia.
Qed.

Lemma pays_quiet {A} Γ (m : M st A) d Γ' : quiet m → changes Γ m d Γ' → pays Γ (lift m) d Γ'.
Proof. intros Hq Hm. apply pays_lift; [by apply quiet_soothes|by apply lowers_changes]. Qed.
Lemma pays_hp {A} Γ (m : HM A) d Γ' : lowers Γ m d Γ' → pays Γ (hp m) d Γ'.
Proof. intros Hm. apply pays_lift; [apply quiet_soothes, quiet_on_heap|by apply lowers_on_heap]. Qed.
Lemma pays_heap {A} Γ (m : HM A) d Γ' : changes Γ m d Γ' → pays Γ (hp m) d Γ'.
Proof. intros Hm. by apply pays_hp, lowers_changes. Qed.

(** Two pieces of code with no switch in between are one. *)
Lemma lift_fuse {A B C} (m : M st A) (f : A → M st B) (g : B → IM C) s :
  (lift (m ≫= f) ≫= g) s = (lift m ≫= λ a, lift (f a) ≫= g) s.
Proof.
  unfold mbind, IM_bind, M_bind, lift. by destruct (m s) as [[a s1]| |].
Qed.
Lemma hp_fuse {A B C} (m : HM A) (f : A → HM B) (g : B → IM C) s :
  (hp (m ≫= f) ≫= g) s = (hp m ≫= λ a, hp (f a) ≫= g) s.
Proof.
  unfold hp, mbind, IM_bind, M_bind, lift, on_heap, zoom.
  destruct (m (s_heap s)) as [[a h1]| |]; [|done..]. simpl. by destruct (f a h1) as [[b h2]| |].
Qed.

Lemma lift_bind {A B} (m : M st A) (f : A → M st B) s :
  (lift m ≫= λ a, lift (f a)) s = lift (m ≫= f) s.
Proof. unfold mbind, IM_bind, M_bind, lift. by destruct (m s) as [[a s1]| |]. Qed.

(** ** Automation *)

Create HintDb dues.

Lemma pays_mret {A} Γ (a : A) : pays_all Γ (mret (M := IM) a).
Proof. apply pays_ret; [done|apply list_subseteq_nil]. Qed.
#[export] Hint Resolve pays_mret : dues.

Lemma pays_destroy Γ o : pays Γ (hp (b6b_destroy o)) (λ _ p, - refs [o] p) no_facts.
Proof. apply pays_hp, lowers_destroy. Qed.
#[export] Hint Resolve pays_destroy : dues.

#[export] Hint Extern 2 (pays _ (hp _) _ _) =>
  (apply pays_heap; solve [eauto 3 with refs]) : dues.
#[export] Hint Extern 2 (pays _ (lift _) _ _) =>
  (apply pays_quiet; [solve [quiet_tac]|solve [eauto 3 with refs]]) : dues.
#[export] Hint Extern 1 (_ ∈ _) => set_solver : dues.

Ltac pays_tail := eapply pays_conseq; [solve [eauto 3 with dues]|entries|known].

(** Walks through code like [change_step]. *)
Ltac pays_step :=
  first
    [ match goal with |- pays _ (mret _) _ _ => apply pays_ret; [entries|known] end
    | match goal with
      | |- pays _ nofuel _ _ => apply pays_nofuel
      | |- pays _ (lift ub) _ _ => apply pays_ub
      | |- pays _ (lift oof) _ _ => apply pays_oof
      | |- pays _ m_ub _ _ => apply pays_m_ub
      | |- pays _ m_oof _ _ => apply pays_m_oof
      end
    | match goal with |- pays _ (lift (deref ?x) ≫= _) _ _ =>
        is_var x; apply pays_deref; intros ? -> end
    | match goal with |- pays _ (_ ≫= _) _ _ =>
        first [ eapply pays_bind; [solve [eauto 3 with dues]|intros ?]
              | eapply pays_then; [solve [repeat pays_step]|intros ?] ] end
    | pays_tail
    | match goal with |- pays _ (if _ then _ else _) _ _ => apply pays_if end
    | case_match
    | progress (cbv zeta; cbn beta iota) ].
Ltac pays := repeat pays_step.

(** For procedures: the facts that a format gives are computed. *)
Ltac pays_proc :=
  repeat first
    [ progress match goal with |- context [list_args ?f ?a ?o] =>
        let G := eval vm_compute in (list_args f a o) in change (list_args f a o) with G end
    | pays_step ].

(** ** Changes of the thread list *)

Lemma soothes_update_fg f :
  (∀ t, t_id (f t) = t_id t ∧ t_done (f t) = t_done t) → soothes (update_fg f).
Proof.
  intros Hf s [] s' [Hi Hfr (t & Ht & Hd) Hl] [= <-].
  assert (∀ u, t_id (f u) = t_id u) as Hid by apply Hf. split; simpl.
  - by rewrite map_thread_ids.
  - intros v (u & Hu & ->)%elem_of_map_thread. pose proof (Hfr u Hu). case_decide; by rewrite ?Hid.
  - exists (f t). rewrite find_thread_map, decide_True, Ht by done. split; [done|].
    by rewrite (proj2 (Hf t)).
  - intros v (u & Hu & ->)%elem_of_map_thread. case_decide as Hv; [|by apply Hl].
    rewrite (proj2 (Hf u)). intros Hdu. pose proof (find_thread_elem _ _ Hi Hu) as Hfu. congruence.
Qed.

Lemma quiet_fg {A} (f : b6b_thread → M st A) : (∀ t, soothes (f t)) → soothes (t ← fg_thread; f t).
Proof. intros Hf. apply soothes_bind; [apply quiet_soothes; quiet_tac|done]. Qed.

(** *** [b6b_frame_push], [b6b_frame_pop] *)

Lemma changes_frame_new Γ : changes Γ b6b_frame_new (λ f, refs (frame_roots f)) frame_roots.
Proof.
  unfold b6b_frame_new. eapply changes_bind; [apply changes_on_heap, changes_list_new|]. intros l.
  eapply changes_bind; [apply changes_on_heap, changes_list_new|]. intros a.
  apply changes_ret; [|set_solver]. intros o. unfold frame_roots. simpl. rewrite refs_two. lia.
Qed.

Lemma changes_frame_destroy Γ f :
  changes Γ (b6b_frame_destroy f) (λ _ o, - refs (frame_roots f) o) no_facts.
Proof.
  unfold b6b_frame_destroy. eapply changes_bind; [apply changes_on_heap, changes_unref|]. intros [].
  eapply changes_conseq; [apply changes_on_heap, changes_unref| |known].
  intros [] o. unfold frame_roots. rewrite refs_two. lia.
Qed.

Lemma changes_push Γ : changes Γ b6b_frame_push nothing opt_roots.
Proof.
  intros s r s' Hf Hk H. unfold b6b_frame_push in H.
  apply bind_Done in H as (t & s1 & [-> Ht]%fg_thread_inv & H).
  destruct (_ <=? _).
  { assert (changes Γ (b6b_return_str (lit "call stack overflow");; mret (@None b6b_frame)) nothing opt_roots)
      as Hr by changes. by eapply Hr. }
  apply bind_Done in H as (f & s1 & H1 & H).
  assert (s_in s1 = s_in s) as Ei.
  { unfold b6b_frame_new in H1. apply bind_Done in H1 as (l & s2 & (h2 & _ & ->)%on_heap_inv & H1).
    by apply bind_Done in H1 as (a & s3 & (h3 & _ & ->)%on_heap_inv & [= _ <-]). }
  destruct (changes_frame_new Γ s f s1 Hf Hk H1) as (F1 & D1 & K1 & N1).
  apply bind_Done in H as ([] & s2 & H2 & [= <- <-]).
  set (g := λ t, with_curr (f :: t_curr t) (u32 (t_depth t + 1)) t) in H2.
  assert (Forall (λ fr, Forall (l_knows s1) (frame_roots fr)) (t_curr (g t))) as Hg.
  { simpl. constructor; [done|]. apply Forall_forall. intros v Hv. apply frames_known; [done|].
    eapply thread_frames; [rewrite Ei; exact Ht|done]. }
  rewrite <- Ei in Ht.
  destruct (update_fg_changes Γ s1 t g tt s2 F1 ltac:(by eapply Forall_impl) Ht eq_refl Hg H2)
    as (F2 & D2 & K2).
  split_and!; [done| |auto|by eapply Forall_impl]. intros o. rewrite D2, D1.
  assert (∀ r l o, refs (r :: option_list (t_fn t) ++ l) o =
    refs [r] o + refs (option_list (t_fn t)) o + refs l o) as E.
  { intros r l p. rewrite (refs_cons r (_ ++ _)), refs_app. lia. }
  unfold thread_roots, g. cbn [t_ret t_fn t_curr with_curr]. rewrite !E.
  change (frames_roots (f :: t_curr t)) with (frame_roots f ++ frames_roots (t_curr t)).
  rewrite refs_app. lia.
Qed.

Lemma soothes_push : soothes b6b_frame_push.
Proof.
  apply quiet_fg. intros t. destruct (_ <=? _); [apply quiet_soothes; quiet_tac|].
  apply soothes_bind; [apply quiet_soothes; quiet_tac|]. intros f.
  apply soothes_bind; [by apply soothes_update_fg|]. intros []. apply quiet_soothes. quiet_tac.
Qed.

Lemma on_heap_in {A} (m : HM A) s a s' : on_heap m s = Done (a, s') → s_in s' = s_in s.
Proof. by intros (h & _ & ->)%on_heap_inv. Qed.

Lemma frame_destroy_in f s u s' : b6b_frame_destroy f s = Done (u, s') → s_in s' = s_in s.
Proof.
  unfold b6b_frame_destroy. intros ([] & s1 & H1%on_heap_in & H2%on_heap_in)%bind_Done. congruence.
Qed.

Lemma keeps_pop Γ : keeps Γ b6b_frame_pop.
Proof.
  intros s [] s' Hf Hk H. unfold b6b_frame_pop in H.
  apply bind_Done in H as (t & s1 & [-> Ht]%fg_thread_inv & H).
  destruct (t_curr t) as [|f fs] eqn:Ec; [done|].
  apply bind_Done in H as ([] & s1 & H1 & H).
  pose proof (frame_destroy_in _ _ _ _ H1) as Ei.
  destruct (changes_frame_destroy Γ f s tt s1 Hf Hk H1) as (F1 & D1 & K1 & _).
  set (g := λ t, with_curr fs (u32 (t_depth t - 1)) t) in H. rewrite <- Ei in Ht.
  assert (Forall (λ fr, Forall (l_knows s1) (frame_roots fr)) (t_curr (g t))) as Hg.
  { simpl. apply Forall_forall. intros v Hv. apply frames_known; [done|].
    eapply thread_frames; [exact Ht|]. rewrite Ec. by right. }
  destruct (update_fg_changes Γ s1 t g tt s' F1 ltac:(by eapply Forall_impl) Ht eq_refl Hg H)
    as (F2 & D2 & K2).
  split_and!; [done| |auto|done]. intros o. rewrite D2, D1.
  assert (∀ l, refs (t_ret t :: option_list (t_fn t) ++ l) o =
    refs [t_ret t] o + refs (option_list (t_fn t)) o + refs l o) as E.
  { intros l. rewrite (refs_cons (t_ret t) (_ ++ _)), refs_app. lia. }
  unfold thread_roots, g. cbn [t_ret t_fn t_curr with_curr]. rewrite !E, Ec.
  change (frames_roots (f :: fs)) with (frame_roots f ++ frames_roots fs).
  rewrite refs_app. lia.
Qed.

Lemma soothes_pop : soothes b6b_frame_pop.
Proof.
  apply quiet_fg. intros t. destruct (t_curr t) as [|f fs]; [by intros ? ? ? ? [=]|].
  apply soothes_bind; [apply quiet_soothes; unfold b6b_frame_destroy; quiet_tac|]. intros [].
  by apply soothes_update_fg.
Qed.

Lemma pays_push Γ : pays Γ (lift b6b_frame_push) nothing opt_roots.
Proof. apply pays_lift; [apply soothes_push|apply lowers_changes, changes_push]. Qed.
Lemma pays_pop Γ : pays_all Γ (lift b6b_frame_pop).
Proof. apply pays_lift; [apply soothes_pop|apply lowers_changes, keeps_pop]. Qed.
#[export] Hint Resolve pays_push pays_pop : dues.

(** *** [b6b_thread_block], [b6b_thread_unblock] *)

Lemma keeps_blocked Γ b : keeps Γ (update_fg (with_blocked b)).
Proof.
  intros s [] s' Hf Hk H.
  assert (∃ s1, s1 = s ∧ update_fg (with_blocked b) s1 = Done (tt, s')) as (s1 & -> & H1) by by exists s.
  destruct (find_thread (fg (s_in s)) (threads (s_in s))) as [t|] eqn:Ht.
  - assert (Forall (λ fr, Forall (l_knows s) (frame_roots fr)) (t_curr (with_blocked b t))) as Hg.
    { apply Forall_forall. intros v Hv. apply frames_known; [done|]. by eapply thread_frames. }
    destruct (update_fg_changes Γ s t (with_blocked b) tt s' Hf Hk Ht eq_refl Hg H) as (F & D & K).
    split_and!; [done| |done|done]. intros o. rewrite D. unfold thread_roots. simpl. lia.
  - injection H as <-. assert (map_thread (fg (s_in s)) (with_blocked b) (threads (s_in s)) = threads (s_in s)) as E.
    { revert Ht. clear. unfold map_thread. induction (threads (s_in s)) as [|t ts IH]; [done|].
      rewrite find_thread_cons, fmap_cons. case_decide; [done|]. intros Ht. by rewrite IH. }
    assert (mkSt (s_heap s) (with_threads (map_thread (fg (s_in s)) (with_blocked b) (threads (s_in s))) (s_in s))
      (s_tids s) (s_err s) = s) as ->.
    { rewrite E. by destruct s as [h [] n e]. }
    split_and!; [done| |done|done]. intros o. lia.
Qed.

Lemma pays_blocked Γ b : pays_all Γ (lift (update_fg (with_blocked b))).
Proof. apply pays_lift; [by apply soothes_update_fg|apply lowers_changes, keeps_blocked]. Qed.
#[export] Hint Resolve pays_blocked : dues.

(** *** [b6b_start] *)

Lemma changes_prep Γ id fn nl :
  changes Γ (b6b_thread_prep id fn nl) (λ t, refs (thread_roots t)) (λ t, frames_roots (t_curr t)).
Proof.
  unfold b6b_thread_prep. eapply changes_bind; [apply changes_frame_new|]. intros f.
  eapply changes_bind; [apply changes_on_heap, changes_ref|]. intros a.
  eapply changes_bind; [apply changes_on_heap, changes_ref|]. intros b.
  apply changes_ret.
  - intros o. unfold thread_roots. cbn [t_ret t_fn t_curr option_list app].
    change (frames_roots [f]) with (frame_roots f ++ []). rewrite app_nil_r.
    rewrite (refs_cons nl), (refs_cons fn (frame_roots f)). lia.
  - unfold frames_roots. simpl. set_solver.
Qed.

Lemma prep_in id fn nl s t s' :
  b6b_thread_prep id fn nl s = Done (t, s') →
  s_in s' = s_in s ∧ s_tids s' = s_tids s ∧ ∃ f, t = mkThread id [f] (Some fn) nl 1 true false false false.
Proof.
  unfold b6b_thread_prep, b6b_frame_new.
  intros (f & s1 & H1 & H)%bind_Done. apply bind_Done in H1 as (l & s2 & (h2 & _ & ->)%on_heap_inv & H1).
  apply bind_Done in H1 as (a & s3 & (h3 & _ & ->)%on_heap_inv & [= <- <-]).
  apply bind_Done in H as (x & s4 & (h4 & _ & ->)%on_heap_inv & H).
  apply bind_Done in H as (y & s5 & (h5 & _ & ->)%on_heap_inv & [= <- <-]). eauto.
Qed.

Lemma insert_after_split id t ts :
  (∃ l1 l2, ts = l1 ++ l2 ∧ insert_after id t ts = l1 ++ t :: l2) ∨ insert_after id t ts = ts ∧ id ∉ t_id <$> ts.
Proof.
  induction ts as [|u ts IH]; simpl; [right; split; [done|apply not_elem_of_nil]|].
  case_decide as Hu.
  - left. by exists [u], ts.
  - destruct IH as [(l1 & l2 & -> & ->)|[-> Hn]]; [left; by exists (u :: l1), l2|right].
    split; [done|]. by rewrite not_elem_of_cons.
Qed.

Lemma threads_roots_mid l1 t l2 o :
  refs (threads_roots (l1 ++ t :: l2)) o = refs (threads_roots (l1 ++ l2)) o + refs (thread_roots t) o.
Proof.
  rewrite !threads_roots_app. change (threads_roots (t :: l2)) with (thread_roots t ++ threads_roots l2).
  rewrite !refs_app. lia.
Qed.

(** Adding a thread, and removing one. *)
Lemma thread_in_out s l1 t l2 n :
  let with_ts ts := mkSt (s_heap s) (with_threads ts (s_in s)) n (s_err s) in
  (∀ o, l_due (with_ts (l1 ++ t :: l2)) o = l_due (with_ts (l1 ++ l2)) o - refs (thread_roots t) o) ∧
  (st_fine (with_ts (l1 ++ t :: l2)) ↔ st_fine (with_ts (l1 ++ l2)) ∧ t_id t ∉ t_id <$> l1 ++ l2 ∧
    Forall (λ f, Forall (listy (s_heap s)) (frame_roots f)) (t_curr t)).
Proof.
  intros with_ts. split.
  - intros o. cbn [l_due st_ledger s_heap s_in with_ts]. unfold interp_roots.
    rewrite !app_assoc, !refs_app. cbn [threads with_threads null zero one dot at_ us global].
    rewrite threads_roots_mid. lia.
  - assert (NoDup (t_id <$> l1 ++ t :: l2) ↔ NoDup (t_id <$> l1 ++ l2) ∧ t_id t ∉ t_id <$> l1 ++ l2) as Hi.
    { rewrite !fmap_app, fmap_cons, <- (Permutation_middle (t_id <$> l1)), NoDup_cons. tauto. }
    assert (Forall (λ f, Forall (listy (s_heap s)) (frame_roots f))
        (interp_frames (s_in (with_ts (l1 ++ t :: l2)))) ↔
      Forall (λ f, Forall (listy (s_heap s)) (frame_roots f))
        (interp_frames (s_in (with_ts (l1 ++ l2)))) ∧
      Forall (λ f, Forall (listy (s_heap s)) (frame_roots f)) (t_curr t)) as Hf.
    { unfold interp_frames. cbn [s_in with_ts global with_threads threads].
      rewrite !fmap_app, fmap_cons, !concat_app, !Forall_cons, !Forall_app. simpl.
      rewrite Forall_app. tauto. }
    split.
    + intros [A B C]. split_and!; [split|..]; tauto.
    + intros ([A B C] & D & E). split; tauto.
Qed.

Lemma pays_start Γ stmts : pays_all Γ (lift (b6b_start stmts)).
Proof.
  intros s e [Hf Hse] Hk Hdue. unfold lift. destruct (b6b_start stmts s) as [[ok s']| |] eqn:H; [|done..].
  unfold b6b_start, b6b_thread_new in H. apply bind_Done in H as (s1 & s2 & [= <- <-] & H).
  apply bind_Done in H as (t & s3 & Ht & H).
  apply bind_Done in Ht as (s4 & s5 & [= <- <-] & Ht).
  apply bind_Done in Ht as ([] & s6 & [= <-] & Ht).
  set (s0 := mkSt (s_heap s) (s_in s) (N.succ (s_tids s)) (s_err s)) in Ht.
  assert (st_fine s0) as Hf0 by (destruct Hf; by split).
  destruct (changes_prep Γ _ _ _ s0 t s3 Hf0 Hk Ht) as (F3 & D3 & K3 & N3).
  destruct (prep_in _ _ _ _ _ _ Ht) as (Ei & Et & f & ->). cbn [s_in s_tids s0] in Ei, Et.
  apply bind_Done in H as ([] & s7 & [= <-] & [= _ <-]). rewrite Ei.
  set (t := mkThread (s_tids s) [f] (Some stmts) (null (s_in s)) 1 true false false false) in *.
  cbn [b6b_thread_push]. destruct Hse as [S1 S2 S3 S4].
  assert (fg (s_in s) ∈ t_id <$> threads (s_in s)) as Hfg.
  { destruct S3 as (u & [Hu <-]%find_thread_Some & _). by apply list_elem_of_fmap_2. }
  destruct (insert_after_split (fg (s_in s)) t (threads (s_in s))) as [(l1 & l2 & E & E')|[_ ?]];
    [|done]. rewrite E'.
  assert (s_tids s ∉ t_id <$> threads (s_in s)) as Hnew.
  { intros (u & Hid & Hu)%list_elem_of_fmap. pose proof (S2 u Hu). lia. }
  destruct (thread_in_out s3 l1 t l2 (s_tids s3)) as [Hd Hfi].
  assert (mkSt (s_heap s3) (with_threads (l1 ++ l2) (s_in s3)) (s_tids s3) (s_err s3) = s3) as E3.
  { rewrite <- E, Ei. destruct s3 as [h3 i3 n3 e3]. simpl in Ei. subst i3. by destruct (s_in s). }
  rewrite E3 in Hd, Hfi. rewrite <- Ei in *. rewrite E in Hnew, S1, S2.
  split_and!; [split; [|split; simpl]| | |done].
  - apply Hfi. split_and!; [done|done|]. constructor; [exact N3|done].
  - rewrite fmap_app, fmap_cons, <- Permutation_middle. apply NoDup_cons. rewrite <- fmap_app. done.
  - intros u Hu. rewrite Et. assert (u = t ∨ u ∈ l1 ++ l2) as [->|Hu'] by set_solver; [simpl; lia|].
    pose proof (S2 u Hu'). lia.
  - destruct S3 as (u & Hu & Hd'). exists u. split; [|done]. rewrite <- E', insert_after_find; [|done|by rewrite E].
    rewrite decide_False; [done|]. intros Heq. rewrite E in Hfg. simpl in Heq. congruence.
  - intros u Hu Hdu. assert (u = t ∨ u ∈ l1 ++ l2) as [->|Hu'] by set_solver; [done|].
    apply S4; [by rewrite E|done].
  - intros o Ho. apply K3. exact Ho.
  - intros o. rewrite Hd, D3. specialize (Hdue o). change (l_due s0 o) with (l_due s o). lia.
Qed.
#[export] Hint Resolve pays_start : dues.

(** *** [b6b_wait] *)

Lemma changes_thread_destroy Γ t f :
  t_curr t = [f] → changes Γ (b6b_thread_destroy t) (λ _ o, - refs (thread_roots t) o) no_facts.
Proof.
  intros Ht. unfold b6b_thread_destroy. rewrite Ht.
  eapply changes_bind; [apply changes_on_heap, changes_unref|]. intros [].
  assert (changes ([] ++ Γ) match t_fn t with Some fn => on_heap (b6b_unref fn) | None => mret tt end
    (λ _ o, - refs (option_list (t_fn t)) o) no_facts) as Hfn.
  { destruct (t_fn t); [apply changes_on_heap, changes_unref|apply changes_ret; [entries|known]]. }
  eapply changes_bind; [exact Hfn|]. intros [].
  eapply changes_conseq; [apply changes_frame_destroy| |known].
  intros [] o. unfold thread_roots. rewrite Ht. change (frames_roots [f]) with (frame_roots f ++ []).
  rewrite app_nil_r, (refs_cons (t_ret t)), refs_app. lia.
Qed.

Lemma thread_destroy_in t s u s' :
  b6b_thread_destroy t s = Done (u, s') → s_in s' = s_in s ∧ s_tids s' = s_tids s.
Proof.
  unfold b6b_thread_destroy.
  intros ([] & s1 & (h1 & _ & ->)%on_heap_inv & H)%bind_Done.
  apply bind_Done in H as ([] & s2 & H2 & H).
  assert (s_in s2 = s_in s ∧ s_tids s2 = s_tids s) as [E1 E2].
  { destruct (t_fn t); [by apply on_heap_inv in H2 as (h2 & _ & ->)|by injection H2 as <-]. }
  destruct (t_curr t); [done|]. unfold b6b_frame_destroy in H.
  apply bind_Done in H as ([] & s3 & (h3 & _ & ->)%on_heap_inv & H).
  by apply on_heap_inv in H as (h4 & _ & ->).
Qed.

Lemma filter_thread l1 t l2 :
  NoDup (t_id <$> l1 ++ t :: l2) → filter (λ u, t_id u ≠ t_id t) (l1 ++ t :: l2) = l1 ++ l2.
Proof.
  rewrite fmap_app, fmap_cons, NoDup_app, NoDup_cons. intros (_ & N1 & N2 & _).
  assert (∀ l : list b6b_thread, t_id t ∉ t_id <$> l → filter (λ u, t_id u ≠ t_id t) l = l) as Hl.
  { clear. induction l as [|u l IH]; [done|]. rewrite fmap_cons, not_elem_of_cons. intros [H1 H2].
    rewrite filter_cons_True by congruence. by rewrite IH. }
  rewrite filter_app, filter_cons_False by (intros ?; done). rewrite !Hl; [done|done|].
  intros Hin. apply (N1 _ Hin). by left.
Qed.

(** One thread that is done is removed and destroyed. *)
Lemma thread_pop_calm t s u s' :
  calm s → t ∈ threads (s_in s) → t_done t = true → b6b_thread_pop t s = Done (u, s') →
  calm s' ∧ later s s' ∧ (∀ o, l_due s' o = l_due s o) ∧ fg (s_in s') = fg (s_in s) ∧
  ∀ v, v ∈ threads (s_in s') ↔ v ∈ threads (s_in s) ∧ t_id v ≠ t_id t.
Proof.
  intros [Hf [S1 S2 S3 S4]] Ht Hd H. destruct (S4 t Ht Hd) as [f Hfr].
  apply list_elem_of_split in Ht as (l1 & l2 & E).
  unfold b6b_thread_pop in H. apply bind_Done in H as ([] & s1 & [= <-] & H).
  rewrite E in S1. rewrite E in H. rewrite (filter_thread _ _ _ S1) in H.
  destruct (thread_in_out s l1 t l2 (s_tids s)) as [Hdue Hfi].
  assert (mkSt (s_heap s) (with_threads (l1 ++ t :: l2) (s_in s)) (s_tids s) (s_err s) = s) as Es.
  { rewrite <- E. by destruct s as [h [] n e]. }
  rewrite Es in Hdue, Hfi. destruct (proj1 Hfi Hf) as (Hf1 & Hid & _).
  destruct (changes_thread_destroy [] t f Hfr _ _ _ Hf1 (Forall_nil_2 _) H) as (F & D & K & _).
  destruct (thread_destroy_in _ _ _ _ H) as [Ei Et]. cbn [s_in s_tids] in Ei, Et.
  assert (∀ v, v ∈ l1 ++ l2 ↔ v ∈ threads (s_in s) ∧ t_id v ≠ t_id t) as Hv.
  { intros v. rewrite E. split.
    - intros Hv. split; [set_solver|]. intros Heq. apply Hid. rewrite <- Heq. by apply list_elem_of_fmap_2.
    - intros [Hv Hne]. assert (v = t ∨ v ∈ l1 ++ l2) as [->|?] by set_solver; done. }
  split_and!; [split; [done|split]|exact K| | |]; rewrite ?Ei, ?Et; cbn [threads with_threads fg].
  - rewrite fmap_app, fmap_cons, <- Permutation_middle in S1. apply NoDup_cons in S1 as [_ S1].
    by rewrite fmap_app.
  - intros v [Hin _]%Hv. by apply S2.
  - destruct S3 as (v & [Hin Hvid]%find_thread_Some & Hdv). exists v. split; [|done]. rewrite <- Hvid.
    apply find_thread_elem.
    + rewrite fmap_app, fmap_cons, <- Permutation_middle in S1. apply NoDup_cons in S1 as [_ S1].
      by rewrite fmap_app.
    + apply Hv. split; [done|]. intros Heq.
      assert (find_thread (t_id t) (threads (s_in s)) = Some t) as Hft.
      { apply find_thread_elem; [by rewrite E|]. rewrite E. set_solver. }
      pose proof (find_thread_elem (threads (s_in s)) v ltac:(by rewrite E) Hin). congruence.
  - intros v [Hin _]%Hv. by apply S4.
  - intros o. specialize (Hdue o). specialize (D o). simpl in D, Hdue |- *. lia.
  - done.
  - exact Hv.
Qed.

Lemma ids_unique s v t :
  settled s → v ∈ threads (s_in s) → t ∈ threads (s_in s) → t_id v = t_id t → v = t.
Proof.
  intros Hs Hv Ht E. pose proof (find_thread_elem _ _ (se_ids _ Hs) Hv) as Fv.
  pose proof (find_thread_elem _ _ (se_ids _ Hs) Ht) as Ft. congruence.
Qed.

Lemma wait_loop_calm l s s' :
  calm s → NoDup (t_id <$> l) → (∀ t, t ∈ l → t ∈ threads (s_in s)) →
  miter (λ t, if t_done t then b6b_thread_pop t else mret tt) l s = Done (tt, s') →
  calm s' ∧ later s s' ∧ (∀ o, l_due s' o = l_due s o) ∧ fg (s_in s') = fg (s_in s) ∧
  ∀ v, v ∈ threads (s_in s') ↔ v ∈ threads (s_in s) ∧ (t_done v = true → v ∉ l).
Proof.
  revert s. induction l as [|t l IH]; intros s Hc Hnd Hl H; simpl in H.
  { injection H as <-. split_and!; [done..|]. intros v.
    split; [intros ?; split; [done|intros _; apply not_elem_of_nil]|by intros [? _]]. }
  apply bind_Done in H as ([] & s1 & H1 & H). simpl in Hnd. apply NoDup_cons in Hnd as [Hn Hnd].
  assert (∀ v, v ∈ l → t_id v ≠ t_id t) as Hne.
  { intros v Hv E. apply Hn. rewrite <- E. by apply list_elem_of_fmap_2. }
  destruct (t_done t) eqn:Ed.
  - destruct (thread_pop_calm t s tt s1 Hc (Hl t ltac:(by left)) Ed H1) as (C1 & L1 & D1 & G1 & T1).
    destruct (IH s1 C1 Hnd) as (C2 & L2 & D2 & G2 & T2); [|done|].
    { intros v Hv. apply T1. split; [apply Hl; by right|by apply Hne]. }
    split_and!; [done|by etrans|intros o; by rewrite D2|congruence|].
    intros v. rewrite T2, T1, not_elem_of_cons. split.
    + intros [[Hv Hid] Hdv]. split; [done|]. intros Hdn. split; [congruence|by apply Hdv].
    + intros [Hv Hdv]. split; [split; [done|]|intros Hdn; by apply Hdv]. intros Hid.
      pose proof (ids_unique s v t (ca_settled _ Hc) Hv (Hl t ltac:(by left)) Hid) as ->.
      by destruct (Hdv Ed).
  - injection H1 as <-. destruct (IH s Hc Hnd) as (C2 & L2 & D2 & G2 & T2); [|done|].
    { intros v Hv. apply Hl. by right. }
    split_and!; [done..|]. intros v. rewrite T2, not_elem_of_cons. split.
    + intros [Hv Hdv]. split; [done|]. intros Hdn. split; [congruence|by apply Hdv].
    + intros [Hv Hdv]. split; [done|]. intros Hdn. by apply Hdv.
Qed.

Lemma wait_calm s s' :
  calm s → b6b_wait s = Done (tt, s') →
  calm s' ∧ later s s' ∧ (∀ o, l_due s' o = l_due s o) ∧ fg (s_in s') = fg (s_in s) ∧
  ∀ v, v ∈ threads (s_in s') ↔ v ∈ threads (s_in s) ∧ t_done v = false.
Proof.
  intros Hc H. unfold b6b_wait in H. apply bind_Done in H as (s1 & s2 & [= <- <-] & H).
  destruct (wait_loop_calm _ _ _ Hc (se_ids _ (ca_settled _ Hc)) (λ t Ht, Ht) H) as (C & L & D & G & T).
  split_and!; [done..|]. intros v. rewrite T. split; intros [Hv Hd]; split; [done| |done|congruence].
  destruct (t_done v); [by destruct Hd|done].
Qed.

Lemma pays_wait Γ : pays_all Γ (lift b6b_wait).
Proof.
  intros s e Hc Hk Hdue. unfold lift. destruct (b6b_wait s) as [[[] s']| |] eqn:E; [|done..].
  destruct (wait_calm s s' Hc E) as (C & L & D & _). split_and!; [done|done| |done].
  intros o. rewrite D. specialize (Hdue o). lia.
Qed.
#[export] Hint Resolve pays_wait : dues.

(** *** [b6b_yield] *)

Lemma threads_roots_info ts ts' :
  Forall2 (λ t t', thread_roots t = thread_roots t') ts ts' → threads_roots ts = threads_roots ts'.
Proof. unfold threads_roots. induction 1 as [|t t' ts ts' E _ IH]; [done|]. by rewrite !fmap_cons, !concat_cons, E, IH. Qed.

Lemma swap_flags_shape a b ts :
  Forall2 (λ t t', thread_roots t = thread_roots t' ∧ t_curr t = t_curr t') (swap_flags a b ts) ts.
Proof.
  unfold swap_flags, map_thread. induction ts as [|t ts IH]; [constructor|]. simpl. constructor; [|done].
  by repeat case_decide.
Qed.

Lemma swap_flags_curr a b ts : t_curr <$> swap_flags a b ts = t_curr <$> ts.
Proof.
  unfold swap_flags, map_thread. induction ts as [|t ts IH]; [done|].
  rewrite !fmap_cons, IH. by repeat case_decide.
Qed.

Lemma switched_calm t s :
  calm s → t ∈ threads (s_in s) → t_done t = false →
  calm (switched (t_id t) s) ∧ later s (switched (t_id t) s) ∧
  ∀ o, l_due (switched (t_id t) s) o = l_due s o.
Proof.
  intros [[F1 F2 F3] [S1 S2 S3 S4]] Ht Hd.
  pose proof (swap_flags_shape (fg (s_in s)) (t_id t) (threads (s_in s))) as Hsh.
  assert (interp_frames (s_in (switched (t_id t) s)) = interp_frames (s_in s)) as Ef.
  { unfold interp_frames. simpl. by rewrite (swap_flags_curr _ _ (threads (s_in s))). }
  assert (interp_roots (s_in (switched (t_id t) s)) = interp_roots (s_in s)) as Er.
  { assert (threads_roots (swap_flags (fg (s_in s)) (t_id t) (threads (s_in s))) =
      threads_roots (threads (s_in s))) as E.
    { apply threads_roots_info. eapply Forall2_impl; [exact Hsh|]. by intros ? ? [? _]. }
    unfold interp_roots, switched. cbn [s_in threads with_threads with_fg with_qstep null zero one dot at_ us global].
    by rewrite E. }
  split_and!; [split; split|by intros o|]; simpl.
  - done.
  - by rewrite swap_flags_ids.
  - change (Forall (λ f, Forall (listy (s_heap s)) (frame_roots f))
      (interp_frames (s_in (switched (t_id t) s)))). by rewrite Ef.
  - by rewrite swap_flags_ids.
  - intros u (v & Hv & -> & _)%elem_of_swap_flags. by apply S2.
  - pose proof (switched_info (t_id t) s (t_id t)) as Hi. unfold info_at in Hi. simpl in Hi.
    rewrite (find_thread_elem _ _ S1 Ht) in Hi.
    apply fmap_Some in Hi as (u & Hu & Hi). exists u. split; [done|]. unfold info in Hi. congruence.
  - intros u (v & Hv & _ & [= -> _ -> _ _] & _)%elem_of_swap_flags. by apply S4.
  - intros o. change (heap_due (objs (s_heap s)) o - refs (interp_roots (s_in (switched (t_id t) s))) o
      = heap_due (objs (s_heap s)) o - refs (interp_roots (s_in s)) o). by rewrite Er.
Qed.

Lemma pays_yield Γ : pays_all Γ b6b_yield.
Proof.
  intros s e Hc Hk Hdue. rewrite yield_eq.
  destruct (pick (fg (s_in s)) (threads (s_in s))) as [t|] eqn:Ep.
  2:{ assert (pays_all Γ (lift b6b_wait;; mret false)) as Hw by pays. by apply Hw. }
  apply pick_Some in Ep as (Ht & _ & Hd). destruct (switched_calm t s Hc Ht Hd) as (C & L & D).
  split_and!; [done|done| |].
  { destruct (se_fg _ (ca_settled _ Hc)) as (u & Hu & Hdu). unfold awake. rewrite switched_info.
    exists (info u). unfold info_at. by rewrite Hu. }
  exists (λ _, 0). split.
  { intros o. rewrite D. specialize (Hdue o). lia. }
  intros s' e' Hc' Hl' Hdue'. assert (pays_all [] (lift b6b_wait;; mret true)) as Hw by pays.
  apply Hw; [done|constructor|]. intros o. specialize (Hdue' o). lia.
Qed.
#[export] Hint Resolve pays_yield : dues.

(** *** [b6b_offload] *)

Lemma pays_wait_ready Γ k : pays_all Γ (wait_ready k).
Proof. revert Γ. induction k as [|k IH]; intros Γ; simpl; pays. Qed.
Lemma pays_wait_done Γ k p : pays_all Γ (wait_done k p).
Proof. revert Γ p. induction k as [|k IH]; intros Γ p; simpl; pays. Qed.
Lemma pays_set_offth Γ i x : pays_all Γ (lift (set_offth i x)).
Proof. unfold set_offth. pays. Qed.
#[export] Hint Resolve pays_wait_ready pays_wait_done pays_set_offth : dues.

Lemma pays_offload {A} Γ n (fn : HM A) : (∀ Γ, keeps Γ fn) → pays_all Γ (b6b_offload n fn).
Proof. intros Hfn. unfold b6b_offload. pays. Qed.
#[export] Hint Extern 2 (pays _ (b6b_offload _ _) _ _) =>
  (apply pays_offload; intros; solve [eauto 3 with refs]) : dues.
