(* ===== verification/Payments.v ===== *)
(** * All code returns the references it takes

    [pays] of Dues.v for the procedures that run code or let other threads run,
    for [sh], and for the evaluator. *)
From Stdlib Require Import ZArith Lia Init.Byte Strings.Byte Strings.String.
From stdpp Require Import base option list numbers gmap.
From S2P Require Import Prelude Sys Float64 Hash Parse Heap Repr ListObj Dict Types Offload Interp.
From S2P Require Import StrProcs ListProcs CoreProcs.
From S2P Require Import Strm FdOps FdProcs Switch Sockets Streams SysProcs Ffi Zlib Eval.
From S2P Require Import Quiet Frames Ledger Counted Dues.
#[local] Open Scope Z_scope.

(** ** Code that leaves the references of an object alone *)

(** If [r] is still there after [m], it holds what it held. *)
Definition spares {S} `{HasHeap S} (r : loc) {A} (m : M S A) : Prop :=
  ∀ s a s', (r < next (heap_of s))%N → m s = Done (a, s') →
    (next (heap_of s) ≤ next (heap_of s'))%N ∧
    ∀ x', objs (heap_of s') !! r = Some x' →
      ∃ x, objs (heap_of s) !! r = Some x ∧ refs_of x' = refs_of x.

Create HintDb spares.

Section spares.
Context {S : Type} `{HasHeap S}.

Lemma spares_same r {A} (m : M S A) :
  (∀ s a s', m s = Done (a, s') → heap_of s' = heap_of s) → spares r m.
Proof. intros Hm s a s' Hr E. rewrite (Hm s a s' E). split; [done|]. by eexists. Qed.

Lemma spares_ret r {A} (a : A) : spares r (mret (M := M S) a).
Proof. apply spares_same. by intros ? ? ? [= _ <-]. Qed.
Lemma spares_ub r {A} : spares r (@ub S A).
Proof. by intros ? ? ? ? [=]. Qed.
Lemma spares_oof r {A} : spares r (@oof S A).
Proof. by intros ? ? ? ? [=]. Qed.
Lemma spares_get r : spares r (@get S).
Proof. apply spares_same. by intros ? ? ? [= _ <-]. Qed.
Lemma spares_deref r {A} (x : option A) : spares r (@deref S A x).
Proof. destruct x; [apply spares_ret|apply spares_ub]. Qed.
Lemma spares_bind r {A B} (m : M S A) (f : A → M S B) :
  spares r m → (∀ a, spares r (f a)) → spares r (m ≫= f).
Proof.
  intros Hm Hf s b s' Hr (a & s1 & H1 & H2)%bind_Done.
  destruct (Hm s a s1 Hr H1) as [N1 R1]. destruct (Hf a s1 b s' ltac:(lia) H2) as [N2 R2].
  split; [lia|]. intros x' Hx'. destruct (R2 x' Hx') as (y & Hy & E). destruct (R1 y Hy) as (x & Hx & E').
  exists x. split; [done|congruence].
Qed.
End spares.
#[export] Hint Resolve spares_ret spares_ub spares_oof spares_get spares_deref : spares.

Ltac spare :=
  repeat first
    [ match goal with |- spares _ (_ ≫= _) => apply spares_bind; [|intros ?] end
    | solve [eauto 2 with spares]
    | case_match
    | progress (cbv zeta; cbn beta iota) ].

Lemma spares_on_heap r {A} (m : HM A) : spares r m → spares r (on_heap m).
Proof. intros Hm s a s' Hr (h & E & ->)%on_heap_inv. exact (Hm _ _ _ Hr E). Qed.
Lemma spares_set_interp r f : spares r (set_interp f).
Proof. apply spares_same. by intros ? ? ? [= _ <-]. Qed.
#[export] Hint Resolve spares_on_heap spares_set_interp : spares.

Lemma spares_read r o : spares r (read_obj o).
Proof. apply spares_same. by intros ? ? ? [-> _]%read_obj_inv. Qed.

Lemma spares_update r o f : o ≠ r → spares r (update_obj o f).
Proof.
  intros Hne h [] h' Hr (x & Hx & [= ->])%update_obj_inv. split; [done|]. simpl.
  rewrite lookup_insert_ne by done. by eexists.
Qed.
Lemma spares_keep r o f : (∀ x, refs_of (f x) = refs_of x) → spares r (update_obj o f).
Proof.
  intros Hf h [] h' Hr (x & Hx & [= ->])%update_obj_inv. split; [done|]. simpl. intros x'.
  rewrite lookup_insert. case_decide; [|by eexists]. subst. intros [= <-]. exists x. by rewrite Hf.
Qed.
#[export] Hint Resolve spares_read : spares.
#[export] Hint Extern 1 (spares _ (update_obj _ _)) =>
  first [apply spares_update; (done || congruence) | apply spares_keep; done] : spares.

Lemma spares_malloc r x : spares r (malloc_obj x).
Proof.
  intros h o h' Hr [= _ <-]. unfold heap_of, heap_has_heap in *. simpl. split; [lia|].
  rewrite lookup_insert_ne by lia. by eexists.
Qed.
Lemma spares_malloc_item r o : spares r (malloc_item o).
Proof.
  intros h i h' Hr [= _ <-]. unfold heap_of, heap_has_heap in *. simpl. split; [lia|]. by eexists.
Qed.
#[export] Hint Resolve spares_malloc spares_malloc_item : spares.

(** [b6b_unref] allocates nothing. *)
Definition same_next (f : loc → HM unit) : Prop :=
  ∀ o h h', f o h = Done (tt, h') → next h' = next h.

Lemma miter_next f l h h' : same_next f → miter f l h = Done (tt, h') → next h' = next h.
Proof.
  intros Hf. revert h. induction l as [|o l IH]; intros h Hr; simpl in *; [by injection Hr as <-|].
  apply bind_Done in Hr as ([] & h1 & H1%Hf & H2%IH). congruence.
Qed.

Lemma unref_next : same_next b6b_unref.
Proof.
  assert (∀ n, same_next (b6b_unref_fuel n)) as Hn; [|intros o h; apply Hn].
  induction n as [|n IH]; intros o h h' H; [done|]. simpl in H.
  apply bind_Done in H as (x & h1 & [-> Hx]%read_obj_inv & H). destruct (o_refc x <=? 0); [done|].
  apply bind_Done in H as ([] & h1 & (y & Hy & [= ->])%update_obj_inv & H).
  destruct (_ =? 0); [|by injection H as <-].
  apply destroy_is_drop in H as (z & h1 & Hz & _ & H1 & H2).
  unfold free_obj in H2. destruct (objs h1 !! o); [|done]. injection H2 as <-.
  unfold drop_all in H1. apply bind_Done in H1 as ([] & h2 & H2 & H1).
  apply bind_Done in H1 as ([] & h3 & [= <-] & H1).
  apply (miter_next _ _ _ _ IH) in H1, H2. simpl in *. congruence.
Qed.

Lemma spares_unref r o : spares r (b6b_unref o).
Proof.
  intros h [] h' Hr E. pose proof (unref_only_shrinks o h h' E) as Hs. split.
  - unfold heap_of, heap_has_heap. by rewrite (unref_next o h h' E).
  - intros x' Hx'. destruct (Hs r x' Hx') as (x & Hx & ->). by exists x.
Qed.

#[export] Hint Resolve spares_unref : spares.

Lemma spares_ref r o : spares r (b6b_ref o).
Proof. unfold b6b_ref. spare. Qed.
Lemma spares_sys_call r c : spares r (sys_call c).
Proof.
  intros h a h' Hr E. unfold sys_call in E. destruct (os_next (h_os h)); [done|].
  injection E as _ <-. split; [done|]. by eexists.
Qed.
Lemma spares_sys_note r cs : spares r (sys_note cs).
Proof. intros h a h' Hr [= _ <-]. split; [done|]. by eexists. Qed.
Lemma spares_set_text r o s : spares r (set_text o s).
Proof. unfold set_text. spare. Qed.
Lemma spares_text r o : spares r (text o).
Proof. unfold text. spare. Qed.
#[export] Hint Resolve spares_ref spares_sys_call spares_sys_note spares_set_text spares_text : spares.

Lemma spares_str_items r f l acc : (∀ o, spares r (f o)) → spares r (as_str_items f l acc).
Proof. intros Hf. revert acc. induction l as [|li l IH]; intros acc; simpl; spare. Qed.
Lemma spares_as_str r o : spares r (b6b_as_str o).
Proof.
  assert (∀ n o, spares r (b6b_as_str_fuel n o)) as Hn.
  { clear. induction n as [|n IH]; intros o; simpl; [spare|].
    pose proof (λ l acc, spares_str_items r _ l acc IH). spare. }
  intros h. apply Hn.
Qed.
#[export] Hint Resolve spares_as_str : spares.
Lemma spares_obj_hash r o : spares r (b6b_obj_hash o).
Proof. unfold b6b_obj_hash. spare. Qed.
Lemma spares_obj_eq r a b : spares r (obj_eq_at a b).
Proof. unfold obj_eq_at. spare. Qed.
Lemma spares_str_copy r s : spares r (b6b_str_copy s).
Proof. intros h o h'. rewrite str_copy_eq. apply spares_malloc. Qed.
Lemma spares_str_new r s : spares r (b6b_str_new s).
Proof. apply spares_str_copy. Qed.
#[export] Hint Resolve spares_obj_hash spares_obj_eq spares_str_copy spares_str_new : spares.

Lemma spares_do_add r l o : l ≠ r → spares r (b6b_list_do_add l o).
Proof. intros Hne. unfold b6b_list_do_add. spare. Qed.
Lemma spares_flush r l : spares r (b6b_list_flush l).
Proof. unfold b6b_list_flush. spare. Qed.
Lemma spares_item_obj r l i : spares r (item_obj l i).
Proof. unfold item_obj. spare. Qed.
#[export] Hint Resolve spares_do_add spares_flush spares_item_obj : spares.
Lemma spares_list_add r l o : l ≠ r → spares r (b6b_list_add l o).
Proof. intros Hne. unfold b6b_list_add. spare. Qed.
Lemma spares_list_pop r l i : l ≠ r → spares r (b6b_list_pop l i).
Proof. intros Hne. unfold b6b_list_pop, b6b_list_remove. spare. Qed.
#[export] Hint Resolve spares_list_add spares_list_pop : spares.

Lemma spares_dict_find r k items : spares r (dict_find k items).
Proof.
  induction items as [|kli|kli vli items IH] using list_pairs_ind; simpl; spare.
Qed.
Lemma spares_dict_set_find r k items : spares r (dict_set_find k items).
Proof.
  induction items as [|kli|kli vli items IH] using list_pairs_ind; simpl; spare.
Qed.
#[export] Hint Resolve spares_dict_find spares_dict_set_find : spares.
Lemma spares_dict_get r d k : spares r (b6b_dict_get d k).
Proof. unfold b6b_dict_get. spare. Qed.
Lemma spares_dict_set r d k v : d ≠ r → spares r (b6b_dict_set d k v).
Proof. intros Hne. unfold b6b_dict_set, set_item. spare. Qed.
#[export] Hint Resolve spares_dict_get spares_dict_set : spares.

Lemma spares_get_loop r fs name : spares r (get_loop fs name).
Proof. induction fs as [|f fs IH]; simpl; spare. Qed.
Lemma spares_return r o : spares r (b6b_return o).
Proof. unfold b6b_return, set_ret, fg_thread, update_fg. spare. Qed.
#[export] Hint Resolve spares_get_loop spares_return : spares.
Lemma spares_get_var r name : spares r (b6b_get name).
Proof. unfold b6b_get, fg_thread, b6b_return_fmt. spare. Qed.
#[export] Hint Resolve spares_get_var : spares.

(** ** Code that destroys objects *)

Create HintDb lowers.
#[export] Hint Resolve lowers_destroy lowers_on_heap : lowers.
#[export] Hint Extern 2 (lowers _ _ _ _) => (apply lowers_changes; solve [eauto 3 with refs]) : lowers.
#[export] Hint Extern 1 (_ ∈ _) => set_solver : lowers.

Ltac lower_step :=
  first
    [ match goal with |- lowers _ (mret _) _ _ => apply lowers_ret; [entries|known] end
    | match goal with |- lowers _ ub _ _ => apply lowers_ub end
    | match goal with |- lowers _ oof _ _ => apply lowers_oof end
    | match goal with |- lowers _ (_ ≫= _) _ _ =>
        eapply lowers_bind; [solve [eauto 3 with lowers]|intros ?] end
    | eapply lowers_conseq; [solve [eauto 3 with lowers]|entries|known]
    | match goal with |- lowers _ (if _ then _ else _) _ _ => apply lowers_if end
    | case_match
    | progress (cbv zeta; cbn beta iota) ].
Ltac lowers := repeat lower_step.

Lemma frugal_set_args_loop Γ locals items i :
  locals ∈ Γ → frugal Γ (set_args_loop locals items i).
Proof.
  revert Γ i. induction items as [|li items IH]; intros Γ i Hl; simpl; [lowers|].
  eapply lowers_bind; [apply lowers_changes, changes_int_new|]. intros io.
  eapply lowers_bind; [apply lowers_changes, keeps_dict_set; set_solver|]. intros ok.
  apply lowers_if; [lowers|].
  eapply lowers_bind; [apply lowers_changes, changes_unref|]. intros [].
  eapply lowers_conseq; [apply IH; set_solver|entries|known].
Qed.
#[export] Hint Resolve frugal_set_args_loop : lowers.

Lemma frugal_set_args Γ f args :
  fr_locals f ∈ Γ → frugal Γ (b6b_frame_set_args f args).
Proof. intros Hf. unfold b6b_frame_set_args. lowers. Qed.

(** The name is on the stack: nothing is left of it. *)
Lemma frugal_get_str Γ s : frugal Γ (b6b_get_str s).
Proof.
  intros s0 o s' Hf Hk H. unfold b6b_get_str in H.
  apply bind_Done in H as (name & s1 & (h1 & H1 & ->)%on_heap_inv & H).
  apply bind_Done in H as (v & s2 & H2 & H).
  apply bind_Done in H as ([] & s3 & (h3 & H3 & ->)%on_heap_inv & [= <- <-]).
  pose proof (sf_heap _ Hf) as Hh. pose proof (fresh_none _ (hs_fresh _ (hf_shape _ Hh))) as Hn.
  destruct (changes_str_new [] s _ _ _ Hh (Forall_nil_2 _) H1) as (F1 & D1 & K1 & _).
  change (b6b_str_copy s (s_heap s0) = Done (name, h1)) in H1. rewrite str_copy_eq in H1.
  injection H1 as <- <-. set (name := next (s_heap s0)) in *.
  set (h1 := mkHeap _ _ _) in *. pose proof (st_fine_heap s0 h1 Hf F1 K1) as Hf1.
  destruct (keeps_get_var [] name _ _ _ Hf1 (Forall_nil_2 _) H2) as (F2 & D2 & K2 & _).
  assert (name < next h1)%N as Hlt by (unfold h1, name; simpl; lia).
  destruct (spares_get_var name name (mkSt h1 _ _ _) v s2 Hlt H2) as [_ R].
  unfold free_obj in H3. destruct (objs (s_heap s2) !! name) as [y|] eqn:Hy; [|done].
  injection H3 as <-. destruct (R y Hy) as (x & Hx & Er).
  change (objs h1 !! name = Some x) in Hx. unfold h1 in Hx. simpl in Hx.
  rewrite lookup_insert_eq in Hx. injection Hx as <-. change (refs_of y = []) in Er.
  destruct (sf_heap _ F2) as [Hs2 Hp2].
  assert (shrinks (objs (s_heap s2)) (delete name (objs (s_heap s2)))) as Hsd by apply shrinks_delete.
  assert (∀ p, listy (s_heap s2) p → listy (mkHeap (delete name (objs (s_heap s2))) (next (s_heap s2)) (h_os (s_heap s2))) p) as K3.
  { intros p Hp. by eapply shrinks_listy. }
  split_and!; [apply st_fine_heap; [done| |done]| |intros p Hp; by apply K3, K2, K1|done].
  - split; [by eapply shrinks_shape|]. simpl. intros p z [_ Hz]%lookup_delete_Some. by eapply Hp2.
  - intros p. cbn [l_due st_ledger s_heap s_in] in *. simpl. rewrite (due_delete _ _ _ _ Hy), Er, refs_nil.
    pose proof (Hp2 name y Hy) as Hpos. specialize (D1 p). specialize (D2 p). simpl in D1, D2.
    assert (refs [name] p = if decide (name = p) then 1 else 0) as E.
    { unfold refs. simpl. by case_decide. }
    rewrite E in D1. case_decide; lia.
Qed.
#[export] Hint Resolve frugal_set_args frugal_get_str : lowers.

(** ** Objects that hold nothing yet *)

(** The object [r], if it is there, holds no references. *)
Definition bare (r : loc) (s : st) : Prop :=
  (r < next (s_heap s))%N ∧ ∀ x, objs (s_heap s) !! r = Some x → refs_of x = [].

Definition bare_lowers (r : loc) {A} (Γ : list loc) (m : M st A) (d : A → loc → Z)
    (Γ' : A → list loc) : Prop :=
  ∀ s a s', bare r s → l_fine s → Forall (l_knows s) Γ → m s = Done (a, s') →
    l_fine s' ∧ (∀ o, l_due s' o ≤ l_due s o + d a o) ∧
    (∀ o, l_knows s o → l_knows s' o) ∧ Forall (l_knows s') (Γ' a).

Lemma bare_from r {A} Γ (m : M st A) d Γ' : lowers Γ m d Γ' → bare_lowers r Γ m d Γ'.
Proof. intros Hm s a s' _. apply Hm. Qed.

Lemma bare_bind r {A B} Γ (m : M st A) (f : A → M st B) d1 Γ1 d Γ2 :
  spares r m → lowers Γ m d1 Γ1 →
  (∀ a, bare_lowers r (Γ1 a ++ Γ) (f a) (λ b o, d b o - d1 a o) Γ2) →
  bare_lowers r Γ (m ≫= f) d Γ2.
Proof.
  intros Hs Hm Hf s b s' [Hr Hb] Hfi Hk E. apply bind_Done in E as (a & s1 & E1 & E2).
  destruct (Hm _ _ _ Hfi Hk E1) as (F1 & D1 & K1 & N1). destruct (Hs _ _ _ Hr E1) as [Hn Hsame].
  assert (bare r s1) as Hb1.
  { split; [eapply N.lt_le_trans; [exact Hr|exact Hn]|]. intros x Hx.
    destruct (Hsame x Hx) as (y & Hy & ->). by apply Hb. }
  assert (Forall (l_knows s1) (Γ1 a ++ Γ)) as Hk1.
  { apply Forall_app. split; [done|]. by eapply Forall_impl. }
  destruct (Hf a _ _ _ Hb1 F1 Hk1 E2) as (F2 & D2 & K2 & N2).
  split_and!; [done| |auto|done]. intros o. specialize (D1 o). specialize (D2 o). lia.
Qed.

(** A new object is bare. *)
Lemma lowers_new {A} Γ (new : HM loc) x (f : loc → M st A) d Γ' :
  (∀ h, new h = malloc_obj x h) → refs_of x = [] → o_refc x = 1 → del_ok x → o_l x = [] →
  (∀ o, bare_lowers o Γ (f o) (λ a p, d a p - refs [o] p) Γ') →
  lowers Γ (o ← on_heap new; f o) d Γ'.
Proof.
  intros Hnew Hr Hc Hd Hl Hf s a s' Hfi Hk (o & s1 & (h1 & H1 & ->)%on_heap_inv & H2)%bind_Done.
  rewrite Hnew in H1. destruct (changes_malloc [] x Hr Hc Hd Hl _ _ _ (sf_heap _ Hfi) (Forall_nil_2 _) H1)
    as (F1 & D1 & K1 & _).
  assert (bare o (mkSt h1 (s_in s) (s_tids s) (s_err s))) as Hb.
  { injection H1 as <- <-. split; simpl; [lia|]. intros y. rewrite lookup_insert_eq. by intros [= <-]. }
  destruct (Hf o _ _ _ Hb (st_fine_heap s h1 Hfi F1 K1) ltac:(by eapply Forall_impl) H2) as (F2 & D2 & K2 & N2).
  split_and!; [done| |intros p Hp; by apply K2, K1|done].
  intros p. specialize (D1 p). specialize (D2 p). simpl in *. lia.
Qed.

Lemma bare_conseq r {A} Γ (m : M st A) d1 d2 Γ1 Γ2 :
  bare_lowers r Γ m d1 Γ1 → (∀ a o, d1 a o ≤ d2 a o) → (∀ a, Γ2 a ⊆ Γ1 a ++ Γ) →
  bare_lowers r Γ m d2 Γ2.
Proof.
  intros Hm Hd HΓ s a s' Hb Hf Hk E. destruct (Hm s a s' Hb Hf Hk E) as (F & D & K & N).
  split_and!; [done| |done|].
  - intros o. specialize (D o). specialize (Hd a o). lia.
  - rewrite Forall_forall in Hk, N |- *. intros o [Ho|Ho]%HΓ%elem_of_app; auto.
Qed.

(** It is not the dictionary of the global frame. *)
Lemma lowers_new_global {A} Γ (new : HM loc) x nm (f : loc → bool → M st A) d Γ' :
  (∀ h, new h = malloc_obj x h) → refs_of x = [] → o_refc x = 1 → del_ok x → o_l x = [] →
  (∀ o ok, bare_lowers o Γ (f o ok) (λ a p, d a p - refs [o] p) Γ') →
  lowers Γ (o ← on_heap new; ok ← b6b_global nm o; f o ok) d Γ'.
Proof.
  intros Hnew Hr Hc Hd Hl Hf s a s' Hfi Hk (o & s1 & (h1 & H1 & ->)%on_heap_inv & H)%bind_Done.
  rewrite Hnew in H1. destruct (changes_malloc [] x Hr Hc Hd Hl _ _ _ (sf_heap _ Hfi) (Forall_nil_2 _) H1)
    as (F1 & D1 & K1 & _).
  apply bind_Done in H as (ok & s2 & H2 & H).
  pose proof (st_fine_heap s h1 Hfi F1 K1) as Hfi1. set (s1 := mkSt h1 _ _ _) in *.
  destruct (keeps_global [] nm o s1 ok s2 Hfi1 (Forall_nil_2 _) H2) as (F2 & D2 & K2 & _).
  assert (fr_locals (global (s_in s)) ≠ o ∧ (o < next h1)%N) as [Hne Hlt].
  { pose proof (frames_known s (global (s_in s)) Hfi ltac:(by left)) as [[Hlt _] _]%Forall_cons.
    injection H1 as <- <-. simpl. split; [intros E; rewrite E in Hlt|]; lia. }
  assert (spares o (on_heap (b6b_dict_set (fr_locals (global (s_in s1))) nm o))) as Hsp.
  { apply spares_on_heap, spares_dict_set. exact Hne. }
  destruct (Hsp s1 ok s2 Hlt H2) as [Hn2 R2].
  assert (bare o s2) as Hb.
  { split; [eapply N.lt_le_trans; [exact Hlt|exact Hn2]|]. intros y Hy.
    destruct (R2 y Hy) as (z & Hz & ->). injection H1 as <- <-.
    change (<[next (s_heap s) := x]> (objs (s_heap s)) !! next (s_heap s) = Some z) in Hz.
    rewrite lookup_insert_eq in Hz. by injection Hz as <-. }
  assert (∀ p, l_knows s p → l_knows s2 p) as K12 by (intros p Hp; by apply K2, K1).
  destruct (Hf o ok s2 a s' Hb F2 ltac:(by eapply Forall_impl) H) as (F3 & D3 & K3 & N3).
  split_and!; [done| |auto|done].
  intros p. specialize (D1 p). specialize (D2 p). specialize (D3 p). simpl in *. lia.
Qed.

(** It takes over references as private data. *)
Lemma bare_own r {A} Γ f ps (g : unit → M st A) d Γ' :
  (∀ x, o_refc (f x) = o_refc x ∧ o_l (f x) = o_l x ∧ o_flags (f x) = o_flags x ∧
        del_ok (f x) ∧ priv_refs (f x) = ps) →
  lowers Γ (g tt) (λ a o, d a o + refs ps o) Γ' →
  bare_lowers r Γ (u ← on_heap (update_obj r f); g u) d Γ'.
Proof.
  intros Hf Hg s a s' [Hr Hb] Hfi Hk ([] & s1 & (h1 & H1 & ->)%on_heap_inv & H2)%bind_Done.
  assert (∃ x, objs (s_heap s) !! r = Some x) as [x Hx].
  { pose proof H1 as (x & Hx & _)%update_obj_inv. by exists x. }
  destruct (Hf x) as (H3 & H4 & H5 & H6 & H7).
  destruct (own_changes r x f _ _ (sf_heap _ Hfi) Hx H1 H3 H4 H5 H6) as (F1 & D1 & K1).
  destruct (Hg _ _ _ (st_fine_heap s h1 Hfi F1 K1) ltac:(by eapply Forall_impl) H2) as (F2 & D2 & K2 & N2).
  split_and!; [done| |intros p Hp; by apply K2, K1|done].
  assert (priv_refs x = []) as Hp0.
  { specialize (Hb x Hx). unfold refs_of in Hb. by apply app_eq_nil in Hb as [_ ?]. }
  intros p. specialize (D1 p). specialize (D2 p). rewrite Hp0, H7, refs_nil in D1. simpl in *. lia.
Qed.

(** ** src/b6b_sh.c *)

Lemma spares_own r t f : spares r (o ← b6b_str_new t; update_obj o f;; mret o).
Proof.
  intros h o h' Hr H. apply bind_Done in H as (o1 & h1 & H1 & H).
  change (b6b_str_copy t h = Done (o1, h1)) in H1. rewrite str_copy_eq in H1.
  destruct (spares_malloc r (new_str t) h o1 h1 Hr H1) as [N1 R1]. injection H1 as <- <-.
  apply bind_Done in H as ([] & h2 & (x & Hx & [= ->])%update_obj_inv & [= _ <-]).
  unfold heap_of, heap_has_heap in *. split; [exact N1|]. simpl. intros x'.
  rewrite lookup_insert_ne by lia. apply R1.
Qed.

Lemma spares_sys_ret r c : spares r (sys_ret c).
Proof. unfold sys_ret. spare. Qed.
Lemma spares_sys_address r : spares r sys_address.
Proof. unfold sys_address. spare. Qed.
Lemma spares_strerror `{Env} r e : spares r (b6b_return_strerror e).
Proof. unfold b6b_return_strerror, set_ret, fg_thread, update_fg. spare. Qed.
#[export] Hint Resolve spares_sys_ret spares_sys_address spares_strerror : spares.

Lemma spares_strm_fmt r k priv type p : spares r (b6b_strm_fmt k priv type p).
Proof. unfold b6b_strm_fmt, b6b_strm_new. apply spares_own. Qed.
#[export] Hint Resolve spares_strm_fmt : spares.

Lemma lowers_destroy_all Γ l : lowers Γ (miter b6b_destroy l) (λ _ o, - refs l o) no_facts.
Proof.
  revert Γ. induction l as [|p l IH]; intros Γ; simpl; [apply lowers_ret; [entries|known]|].
  eapply lowers_bind; [apply lowers_destroy|]. intros [].
  eapply lowers_conseq; [apply IH| |known]. intros [] o. simpl. rewrite (refs_cons p l). lia.
Qed.
#[export] Hint Resolve lowers_destroy_all : lowers.

Section sh.
Context {env : Env}.

Lemma changes_sh_new_pipe Γ pid k type wr :
  changes Γ (b6b_sh_new_pipe pid k type wr)
    (λ r, match r with Some (o, _) => refs [o] | None => refs [] end) no_facts.
Proof.
  unfold b6b_sh_new_pipe. eapply changes_then; [solve [changes]|]. intros a.
  apply changes_if; [changes|]. destruct (a_nums a) as [|r [|w [|]]]; [changes..| |changes]. cbv zeta.
  eapply changes_then; [solve [changes]|]. intros [fl|e]; [|changes].
  eapply changes_then; [solve [changes]|]. intros [fl'|e]; [|changes].
  eapply changes_bind; [apply changes_on_heap, changes_ref|]. intros q.
  eapply changes_bind; [solve [eauto 3 with refs]|]. intros p.
  eapply changes_bind; [apply changes_on_heap, changes_strm_fmt|]. intros o.
  apply changes_ret; [|known]. intros v. unfold close_refs. cbn [strm_priv]. lia.
Qed.

Lemma spares_sh_new_pipe r pid k type wr : spares r (b6b_sh_new_pipe pid k type wr).
Proof.
  unfold b6b_sh_new_pipe. spare.
Qed.

Lemma sh_start_lowers cmd pid i o e f0 f1 f2 Γ :
  bare_lowers pid Γ (sh_start cmd pid i o e f0 f1 f2) (λ _ p, - refs [e; o; i; pid] p) no_facts.
Proof.
  unfold sh_start. eapply bare_bind; [spare|solve [eauto 3 with lowers]|]. intros a.
  eapply bare_bind; [spare|solve [eauto 3 with lowers]|]. intros [].
  destruct (a_ret a =? -1).
  { apply bare_from. lowers. }
  destruct (a_ret a =? 0); [apply bare_from, lowers_then_oof|].
  eapply bare_bind; [spare|solve [eauto 3 with lowers]|]. intros [].
  eapply (bare_own _ _ _ []); [by intros x; split_and!|].
  eapply lowers_bind; [solve [eauto 3 with lowers]|]. intros l.
  eapply lowers_bind; [apply lowers_on_heap, lowers_changes, changes_drop_all|]. intros [].
  eapply lowers_conseq; [apply lowers_changes, changes_return| |known].
  intros r q. rewrite !refs_nil. lia.
Qed.

Lemma frugal_sh args : frugal [] (b6b_sh_proc_sh args).
Proof.
  unfold b6b_sh_proc_sh. eapply lowers_bind; [apply lowers_changes, changes_get_args|].
  intros [argc [|cmd [|]]]; try (destruct argc; solve [lowers]).
  assert (∀ Γ d, (∀ a p, d a p = 0) → lowers Γ (pid ← on_heap (b6b_int_new 0);
    i ← b6b_sh_new_pipe pid K_sh_in (lit "stdin") true;
    match i with
    | None => on_heap (b6b_destroy pid);; mret B6B_ERR
    | Some (i, f0) =>
        o ← b6b_sh_new_pipe pid K_sh_out (lit "stdout") false;
        match o with
        | None => on_heap (miter b6b_destroy [i; pid]);; mret B6B_ERR
        | Some (o, f1) =>
            e ← b6b_sh_new_pipe pid K_sh_out (lit "stderr") false;
            match e with
            | None => on_heap (miter b6b_destroy [o; i; pid]);; mret B6B_ERR
            | Some (e, f2) => sh_start cmd pid i o e f0 f1 f2
            end
        end
    end) d no_facts) as Hsh.
  { intros Γ d Hd. apply (lowers_new _ _ (new_int 0)); [intros h; apply int_new_eq|done..|]. intros pid.
    pose proof (λ Γ k type wr, lowers_changes _ _ _ _ (changes_sh_new_pipe Γ pid k type wr)) as Hp.
    eapply bare_bind; [apply spares_sh_new_pipe|apply Hp|]. intros [[i f0]|].
    2:{ apply bare_from. lowers. apply lowers_ret; [intros q; rewrite Hd; entries|known]. }
    eapply bare_bind; [apply spares_sh_new_pipe|apply Hp|]. intros [[o f1]|].
    2:{ apply bare_from. lowers. apply lowers_ret; [intros q; rewrite Hd; entries|known]. }
    eapply bare_bind; [apply spares_sh_new_pipe|apply Hp|]. intros [[e f2]|].
    2:{ apply bare_from. lowers. apply lowers_ret; [intros q; rewrite Hd; entries|known]. }
    intros s r s' Hb Hf Hk H. destruct (sh_start_lowers cmd pid i o e f0 f1 f2 _ s r s' Hb Hf Hk H)
      as (F & D & K & N). split_and!; [done| |done|done]. intros q. specialize (D q). rewrite Hd.
    simpl in *. rewrite (refs_two e), (refs_two o), (refs_two i) in D. lia. }
  destruct argc as [|p|p]; [lowers|apply Hsh; entries|apply Hsh; entries].
Qed.
End sh.
