(* ===== verification/IoDues.v ===== *)
(** * Streams, files and sockets return the references they take

    [pays] of Dues.v for the procedures that wait for the system. *)
From Stdlib Require Import ZArith Lia Init.Byte Strings.Byte Strings.String.
From stdpp Require Import base option list numbers gmap.
From S2P Require Import Prelude Sys Float64 Hash Parse Heap Repr ListObj Dict Types Offload Interp.
From S2P Require Import StrProcs ListProcs CoreProcs.
From S2P Require Import Strm FdOps FdProcs Switch Sockets Streams SysProcs Ffi Zlib.
From S2P Require Import Quiet Frames Ledger Counted Dues Payments.
#[local] Open Scope Z_scope.

(** ** Streams *)

Lemma keeps_get_strm Γ o : keeps Γ (get_strm o).
Proof. unfold get_strm. changes. Qed.
Lemma keeps_stdio_fp Γ o : keeps Γ (stdio_fp o).
Proof. pose proof keeps_get_strm. unfold stdio_fp. changes. Qed.
#[export] Hint Resolve keeps_get_strm keeps_stdio_fp : refs.

Lemma get_strm_inv o h s h' :
  get_strm o h = Done (s, h') → h' = h ∧ ∃ x, objs h !! o = Some x ∧ o_priv x = V_strm s.
Proof.
  unfold get_strm. intros (x & h1 & [-> Hx]%read_obj_inv & H)%bind_Done.
  destruct (o_priv x) eqn:E; try done. injection H as <- <-. split; [done|]. by exists x.
Qed.

(** The structure of a stream becomes [g] of it. *)
Lemma strm_set_effect o g h h' :
  heap_fine h → (s ← get_strm o; set_strm o (g s)) h = Done (tt, h') →
  ∃ x s, objs h !! o = Some x ∧ o_priv x = V_strm s ∧ heap_fine h' ∧
    (∀ p, heap_due (objs h') p = heap_due (objs h) p + refs (priv_refs x) p
      - refs (priv_refs (with_del (o_del x) (V_strm (g s)) x)) p) ∧
    ∀ p, listy h p → listy h' p.
Proof.
  intros Hf (s & h1 & (-> & x & Hx & Hp)%get_strm_inv & H)%bind_Done. exists x, s.
  assert (del_ok x) as Hd by (by destruct (hs_obj _ (hf_shape _ Hf) o x Hx)).
  assert (del_ok (with_del (o_del x) (V_strm (g s)) x)) as Hd'.
  { unfold del_ok, del_fits in *. simpl. rewrite Hp in Hd. by destruct (o_del x). }
  destruct (own_changes o x _ _ _ Hf Hx H) as (F & D & K); [done..|]. by split_and!.
Qed.

Lemma keeps_set_eof Γ o : keeps Γ (strm_set_eof o).
Proof.
  intros h [] h' Hf Hk H. unfold strm_set_eof in H.
  destruct (strm_set_effect o (λ s, mkStrm (strm_ops s) (strm_priv s) (strm_closed s) true) _ _ Hf H)
    as (x & s & Hx & Hp & F & D & K).
  split_and!; [done| |done|done]. intros p. simpl. rewrite D.
  assert (priv_refs (with_del (o_del x) (V_strm (mkStrm (strm_ops s) (strm_priv s) (strm_closed s) true)) x)
    = priv_refs x) as ->; [|lia].
  unfold priv_refs, with_del, close_refs. simpl. rewrite Hp. by destruct (o_del x).
Qed.
#[export] Hint Resolve keeps_set_eof : refs.

Lemma close_done_effect o h h' :
  heap_fine h → strm_close_done o h = Done (tt, h') →
  ∃ x s, objs h !! o = Some x ∧ o_priv x = V_strm s ∧ heap_fine h' ∧
    (∀ p, heap_due (objs h') p ≤ heap_due (objs h) p + refs (close_refs s) p) ∧
    ∀ p, listy h p → listy h' p.
Proof.
  intros Hf H. destruct (strm_set_effect o (λ s, mkStrm (strm_ops s)
    match strm_priv s with S_fd fd => S_fd fd | _ => S_freed end true true) _ _ Hf H)
    as (x & s & Hx & Hp & F & D & K).
  exists x, s. split_and!; [done..| |done]. intros p. rewrite D.
  assert (∀ l, 0 ≤ refs l p) as Hpos by (intros l; unfold refs; lia).
  assert (refs (priv_refs x) p ≤ refs (close_refs s) p) as Hle.
  { unfold priv_refs. rewrite Hp. pose proof (Hpos (close_refs s)).
    destruct (o_del x); rewrite ?refs_nil; try done. by destruct (strm_closed s); rewrite ?refs_nil. }
  pose proof (Hpos (priv_refs (with_del (o_del x) (V_strm (mkStrm (strm_ops s)
    match strm_priv s with S_fd fd => S_fd fd | _ => S_freed end true true)) x))). lia.
Qed.

(** The calls and the references of the stream [s] at [o], and the end. *)
Lemma strm_closed_lowers o x s cs h h' :
  heap_fine h → objs h !! o = Some x → o_priv x = V_strm s →
  (sys_note cs;; miter b6b_unref (close_refs s);; strm_close_done o) h = Done (tt, h') →
  heap_fine h' ∧ (∀ p, heap_due (objs h') p ≤ heap_due (objs h) p) ∧ ∀ p, listy h p → listy h' p.
Proof.
  intros Hf Hx Hp ([] & h1 & [= <-] & H)%bind_Done. apply bind_Done in H as ([] & h2 & H1 & H2).
  set (h1 := mkHeap (objs h) (next h) _) in H1.
  assert (heap_fine h1) as Hf1 by (destruct Hf as [[A B] C]; by split).
  destruct (changes_drop_all [] (close_refs s) h1 tt h2 Hf1 (Forall_nil_2 _) H1) as (F2 & D2 & K2 & _).
  destruct (close_done_effect o h2 h' F2 H2) as (y & s' & Hy & Hp' & F & D & K).
  assert (s' = s) as ->.
  { assert (shrinks (objs h1) (objs h2)) as Hs.
    { unfold close_refs in H1. destruct (strm_priv s); try (injection H1 as <-; apply shrinks_refl).
      apply bind_Done in H1 as ([] & h3 & H1%unref_only_shrinks & [= <-]). done. }
    destruct (Hs o y Hy) as (z & Hz & Ey). rewrite Ey in Hp'. simpl in Hz, Hp'. congruence. }
  split_and!; [done| |intros p Hpl; apply K, K2; exact Hpl].
  intros p. specialize (D p). specialize (D2 p). simpl in *. lia.
Qed.

Lemma stdio_done_lowers Γ o : frugal Γ (stdio_fp o;; strm_close_done o).
Proof.
  intros h [] h' Hf Hk (fp & h1 & H1 & H2)%bind_Done. unfold stdio_fp in H1.
  apply bind_Done in H1 as (s & h2 & (-> & x & Hx & Hp)%get_strm_inv & H1).
  destruct (strm_priv s) eqn:Es; try done. injection H1 as _ <-.
  destruct (close_done_effect o h h' Hf H2) as (y & s' & Hy & Hp' & F & D & K).
  split_and!; [done| |done|done]. intros p. specialize (D p).
  assert (s' = s) as -> by congruence. unfold close_refs in D. rewrite Es, refs_nil in D. simpl in *. lia.
Qed.

Lemma keeps_set_peer Γ o a : keeps Γ (set_peer o a).
Proof.
  intros h [] h' Hf Hk H. unfold set_peer in H.
  apply bind_Done in H as (x & h1 & [-> Hx]%read_obj_inv & H).
  destruct (o_priv x) as [| | |[k [| | | |peer addr fd|] c e]| |] eqn:Ep; try done.
  set (f := with_del (o_del x) (V_strm (mkStrm k (S_socket a addr fd) c e))) in H.
  assert (del_ok x) as Hd by (by destruct (hs_obj _ (hf_shape _ Hf) o x Hx)).
  assert (del_ok (f x)) as Hd'.
  { unfold del_ok, del_fits in *. simpl. rewrite Ep in Hd. by destruct (o_del x). }
  destruct (own_changes o x f h h' Hf Hx H) as (F & D & K); [done..|].
  split_and!; [done| |done|done]. intros p. simpl. rewrite D.
  assert (priv_refs (f x) = priv_refs x) as ->; [|lia].
  unfold priv_refs, f, with_del, close_refs. simpl. rewrite Ep. by destruct (o_del x).
Qed.
#[export] Hint Resolve keeps_set_peer : refs.

(** *** Operations *)

Abbreviation opt_ref := (λ r : option loc, match r with Some o => refs [o] | None => refs [] end).
Abbreviation accept_refs := (λ r : option (option loc),
  match r with Some (Some o) => refs [o] | _ => refs [] end).

(** Operations that return the references they take, but for the new objects
    they give. *)
Record counted_ops (ops : b6b_strm_ops (M st)) : Prop := {
  co_peeksz : from_option (λ f, ∀ Γ, keeps Γ f) True (op_peeksz ops);
  co_read : from_option (λ f, ∀ Γ size eof again, keeps Γ (f size eof again)) True (op_read ops);
  co_write : from_option (λ f, ∀ Γ buf, keeps Γ (f buf)) True (op_write ops);
  co_peer : from_option (λ f, ∀ Γ, changes Γ f opt_ref no_facts) True (op_peer ops);
  co_accept : from_option (λ f, ∀ Γ, changes Γ f accept_refs no_facts) True (op_accept ops)
}.
Record paying_ops (ops : b6b_strm_ops IM) : Prop := {
  po_peeksz : from_option (λ f, ∀ Γ, pays_all Γ f) True (op_peeksz ops);
  po_read : from_option (λ f, ∀ Γ size eof again, pays_all Γ (f size eof again)) True (op_read ops);
  po_write : from_option (λ f, ∀ Γ buf, pays_all Γ (f buf)) True (op_write ops);
  po_peer : from_option (λ f, ∀ Γ, pays Γ f opt_ref no_facts) True (op_peer ops);
  po_accept : from_option (λ f, ∀ Γ, pays Γ f accept_refs no_facts) True (op_accept ops)
}.

Lemma lift_ops_paying ops : quiet_ops ops → counted_ops ops → paying_ops (lift_ops ops).
Proof.
  intros [Q1 Q2 Q3 Q4 Q5 _] [C1 C2 C3 C4 C5]. destruct ops as [p r w pe a fd c]. split; simpl in *;
    [destruct p|destruct r|destruct w|destruct pe|destruct a];
    simpl in *; intros; try done; by apply pays_quiet.
Qed.

Section descriptors.
Context {env : Env}.

Lemma keeps_fd_peeksz Γ fd : keeps Γ (b6b_fd_peeksz fd).
Proof. unfold b6b_fd_peeksz. changes. Qed.
Lemma keeps_fd_on_read Γ r eof : keeps Γ (b6b_fd_on_read r eof).
Proof. unfold b6b_fd_on_read. changes. Qed.
Lemma keeps_fd_on_write Γ r : keeps Γ (b6b_fd_on_write r).
Proof. unfold b6b_fd_on_write. changes. Qed.
#[local] Hint Resolve keeps_fd_peeksz keeps_fd_on_read keeps_fd_on_write : refs.
Lemma keeps_sys_bytes Γ c len : keeps Γ (sys_bytes c len).
Proof. unfold sys_bytes. changes. Qed.
Lemma keeps_sys_upto Γ c hi : keeps Γ (sys_upto c hi).
Proof. unfold sys_upto. changes. Qed.
#[local] Hint Resolve keeps_sys_bytes keeps_sys_upto : refs.
Lemma keeps_fd_read Γ fd size eof again : keeps Γ (b6b_fd_read fd size eof again).
Proof. unfold b6b_fd_read. changes. Qed.
Lemma keeps_fd_recv Γ fd size eof again : keeps Γ (b6b_fd_recv fd size eof again).
Proof. unfold b6b_fd_recv. changes. Qed.
Lemma keeps_fd_write Γ fd buf : keeps Γ (b6b_fd_write fd buf).
Proof. unfold b6b_fd_write. changes. Qed.
Lemma keeps_fd_send Γ fd buf : keeps Γ (b6b_fd_send fd buf).
Proof. unfold b6b_fd_send. changes. Qed.
#[local] Hint Resolve keeps_fd_read keeps_fd_recv keeps_fd_write keeps_fd_send : refs.
Lemma keeps_fd_read_u64 Γ fd size eof again : keeps Γ (b6b_fd_read_u64 fd size eof again).
Proof. unfold b6b_fd_read_u64. changes. Qed.
Lemma keeps_fd_write_u64 Γ fd buf : keeps Γ (b6b_fd_write_u64 fd buf).
Proof. unfold b6b_fd_write_u64. changes. Qed.
Lemma keeps_signal_read Γ fd size eof again : keeps Γ (b6b_signal_read fd size eof again).
Proof. unfold b6b_signal_read. changes. Qed.
Lemma keeps_readfrom Γ o fd size eof again : keeps Γ (b6b_socket_readfrom o fd size eof again).
Proof. unfold b6b_socket_readfrom. changes. Qed.
#[local] Hint Resolve keeps_fd_read_u64 keeps_fd_write_u64 keeps_signal_read keeps_readfrom : refs.

Lemma changes_stringify Γ a : changes Γ (b6b_socket_stringify_address a) opt_ref no_facts.
Proof. unfold b6b_socket_stringify_address. changes. Qed.
#[local] Hint Resolve changes_stringify : refs.
Lemma changes_inet_peer Γ a : changes Γ (b6b_socket_inet_peer a) opt_ref no_facts.
Proof.
  unfold b6b_socket_inet_peer. destruct a.
  1, 4: intros h r h' Hf Hk H; assert (Done (None, h) = Done (r, h')) as [= <- <-] by exact H;
    split_and!; [done|entries|done|done].
  all: changes.
Qed.
#[local] Hint Resolve changes_inet_peer : refs.
Lemma changes_ref_result Γ o : changes Γ (b6b_ref o) (λ r, refs [r]) no_facts.
Proof.
  intros h r h' Hf Hk H. assert (r = o) as ->; [|by eapply changes_ref].
  unfold b6b_ref in H. apply bind_Done in H as (x & h1 & _ & H). destruct (_ <? _); [done|].
  by apply bind_Done in H as ([] & h2 & _ & [= <- _]).
Qed.
Lemma changes_file_peer Γ a : changes Γ (b6b_socket_file_peer a) opt_ref no_facts.
Proof.
  assert (changes Γ (s ← get; o ← on_heap (b6b_ref (null (s_in s))); mret (Some o)) opt_ref no_facts).
  { eapply changes_then; [apply changes_get|]. intros s.
    eapply changes_bind; [apply changes_on_heap, changes_ref_result|]. intros o.
    apply changes_ret; [entries|known]. }
  unfold b6b_socket_file_peer. destruct a; [done..|]. changes.
Qed.
#[local] Hint Resolve changes_file_peer changes_socket_new : refs.
Lemma changes_stream_accept Γ fd k type :
  changes Γ (b6b_socket_stream_accept fd k type) accept_refs no_facts.
Proof. unfold b6b_socket_stream_accept. changes. Qed.
#[local] Hint Resolve changes_stream_accept : refs.

Ltac counted_tac := split; simpl; intros; try done; solve [changes|eauto 3 with refs].

Lemma counted_sem_ops fd : counted_ops (b6b_sem_ops fd).
Proof. counted_tac. Qed.
Lemma counted_timer_ops fd : counted_ops (b6b_timer_ops fd).
Proof. counted_tac. Qed.
Lemma counted_signal_ops fd set : counted_ops (b6b_signal_ops fd set).
Proof. counted_tac. Qed.
Lemma counted_sh_in_ops pid fd : counted_ops (b6b_sh_in_ops pid fd).
Proof. counted_tac. Qed.
Lemma counted_sh_out_ops pid fd : counted_ops (b6b_sh_out_ops pid fd).
Proof. counted_tac. Qed.
Lemma counted_socket_ops o k peer addr fd : counted_ops (socket_ops o k peer addr fd).
Proof. destruct k; counted_tac. Qed.
End descriptors.

Section strm.
Variable ops : b6b_strm_ops IM.
Hypothesis Hops : paying_ops ops.

Lemma pays_strm_peeksz Γ : pays_all Γ (b6b_strm_peeksz ops).
Proof.
  unfold b6b_strm_peeksz. destruct (op_peeksz ops) as [f|] eqn:E; [|pays].
  pose proof (po_peeksz _ Hops) as H. rewrite E in H. simpl in H. pays.
Qed.
#[local] Hint Resolve pays_strm_peeksz : dues.

Lemma pays_read_loop Γ read n :
  (∀ Γ size eof again, pays_all Γ (read size eof again)) →
  ∀ buf len est want eof again, pays_all Γ (read_loop ops read n buf len est want eof again).
Proof.
  intros Hr. revert Γ. induction n as [|n IH]; intros; cbn [read_loop]; pays.
Qed.

Lemma pays_strm_read Γ n closed eof want : pays_all Γ (b6b_strm_read ops n closed eof want).
Proof.
  unfold b6b_strm_read. destruct (op_read ops) as [read|] eqn:E; [|pays].
  pose proof (po_read _ Hops) as H. rewrite E in H. simpl in H.
  pose proof (λ Γ, pays_read_loop Γ read n H). pays.
Qed.

Lemma pays_write_loop Γ write n :
  (∀ Γ buf, pays_all Γ (write buf)) → ∀ buf out, pays_all Γ (write_loop write n buf out).
Proof.
  intros Hw. revert Γ. induction n as [|n IH]; intros; cbn [write_loop]; pays.
Qed.

Lemma pays_strm_write Γ closed buf : pays_all Γ (b6b_strm_write ops closed buf).
Proof.
  unfold b6b_strm_write. destruct (op_write ops) as [write|] eqn:E; [|pays].
  pose proof (po_write _ Hops) as H. rewrite E in H. simpl in H.
  pose proof (λ Γ, pays_write_loop Γ write (length buf) H). pays.
Qed.

Lemma pays_strm_writeln Γ closed buf : pays_all Γ (b6b_strm_writeln ops closed buf).
Proof. apply pays_strm_write. Qed.
End strm.

Section io.
Context {env : Env}.
Variable n : nat.

Lemma pays_stdio_seek Γ fp off whence : pays_all Γ (stdio_seek n fp off whence).
Proof. unfold stdio_seek. pays. Qed.
#[local] Hint Resolve pays_stdio_seek : dues.
Lemma keeps_stdio_tell Γ o : keeps Γ (stdio_tell o).
Proof. unfold stdio_tell. changes. Qed.
#[local] Hint Resolve keeps_stdio_tell : refs.

Lemma pays_stdio_peeksz Γ o : pays_all Γ (b6b_stdio_peeksz n o).
Proof. unfold b6b_stdio_peeksz. pays. Qed.
Lemma pays_stdio_read Γ o size eof again : pays_all Γ (b6b_stdio_read n o size eof again).
Proof. unfold b6b_stdio_read. pays. Qed.
Lemma pays_stdio_write_loop Γ o k fp copy total :
  pays_all Γ (stdio_write_loop n o k fp copy total).
Proof. revert Γ total. induction k as [|k IH]; intros Γ total; simpl; pays. Qed.
#[local] Hint Resolve pays_stdio_write_loop : dues.
Lemma pays_stdio_write Γ o buf : pays_all Γ (b6b_stdio_write n o buf).
Proof. unfold b6b_stdio_write. pays. Qed.
#[local] Hint Resolve pays_stdio_peeksz pays_stdio_read pays_stdio_write : dues.

(** What [ops_of] gives has paying operations. *)
Lemma ops_of_pays Γ o s {A} (f : b6b_strm_ops IM → IM A) d Γ' :
  (∀ ops, paying_ops ops → pays Γ (f ops) d Γ') → pays Γ (ops_of n o s ≫= f) d Γ'.
Proof.
  intros Hf. assert (∀ ops, paying_ops ops → pays Γ (mret ops ≫= f) d Γ') as Hm.
  { intros ops Hops s0 e Hs. by apply Hf. }
  unfold ops_of. destruct (strm_ops s), (strm_priv s); try done; apply Hm;
    try (apply lift_ops_paying;
      [solve [apply quiet_sem_ops|apply quiet_timer_ops|apply quiet_signal_ops
        |apply quiet_sh_in_ops|apply quiet_sh_out_ops|apply quiet_socket_ops]
      |solve [apply counted_sem_ops|apply counted_timer_ops|apply counted_signal_ops
        |apply counted_sh_in_ops|apply counted_sh_out_ops|apply counted_socket_ops]]);
    split; simpl; intros; try done; auto with dues.
Qed.
Ltac with_ops := apply ops_of_pays; intros ops Hops.

(** *** [b6b_strm_close] *)

Lemma accounts_lift (m : M st unit) s0 e :
  calm s0 → (∀ o, l_due s0 o ≤ e o) →
  (∀ s, m s0 = Done (tt, s) → settled s ∧ st_fine s ∧ later s0 s ∧ ∀ o, l_due s o ≤ l_due s0 o) →
  accounts (lift m s0) s0 e nothing no_facts.
Proof.
  intros Hc Hd Hm. unfold lift. destruct (m s0) as [[[] s]| |]; [|done..].
  destruct (Hm s eq_refl) as (Hs & Hf & Hl & D). split_and!; [by split|done| |done].
  intros o. specialize (D o). specialize (Hd o). lia.
Qed.

(** The calls of a stream that does not let other threads run, and the end. *)
Lemma sync_close (close : M st unit) cs o x s s0 e :
  (∀ s0, close s0 = on_heap (sys_note cs;; miter b6b_unref (close_refs s)) s0) →
  objs (s_heap s0) !! o = Some x → o_priv x = V_strm s → calm s0 → (∀ p, l_due s0 p ≤ e p) →
  accounts ((lift close;; hp (strm_close_done o)) s0) s0 e nothing no_facts.
Proof.
  intros Hcl Hx Hp Hc Hd. change (hp (strm_close_done o)) with (lift (on_heap (strm_close_done o))).
  rewrite (lift_bind close (λ _, on_heap (strm_close_done o))). apply accounts_lift; [done|done|].
  intros s1 ([] & s2 & H1 & H2)%bind_Done. rewrite Hcl in H1.
  apply on_heap_inv in H1 as (h1 & H1 & ->). apply on_heap_inv in H2 as (h2 & H2 & ->).
  cbn [s_heap s_in s_tids s_err] in *.
  assert ((sys_note cs;; miter b6b_unref (close_refs s);; strm_close_done o) (s_heap s0) = Done (tt, h2)) as H.
  { apply bind_Done in H1 as ([] & h0 & H0 & H1). rewrite (bind_eq _ _ _ _ _ H0).
    by rewrite (bind_eq _ _ _ _ _ H1). }
  destruct (strm_closed_lowers o x s cs _ _ (sf_heap _ (ca_fine _ Hc)) Hx Hp H) as (F & D & K).
  split_and!; [|by apply st_fine_heap; [apply Hc| |]|done|].
  - eapply view_settled; [|apply Hc]. done.
  - intros p. specialize (D p). simpl. lia.
Qed.

Lemma pays_stdio_close Γ o : pays_all Γ (b6b_stdio_close n o;; hp (strm_close_done o)).
Proof.
  unfold b6b_stdio_close. apply pays_assoc. eapply pays_then; [solve [pays]|]. intros fp.
  apply pays_assoc. eapply pays_then; [solve [pays]|]. intros r.
  apply (pays_ext _ (hp (stdio_fp o;; strm_close_done o))); [|apply pays_hp, stdio_done_lowers].
  intros s. unfold hp, lift, on_heap, zoom, mbind, IM_bind, M_bind. simpl.
  by destruct (stdio_fp o (s_heap s)) as [[fp' h]| |].
Qed.

Lemma pays_strm_close Γ o : pays_all Γ (b6b_strm_close n o).
Proof.
  intros s0 e Hc Hk Hd. unfold b6b_strm_close.
  assert (∀ f, (hp (get_strm o) ≫= f) s0 =
    match get_strm o (s_heap s0) with
    | Done (s, h) => f s (mkSt h (s_in s0) (s_tids s0) (s_err s0))
    | Ub => Fault | Oof => NoFuel end) as ->.
  { intros f. unfold hp, lift, on_heap, zoom, mbind, IM_bind. by destruct (get_strm o (s_heap s0)) as [[]| |]. }
  destruct (get_strm o (s_heap s0)) as [[s h]| |] eqn:E; [|done..].
  apply get_strm_inv in E as (-> & x & Hx & Hp).
  replace (mkSt _ _ _ _) with s0 by (by destruct s0).
  destruct (strm_closed s); [exact (pays_mret Γ tt s0 e Hc Hk Hd)|].
  assert (∀ (close : M st unit) cs, (∀ s0, close s0 = on_heap (sys_note cs;; miter b6b_unref (close_refs s)) s0) →
    accounts ((lift close;; hp (strm_close_done o)) s0) s0 e nothing no_facts) as Hsync.
  { intros close cs Hcl. by eapply sync_close. }
  assert (close_refs s = [] → accounts ((mret tt;; hp (strm_close_done o)) s0) s0 e nothing no_facts) as Hnone.
  { intros Hr. refine (Hsync (mret tt) [] _). rewrite Hr. by intros [[? ? []] ? ? ?]. }
  assert (∀ cs, close_refs s = [] →
    accounts ((hp (sys_note cs);; hp (strm_close_done o)) s0) s0 e nothing no_facts) as Hnote.
  { intros cs Hr. refine (Hsync (on_heap (sys_note cs)) cs _). by rewrite Hr. }
  assert (∀ pid fd, strm_priv s = S_sh pid fd →
    accounts ((lift (b6b_sh_close pid fd);; hp (strm_close_done o)) s0) s0 e nothing no_facts) as Hsh.
  { intros pid fd Es. refine (Hsync _ [C_close fd] _). intros s1. unfold close_refs. rewrite Es.
    unfold b6b_sh_close, on_heap, zoom, mbind, M_bind. simpl. unfold mbind, M_bind.
    by destruct (b6b_unref pid _) as [[[] ?]| |]. }
  clear Hsync. unfold ops_of.
  destruct (strm_ops s), (strm_priv s) eqn:Es; try done;
    try exact (pays_stdio_close Γ o s0 e Hc Hk Hd); try exact (Hsh _ _ eq_refl);
    assert (close_refs s = []) as Hr by (unfold close_refs; by rewrite Es);
    first [exact (Hnone Hr)|exact (Hnote _ Hr)].
Qed.

(** *** The other operations *)

Lemma pays_accept_loop Γ accept k l :
  (∀ Γ, pays Γ accept accept_refs no_facts) → l ∈ Γ →
  pays Γ (accept_loop accept k l) (λ _ o, - refs [l] o) no_facts.
Proof.
  intros Ha. revert Γ. induction k as [|k IH]; intros Γ Hl; simpl; pays.
Qed.
#[local] Hint Resolve pays_accept_loop : dues.

Lemma pays_strm_accept Γ o : pays_all Γ (b6b_strm_accept n o).
Proof.
  unfold b6b_strm_accept. eapply pays_then; [solve [pays]|]. intros s. with_ops.
  pose proof (po_accept _ Hops) as H1. destruct (strm_closed s); [pays|].
  destruct (op_accept ops) as [accept|]; simpl in H1; pays.
Qed.

#[local] Hint Resolve changes_return_opt : refs.

Lemma pays_strm_peer Γ o : pays_all Γ (b6b_strm_peer n o).
Proof.
  unfold b6b_strm_peer. eapply pays_then; [solve [pays]|]. intros s. with_ops.
  pose proof (po_peer _ Hops) as H1. destruct (op_peer ops); simpl in H1; pays.
Qed.

(** The new object owns a reference to the stream. *)
Definition fd_object (fd : Z) (o : loc) : M st b6b_res :=
  fdo ← on_heap (b6b_int_new fd);
  on_heap (b6b_ref o);;
  on_heap (update_obj fdo (with_del D_unref (V_obj o)));;
  b6b_return fdo.

Lemma lowers_fd_object Γ fd o : frugal Γ (fd_object fd o).
Proof.
  apply (lowers_new _ _ (new_int fd)); [intros h; apply int_new_eq|done..|]. intros fdo.
  eapply bare_bind; [apply spares_on_heap, spares_ref|solve [eauto 3 with lowers]|]. intros q.
  eapply (bare_own _ _ _ [o]); [by intros x; split_and!|].
  eapply lowers_conseq; [apply lowers_changes, changes_return|entries|known].
Qed.

Lemma pays_strm_fd Γ o : pays_all Γ (b6b_strm_fd n o).
Proof.
  unfold b6b_strm_fd. eapply pays_then; [solve [pays]|]. intros s.
  destruct (strm_closed s); [pays|]. with_ops.
  apply (pays_ext _ (lift (fd_object (op_fd ops) o))).
  2:{ apply pays_lift; [apply quiet_soothes; unfold fd_object; quiet_tac|apply lowers_fd_object]. }
  intros s0. unfold hp, lift, on_heap, zoom, mbind, IM_bind, M_bind. simpl.
  unfold fd_object, on_heap, zoom, mbind, M_bind. simpl.
  destruct (b6b_int_new (op_fd ops) (s_heap s0)) as [[fdo h1]| |]; [|done..]. simpl.
  destruct (b6b_ref o h1) as [[q h2]| |]; [|done..]. simpl.
  by destruct (update_obj fdo _ h2) as [[[] h3]| |].
Qed.

Lemma keeps_return_answer Γ a : keeps Γ (return_answer a).
Proof. unfold return_answer. changes. Qed.
#[local] Hint Resolve keeps_return_answer : refs.
#[local] Hint Resolve quiet_return_answer : quiet.

Lemma pays_read Γ o want : pays_all Γ (strm_read n o want).
Proof.
  unfold strm_read. eapply pays_then; [solve [pays]|]. intros s. with_ops.
  pose proof (λ Γ, pays_strm_read ops Hops Γ n). pays.
Qed.

Lemma pays_write Γ write o arg :
  (∀ Γ ops closed buf, paying_ops ops → pays_all Γ (write ops closed buf)) →
  pays_all Γ (strm_write n write o arg).
Proof.
  intros Hw. unfold strm_write. eapply pays_then; [solve [pays]|]. intros ok.
  destruct (negb ok); [pays|]. eapply pays_then; [solve [pays]|]. intros s. with_ops.
  pose proof (λ Γ closed buf, Hw Γ ops closed buf Hops). pays.
Qed.
#[local] Hint Resolve pays_strm_close pays_strm_accept pays_strm_peer
  pays_strm_fd pays_read : dues.

Lemma pays_get_args Γ l fmt ap :
  pays Γ (lift (get_args l fmt ap)) nothing (λ '(_, outs), list_args (lit fmt) ap outs).
Proof. apply pays_quiet; [quiet_tac|apply changes_get_args]. Qed.
#[local] Hint Resolve pays_get_args : dues.

Lemma pays_strm_proc args : pays_all [] (b6b_strm_proc n args).
Proof.
  pose proof (λ Γ o arg, pays_write Γ b6b_strm_write o arg
    (λ Γ ops closed buf H, pays_strm_write ops H Γ closed buf)).
  pose proof (λ Γ o arg, pays_write Γ b6b_strm_writeln o arg
    (λ Γ ops closed buf H, pays_strm_writeln ops H Γ closed buf)).
  unfold b6b_strm_proc. pays_proc.
Qed.

(** ** Files, system calls, sockets, compression *)

Lemma lowers_file_new Γ fp fd bmode k :
  lowers Γ (b6b_file_new fp fd bmode k) opt_ref no_facts.
Proof. unfold b6b_file_new. lowers. Qed.
#[local] Hint Resolve lowers_file_new : lowers.
Lemma pays_file_new Γ fp fd bmode k : pays Γ (hp (b6b_file_new fp fd bmode k)) opt_ref no_facts.
Proof. apply pays_hp, lowers_file_new. Qed.
#[local] Hint Resolve pays_file_new : dues.

Lemma pays_open_file Γ path mode : pays_all Γ (open_file n path mode).
Proof. unfold open_file. pays. Qed.
Lemma pays_syscall Γ c : pays_all Γ (b6b_syscall n c).
Proof. unfold b6b_syscall. pays. Qed.
#[local] Hint Resolve pays_open_file pays_syscall : dues.

Lemma pays_open args : pays_all [] (b6b_file_proc_open n args).
Proof. unfold b6b_file_proc_open. pays_proc. Qed.

Lemma pays_sleep_loop Γ k sec nsec : pays_all Γ (sleep_loop n k sec nsec).
Proof. revert Γ sec nsec. induction k as [|k IH]; intros; simpl; pays. Qed.
#[local] Hint Resolve pays_sleep_loop : dues.
Lemma pays_sleep args : pays_all [] (b6b_time_proc_sleep n args).
Proof. unfold b6b_time_proc_sleep. pays_proc. Qed.

Lemma keeps_poll_fd Γ p : keeps Γ (poll_fd p).
Proof. unfold poll_fd. changes. Qed.
Lemma changes_new_lists Γ k l : l ∈ Γ → changes Γ (new_lists k l) nothing (λ os, os).
Proof.
  revert Γ. induction k as [|k IH]; intros Γ Hl; simpl; changes.
Qed.
Lemma keeps_add_if Γ c l o : l ∈ Γ → keeps Γ (add_if c l o).
Proof. intros Hl. unfold add_if. changes. Qed.
#[local] Hint Resolve keeps_poll_fd changes_new_lists keeps_add_if : refs.
Lemma keeps_event_loop Γ rs ws es evs j i ret k :
  rs ∈ Γ → ws ∈ Γ → es ∈ Γ → keeps Γ (event_loop rs ws es evs j i ret k).
Proof.
  revert Γ j i. induction evs as [|[fd ev] evs IH]; intros Γ j i Hr Hw He; simpl; changes.
Qed.
#[local] Hint Resolve keeps_event_loop : refs.
Lemma keeps_poll_ctl Γ c ok : keeps Γ (poll_ctl c ok).
Proof. unfold poll_ctl. changes. Qed.
#[local] Hint Resolve keeps_poll_ctl : refs.
#[local] Hint Resolve quiet_poll_ctl : quiet.

Lemma pays_poll_wait Γ p num t : pays_all Γ (poll_wait n p num t).
Proof. unfold poll_wait. pays. Qed.
#[local] Hint Resolve pays_poll_wait : dues.
Lemma pays_poll args : pays_all [] (b6b_poll_proc n args).
Proof. unfold b6b_poll_proc. pays_proc. Qed.

Lemma pays_resolve Γ host service socktype :
  pays_all Γ (b6b_socket_resolve n host service socktype).
Proof.
  unfold b6b_socket_resolve. eapply pays_then; [solve [pays]|]. intros h.
  eapply pays_then with (Γ1 := no_facts); [destruct service; pays|]. intros s. pays.
Qed.
#[local] Hint Resolve pays_resolve : dues.
#[local] Hint Resolve changes_stringify changes_client_new changes_server_new : refs.

Lemma keeps_nslookup_loop Γ l res : l ∈ Γ → keeps Γ (nslookup_loop l res).
Proof. revert Γ. induction res as [|a res IH]; intros Γ Hl; simpl; changes. Qed.
#[local] Hint Resolve keeps_nslookup_loop : refs.
Lemma pays_nslookup args : pays_all [] (b6b_socket_proc_nslookup n args).
Proof. unfold b6b_socket_proc_nslookup. pays_proc. Qed.
Lemma pays_inet_client args : pays_all [] (b6b_socket_proc_inet_client n args).
Proof. unfold b6b_socket_proc_inet_client. pays_proc. Qed.
Lemma pays_inet_server args : pays_all [] (b6b_socket_proc_inet_server n args).
Proof. unfold b6b_socket_proc_inet_server. pays_proc. Qed.

Lemma keeps_mz_call Γ c src room s : keeps Γ (mz_call c src room s).
Proof. unfold mz_call. changes. Qed.
#[local] Hint Resolve keeps_mz_call : refs.
Lemma keeps_do_deflate Γ k src dlen rem s : keeps Γ (do_deflate k src dlen rem s).
Proof. revert Γ rem s. induction k as [|k IH]; intros Γ rem s; simpl; changes. Qed.
Lemma keeps_do_inflate Γ k src dlen s : keeps Γ (do_inflate k src dlen s).
Proof. revert Γ dlen s. induction k as [|k IH]; intros Γ dlen s; simpl; changes. Qed.
#[local] Hint Resolve keeps_do_deflate keeps_do_inflate : refs.

(** What a format puts around the data is found without taking references. *)
Definition plain_finish (f : option (bytes → Z → HM (bytes * bytes))) : Prop :=
  from_option (λ f, ∀ Γ src level, keeps Γ (f src level)) True f.

Lemma pays_deflate_text Γ src level wbits max finish :
  plain_finish finish → pays_all Γ (deflate_text n src level wbits max finish).
Proof. intros Hf. destruct finish; simpl in Hf; unfold deflate_text; pays. Qed.
#[local] Hint Resolve pays_deflate_text : dues.
Lemma pays_inflate_text Γ src wbits dlen : pays_all Γ (inflate_text n src wbits dlen).
Proof. unfold inflate_text. pays. Qed.
#[local] Hint Resolve pays_inflate_text : dues.

Lemma pays_deflate args wbits head foot finish :
  plain_finish finish → pays_all [] (b6b_zlib_deflate n args wbits head foot finish).
Proof. intros Hf. unfold b6b_zlib_deflate. pays_proc. Qed.
Lemma pays_inflate args wbits head foot get_size :
  pays_all [] (b6b_zlib_inflate n args wbits head foot get_size).
Proof. unfold b6b_zlib_inflate. pays_proc. Qed.
Lemma plain_gzip : plain_finish (Some b6b_zlib_gzip_finish).
Proof. intros Γ src level. unfold b6b_zlib_gzip_finish. changes. Qed.

Lemma pays_io_procs args :
  pays_all [] (b6b_strm_proc n args) ∧ pays_all [] (b6b_file_proc_open n args) ∧
  pays_all [] (b6b_time_proc_sleep n args) ∧ pays_all [] (b6b_poll_proc n args) ∧
  pays_all [] (b6b_socket_proc_nslookup n args) ∧ pays_all [] (b6b_socket_proc_inet_client n args) ∧
  pays_all [] (b6b_socket_proc_inet_server n args) ∧
  pays_all [] (b6b_zlib_proc_deflate n args) ∧ pays_all [] (b6b_zlib_proc_compress n args) ∧
  pays_all [] (b6b_zlib_proc_gzip n args) ∧ pays_all [] (b6b_zlib_proc_inflate n args) ∧
  pays_all [] (b6b_zlib_proc_decompress n args) ∧ pays_all [] (b6b_zlib_proc_gunzip n args).
Proof.
  split_and!;
    [apply pays_strm_proc|apply pays_open|apply pays_sleep|apply pays_poll|apply pays_nslookup
    |apply pays_inet_client|apply pays_inet_server|by apply pays_deflate|by apply pays_deflate
    |apply pays_deflate, plain_gzip|apply pays_inflate|apply pays_inflate|apply pays_inflate].
Qed.
End io.
