(* ===== verification/Solvent.v ===== *)
(** * The evaluator returns the references it takes

    [pays] of Dues.v for the procedures that run code and for
    [b6b_stmt_call], by induction on the fuel. *)
From Stdlib Require Import ZArith Lia Init.Byte Strings.Byte Strings.String.
From stdpp Require Import base option list numbers gmap.
From S2P Require Import Prelude Sys Float64 Hash Parse Heap Repr ListObj Dict Types Offload Interp.
From S2P Require Import StrProcs ListProcs CoreProcs.
From S2P Require Import Strm FdOps FdProcs Switch Sockets Streams SysProcs Ffi Zlib Eval.
From S2P Require Import Quiet Frames Ledger Counted Dues Payments IoDues.
#[local] Open Scope Z_scope.

Lemma keeps_add_tokens Γ o ts : o ∈ Γ → keeps Γ (add_tokens o ts).
Proof. revert Γ. induction ts as [|t ts IH]; intros Γ Ho; simpl; changes. Qed.
#[export] Hint Resolve keeps_add_tokens : refs.

Lemma frugal_destroy_l Γ o : frugal Γ (b6b_destroy_l o).
Proof.
  unfold b6b_destroy_l, b6b_destroy_l_with. lower_step. intros h u h' Hf Hk H.
  rewrite <- miter_fmap in H. revert h u h' Hf Hk H.
  eapply lowers_conseq; [apply lowers_changes, changes_drop_all| |known].
  intros [] p. unfold refs. lia.
Qed.
#[export] Hint Resolve frugal_destroy_l : lowers.

(** After a syntax error the items are dropped, and once more with the list. *)
Lemma lowers_list_from Γ s : lowers Γ (b6b_list_from s) opt_ref no_facts.
Proof.
  unfold b6b_list_from, b6b_do_as_list_obj. destruct (b6b_do_as_list s) as [ts ok].
  lower_step. eapply lowers_bind with (d1 := nothing) (Γ1 := no_facts); [|intros b]; lowers.
Qed.
Lemma pays_list_from Γ s : pays Γ (hp (b6b_list_from s)) opt_ref no_facts.
Proof. apply pays_hp, lowers_list_from. Qed.
Lemma keeps_list_empty Γ l : keeps Γ (b6b_list_empty l).
Proof. unfold b6b_list_empty. changes. Qed.
#[export] Hint Resolve pays_list_from : dues.
#[export] Hint Resolve keeps_list_empty : refs.

Lemma pays_get_str Γ s : pays_all Γ (lift (b6b_get_str s)).
Proof. apply pays_lift; [apply quiet_soothes; auto with quiet|apply frugal_get_str]. Qed.
#[export] Hint Resolve pays_get_str pays_get_args : dues.

Lemma pays_on_res Γ r : pays_all Γ (b6b_on_res r).
Proof. unfold b6b_on_res. pays. Qed.
#[export] Hint Resolve pays_on_res : dues.

Section eval.
Context {env : Env}.
Variable n : nat.
Variable b6b_stmt_call : loc → IM b6b_res.
Hypothesis Hstmt : ∀ Γ stmt, pays_all Γ (b6b_stmt_call stmt).
#[local] Hint Resolve Hstmt : dues.

Abbreviation call := (b6b_call n b6b_stmt_call).

Lemma pays_eval Γ exp : pays_all Γ (b6b_eval b6b_stmt_call exp).
Proof. unfold b6b_eval. pays. Qed.

Lemma pays_call_loop Γ k stmts li : pays_all Γ (call_loop b6b_stmt_call k stmts li).
Proof.
  revert Γ li. induction k as [|k IH]; intros Γ [i|]; simpl; pays.
Qed.
#[local] Hint Resolve pays_call_loop : dues.

Lemma pays_call Γ stmts : pays_all Γ (call stmts).
Proof. unfold b6b_call. pays. Qed.
#[local] Hint Resolve pays_eval pays_call : dues.

Lemma pays_call_copy Γ s : pays_all Γ (b6b_call_copy n b6b_stmt_call s).
Proof. unfold b6b_call_copy. pays. Qed.

Lemma pays_source Γ path : pays_all Γ (b6b_source n b6b_stmt_call path).
Proof. unfold b6b_source. pays. Qed.
#[local] Hint Resolve pays_source : dues.

Lemma pays_map_assign Γ k ks l kli li : pays_all Γ (map_assign k ks l kli li).
Proof.
  revert Γ kli li. induction k as [|k IH]; intros Γ [ki|] [i|]; simpl; pays.
Qed.
#[local] Hint Resolve pays_map_assign : dues.

Lemma pays_fg_thread Γ : pays Γ (lift fg_thread) nothing (λ t, frames_roots (t_curr t)).
Proof. apply pays_quiet; [quiet_tac|apply changes_fg_thread]. Qed.
#[local] Hint Resolve pays_fg_thread : dues.

Lemma pays_map_loop Γ k ks l b r li :
  r ∈ Γ → pays Γ (map_loop n b6b_stmt_call k ks l b r li) (λ _ o, - refs [r] o) no_facts.
Proof.
  revert Γ li. induction k as [|k IH]; intros Γ [i|] Hr; simpl; pays.
Qed.
#[local] Hint Resolve pays_map_loop : dues.

Lemma pays_map args : pays_all [] (b6b_loop_proc_map n b6b_stmt_call args).
Proof. unfold b6b_loop_proc_map. pays_proc. Qed.

Lemma pays_loop_loop Γ k b : pays_all Γ (loop_loop n b6b_stmt_call k b).
Proof. revert Γ. induction k as [|k IH]; intros Γ; simpl; pays. Qed.
#[local] Hint Resolve pays_loop_loop : dues.

Lemma pays_try_except Γ argc e : pays_all Γ (try_except n b6b_stmt_call argc e).
Proof. unfold try_except. pays. Qed.
Lemma pays_try_finally Γ f : pays_all Γ (try_finally n b6b_stmt_call f).
Proof. unfold try_finally. pays. Qed.
#[local] Hint Resolve pays_try_except pays_try_finally : dues.

Lemma pays_try args : pays_all [] (b6b_exc_proc_try n b6b_stmt_call args).
Proof. unfold b6b_exc_proc_try. pays_proc. Qed.
Lemma pays_if_proc args : pays_all [] (b6b_logic_proc_if n b6b_stmt_call args).
Proof. unfold b6b_logic_proc_if. pays_proc. Qed.
Lemma pays_loop args : pays_all [] (b6b_loop_proc_loop n b6b_stmt_call args).
Proof. unfold b6b_loop_proc_loop. pays_proc. Qed.
Lemma pays_core_call args : pays_all [] (b6b_core_proc_call n b6b_stmt_call args).
Proof. unfold b6b_core_proc_call. pays_proc. Qed.
Lemma pays_core_eval args : pays_all [] (b6b_core_proc_eval b6b_stmt_call args).
Proof. unfold b6b_core_proc_eval. pays_proc. Qed.
Lemma pays_spawn args : pays_all [] (b6b_core_proc_spawn args).
Proof. unfold b6b_core_proc_spawn. pays_proc. Qed.
Lemma pays_core_source args : pays_all [] (b6b_core_proc_source n b6b_stmt_call args).
Proof. unfold b6b_core_proc_source. pays_proc. Qed.

(** *** Procedures of the program *)

Lemma pays_curr_frame Γ : pays Γ (lift curr_frame) nothing frame_roots.
Proof. apply pays_quiet; [quiet_tac|apply changes_curr_frame]. Qed.
Lemma pays_set_args Γ f args :
  fr_locals f ∈ Γ → pays_all Γ (lift (b6b_frame_set_args f args)).
Proof.
  intros Hf. apply pays_lift; [apply quiet_soothes; auto with quiet|by apply frugal_set_args].
Qed.
#[local] Hint Resolve pays_curr_frame pays_set_args : dues.
#[local] Hint Extern 2 (_ ∈ _) => unfold frame_roots; set_solver : dues.

Lemma pays_proc_proc args : pays_all [] (b6b_proc_proc n b6b_stmt_call args).
Proof. unfold b6b_proc_proc. pays. Qed.

(** The end of [proc]: the object gets its body. *)
Definition give_body (o b : loc) (p : list loc) : M st b6b_res :=
  on_heap (b6b_ref b);;
  i ← get;
  let pr := match p with p :: _ => p | [] => null (s_in i) end in
  on_heap (b6b_ref pr);;
  on_heap (update_obj o (λ x, with_proc P_proc_body (with_del D_proc (V_proc b pr) x)));;
  b6b_return o.

Lemma give_body_lowers Γ o b p : bare_lowers o Γ (give_body o b p) (λ _ q, - refs [o] q) no_facts.
Proof.
  unfold give_body. eapply bare_bind; [apply spares_on_heap, spares_ref|solve [eauto 3 with lowers]|].
  intros q. eapply bare_bind; [apply spares_get|solve [eauto 3 with lowers]|]. intros i. cbv zeta.
  set (pr := match p with p :: _ => p | [] => null (s_in i) end).
  eapply bare_bind; [apply spares_on_heap, spares_ref|solve [eauto 3 with lowers]|]. intros q'.
  eapply (bare_own _ _ _ [pr; b]); [by intros x; split_and!|].
  eapply lowers_conseq; [apply lowers_changes, changes_return|entries|known].
Qed.

(** A new procedure, for a name that is not empty, and for the empty name. *)
Definition new_proc (s : bytes) (nm b : loc) (p : list loc) : M st b6b_res :=
  o ← on_heap (b6b_str_copy s);
  ok ← b6b_global nm o;
  if negb ok then on_heap (b6b_destroy o);; mret B6B_ERR else give_body o b p.
Definition new_anonymous (b : loc) (p : list loc) : M st b6b_res :=
  o ← on_heap (b6b_str_copy []); give_body o b p.

Lemma quiet_give_body o b p : quiet (give_body o b p).
Proof. unfold give_body. quiet_tac. Qed.
#[local] Hint Resolve quiet_give_body : quiet.

Lemma new_proc_lowers Γ s nm b p : frugal Γ (new_proc s nm b p).
Proof.
  unfold new_proc. apply (lowers_new_global _ _ (new_str s)); [intros h; apply str_copy_eq|done..|].
  intros o [|]; [|].
  - eapply bare_conseq; [apply give_body_lowers|entries|known].
  - apply bare_from. cbn [negb]. lowers.
Qed.

Lemma new_anonymous_lowers Γ b p : frugal Γ (new_anonymous b p).
Proof.
  unfold new_anonymous. apply (lowers_new _ _ (new_str [])); [intros h; apply str_copy_eq|done..|].
  intros o. eapply bare_conseq; [apply give_body_lowers|entries|known].
Qed.

(** A run that does not switch threads, piece by piece. *)
Lemma lift_step {A B} (m : M st A) (f : A → M st B) (g : A → IM B) s :
  (∀ a s, lift (f a) s = g a s) → lift (m ≫= f) s = (lift m ≫= g) s.
Proof.
  intros Hf. unfold lift, mbind, IM_bind, M_bind. destruct (m s) as [[a s1]| |]; [|done..]. apply Hf.
Qed.

(** As the code has it. *)
Definition give_body_here (o b : loc) (p : list loc) : IM b6b_res :=
  hp (b6b_ref b);;
  i ← lift get;
  let pr := match p with p :: _ => p | [] => null (s_in i) end in
  hp (b6b_ref pr);;
  hp (update_obj o (λ x, with_proc P_proc_body (with_del D_proc (V_proc b pr) x)));;
  lift (b6b_return o).
Lemma give_body_eq o b p s : lift (give_body o b p) s = give_body_here o b p s.
Proof. unfold give_body, give_body_here. do 4 (apply lift_step; intros ? ?). done. Qed.

Lemma pays_proc_proc_proc args : pays_all [] (b6b_proc_proc_proc args).
Proof.
  unfold b6b_proc_proc_proc. eapply pays_then; [apply pays_get_args|].
  intros [argc outs]. destruct outs as [|nm [|b p]]; [destruct argc; pays..|].
  enough (∀ Γ s, pays_all Γ (o ← hp (b6b_str_copy s);
    ok ← match s with [] => mret true | _ => lift (b6b_global nm o) end;
    if negb ok then hp (b6b_destroy o);; mret B6B_ERR
    else give_body_here o b p)) as Hb.
  { destruct argc; [pays|..]; (eapply pays_then; [solve [pays]|intros s; apply Hb]). }
  intros Γ s. pose proof (λ o, give_body_eq o b p) as Hrest.
  destruct s as [|c s].
  - apply (pays_ext _ (lift (new_anonymous b p))).
    { intros s0. apply lift_step. intros o s1. exact (Hrest o s1). }
    apply pays_lift; [apply quiet_soothes; unfold new_anonymous; quiet_tac|apply new_anonymous_lowers].
  - apply (pays_ext _ (lift (new_proc (c :: s) nm b p))).
    { intros s0. apply lift_step. intros o s1. apply lift_step. intros [] s2; [exact (Hrest o s2)|].
      by apply lift_step. }
    apply pays_lift; [apply quiet_soothes; unfold new_proc; quiet_tac|apply new_proc_lowers].
Qed.

(** *** Statements *)

Lemma pays_counted Γ (p : loc → M st b6b_res) args :
  (∀ args, quiet (p args)) → p ∈ counted_procs → pays_all Γ (lift (p args)).
Proof.
  intros Hq Hp. pose proof (proj1 (Forall_forall _ _) procs_keep p Hp args) as Hk.
  apply pays_quiet; [apply Hq|]. by apply keeps_weaken.
Qed.

Lemma pays_forget Γ {A} (m : IM A) : pays_all [] m → pays_all Γ m.
Proof. intros Hm. eapply pays_weaken; [exact Hm|apply list_subseteq_nil|done|known]. Qed.

Lemma pays_sh args : pays_all [] (lift (b6b_sh_proc_sh args)).
Proof.
  apply pays_lift; [apply quiet_soothes|apply frugal_sh]. pose proof quiet_fd_procs. by destruct_and!.
Qed.

Ltac in_list :=
  lazymatch goal with |- ?x ∈ ?x :: _ => apply list_elem_of_here | _ => apply list_elem_of_further; in_list end.
Ltac counted_proc :=
  match goal with |- pays _ (lift (?p _)) _ _ =>
    apply (pays_counted _ p); [first [by auto with quiet | by apply quiet_obj_proc]|unfold counted_procs; in_list]
  end.

Lemma pays_call_proc Γ p args : pays_all Γ (call_proc n b6b_stmt_call p args).
Proof.
  pose proof quiet_str_procs. pose proof quiet_list_procs. pose proof quiet_rand_procs.
  pose proof quiet_math_procs. pose proof quiet_core_procs.
  pose proof quiet_shared_procs. pose proof quiet_fd_procs. pose proof quiet_ffi_procs.
  pose proof (pays_io_procs n args). destruct_and!.
  destruct p; simpl; try counted_proc; apply pays_forget;
    first [done|apply pays_sh|apply pays_if_proc|apply pays_map|apply pays_loop|apply pays_core_call
      |apply pays_core_eval|apply pays_spawn|apply pays_core_source|apply pays_try
      |apply pays_proc_proc|apply pays_proc_proc_proc].
Qed.
#[local] Hint Resolve pays_call_proc : dues.

Lemma pays_stmt_loop Γ k stmt args li r :
  args ∈ Γ → pays_all Γ (stmt_loop b6b_stmt_call k stmt args li r).
Proof.
  revert Γ li r. induction k as [|k IH]; intros Γ [i|] r Ha; simpl; pays.
Qed.
#[local] Hint Resolve pays_stmt_loop : dues.

Lemma keeps_trace_stmt Γ args : keeps Γ (trace_stmt args).
Proof.
  unfold trace_stmt. eapply changes_then; [solve [changes]|]. intros ok. apply changes_if; [changes|].
  eapply changes_then; [solve [changes]|]. intros s. cbv zeta.
  eapply changes_then with (Γ1 := no_facts); [|intros []; changes].
  intros s0 [] s1 Hf Hk [= <-]. destruct Hf as [A B C].
  split_and!; [by split|by intros o; rewrite Z.add_0_r|done|done].
Qed.
#[local] Hint Resolve keeps_trace_stmt : refs.

Lemma pays_stmt_body Γ stmt args :
  args ∈ Γ → pays_all Γ (stmt_body n b6b_stmt_call stmt args).
Proof. intros Ha. unfold stmt_body. pays. Qed.
#[local] Hint Resolve pays_stmt_body : dues.

Lemma pays_stmt_call_with Γ stmt : pays_all Γ (stmt_call_with n b6b_stmt_call stmt).
Proof. unfold stmt_call_with. pays. Qed.
End eval.

Lemma pays_stmt_call `{Env} n Γ stmt : pays_all Γ (b6b_stmt_call n stmt).
Proof.
  revert Γ stmt. induction n as [|n IH]; intros Γ stmt; [done|]. by apply pays_stmt_call_with.
Qed.

Lemma pays_call_fuel `{Env} n Γ stmts : pays_all Γ (call_fuel n stmts).
Proof. apply pays_call. intros. apply pays_stmt_call. Qed.
