(* ===== verification/Together.v ===== *)
(** * Frames and references together

    Dues.v and Frames.v for the same run, and for the machine of Sched.v: at
    every switch the entries of the ledger are at most what the suspended threads
    hold, and a thread that is done holds nothing. *)
From Stdlib Require Import ZArith Lia Init.Byte Strings.Byte Strings.String.
From stdpp Require Import base option list numbers gmap.
From S2P Require Import Prelude Sys Float64 Hash Parse Heap Repr ListObj Dict Types Offload Interp.
From S2P Require Import StrProcs ListProcs CoreProcs.
From S2P Require Import Strm FdOps FdProcs Switch Sockets Streams SysProcs Ffi Zlib Eval Sched.
From S2P Require Import Quiet Frames Balanced Threads Ledger Counted Dues Payments IoDues Solvent.
#[local] Open Scope Z_scope.

(** ** Both disciplines *)

(** The run starts in [s0] with entries of at most [e]; [Q] holds of the state
    it was last resumed in, its last state and the entries then. *)
Fixpoint runs {A} (u : N) (Q : A → st → st → (loc → Z) → Prop) (r : res A) (s0 : st)
    (e : loc → Z) : Prop :=
  match r with
  | Ret a s => Q a s0 s e
  | Fault | NoFuel => True
  | Susp t s k =>
      t = u ∧ others u s0 s ∧ inv s ∧ calm s ∧ later s0 s ∧
      ∃ c, (awake u s ∨ ∀ o, c o ≤ 0) ∧ (∀ o, l_due s o ≤ e o + c o) ∧
        ∀ s' e', rely u s s' → calm s' → later s s' → (∀ o, l_due s' o ≤ e' o + c o) →
          runs u Q (k s') s' e'
  end.

(** What balanced code that pays leaves behind. *)
Record left_by {A} (u : N) (Q : A → st → Prop) (a : A) (s0 s : st) (e : loc → Z) : Prop := {
  lb_others : others u s0 s;
  lb_post : Q a s;
  lb_calm : calm s;
  lb_later : later s0 s;
  lb_due : ∀ o, l_due s o ≤ e o
}.

Lemma runs_bind {A B} u Q1 Q2 (r : res A) (f : A → IM B) s0 e :
  runs u Q1 r s0 e → (∀ a s0 s e, Q1 a s0 s e → runs u Q2 (f a s) s0 e) →
  runs u Q2 (res_bind r f) s0 e.
Proof.
  intros Hr Hf. revert s0 e Hr. induction r as [a s| | |t s k IH]; intros s0 e; cbn [runs res_bind];
    [apply Hf|done..|].
  intros (H1 & H2 & H3 & H4 & H5 & c & H6 & H7 & H8). split_and!; [done..|].
  exists c. split_and!; [done..|]. intros s' e' Hr Hc Hl Hd. by apply IH, H8.
Qed.

(** A property of what came after the last time the run was resumed. *)
Definition shifts {A} (u : N) (Q : A → st → st → (loc → Z) → Prop) : Prop :=
  ∀ a s0 s1 s e, others u s0 s1 → later s0 s1 → Q a s1 s e → Q a s0 s e.

Lemma runs_from {A} u Q (r : res A) s0 s1 e :
  shifts u Q → others u s0 s1 → later s0 s1 → runs u Q r s1 e → runs u Q r s0 e.
Proof.
  intros HQ Ho Hl. destruct r as [a s| | |t s k]; cbn [runs]; [by apply HQ|done..|].
  intros (H1 & H2 & H3 & H4 & H5 & H6). split_and!; [done|by etrans|done|done|by etrans|done].
Qed.

Lemma runs_knows {A} u (Q : A → st → Prop) r s0 e Γ :
  wp u Q s0 r → accounts r s0 e nothing (λ _, Γ) →
  runs u (λ a s0 s e, left_by u Q a s0 s e ∧ Forall (l_knows s) Γ) r s0 e.
Proof.
  revert s0 e. induction r as [a s| | |t s k IH]; intros s0 e; cbn [wp accounts runs]; [|done..|].
  - intros [H1 H2] (H3 & H4 & H5 & H6). split; [|done]. split; [done..|].
    intros o. specialize (H5 o). lia.
  - intros (-> & H1 & H2 & H3) (H4 & H5 & H6 & c & H7 & H8). split_and!; [done..|].
    exists c. split_and!; [by left|done|]. intros s' e' Hr Hc Hl Hd. apply IH; auto.
Qed.

Lemma runs_mono {A} u (Q Q' : A → st → st → (loc → Z) → Prop) (r : res A) s0 e :
  runs u Q r s0 e → (∀ a s0 s e, Q a s0 s e → Q' a s0 s e) → runs u Q' r s0 e.
Proof.
  intros Hr HQ. revert s0 e Hr. induction r as [a s| | |t s k IH]; intros s0 e; cbn [runs];
    [apply HQ|done..|].
  intros (H1 & H2 & H3 & H4 & H5 & c & H6 & H7 & H8). split_and!; [done..|].
  exists c. split_and!; [done..|]. intros s' e' Hr Hc Hl Hd. by apply IH, H8.
Qed.

Lemma runs_both {A} u (Q : A → st → Prop) r s0 e :
  wp u Q s0 r → accounts r s0 e nothing no_facts → runs u (left_by u Q) r s0 e.
Proof. intros Hw Ha. eapply runs_mono; [by apply runs_knows|]. by intros ? ? ? ? []. Qed.

(** The main thread is always awake, so that it may hold references that it
    gives back in the end. *)
Lemma runs_less {A} (Q : A → st → st → (loc → Z) → Prop) (r : res A) s0 e d :
  runs 0%N Q r s0 (λ o, e o - d o) →
  runs 0%N (λ a s0 s e, Q a s0 s (λ o, e o - d o)) r s0 e.
Proof.
  revert s0 e. induction r as [a s| | |t s k IH]; intros s0 e; cbn [runs]; [done..|].
  intros (H1 & H2 & H3 & H4 & H5 & c & _ & H7 & H8). split_and!; [done..|].
  exists (λ o, c o - d o). split_and!.
  - left. destruct (inv_main s H3) as (m & Hm & Hid & Hdn). exists (info m). split; [|done].
    destruct (threads (s_in s)) as [|m' ts] eqn:E; [done|]. injection Hm as ->.
    unfold info_at. rewrite <- Hid, find_thread_elem; [done|apply H3|rewrite E; by left].
  - intros o. specialize (H7 o). lia.
  - intros s' e' Hr Hc Hl Hd. apply IH, H8; [done..|]. intros o. specialize (Hd o). lia.
Qed.

(** The thread [u] runs, in its frames [x], and holds nothing. *)
Record at_rest (u : N) (x : tinfo) (s : st) (e : loc → Z) : Prop := {
  ar_inv : inv s;
  ar_fg : fg (s_in s) = u;
  ar_info : info_at u s = Some x;
  ar_calm : calm s;
  ar_due : ∀ o, l_due s o ≤ e o
}.

Lemma runs_step {A} u x (m : IM A) s e :
  at_rest u x s e → snd x = false → balanced m → pays_all [] m →
  runs u (left_by u (λ _, kept s)) (m s) s e.
Proof.
  intros [Hi Hfg Hx Hc Hd] Hr Hb Hp. apply runs_both; [|by apply Hp].
  specialize (Hb s Hi). rewrite Hfg in Hb. apply Hb. unfold ready. by rewrite Hfg, Hx, <- Hr.
Qed.

Lemma rest_after {A} u x s e (a : A) s0 s' e' :
  at_rest u x s e → left_by u (λ _, kept s) a s0 s' e' → at_rest u x s' e'.
Proof.
  intros [Hi Hfg Hx Hc Hd] [H1 [K1 K2 K3] H3 H4 H5]. split; [done|congruence| |done|done].
  rewrite Hfg in K3. congruence.
Qed.

Lemma runs_then {A B} u x (m : IM A) (f : A → IM B) Q s e :
  shifts u Q → at_rest u x s e → snd x = false → balanced m → pays_all [] m →
  (∀ a s' e', at_rest u x s' e' → runs u Q (f a s') s' e') →
  runs u Q ((m ≫= f) s) s e.
Proof.
  intros HQ Hr Hx Hb Hp Hf. eapply runs_bind; [by eapply runs_step|].
  intros a s0 s' e' Hl. eapply runs_from; [done|apply Hl|apply Hl|]. apply Hf.
  by eapply rest_after.
Qed.

(** ** The end of a thread *)

Lemma donned_calm u s f fn :
  calm s → u ≠ fg (s_in s) → info_at u s = Some ([f], 1, false, Some fn, false) →
  calm (donned u s) ∧ later s (donned u s) ∧ ∀ o, l_due (donned u s) o = l_due s o.
Proof.
  intros [[F1 F2 F3] [S1 S2 S3 S4]] Hne Hi.
  assert (∀ t, t ∈ threads (s_in s) → find_thread (t_id t) (threads (s_in s)) = Some t) as Hfind.
  { intros t Ht. by apply find_thread_elem. }
  assert (interp_frames (s_in (donned u s)) = interp_frames (s_in s)) as Ef.
  { unfold interp_frames, donned. simpl. unfold map_thread. do 2 f_equal. rewrite <- list_fmap_compose.
    apply list_fmap_ext. intros i t _. simpl. by case_decide. }
  assert (interp_roots (s_in (donned u s)) = interp_roots (s_in s)) as Er.
  { assert (threads_roots (map_thread u with_done (threads (s_in s))) = threads_roots (threads (s_in s))) as E.
    { unfold threads_roots, map_thread. f_equal. rewrite <- list_fmap_compose.
      apply list_fmap_ext. intros i t _. simpl. by case_decide. }
    unfold interp_roots, donned. cbn [s_in threads with_threads null zero one dot at_ us global]. by rewrite E. }
  split_and!; [split; split|by intros o|].
  - done.
  - simpl. by rewrite map_thread_ids.
  - rewrite Ef. exact F3.
  - simpl. by rewrite map_thread_ids.
  - simpl. intros t (x & Hx & ->)%elem_of_map_thread. pose proof (S2 x Hx). by case_decide.
  - destruct S3 as (t & Ht & Hd). exists t. simpl. rewrite find_thread_map by done. by rewrite decide_False, Ht by congruence.
  - simpl. intros t (x & Hx & ->)%elem_of_map_thread. case_decide as Hu; [|by apply S4].
    intros _. exists f. apply info_find in Hi as (y & Hy & Ey). rewrite <- Hu, (Hfind x Hx) in Hy.
    injection Hy as <-. unfold info in Ey. simpl. congruence.
  - intros o. cbn [l_due st_ledger s_heap]. by rewrite Er.
Qed.

(** The last switch of a thread that is done: it never runs again, and holds
    nothing. *)
Lemma done_yield_runs u s e f fn :
  at_rest u ([f], 1, false, Some fn, false) s e → u ≠ 0%N →
  runs u (λ _ _ _ _, False) ((b6b_yield;; mret tt) (donned u s)) s e.
Proof.
  intros [Hi Hfg Hx Hc Hd] H0.
  pose proof (done_yield_wp u s (λ _, mret tt) Hi Hfg H0) as Hw. revert Hw.
  unfold mbind, IM_bind. rewrite yield_eq. cbn [donned s_in fg with_threads threads].
  destruct (pick (fg (s_in s)) (map_thread u with_done (threads (s_in s)))) as [t|] eqn:E.
  2:{ unfold lift, mbind, IM_bind. destruct (b6b_wait (donned u s)) as [[[] s1]| |]; simpl; tauto. }
  cbn [res_bind wp runs]. intros (H1 & H2 & H3 & _).
  apply pick_Some in E as (Ht & _ & Hdn).
  assert (t_id t ≠ u ∧ t ∈ threads (s_in s)) as [Hne Hin].
  { apply elem_of_map_thread in Ht as (x & Hxin & ->).
    destruct (decide (t_id x = u)); [by simpl in Hdn|done]. }
  destruct (switched_calm t s Hc Hin Hdn) as (C1 & L1 & D1).
  assert (info_at u (switched (t_id t) s) = Some ([f], 1, false, Some fn, false)) as Hx'
    by (by rewrite switched_info).
  destruct (donned_calm u (switched (t_id t) s) f fn C1 ltac:(simpl; congruence) Hx') as (C2 & L2 & D2).
  change (mkSt (s_heap s) (with_threads (map_thread u with_done (threads (s_in s))) (s_in s))
    (s_tids s) (s_err s)) with (donned u s) in *.
  rewrite switched_donned in *. split_and!; [done|done|done|done|by etrans|].
  exists (λ _, 0). split_and!; [by right| |].
  - intros o. rewrite D2, D1. specialize (Hd o). lia.
  - intros s' e' [R1 R2 R3] _ _ _. exfalso. destruct (fg_info s' R1) as (y & Hy & Hyd).
    rewrite R2, R3, donned_info, decide_True, Hx' in Hy by done. injection Hy as <-. done.
Qed.

Lemma routine_runs `{Env} n u s e f fn :
  at_rest u ([f], 1, false, Some fn, false) s e → u ≠ 0%N →
  runs u (λ _ _ _ _, False) (b6b_thread_routine n u s) s e.
Proof.
  intros Hr H0. pose proof (ar_info _ _ _ _ Hr) as Hx.
  apply info_find in Hx as (t & Ht & [= _ _ _ Hfn _]).
  unfold b6b_thread_routine. unfold mbind, IM_bind, lift. simpl. rewrite Ht. simpl. rewrite <- Hfn. simpl.
  eapply runs_bind.
  { eapply runs_step; [exact Hr|done|apply balanced_call, balanced_stmt_call|apply pays_call_fuel]. }
  intros a s0 s1 e' Hl. pose proof (rest_after _ _ _ _ _ _ _ _ Hr Hl) as Hr1.
  eapply runs_from; [by intros ? ? ? ? ? ? ? []|apply Hl|apply Hl|].
  by eapply done_yield_runs.
Qed.

(** ** What the suspended threads hold *)

Abbreviation holdings := (gmap N (loc → Z)).
Definition total (H : holdings) (o : loc) : Z := map_fold (λ _ h z, h o + z) 0 H.

Lemma total_insert (H : holdings) u h o : H !! u = None → total (<[u := h]> H) o = h o + total H o.
Proof.
  intros Hu. unfold total. apply (map_fold_insert_L (λ _ h z, h o + z) 0 u h H); [|done].
  intros. lia.
Qed.
Lemma total_delete (H : holdings) u h o : H !! u = Some h → total H o = h o + total (delete u H) o.
Proof.
  intros Hu. unfold total. apply (map_fold_delete_L (λ _ h z, h o + z) 0 u h H); [|done].
  intros. lia.
Qed.
Lemma total_nonpos (H : holdings) o : (∀ u h, H !! u = Some h → h o ≤ 0) → total H o ≤ 0.
Proof.
  induction H as [|u h H Hu IH] using map_ind; intros Hle; [done|].
  rewrite total_insert by done. pose proof (Hle u h (lookup_insert_eq _ _ _)).
  assert (total H o ≤ 0); [|lia]. apply IH. intros v k Hv. apply (Hle v).
  apply lookup_insert_Some. right. split; [|done]. intros ->. by pose proof (eq_trans (eq_sym Hu) Hv).
Qed.

(** ** The machine *)

Section machine.
Context {env : Env} {A : Type}.
Variable n : nat.
(** What the main thread leaves behind. *)
Variable Q : A → st → st → (loc → Z) → Prop.

Abbreviation rest := ((st → res A) + (st → res unit))%type.

(** The rest of a suspended thread, whose stable part is [x] and which holds
    [h], when it was suspended before [s]. *)
Definition rest_runs (u : N) (c : rest) (x : tinfo) (h : loc → Z) (s : st) : Prop :=
  match c with
  | inl k => u = 0%N ∧ ∀ s' e', inv s' → fg (s_in s') = u → info_at u s' = Some x →
      calm s' → later s s' → (∀ o, l_due s' o ≤ e' o + h o) → runs u Q (k s') s' e'
  | inr k => u ≠ 0%N ∧ ∀ s' e', inv s' → fg (s_in s') = u → info_at u s' = Some x →
      calm s' → later s s' → (∀ o, l_due s' o ≤ e' o + h o) →
      runs u (λ _ _ _ _, False) (k s') s' e'
  end.

Lemma rest_runs_later u c x h s s' : later s s' → rest_runs u c x h s → rest_runs u c x h s'.
Proof. intros Hl. destruct c; intros [H0 Hk]; (split; [done|]); intros; apply Hk; try done; by etrans. Qed.

Definition run_runs (u : N) (s0 : st) (e : loc → Z) (r : res A + res unit) : Prop :=
  match r with
  | inl r => u = 0%N ∧ runs u Q r s0 e
  | inr r => u ≠ 0%N ∧ runs u (λ _ _ _ _, False) r s0 e
  end.

(** The suspended threads in the state [s] where [u] runs. One that can never
    run again holds nothing. *)
Record susp_runs (u : N) (s : st) (m : gmap N rest) (H : holdings) : Prop := {
  su_rest : ∀ v c, m !! v = Some c → v ≠ u → (v < s_tids s)%N ∧
    ∃ h, H !! v = Some h ∧ ∀ x, info_at v s = Some x → rest_runs v c x h s;
  su_new : ∀ v x, m !! v = None → v ≠ u → info_at v s = Some x → fresh_info x ∧ v ≠ 0%N;
  su_held : ∀ v h, H !! v = Some h → is_Some (m !! v) ∧ v ≠ u ∧ (awake v s ∨ ∀ o, h o ≤ 0)
}.

Definition machine_runs (m : machine A) : Prop :=
  ∃ s0 H, inv s0 ∧ fg (s_in s0) = m_run _ m ∧ run_runs (m_run _ m) s0 (total H) (m_res _ m) ∧
    susp_runs (m_run _ m) s0 (m_susp _ m) H.

Lemma awake_others u v s0 s : others u s0 s → v ≠ u → awake v s0 → awake v s.
Proof. intros [_ _ Ho] Hne (x & Hx & Hd). exists x. split; [by apply Ho|done]. Qed.

Lemma susp_runs_others u s0 s m H :
  inv s0 → susp_runs u s0 m H → others u s0 s → later s0 s → susp_runs u s m H.
Proof.
  intros Hs0 [H1 H2 H3] Ho Hl. pose proof Ho as [O1 O2 O3]. split.
  - intros v c Hv Hne. destruct (H1 v c Hv Hne) as (Hlt & h & Hh & Hr). split; [lia|].
    exists h. split; [done|]. intros x Hx.
    destruct (O2 v x Hne Hx) as [Hx0|[Hge _]]; [eapply rest_runs_later; [exact Hl|by apply Hr]|lia].
  - intros v x Hv Hne Hx. destruct (O2 v x Hne Hx) as [Hx0|[Hge Hf]]; [by apply H2|].
    split; [done|]. destruct (inv_main s0 Hs0) as (t & Ht & Hid & _).
    pose proof (inv_fresh s0 Hs0 t) as Hlt. rewrite Hid in Hlt.
    destruct (threads (s_in s0)) as [|t1 ts]; [done|]. injection Ht as ->.
    specialize (Hlt ltac:(by left)). lia.
  - intros v h Hh. destruct (H3 v h Hh) as (Hm & Hne & Ha). split_and!; [done|done|].
    destruct Ha as [Ha|Ha]; [left; by eapply awake_others|by right].
Qed.

(** The thread [t], which holds [h], was suspended in [s] and its rest [c]
    stored. *)
Lemma resume_runs t s c h m H :
  inv s → calm s → susp_runs t s m H → (t < s_tids s)%N →
  (∀ x, info_at t s = Some x → rest_runs t c x h s) → (awake t s ∨ ∀ o, h o ≤ 0) →
  (∀ o, l_due s o ≤ total H o + h o) →
  machine_runs (resume n (fg (s_in s)) s (<[t := c]> m)).
Proof.
  intros Hs Hcalm [H1 H2 H3] Hlt Hc Ha Hd. set (u := fg (s_in s)).
  destruct (fg_info s Hs) as (y & Hy & Hyd). fold u in Hy.
  assert (H !! t = None) as Ht.
  { destruct (H !! t) eqn:E; [|done]. destruct (H3 t _ E) as (_ & Hne & _). by destruct Hne. }
  set (H' := <[t := h]> H).
  assert (∀ o, l_due s o ≤ total H' o) as Hd'.
  { intros o. unfold H'. rewrite total_insert by done. specialize (Hd o). lia. }
  assert (∀ v c', <[t:=c]> m !! v = Some c' → (v < s_tids s)%N ∧
    ∃ k, H' !! v = Some k ∧ ∀ z, info_at v s = Some z → rest_runs v c' z k s) as Hall.
  { intros v c'. unfold H'. destruct (decide (t = v)) as [<-|Hv].
    - rewrite lookup_insert_eq. intros [= <-]. split; [done|].
      exists h. split; [apply lookup_insert_eq|exact Hc].
    - rewrite lookup_insert_ne by done. intros Hm.
      destruct (H1 v c' Hm ltac:(congruence)) as (? & k & Hk & Hr). split; [done|].
      exists k. split; [by rewrite lookup_insert_ne|exact Hr]. }
  assert (∀ m' H'', (∀ v, v ≠ u → m' !! v = <[t:=c]> m !! v) → (∀ v, v ≠ u → H'' !! v = H' !! v) →
    H'' !! u = None → susp_runs u s m' H'') as Hsusp.
  { intros m' H'' Hm' HH Hu. split.
    - intros v c' Hv Hne. rewrite HH by done. apply Hall. by rewrite <- Hm'.
    - intros v z Hv Hne Hz. rewrite Hm', lookup_insert in Hv by done.
      case_decide; [done|]. by apply (H2 v z).
    - intros v k Hv. assert (v ≠ u) as Hne by (intros ->; by rewrite Hu in Hv).
      rewrite HH in Hv by done. rewrite Hm' by done. unfold H' in Hv.
      apply lookup_insert_Some in Hv as [[<- <-]|[Hvt Hv]]; [rewrite lookup_insert_eq; eauto|].
      rewrite lookup_insert_ne by done. destruct (H3 v k Hv) as (? & ? & ?). done. }
  exists s. unfold resume. destruct (<[t:=c]> m !! u) as [[k|k]|] eqn:E; simpl.
  1, 2: destruct (Hall u _ E) as (_ & hu & Hhu & Hr); destruct (Hr y Hy) as [H0 Hk];
    exists (delete u H'); split_and!;
    [done|done|done
    |apply Hk; [done..|]; intros o; specialize (Hd' o); rewrite (total_delete H' u hu) in Hd' by done; lia
    |apply Hsusp; [by intros; apply lookup_delete_ne..|apply lookup_delete_eq]].
  rewrite lookup_insert in E. case_decide as Htu; [done|].
  destruct (H2 u y E) as [(f & fn & ->) H0]; [congruence|done|].
  exists H'. split_and!; [done|done|done|by eapply routine_runs|].
  apply Hsusp; [done..|]. unfold H'. rewrite lookup_insert_ne by done.
  destruct (H !! u) eqn:Eu; [|done]. destruct (H3 u _ Eu) as ([? ?] & _). congruence.
Qed.

Lemma mstep_runs m m' : machine_runs m → mstep n m = inl m' → machine_runs m'.
Proof.
  intros (s0 & H & Hs0 & Hfg & Hrun & Hsusp) Hstep. unfold mstep in Hstep.
  assert (m_run _ m < s_tids s0)%N as Hlt.
  { destruct (fg_info s0 Hs0) as (y & Hy & _). rewrite Hfg in Hy. by eapply info_at_fresh. }
  destruct (m_res _ m) as [r|r]; destruct r as [a s| | |t s k]; try discriminate Hstep;
    injection Hstep as <-; destruct Hrun as [H0 (-> & Ho & Hs & Hc & Hl & c & Ha & Hd & Hk)];
    pose proof (susp_runs_others _ _ _ _ _ Hs0 Hsusp Ho Hl) as Hsusp';
    pose proof (oth_tids _ _ _ Ho) as Htids;
    (eapply resume_runs; [done|done|done|lia| |done|done]; intros x Hx; split; [done|]);
    intros s' e' R1 R2 R3 C' L' D'; (apply Hk; [split; congruence|done|done|done]).
Qed.

(** When the main thread returns, no other thread can run any more. *)
Lemma mrun_runs k m a s :
  machine_runs m → mrun n k m = Done (a, s) →
  ∃ s0 H, Q a s0 s (total H) ∧ ∀ v h, H !! v = Some h → v ≠ 0%N ∧ (awake v s0 ∨ ∀ o, h o ≤ 0).
Proof.
  revert m. induction k as [|k IH]; intros m Hm; simpl; [done|].
  destruct (mstep n m) as [m'|r] eqn:E; [apply IH; by eapply mstep_runs|].
  intros ->. destruct Hm as (s0 & H & _ & _ & Hrun & [_ _ Hheld]). unfold mstep in E.
  destruct (m_res _ m) as [r|r]; destruct r; try discriminate E. injection E as -> ->.
  destruct Hrun as [H0 Hr]. rewrite H0 in Hheld. exists s0, H. split; [done|].
  intros v h Hv. by destruct (Hheld v h Hv) as (_ & ? & ?).
Qed.
End machine.
