(* ===== verification/Leaks.v ===== *)
(** * No script leaks

    From the start of [main] to its end: the objects that are left when it
    returns refer to each other, and nothing else refers to them. *)
From Stdlib Require Import ZArith Lia Init.Byte Strings.Byte Strings.String.
From stdpp Require Import base option list numbers gmap.
From S2P Require Import Prelude Sys Float64 Hash Parse Heap Repr ListObj Dict Types Offload Interp.
From S2P Require Import StrProcs ListProcs CoreProcs.
From S2P Require Import Strm FdOps FdProcs Switch Sockets Streams SysProcs Ffi Zlib Eval Sched.
From S2P Require Import Quiet Frames Balanced Threads Ledger Counted Dues Payments IoDues Solvent Together.
#[local] Open Scope Z_scope.

(** ** The end of the main thread *)

Definition single (s : st) : Prop := ∃ m, threads (s_in s) = [m].

(** When there is nothing to switch to, all other threads are done, and
    [b6b_wait] removes them. *)
Lemma wait_single s s' :
  inv s → calm s → pick (fg (s_in s)) (threads (s_in s)) = None → b6b_wait s = Done (tt, s') →
  single s'.
Proof.
  intros Hi Hc Hp H. destruct (wait_calm s s' Hc H) as (C & _ & _ & _ & T).
  assert (∀ v, v ∈ threads (s_in s') → t_id v = fg (s_in s)) as Hid.
  { intros v [Hv Hd]%T. destruct (decide (t_id v = fg (s_in s))) as [|Hne]; [done|exfalso].
    pose proof (pick_None _ _ v Hp Hv Hne) as Hpd. unfold pending in Hpd.
    destruct (inv_flags s Hi v Hv) as [E1 E2]. rewrite E2, E1, bool_decide_false, Hd in Hpd by done. done. }
  destruct (se_fg _ (ca_settled _ C)) as (m & [Hm _]%find_thread_Some & _).
  pose proof (se_ids _ (ca_settled _ C)) as Hnd. unfold single.
  destruct (threads (s_in s')) as [|t [|u ts]]; [by apply elem_of_nil in Hm|by exists t|exfalso].
  simpl in Hnd. apply NoDup_cons in Hnd as [Hn _]. apply Hn.
  rewrite (Hid t), <- (Hid u) by set_solver. by left.
Qed.

Definition joined (x : tinfo) (_ : unit) (s0 s : st) (e : loc → Z) : Prop :=
  others 0%N s0 s ∧ later s0 s ∧ at_rest 0%N x s e ∧ single s.

Lemma joined_shifts x : shifts 0%N (joined x).
Proof. intros a s0 s1 s e Ho Hl (H1 & H2 & H3 & H4). split_and!; [by etrans|by etrans|done|done]. Qed.

Lemma yield_loop_runs x k s e :
  snd x = false → at_rest 0%N x s e → runs 0%N (joined x) (yield_loop k s) s e.
Proof.
  intros Hx. revert s e. induction k as [|k IH]; intros s e Hr; [done|]. cbn [yield_loop].
  pose proof (runs_step 0%N x b6b_yield s e Hr Hx balanced_yield (pays_yield [])) as Hy. revert Hy.
  unfold mbind, IM_bind. rewrite yield_eq.
  destruct (pick (fg (s_in s)) (threads (s_in s))) as [t|] eqn:E.
  - cbn [res_bind runs]. intros (H1 & H2 & H3 & H4 & H5 & c & H6 & H7 & H8). split_and!; [done..|].
    exists c. split_and!; [done..|]. intros s' e' R C L D. specialize (H8 s' e' R C L D). revert H8.
    unfold lift, mbind, IM_bind. destruct (b6b_wait s') as [[[] s2]| |]; [|done..]. cbn [res_bind runs].
    intros Hl. eapply runs_from; [apply joined_shifts|apply Hl|apply Hl|]. apply IH.
    exact (rest_after _ _ _ _ _ _ _ _ Hr Hl).
  - unfold lift, mbind, IM_bind. destruct (b6b_wait s) as [[[] s2]| |] eqn:Ew; [|done..].
    cbn [res_bind runs]. intros Hl. split_and!; [apply Hl|apply Hl|exact (rest_after _ _ _ _ _ _ _ _ Hr Hl)|].
    eapply wait_single; [apply Hr|apply Hr|exact E|exact Ew].
Qed.

(** The end of [b6b_interp_destroy]: what the interpreter held is given back. *)
Lemma finish_heap s s' :
  st_fine s → threads (s_in s) = [] → finish s = Done (tt, s') →
  heap_fine (s_heap s') ∧ ∀ o, heap_due (objs (s_heap s')) o = l_due s o.
Proof.
  intros Hf Hts H2. unfold finish in H2. apply bind_Done in H2 as (s3 & s4 & [= <- <-] & H2).
  apply bind_Done in H2 as ([] & s5 & H4 & (h6 & H5 & ->)%on_heap_inv).
  destruct (changes_frame_destroy [] _ _ _ _ Hf (Forall_nil_2 _) H4) as (F5 & D5 & _ & _).
  pose proof (frame_destroy_in _ _ _ _ H4) as Ei5.
  destruct (changes_drop_all [] _ _ _ _ (sf_heap _ F5) (Forall_nil_2 _) H5) as (F6 & D6 & _ & _).
  split; [exact F6|]. intros o. specialize (D5 o). specialize (D6 o).
  cbn [s_heap]. simpl in D6. rewrite D6.
  assert (heap_due (objs (s_heap s5)) o = l_due s5 o + refs (interp_roots (s_in s5)) o) as E5
    by (cbn [l_due st_ledger]; lia).
  rewrite E5, D5, Ei5. unfold interp_roots. rewrite Hts.
  change (threads_roots []) with (@nil loc). rewrite app_nil_r, refs_app, !refs_two. lia.
Qed.

(** [b6b_thread_pop] of the only thread. *)
Lemma pop_single s m f s1 :
  st_fine s → threads (s_in s) = [m] → t_curr m = [f] → b6b_thread_pop m s = Done (tt, s1) →
  st_fine s1 ∧ threads (s_in s1) = [] ∧ ∀ o, l_due s1 o = l_due s o.
Proof.
  intros Hf Hm Hc H1. unfold b6b_thread_pop in H1. apply bind_Done in H1 as ([] & s2 & [= <-] & H1).
  rewrite Hm in H1. rewrite (filter_cons_False _ m []) in H1 by (intros Hne; by apply Hne).
  rewrite filter_nil in H1.
  destruct (thread_in_out s [] m [] (s_tids s)) as [D0 F0]. cbn [app] in D0, F0.
  set (s2 := mkSt (s_heap s) (with_threads [] (s_in s)) (s_tids s) (s_err s)) in *.
  assert (mkSt (s_heap s) (with_threads [m] (s_in s)) (s_tids s) (s_err s) = s) as Es.
  { rewrite <- Hm. by destruct s as [h [] n e]. }
  rewrite Es in D0, F0. destruct (proj1 F0 Hf) as (F2 & _ & _).
  destruct (changes_thread_destroy [] m f Hc s2 tt s1 F2 (Forall_nil_2 _) H1) as (F3 & D3 & _ & _).
  destruct (thread_destroy_in _ _ _ _ H1) as [Ei _]. split_and!; [done|by rewrite Ei|].
  intros o. specialize (D0 o). specialize (D3 o). rewrite D3. lia.
Qed.

Lemma note_fine cs s s' :
  st_fine s → on_heap (sys_note cs) s = Done (tt, s') →
  st_fine s' ∧ (∀ o, l_due s' o = l_due s o) ∧ threads (s_in s') = threads (s_in s).
Proof.
  intros Hf Hn. destruct (changes_on_heap [] _ _ _ (keeps_sys_note [] cs) _ _ _ Hf (Forall_nil_2 _) Hn)
    as (F & D & _). apply on_heap_in in Hn as ->. split_and!; [done| |done].
  intros o. specialize (D o). lia.
Qed.

Section script.
Context {env : Env}.
Variable n : nat.

(** After [b6b_join]. *)
Definition popped (x : tinfo) (_ : unit) (s0 s : st) (e : loc → Z) : Prop :=
  ∃ s1 s2 m, others 0%N s0 s1 ∧ later s0 s1 ∧ at_rest 0%N x s1 e ∧ threads (s_in s1) = [m] ∧
    b6b_thread_pop m s1 = Done (tt, s2) ∧
    on_heap (sys_note (C_offload_down <$> reverse (seq 0 (length (offths (s_in s1)))))) s2 = Done (tt, s).

Lemma popped_shifts x : shifts 0%N (popped x).
Proof.
  intros a s0 s1 s e Ho Hl (s2 & s3 & m & H1 & H2 & H3). exists s2, s3, m.
  split_and!; [by etrans|by etrans|apply H3..].
Qed.

Lemma join_runs x s e :
  snd x = false → at_rest 0%N x s e → runs 0%N (popped x) (b6b_join n s) s e.
Proof.
  intros Hx Hr. unfold b6b_join. eapply runs_then; [apply popped_shifts|exact Hr|done|..].
  { apply balanced_quiet. quiet_tac. }
  { pays. }
  clear s e Hr. intros [] s e Hr. eapply runs_bind; [by apply yield_loop_runs|].
  clear s e Hr. intros [] s0 s e (H1 & H2 & H3 & m & Hm).
  unfold mbind, IM_bind, lift. simpl. rewrite Hm.
  destruct (b6b_thread_pop m s) as [[[] s1]| |] eqn:E; [|done..]. simpl.
  exists s, s1, m. by split_and!.
Qed.

(** What [main] leaves behind: no other thread can run. *)
Definition ended {A} (_ : A) (s0 s : st) (e : loc → Z) : Prop :=
  heap_fine (s_heap s) ∧ (∀ o, heap_due (objs (s_heap s)) o ≤ e o) ∧
  ∀ v, v ≠ 0%N → ¬ awake v s0.

Lemma ended_shifts {A} : shifts 0%N (@ended A).
Proof.
  intros a s0 s1 s e Ho _ (H1 & H2 & H3). split_and!; [done|done|].
  intros v Hv Ha. apply (H3 v Hv). by eapply awake_others.
Qed.

Lemma destroy_runs f s e :
  at_rest 0%N ([f], 1, false, None, false) s e → runs 0%N ended (b6b_interp_destroy n s) s e.
Proof.
  intros Hr. unfold b6b_interp_destroy. rewrite lift_bind_run. simpl.
  destruct (inv_main s (ar_inv _ _ _ _ Hr)) as (t & Ht & _).
  destruct (threads (s_in s)) as [|t0 ts0]; [done|]. clear t t0 ts0 Ht.
  eapply runs_bind; [exact (join_runs ([f], 1, false, None, false) s e eq_refl Hr)|].
  clear s e Hr. intros [] s0 s e (s1 & s3 & m & Ho & Hl & Hr & Hm & Hp & Hn).
  rewrite finish_eq. unfold lift. destruct (finish s) as [[[] s2]| |] eqn:E; [|done..].
  destruct Hr as [Hi Hfg Hx Hc Hd].
  assert (t_curr m = [f] ∧ t_id m = 0%N) as [Hcur Hid].
  { apply info_find in Hx as (t & [Ht Hid]%find_thread_Some & Ex). rewrite Hm in Ht.
    apply list_elem_of_singleton in Ht as ->. unfold info in Ex. split; congruence. }
  destruct (pop_single s1 m f s3 (ca_fine _ Hc) Hm Hcur Hp) as (F3 & T3 & D3).
  destruct (note_fine _ _ _ F3 Hn) as (F & D & T). rewrite T3 in T.
  destruct (finish_heap s s2 F T E) as [Hf Hdue].
  split_and!; [done| |].
  - intros o. rewrite Hdue, D, D3. apply Hd.
  - intros v Hv Ha. apply (awake_others _ _ _ _ Ho Hv) in Ha as (x & Hxv & _).
    apply info_find in Hxv as (t & [Ht Hidt]%find_thread_Some & _). rewrite Hm in Ht.
    apply list_elem_of_singleton in Ht as ->. congruence.
Qed.

(** The arguments are destroyed last when the interpreter does not start. *)
Lemma destroy_args args h h' :
  heap_fine h → b6b_destroy args h = Done (tt, h') →
  heap_fine h' ∧ ∀ o, heap_due (objs h') o ≤ heap_due (objs h) o - refs [args] o.
Proof.
  intros Hf Hd. destruct (lowers_destroy [] args h tt h' Hf (Forall_nil_2 _) Hd) as (F & D & _).
  split; [done|]. intros o. specialize (D o). simpl in D. lia.
Qed.

Lemma give_up_runs args f s e :
  at_rest 0%N ([f], 1, false, None, false) s e →
  runs 0%N (λ ok s0 s e, ok = false ∧ ended ok s0 s (λ o, e o - refs [args] o)) (end_early n args s) s e.
Proof.
  intros Hr. unfold end_early. eapply runs_bind; [by eapply destroy_runs|].
  clear s e Hr. intros [] s0 s e (Hf & Hd & Ha). unfold hp. rewrite lift_bind_run.
  destruct (on_heap (b6b_destroy args) s) as [[[] s1]| |] eqn:E; [|done..].
  apply on_heap_inv in E as (h & E & ->). destruct (destroy_args args _ _ Hf E) as [F D].
  split; [done|]. split_and!; [done| |done]. intros o. specialize (Hd o). specialize (D o). simpl. lia.
Qed.
End script.

(** ** The start of the main thread *)

(** A ledger before there is an interpreter. *)
Definition plain_ledger : Ledger st := {|
  l_fine s := heap_fine (s_heap s);
  l_due s := heap_due (objs (s_heap s));
  l_knows s := listy (s_heap s)
|}.

Lemma plain_on_heap {A} Γ (m : HM A) d Γ' :
  @changes heap heap_ledger A Γ m d Γ' → @changes st plain_ledger A Γ (on_heap m) d Γ'.
Proof. intros Hm s a s' Hf Hk (h & E & ->)%on_heap_inv. exact (Hm _ _ _ Hf Hk E). Qed.

Lemma keeps_new_args Γ l argv : l ∈ Γ → @changes heap heap_ledger unit Γ (new_args l argv) nothing no_facts.
Proof. revert Γ. induction argv as [|a argv IH]; intros Γ Hl; simpl; changes. Qed.

Lemma keeps_start_threads Γ o :
  @changes heap heap_ledger bool Γ (start_threads o) nothing no_facts.
Proof.
  assert (∀ ids Γ, @changes heap heap_ledger bool Γ (start_offths ids) nothing no_facts) as Hs.
  { induction ids as [|j ids IH]; intros Γ'; simpl; changes. }
  unfold start_threads. changes.
Qed.

Lemma plain_frame_new Γ :
  @changes st plain_ledger b6b_frame Γ b6b_frame_new (λ f, refs (frame_roots f)) frame_roots.
Proof.
  unfold b6b_frame_new. eapply changes_bind; [apply plain_on_heap, changes_list_new|]. intros l.
  eapply changes_bind; [apply plain_on_heap, changes_list_new|]. intros a.
  apply changes_ret; [|set_solver]. intros o. unfold frame_roots. simpl. rewrite refs_two. lia.
Qed.

(** Everything that [b6b_interp_new] makes before the interpreter has it. *)
Definition first_objects (argv : list bytes) (o : b6b_opts) : M st (loc * list loc * b6b_frame) :=
  args ← on_heap b6b_list_new;
  on_heap (new_args args argv);;
  on_heap (start_threads o);;
  null ← on_heap (b6b_str_copy []);
  zero ← on_heap (b6b_int_new 0);
  one ← on_heap (b6b_int_new 1);
  dot ← on_heap (b6b_str_copy (lit "."));
  at_ ← on_heap (b6b_str_copy (lit "@"));
  us ← on_heap (b6b_str_copy (lit "_"));
  global ← b6b_frame_new;
  mret (args, [null; zero; one; dot; at_; us], global).

Lemma changes_first_objects argv o :
  @changes st plain_ledger _ [] (first_objects argv o)
    (λ '(args, l, g) o, refs [args] o + refs l o + refs (frame_roots g) o)
    (λ '(args, _, g), args :: frame_roots g).
Proof.
  unfold first_objects.
  eapply changes_bind; [apply plain_on_heap, changes_list_new|]. intros args.
  eapply changes_then; [apply plain_on_heap, keeps_new_args; set_solver|]. intros [].
  eapply changes_then; [apply plain_on_heap, keeps_start_threads|]. intros up.
  do 6 (eapply changes_bind;
    [apply plain_on_heap; first [apply changes_str_copy|apply changes_int_new]|intros ?]).
  eapply changes_bind; [apply plain_frame_new|]. intros g.
  apply changes_ret; [|set_solver]. intros p. rewrite !refs_two. lia.
Qed.

(** The rest of [interp_setup], from [b6b_frame_set_args] on. *)
Lemma changes_tids Γ f : changes Γ (modify (λ s, mkSt (s_heap s) (s_in s) (f (s_tids s)) (s_err s))) nothing no_facts.
Proof.
  intros s [] s' [A B C] Hk [= <-]. split_and!; [by split|by intros o; rewrite Z.add_0_r|done|done].
Qed.

Lemma changes_self Γ nl :
  changes Γ (b6b_thread_self nl) (λ t, refs (thread_roots t)) (λ t, frames_roots (t_curr t)).
Proof.
  unfold b6b_thread_self. eapply changes_bind; [apply changes_frame_new|]. intros f.
  eapply changes_bind; [apply changes_on_heap, changes_ref|]. intros a.
  eapply changes_then; [apply keeps_get|]. intros s.
  eapply changes_then; [apply (changes_tids _ N.succ)|]. intros [].
  apply changes_ret.
  - intros o. unfold thread_roots. cbn [t_ret t_fn t_curr option_list app].
    change (frames_roots [f]) with (frame_roots f ++ []). rewrite app_nil_r.
    change (option_list None ++ frame_roots f) with (frame_roots f). rewrite (refs_cons nl). lia.
  - unfold frames_roots. simpl. set_solver.
Qed.

Lemma lowers_ext_obj Γ eo : frugal Γ (b6b_interp_new_ext_obj eo).
Proof.
  unfold b6b_interp_new_ext_obj. lower_step.
  assert (∀ Γ, lowers Γ (on_heap match eo_val eo with
    inl s => b6b_str_copy (lit s) | inr i => b6b_int_new i end) (λ o, refs [o]) no_facts).
  { intros Γ'. destruct (eo_val eo); lowers. }
  lower_step. eapply lowers_bind with (d1 := nothing) (Γ1 := no_facts).
  { destruct (eo_proc eo); [|lowers].
    apply lowers_on_heap, lowers_changes, keeps_update. by split. }
  intros []. lowers.
Qed.
Lemma lowers_exts Γ es : frugal Γ (new_exts es).
Proof.
  revert Γ. induction es as [|e es IH]; intros Γ; simpl; [lowers|].
  eapply lowers_bind; [apply lowers_ext_obj|]. intros ok. apply lowers_if; [lowers|].
  eapply lowers_conseq; [apply IH|entries|known].
Qed.

(** The state right after [set_interp] of the new interpreter. *)
Lemma interp_fine h nl z o d a u g opt no n e :
  heap_fine h → Forall (listy h) (frame_roots g) →
  let s := mkSt h (mkInterp [] 0 g nl z o d a u 0 0 0 opt no) n e in
  st_fine s ∧ ∀ p, l_due s p = heap_due (objs h) p - refs [nl; z; o; d; a; u] p - refs (frame_roots g) p.
Proof.
  intros Hf Hk s. split; [split; [done|constructor|]|].
  - constructor; [done|constructor].
  - intros p. cbn [l_due st_ledger s_heap s_in s]. unfold interp_roots.
    cbn [threads null zero one dot at_ us global]. change (threads_roots []) with (@nil loc).
    rewrite app_nil_r, refs_app. lia.
Qed.

(** The rest of [interp_setup] keeps the entries low. *)
Lemma setup_rest_fine s g nl args now ok' s' :
  st_fine s → Forall (l_knows s) (args :: frame_roots g) → threads (s_in s) = [] →
  (ok ← b6b_frame_set_args g args;
   if negb ok then mret false
   else
     t ← b6b_thread_self nl;
     set_interp (λ i, with_threads (b6b_thread_push (threads i) t None) (with_fg (t_id t) i));;
     set_interp (with_seed (u32 now));;
     new_exts b6b_exts) s = Done (ok', s') →
  st_fine s' ∧ (∀ p, l_due s' p ≤ l_due s p) ∧ later s s'.
Proof.
  generalize b6b_exts. intros es Hf Hk Ht H. apply bind_Done in H as (ok & s1 & H1 & H).
  assert (threads (s_in s1) = []) as Ht1.
  { pose proof (quiet_frame_set_args _ _ _ _ _ H1) as Hv%view_eq. destruct Hv as [Hv _].
    unfold shape in Hv. rewrite Ht in Hv. by apply fmap_nil_inv in Hv. }
  destruct (frugal_set_args (args :: frame_roots g) g args ltac:(set_solver) s ok s1 Hf Hk H1)
    as (F1 & D1 & K1 & _).
  destruct ok.
  2:{ injection H as _ <-. split_and!; [done| |done]. intros p. specialize (D1 p). lia. }
  cbn [negb] in H. apply bind_Done in H as (t & s2 & H2 & H).
  destruct (changes_self [] nl s1 t s2 F1 (Forall_nil_2 _) H2) as (F2 & D2 & K2 & N2).
  assert (threads (s_in s2) = [] ∧ ∃ f, t_curr t = [f]) as (Ht2 & f & Hcur).
  { unfold b6b_thread_self in H2. apply bind_Done in H2 as (f & s3 & Hfr & H2).
    apply bind_Done in H2 as (? & s4 & Hr%on_heap_in & H2).
    apply bind_Done in H2 as (? & ? & [= <- <-] & H2). apply bind_Done in H2 as ([] & ? & [= <-] & [= <- <-]).
    split; [|by exists f]. simpl. rewrite Hr. unfold b6b_frame_new in Hfr.
    apply bind_Done in Hfr as (? & s5 & Hf1%on_heap_in & Hfr).
    apply bind_Done in Hfr as (? & s6 & Hf2%on_heap_in & [= _ <-]). congruence. }
  apply bind_Done in H as ([] & s3 & [= <-] & H). apply bind_Done in H as ([] & s4 & [= <-] & H).
  cbn [s_in s_heap s_tids s_err] in H. rewrite Ht2 in H.
  destruct (thread_in_out s2 [] t [] (s_tids s2)) as [D3 F3]. cbn [app] in D3, F3.
  assert (mkSt (s_heap s2) (with_threads [] (s_in s2)) (s_tids s2) (s_err s2) = s2) as E2.
  { rewrite <- Ht2. destruct s2 as [h2 i2 n2 e2]. by destruct i2. }
  rewrite E2 in D3, F3.
  set (s3 := mkSt (s_heap s2) (with_threads [t] (s_in s2)) (s_tids s2) (s_err s2)) in *.
  assert (st_fine s3) as F4.
  { apply F3. split_and!; [done|apply not_elem_of_nil|]. rewrite Hcur in N2 |- *.
    constructor; [exact N2|constructor]. }
  set (s4 := mkSt (s_heap s2) _ (s_tids s2) (s_err s2)) in H.
  assert (st_fine s4 ∧ ∀ p, l_due s4 p = l_due s3 p) as [F5 D5].
  { split; [destruct F4 as [A B C]; by split|done]. }
  destruct (lowers_exts [] es s4 ok' s' F5 (Forall_nil_2 _) H) as (F & D & K & _).
  split_and!; [done| |].
  - intros p. specialize (D p). specialize (D5 p). specialize (D3 p). specialize (D2 p). specialize (D1 p).
    lia.
  - intros p Hp. apply K. change (l_knows s2 p). by apply K2, K1.
Qed.

Lemma view_calm s f nl :
  view s = ([mkThread 0 [f] None nl 1 false true false false], 0%N, 1%N) → settled s.
Proof.
  intros Hv. destruct (alone_inv s f nl Hv) as [I1 I2 _ I4 _ _].
  split; [done|done|done|]. intros t Ht Hd. exfalso. revert Hv. unfold view, shape. intros [= Hts _ _].
  destruct (threads (s_in s)) as [|u [|]]; try done. apply list_elem_of_singleton in Ht as ->.
  injection Hts as _ _ _ _ _ _ _ Hu _. congruence.
Qed.

(** An interpreter whose threads do not start has its arguments only. *)
Lemma set_up_none argv now o l args s :
  set_up argv now o (blank l) = Done ((args, None), s) →
  heap_fine (s_heap s) ∧ ∀ p, heap_due (objs (s_heap s)) p = refs [args] p.
Proof.
  intros Hu. unfold set_up in Hu.
  apply bind_Done in Hu as (ar & s1 & E1 & Hu). apply bind_Done in Hu as ([] & s2 & E2 & Hu).
  apply bind_Done in Hu as (up & s3 & E3 & Hu). destruct up; simpl in Hu.
  { by apply bind_Done in Hu as (? & ? & _ & ?). }
  injection Hu as -> ->.
  assert (@l_fine st plain_ledger (blank l)) as Hb by (split; [split|]; [by intros p [? ?]|done..]).
  assert (@changes st plain_ledger loc [] (ar ← on_heap b6b_list_new; on_heap (new_args ar argv);;
    on_heap (start_threads o);; mret ar) (λ a, refs [a]) (λ a, [a])) as Hch.
  { eapply changes_bind; [apply plain_on_heap, changes_list_new|]. intros a.
    eapply changes_then; [apply plain_on_heap, keeps_new_args; set_solver|]. intros [].
    eapply changes_then; [apply plain_on_heap, keeps_start_threads|]. intros up.
    apply changes_ret; [|set_solver]. intros p. lia. }
  destruct (Hch (blank l) args s Hb (Forall_nil_2 _)) as (F & D & _).
  { by rewrite M_bind_run, E1, M_bind_run, E2, M_bind_run, E3. }
  split; [exact F|]. intros p. specialize (D p). cbn [l_due plain_ledger] in D.
  assert (heap_due (objs (s_heap (blank l))) p = 0) as E0 by done. lia.
Qed.

Lemma set_up_some argv now o l args ok s :
  set_up argv now o (blank l) = Done ((args, Some ok), s) →
  st_fine s ∧ l_knows s args ∧ ∀ p, l_due s p ≤ refs [args] p.
Proof.
  intros Hu. unfold set_up in Hu.
  apply bind_Done in Hu as (ar & s1 & E1 & Hu). apply bind_Done in Hu as ([] & s2 & E2 & Hu).
  apply bind_Done in Hu as (up & s2' & Eu & Hu). destruct up; [|done].
  apply bind_Done in Hu as (ok' & s3 & H3 & [= -> -> ->]). unfold interp_setup in H3.
  apply bind_Done in H3 as (x1 & t1 & F1 & H3). apply bind_Done in H3 as (x2 & t2 & F2 & H3).
  apply bind_Done in H3 as (x3 & t3 & F3 & H3). apply bind_Done in H3 as (x4 & t4 & F4 & H3).
  apply bind_Done in H3 as (x5 & t5 & F5 & H3). apply bind_Done in H3 as (x6 & t6 & F6 & H3).
  apply bind_Done in H3 as (g & t7 & F7 & H3).
  assert (first_objects argv o (blank l) = Done ((args, [x1; x2; x3; x4; x5; x6], g), t7)) as Hfst.
  { unfold first_objects. do 10 (rewrite M_bind_run; (rewrite E1 || rewrite E2 || rewrite Eu || rewrite F1 ||
      rewrite F2 || rewrite F3 || rewrite F4 || rewrite F5 || rewrite F6 || rewrite F7)). done. }
  assert (@l_fine st plain_ledger (blank l)) as Hb.
  { split; [split|]; [by intros p [? ?]|done..]. }
  destruct (changes_first_objects argv o _ _ _ Hb (Forall_nil_2 _) Hfst) as (F & D & _ & N).
  apply bind_Done in H3 as ([] & t8 & [= <-] & H3).
  apply Forall_cons in N as [Na Ng].
  destruct (interp_fine (s_heap t7) x1 x2 x3 x4 x5 x6 g (mkOpts false false (opt_nbf o) false)
    (replicate (noffths o) B6B_OFFLOAD_IDLE) (s_tids t7) (s_err t7) F Ng) as [G1 G2].
  set (t8 := mkSt (s_heap t7) (mkInterp _ _ _ _ _ _ _ _ _ _ _ _ _ _) _ _) in *.
  destruct (setup_rest_fine t8 g x1 args now ok s G1 (Forall_cons_2 _ _ _ Na Ng) eq_refl H3) as (R1 & R2 & R3).
  split_and!; [done|by apply R3|].
  intros p. specialize (R2 p). rewrite G2 in R2. specialize (D p). cbn [l_due plain_ledger] in D.
  assert (heap_due (objs (s_heap (blank l))) p = 0) as E0 by done. lia.
Qed.

(** The main thread as it starts. *)
Lemma alone_rest s args :
  st_fine s → (∀ p, l_due s p ≤ refs [args] p) → Threads.alone s →
  ∃ f, at_rest 0%N ([f], 1, false, None, false) s (refs [args]).
Proof.
  intros Hf Hd (f & nl & Hv). exists f. destruct (alone_info s f nl Hv) as [Hfg Hx].
  split; [by eapply alone_inv|done|by rewrite Hx| |done]. split; [done|by eapply view_calm].
Qed.

(** ** The run of [main] *)

Section main.
Context {env : Env}.
Variable n : nat.

Lemma changes_strm_copy Γ k priv t :
  close_refs (mkStrm k priv false false) = [] →
  changes Γ (b6b_strm_copy k priv t) (λ o, refs [o]) no_facts.
Proof.
  intros E. unfold b6b_strm_copy, b6b_strm_new. eapply changes_conseq; [by apply changes_own| |known].
  intros o p. unfold priv_refs. simpl. rewrite E, refs_nil. lia.
Qed.

Lemma lowers_stdio_wrap Γ name fd k : frugal Γ (b6b_stdio_wrap name fd k).
Proof.
  unfold b6b_stdio_wrap.
  eapply lowers_bind; [apply lowers_changes, changes_on_heap; by apply changes_strm_copy|].
  intros o. lowers.
Qed.
Lemma lowers_stdio_init Γ : frugal Γ b6b_stdio_init.
Proof. pose proof lowers_stdio_wrap. unfold b6b_stdio_init. lowers. Qed.
Lemma pays_stdio_init Γ : pays_all Γ (lift b6b_stdio_init).
Proof. apply pays_lift; [apply quiet_soothes, quiet_stdio_init|apply lowers_stdio_init]. Qed.

Lemma pays_copy Γ s : pays_all Γ (b6b_call_copy n (b6b_stmt_call n) s).
Proof. apply pays_call_copy. intros. apply pays_stmt_call. Qed.
Lemma pays_script_source Γ path : pays_all Γ (b6b_source n (b6b_stmt_call n) path).
Proof. apply pays_source. intros. apply pays_stmt_call. Qed.
#[local] Hint Resolve pays_stdio_init pays_copy pays_script_source : dues.

Lemma pays_inits Γ : pays_all Γ (run_inits (b6b_inits n)).
Proof.
  assert (∀ Γ body, pays_all Γ (init_body n body)) as Hb by (intros; unfold init_body; pays).
  unfold run_inits, b6b_inits, b6b_evloop_init, b6b_co_init, b6b_ffi_init. pays.
Qed.
#[local] Hint Resolve pays_inits : dues.

Lemma exit_code_ok r : quiet (exit_code r) ∧ changes [] (exit_code r) nothing no_facts.
Proof. split; destruct r; simpl; [quiet_tac..| | | | | |]; changes. Qed.

(** What is left of [main] after its script. *)
Definition main_rest (r : option b6b_res) : IM Z :=
  match r with
  | None => mret 1
  | Some res => ret ← lift (exit_code res); b6b_interp_destroy n;; mret ret
  end.

(** The state in which the main thread returns to [main], the arguments given
    back. *)
Definition back (f : b6b_frame) (args : loc) (alive : bool) (s0 s : st) (e : loc → Z) : Prop :=
  if alive then others 0%N s0 s ∧ later s0 s ∧
    at_rest 0%N ([f], 1, false, None, false) s (λ o, e o - refs [args] o)
  else ended tt s0 s (λ o, e o - refs [args] o).

Lemma back_shifts f args : shifts 0%N (back f args).
Proof.
  intros [] s0 s1 s e Ho Hl; simpl.
  - intros (H1 & H2 & H3). split_and!; [by etrans|by etrans|done].
  - intros He. by eapply (ended_shifts tt).
Qed.

Lemma init_runs f args (ok : bool) s e :
  at_rest 0%N ([f], 1, false, None, false) s e → l_knows s args →
  runs 0%N (λ a s0 s1 e, left_by 0%N (λ _, kept s) a s0 s1 e ∧ Forall (l_knows s1) [args])
    ((if ok then run_inits (b6b_inits n) else mret false) s) s e.
Proof.
  intros [Hi Hfg Hx Hc Hd] Hk. set (m := if ok then run_inits (b6b_inits n) else mret false).
  assert (balanced m) as Hb by (destruct ok; [apply balanced_inits|apply balanced_mret]).
  assert (pays_all [args] m) as Hp by (destruct ok; [apply pays_inits|by apply pays_mret]).
  apply runs_knows.
  - specialize (Hb s Hi). rewrite Hfg in Hb. apply Hb. unfold ready. by rewrite Hfg, Hx.
  - apply (pays_conseq _ _ _ nothing _ (λ _, [args]) Hp); [entries|known|done|by constructor|done].
Qed.

Lemma new_runs f args o (ok : bool) s e :
  at_rest 0%N ([f], 1, false, None, false) s e → l_knows s args →
  runs 0%N (back f args)
    ((ok ← (if ok then run_inits (b6b_inits n) else mret false);
      if negb ok then end_early n args
      else lift (set_interp (with_opts o));; hp (b6b_unref args);; mret true) s) s e.
Proof.
  intros Hr Hk. eapply runs_bind; [by eapply init_runs|].
  intros ok1 s0 s1 e1 [Hl Hk1]. pose proof (rest_after _ _ _ _ _ _ _ _ Hr Hl) as Hr1.
  eapply runs_from; [apply back_shifts|apply Hl|apply Hl|]. destruct ok1; cbn [negb].
  - set (m := lift (set_interp (with_opts o));; hp (b6b_unref args);; mret true).
    assert (runs 0%N (left_by 0%N (λ _, kept s1)) (m s1) s1 (λ p, e1 p - refs [args] p)) as Hm.
    { destruct Hr1 as [Hi Hfg Hx Hc Hd]. apply runs_both.
      - assert (balanced m) as Hb by (unfold m; balanced_tac). specialize (Hb s1 Hi). rewrite Hfg in Hb. apply Hb.
        unfold ready. by rewrite Hfg, Hx.
      - apply (accounts_shift _ _ _ (λ p, refs [args] p)).
        assert (pays [args] m (λ _ p, - refs [args] p) no_facts) as Hpm by (unfold m; pays).
        apply (pays_conseq [args] m (λ _ p, - refs [args] p) _ no_facts);
          [exact Hpm|entries|known|done|done|].
        intros p. specialize (Hd p). lia. }
    revert Hm. unfold m. rewrite lift_bind_run. simpl. unfold hp. rewrite lift_bind_run.
    destruct (on_heap (b6b_unref args) _) as [[[] s2]| |]; [|done..]. simpl. intros Hm.
    split_and!; [apply Hm|apply Hm|]. destruct Hr1 as [Hi Hfg Hx Hc Hd]. destruct Hm as [M1 [K1 K2 K3] M3 M4 M5].
    split; [done|congruence| |done|done]. rewrite Hfg in K3. congruence.
  - eapply runs_mono; [by eapply give_up_runs|]. by intros a s2 s3 e3 [-> He].
Qed.

(** The script gives the main thread its frames back. *)
Lemma script_runs f argv cmd s e :
  at_rest 0%N ([f], 1, false, None, false) s e →
  runs 0%N (λ r s0 s e, is_Some r ∧ others 0%N s0 s ∧ later s0 s ∧
      at_rest 0%N ([f], 1, false, None, false) s e)
    ((arg ← lift (deref (head argv));
      res ← (if cmd : bool then b6b_call_copy n (b6b_stmt_call n) arg
             else b6b_source n (b6b_stmt_call n) arg);
      mret (Some res)) s) s e.
Proof.
  intros Hr. pose proof (balanced_stmt_call n) as Hs.
  assert (∀ u, shifts u (λ (r : option b6b_res) s0 s e, is_Some r ∧ others u s0 s ∧ later s0 s ∧
      at_rest u ([f], 1, false, None, false) s e)) as Hsh.
  { intros u a s0 s1 s2 e2 Ho Hl (H1 & H2 & H3 & H4). split_and!; [done|by etrans|by etrans|done]. }
  eapply runs_then; [apply Hsh|exact Hr|done|apply balanced_quiet; quiet_tac| |].
  { destruct (head argv); simpl; pays. }
  clear s e Hr. intros arg s e Hr. eapply runs_then; [apply Hsh|exact Hr|done|..].
  { destruct cmd; [by apply balanced_call_copy|by apply balanced_source]. }
  { destruct cmd; [apply pays_copy|apply pays_script_source]. }
  intros res s1 e1 Hr1. simpl. by split_and!.
Qed.

Lemma ended_le {B} (a : B) s0 s e e' : (∀ o, e o ≤ e' o) → ended a s0 s e → ended a s0 s e'.
Proof. intros He (H1 & H2 & H3). split_and!; [done| |done]. intros o. specialize (He o). specialize (H2 o). lia. Qed.

Lemma main_runs f args argv o cmd ok s :
  at_rest 0%N ([f], 1, false, None, false) s (refs [args]) → l_knows s args →
  runs 0%N ended (res_bind (script_rest n args argv o cmd ok s) main_rest) s (λ _, 0).
Proof.
  intros Hr Hk. eapply runs_mono.
  { apply (runs_less (λ a s0 s e, ended a s0 s (λ o, e o - refs [args] o)) _ _ _ (λ o, - refs [args] o)).
    eapply runs_bind; [eapply runs_bind; [apply (new_runs f args o ok s)|]|].
    - destruct Hr as [A B C D F]. split; [done..|]. intros p. specialize (F p). lia.
    - done.
    - instantiate (1 := λ r s0 s e, match r with
        | Some _ => others 0%N s0 s ∧ later s0 s ∧
            at_rest 0%N ([f], 1, false, None, false) s (λ o, e o - refs [args] o)
        | None => ended tt s0 s (λ o, e o - refs [args] o)
        end).
      intros [] s0 s1 e1 Hb; cbn [negb]; [|exact Hb]. destruct Hb as (Ho & Hl & Hr1).
      eapply runs_from; [|exact Ho|exact Hl|].
      { intros [r|] s2 s3 s4 e2 Ho2 Hl2; [|by eapply (ended_shifts tt)].
        intros (H1 & H2 & H3). split_and!; [by etrans|by etrans|done]. }
      eapply runs_mono; [apply runs_less, script_runs; exact Hr1|].
      by intros [r|] s2 s3 e2 ([? [=]] & H2 & H3 & H4).
    - intros [res|] s0 s1 e1; [|done]. intros (Ho & Hl & Hr1). cbn [main_rest].
      eapply runs_from; [|exact Ho|exact Hl|].
      { intros a s2 s3 s4 e2 Ho2 Hl2. by apply ended_shifts. }
      apply runs_less. destruct (exit_code_ok res) as [Hq Hch].
      eapply runs_then; [apply ended_shifts|exact Hr1|done|by apply balanced_quiet|by apply pays_quiet|].
      intros ret s2 e2 Hr2. eapply runs_bind; [by eapply destroy_runs|]. intros []. done. }
  intros a s0 s1 e. apply ended_le. intros p. lia.
Qed.
End main.

(** When the interpreter does not start, [main] returns before any switch. *)
Definition nothing_left (r : res (option b6b_res)) : Prop :=
  match r with
  | Ret a s => a = None ∧ heap_fine (s_heap s) ∧ ∀ p, heap_due (objs (s_heap s)) p ≤ 0
  | Susp _ _ _ => False
  | _ => True
  end.

(** A start that is given up leaves nothing. *)
Lemma early_end args s r :
  heap_fine (s_heap s) → (∀ p, heap_due (objs (s_heap s)) p ≤ refs [args] p) →
  lift (on_heap (b6b_destroy args);; mret (@None b6b_res)) s = r → nothing_left r.
Proof.
  intros Hf Hd <-. unfold lift. rewrite M_bind_run.
  destruct (on_heap (b6b_destroy args) s) as [[[] s1]| |] eqn:E; [|done..].
  apply on_heap_inv in E as (h & E & ->). destruct (destroy_args args _ _ Hf E) as [F D].
  split_and!; [done..|]. intros p. specialize (Hd p). specialize (D p). simpl. lia.
Qed.

Lemma given_up_runs `{Env} n r k code s :
  nothing_left r → mrun n k (mkMachine Z 0%N (inl (res_bind r (main_rest n))) ∅) = Done (code, s) →
  heap_fine (s_heap s) ∧ ∀ p, heap_due (objs (s_heap s)) p ≤ 0.
Proof.
  intros Hn Hrun. destruct k as [|k]; [done|].
  destruct r as [a s0| | |]; simpl in Hn, Hrun; [|done..].
  destruct Hn as (-> & Hn). by injection Hrun as _ <-.
Qed.

Lemma early_finish args argv o cmd s `{Env} n :
  st_fine s → (∀ p, l_due s p ≤ refs [args] p) → threads (s_in s) = [] →
  nothing_left (script_rest n args argv o cmd false s).
Proof.
  intros Hf Hd Hts. rewrite script_rest_early by done. unfold lift. rewrite !M_bind_run.
  destruct (finish s) as [[[] s1]| |] eqn:E; [|done..].
  destruct (finish_heap s s1 Hf Hts E) as [F D].
  destruct (on_heap (b6b_destroy args) s1) as [[[] s2]| |] eqn:E2; [|done..].
  apply on_heap_inv in E2 as (h & E2 & ->). destruct (destroy_args args _ _ F E2) as [F2 D2].
  split_and!; [done..|]. intros p. specialize (Hd p). specialize (D p). specialize (D2 p). simpl. lia.
Qed.

(** Whatever happens, nothing is held when [main] returns. *)
Lemma main_end `{Env} n k l argv now o cmd code s :
  run_main n k l (main n argv now o cmd) = Done (code, s) →
  heap_fine (s_heap s) ∧ ∀ p, heap_due (objs (s_heap s)) p ≤ 0.
Proof.
  intros Hrun. unfold run_main in Hrun.
  change (main n argv now o cmd (blank l)) with
    (res_bind (run_script n argv now o cmd (blank l)) (main_rest n)) in Hrun.
  rewrite run_script_eq in Hrun.
  destruct (set_up argv now o (blank l)) as [[[args [ok|]] s1]| |] eqn:H0.
  - destruct (set_up_some _ _ _ _ _ _ _ H0) as (Hf & Hk & Hd).
    destruct (set_up_alone argv now o (blank l) args ok s1 eq_refl H0) as [Ha|[-> Hts]];
      [|eapply given_up_runs; [by apply early_finish|exact Hrun]].
    destruct (alone_rest s1 args Hf Hd Ha) as (f & Hr). pose proof Hr as [Hi Hfg _ _ _].
    assert (machine_runs ended (mkMachine Z 0%N
      (inl (res_bind (script_rest n args argv o cmd ok s1) (main_rest n))) ∅)) as Hm.
    { exists s1, ∅. split_and!; [done|done|split; [done|by eapply main_runs]|split; simpl].
      - by intros v c.
      - intros v x _ Hv0 Hxv. destruct Ha as (f' & nl & Hv). destruct (alone_info s1 f' nl Hv) as [_ Hx].
        rewrite Hx in Hxv. by case_decide.
      - by intros v h. }
    destruct (mrun_runs n ended k _ code s Hm Hrun) as (s0 & H1 & (Hfin & Hdue & Hend) & Hheld).
    split; [done|]. intros p. specialize (Hdue p). assert (total H1 p ≤ 0) as Ht; [|lia].
    apply total_nonpos. intros v h Hv. destruct (Hheld v h Hv) as [Hv0 [Haw|Haw]]; [|done].
    by destruct (Hend v Hv0).
  - destruct (set_up_none _ _ _ _ _ _ H0) as [Hf Hd]. eapply given_up_runs; [|exact Hrun].
    eapply early_end; [exact Hf| |done]. intros p. by rewrite Hd.
  - destruct k; done.
  - destruct k; done.
Qed.

(** ** What is left when there are no cycles *)

(** [q] refers to [p]. *)
Definition held_by (m : gmap loc b6b_obj) (p q : loc) : Prop :=
  ∃ y, m !! q = Some y ∧ p ∈ refs_of y.

Lemma heap_refs_held m p : (0 < heap_refs m p)%nat → ∃ q, held_by m p q.
Proof.
  induction m as [|o x m Ho IH] using map_ind; [by intros Hp%Nat.lt_irrefl|].
  rewrite heap_refs_insert_None by done. intros Hp.
  destruct (decide (p ∈ refs_of x)) as [Hin|Hout].
  - exists o, x. by rewrite lookup_insert_eq.
  - assert (occ p (refs_of x) = O) as E.
    { rewrite occ_elem in Hout. lia. }
    destruct IH as (q & y & Hq & Hy); [lia|]. exists q, y. split; [|done].
    rewrite lookup_insert_ne; [done|]. intros ->. congruence.
Qed.

Lemma no_cycle_empty m :
  (∀ p x, m !! p = Some x → (0 < heap_refs m p)%nat) → (∀ p, ¬ tc (held_by m) p p) → m = ∅.
Proof.
  intros Hall Hirr. apply map_empty. intros p. destruct (m !! p) as [x|] eqn:Hp; [exfalso|done].
  assert (sn (held_by m) p) as Hsn.
  { apply tc_finite_sn; [exact Hirr|]. exists (elements (dom m)). intros q Hq.
    apply elem_of_elements, elem_of_dom. clear -Hq.
    induction Hq as [a b (y & Hb & _)|a b c _ _ IH]; [by eexists|done]. }
  revert x Hp. induction Hsn as [p _ IH]. intros x Hp.
  destruct (heap_refs_held m p (Hall p x Hp)) as (q & y & Hq & Hy).
  eapply (IH q); [by exists y|done].
Qed.

(** ** Property *)

(** C2: no script leaks, whatever its threads do and whatever the system
    answers: when [main] returns, with all threads ended and the interpreter
    destroyed, an object is left only if objects that are left refer to it, at
    least as often as its count says. So everything is freed when no object
    refers to itself through others. *)
Theorem main_leaks_only_cycles `{Env} n k l argv now o cmd code s :
  run_main n k l (main n argv now o cmd) = Done (code, s) →
  (∀ p x, objs (s_heap s) !! p = Some x →
    0 < o_refc x ≤ Z.of_nat (heap_refs (objs (s_heap s)) p)) ∧
  ((∀ p, ¬ tc (held_by (objs (s_heap s))) p p) → objs (s_heap s) = ∅).
Proof.
  intros [Hf Hd]%main_end.
  assert (∀ p x, objs (s_heap s) !! p = Some x →
    0 < o_refc x ≤ Z.of_nat (heap_refs (objs (s_heap s)) p)) as Hall.
  { intros p x Hp. split; [by eapply hf_pos|]. specialize (Hd p).
    unfold heap_due, counted in Hd. rewrite Hp in Hd. simpl in Hd. lia. }
  split; [done|]. apply no_cycle_empty. intros p x Hp. destruct (Hall p x Hp). lia.
Qed.

(** *** Witness *)

(** Another thread puts a list into itself. *)
Definition cycle_run : out (Z * st) :=
  run_main (H := sample_env) 100 400 starts (main (H := sample_env) 100
    [lit "{$global l {}} {$spawn {{$list.append $l $l} {$yield}}} {$yield}"] 0
    (mkOpts false false false false) true).
Definition objects_left (r : out (Z * st)) : option nat :=
  match r with Done (_, s) => Some (size (objs (s_heap s))) | _ => None end.

Lemma main_leaks_only_cycles_witness :
  objects_left cycle_run = Some 1%nat ∧
  match cycle_run with
  | Done (_, s) => ∀ p x, objs (s_heap s) !! p = Some x →
      0 < o_refc x ≤ Z.of_nat (heap_refs (objs (s_heap s)) p)
  | _ => False
  end.
Proof.
  assert (objects_left cycle_run = Some 1%nat) as Hsome by (vm_compute; reflexivity).
  split; [exact Hsome|]. destruct cycle_run as [[code s]| |] eqn:E; [|discriminate Hsome..].
  exact (proj1 (main_leaks_only_cycles (H := sample_env) 100 400 starts _ 0 _ true code s E)).
Defined.
