(* ===== verification/Control.v ===== *)
(** * Results of code: which [b6b_res] can come out of what

    A postcondition on the results of a computation, over all states in which
    a suspended thread can be resumed, and the control flow of the procedures
    that run code. *)
From Stdlib Require Import ZArith Lia Init.Byte Strings.Byte Strings.String.
From stdpp Require Import base option list numbers gmap.
From S2P Require Import Prelude Sys Float64 Hash Parse Heap Repr ListObj Dict Interp.
From S2P Require Import Switch Eval.
#[local] Open Scope Z_scope.

(** ** Postconditions on results *)

Fixpoint rets {A} (P : A → Prop) (r : res A) : Prop :=
  match r with
  | Ret a _ => P a
  | Fault | NoFuel => True
  | Susp _ _ k => ∀ s, rets P (k s)
  end.

Definition yields_only {A} (P : A → Prop) (m : IM A) : Prop := ∀ s, rets P (m s).

Lemma rets_True {A} (r : res A) : rets (λ _, True) r.
Proof. induction r; simpl; auto. Qed.

Lemma only_bind {A B} (P : A → Prop) (Q : B → Prop) (m : IM A) (f : A → IM B) :
  yields_only P m → (∀ a, P a → yields_only Q (f a)) → yields_only Q (m ≫= f).
Proof.
  intros Hm Hf s. unfold mbind, IM_bind. specialize (Hm s).
  induction (m s) as [a s'| | |t s' k IH]; simpl in *; [by apply Hf|done..|].
  intros s2. apply IH, Hm.
Qed.

(** Only the last computation matters. *)
Lemma only_last {A B} (Q : B → Prop) (m : IM A) (f : A → IM B) :
  (∀ a, yields_only Q (f a)) → yields_only Q (m ≫= f).
Proof.
  intros Hf. apply (only_bind (λ _, True)); [intros s; apply rets_True|auto].
Qed.

Lemma only_mret {A} (P : A → Prop) a : P a → yields_only P (mret a).
Proof. by intros H s. Qed.
Lemma only_nofuel {A} (P : A → Prop) : yields_only P nofuel.
Proof. by intros s. Qed.

Lemma only_return (P : b6b_res → Prop) o : P B6B_OK → yields_only P (lift (b6b_return o)).
Proof.
  intros HP s. unfold lift. destruct (b6b_return o s) as [[r s']| |] eqn:E; [|done..].
  unfold b6b_return in E. apply bind_Done in E as ([] & ? & _ & [= <- _]). done.
Qed.

Lemma only_ub {A} (P : A → Prop) : yields_only P (lift ub).
Proof. by intros s. Qed.

(** ** Sets of results *)

(** What is left after [b6b_on_res]. *)
Definition no_yield (r : b6b_res) : Prop := r ≠ B6B_YIELD.
(** Of a procedure, of [loop] and of [map]. *)
Definition map_result (r : b6b_res) : Prop :=
  r = B6B_OK ∨ r = B6B_ERR ∨ r = B6B_RET ∨ r = B6B_EXIT.
Definition loop_result (r : b6b_res) : Prop := r ≠ B6B_BREAK ∧ r ≠ B6B_YIELD.
Definition proc_result (r : b6b_res) : Prop := r ≠ B6B_RET ∧ r ≠ B6B_YIELD.

Ltac result_goal :=
  solve [done | unfold no_yield, proc_result, loop_result, map_result; naive_solver].

Ltac only1 :=
  match goal with
  | |- yields_only _ (mret _) => apply only_mret; result_goal
  | |- yields_only _ nofuel => apply only_nofuel
  | |- yields_only _ (lift ub) => apply only_ub
  | |- yields_only _ (lift (b6b_return _)) => apply only_return; result_goal
  | |- yields_only _ (mbind _ _) => apply only_last; intros ?
  | |- yields_only _ (match ?x with _ => _ end) => destruct x
  | |- yields_only _ _ => solve [eauto 2]
  end.
Ltac only_tac := repeat only1.

(** ** Results *)

Lemma only_on_res r : yields_only no_yield (b6b_on_res r).
Proof.
  unfold b6b_on_res. destruct (decide (r = B6B_YIELD)) as [->|Hr]; [only_tac|].
  do 4 (apply only_last; intros ?). destruct (negb _); [by apply only_mret|].
  destruct (decide (r = B6B_EXIT)); only_tac.
Qed.

Section results.
Context `{Env}.
Variable n : nat.
Variable b6b_stmt_call : loc → IM b6b_res.
Hypothesis Hstmt : ∀ stmt, yields_only no_yield (b6b_stmt_call stmt).

Lemma only_call_loop k stmts li : yields_only no_yield (call_loop b6b_stmt_call k stmts li).
Proof.
  revert li. induction k as [|k IH]; intros [i|]; simpl; [only_tac..| |only_tac].
  do 2 (apply only_last; intros ?). destruct (negb _); [only_tac|]. apply only_last; intros s.
  eapply (only_bind no_yield); [destruct s as [|c s]; [|destruct (decide _)]; only_tac|].
  intros r Hr. destruct (decide (r ≠ B6B_OK)); only_tac.
Qed.

Lemma only_call stmts : yields_only no_yield (b6b_call n b6b_stmt_call stmts).
Proof.
  unfold b6b_call. apply only_last; intros ok. destruct (negb ok); [only_tac|].
  apply only_last; intros ?. apply only_call_loop.
Qed.

Lemma only_map_loop k ks l b r li :
  yields_only map_result (map_loop n b6b_stmt_call k ks l b r li).
Proof.
  revert li. induction k as [|k IH]; intros [i|]; simpl; try (only_tac; fail).
  apply only_last; intros kli. apply only_last; intros a.
  destruct a as [| |li']; [only_tac..|].
  eapply (only_bind no_yield); [apply only_call|]. intros c Hc.
  destruct c; only_tac; done.
Qed.

Lemma only_loop_loop k b : yields_only loop_result (loop_loop n b6b_stmt_call k b).
Proof.
  induction k as [|k IH]; simpl; [only_tac|].
  eapply (only_bind no_yield); [apply only_call|]. intros c Hc. destruct c; only_tac; done.
Qed.

Lemma only_proc args : yields_only proc_result (b6b_proc_proc n b6b_stmt_call args).
Proof.
  unfold b6b_proc_proc. do 4 (apply only_last; intros ?). destruct (o_priv _); [only_tac| |only_tac..].
  do 2 (apply only_last; intros ?). destruct (negb _); [by apply only_mret|].
  do 2 (apply only_last; intros ?). destruct (negb _); [by apply only_mret|].
  eapply (only_bind no_yield); [apply only_call|]. intros c Hc.
  destruct c; only_tac; done.
Qed.
End results.

(** ** Property *)

(** C8: where results go. [b6b_stmt_call] and [b6b_call] never return
    [B6B_YIELD] (the switch has taken place), a procedure turns [B6B_RET] into
    [B6B_OK], [map] lets neither [B6B_BREAK] nor [B6B_CONT] out, and [loop]
    does not let [B6B_BREAK] out. *)
Theorem control_results `{Env} n args stmts stmt :
  yields_only no_yield (b6b_stmt_call n stmt) ∧
  yields_only no_yield (call_fuel n stmts) ∧
  yields_only proc_result (b6b_proc_proc n (b6b_stmt_call n) args) ∧
  yields_only map_result (b6b_loop_proc_map n (b6b_stmt_call n) args) ∧
  yields_only loop_result (b6b_loop_proc_loop n (b6b_stmt_call n) args).
Proof.
  assert (∀ stmt, yields_only no_yield (b6b_stmt_call n stmt)) as Hs.
  { destruct n as [|n']; intros s; [apply only_nofuel|]. simpl. unfold stmt_call_with.
    apply only_last; intros i. destruct (negb _); [by apply only_mret|].
    do 2 (apply only_last; intros ?). apply only_on_res. }
  split_and!; [apply Hs|by apply only_call|by apply only_proc|..].
  - unfold b6b_loop_proc_map. only_tac; by apply only_map_loop.
  - unfold b6b_loop_proc_loop. only_tac; by apply only_loop_loop.
Qed.
