(* ===== verification/Fuel.v ===== *)
(** * Fuel

    The bounds of the model never show: a computation with a longer bound
    continues where one with a shorter bound runs out, and is the same
    otherwise. *)
From Stdlib Require Import ZArith Lia Init.Byte Strings.Byte Strings.String.
From stdpp Require Import base option list numbers gmap.
From S2P Require Import Prelude Sys Float64 Hash Parse Heap Repr ListObj Dict Interp.
From S2P Require Import Strm Switch Sockets Streams SysProcs Zlib Eval Sched.
#[local] Open Scope Z_scope.

(** ** Longer bounds *)

(** [r'] is [r], or continues where [r] ran out of fuel. *)
Fixpoint res_le {A} (r r' : res A) : Prop :=
  match r, r' with
  | NoFuel, _ => True
  | Fault, Fault => True
  | Ret a s, Ret a' s' => a = a' ∧ s = s'
  | Susp t s k, Susp t' s' k' => t = t' ∧ s = s' ∧ ∀ x, res_le (k x) (k' x)
  | _, _ => False
  end.

Definition im_le {A} (m m' : IM A) : Prop := ∀ s, res_le (m s) (m' s).

Lemma res_le_refl {A} (r : res A) : res_le r r.
Proof. induction r; simpl; auto. Qed.

Lemma im_le_refl {A} (m : IM A) : im_le m m.
Proof. intros s. apply res_le_refl. Qed.

Lemma im_le_bind {A B} (m m' : IM A) (f f' : A → IM B) :
  im_le m m' → (∀ a, im_le (f a) (f' a)) → im_le (m ≫= f) (m' ≫= f').
Proof.
  intros Hm Hf s. unfold mbind, IM_bind. specialize (Hm s).
  revert Hm. generalize (m' s) as r'. induction (m s) as [a s1| | |t s1 k IH];
    intros [a' s1'| | |t' s1' k']; simpl; try done.
  - intros [-> ->]. apply Hf.
  - intros (-> & -> & Hk). split_and!; [done..|]. intros x. by apply IH.
Qed.

Lemma im_le_nofuel {A} (m : IM A) : im_le nofuel m.
Proof. done. Qed.

Ltac im_le1 :=
  match goal with
  | |- im_le nofuel _ => apply im_le_nofuel
  | |- im_le m_oof _ => apply im_le_nofuel
  | |- im_le ?m ?m => apply im_le_refl
  | |- im_le (mbind _ _) (mbind _ _) => apply im_le_bind; [|intros ?]
  | |- im_le (match ?x with _ => _ end) (match ?x with _ => _ end) => destruct x
  | |- im_le _ _ => solve [eauto 2 with lia]
  end.
Ltac im_le_tac := repeat im_le1.

(** The same for code that does not switch threads. *)
Definition m_le {S A} (m m' : M S A) : Prop := ∀ s, m s = Oof ∨ m s = m' s.

Lemma m_le_refl {S A} (m : M S A) : m_le m m.
Proof. intros s. by right. Qed.
Lemma m_le_oof {S A} (m : M S A) : m_le oof m.
Proof. intros s. by left. Qed.
Lemma m_le_bind {S A B} (m m' : M S A) (f f' : A → M S B) :
  m_le m m' → (∀ a, m_le (f a) (f' a)) → m_le (m ≫= f) (m' ≫= f').
Proof.
  intros Hm Hf s. unfold mbind, M_bind. destruct (Hm s) as [->|<-]; [by left|].
  destruct (m s) as [[a s']| |]; [apply Hf|by right|by left].
Qed.

Lemma im_le_hp {A} (m m' : HM A) : m_le m m' → im_le (hp m) (hp m').
Proof.
  intros Hm s. unfold hp, lift, on_heap, zoom. destruct (Hm (s_heap s)) as [-> | <-]; [done|].
  apply res_le_refl.
Qed.

Ltac m_le1 :=
  match goal with
  | |- m_le oof _ => apply m_le_oof
  | |- m_le ?m ?m => apply m_le_refl
  | |- m_le (mbind _ _) (mbind _ _) => apply m_le_bind; [|intros ?]
  | |- m_le (match ?x with _ => _ end) (match ?x with _ => _ end) => destruct x
  | |- m_le _ _ => solve [eauto 2 with lia]
  end.
Ltac m_le_tac := repeat m_le1.

(** ** Streams *)

(** The operations of the second table have at least the fuel of the first. *)
Record ops_le (ops ops' : b6b_strm_ops IM) : Prop := {
  ol_peeksz : option_Forall2 im_le (op_peeksz ops) (op_peeksz ops');
  ol_read : option_Forall2 (λ f f', ∀ size eof again, im_le (f size eof again) (f' size eof again))
    (op_read ops) (op_read ops');
  ol_write : option_Forall2 (λ f f', ∀ buf, im_le (f buf) (f' buf)) (op_write ops) (op_write ops');
  ol_peer : option_Forall2 im_le (op_peer ops) (op_peer ops');
  ol_accept : option_Forall2 im_le (op_accept ops) (op_accept ops');
  ol_fd : op_fd ops = op_fd ops';
  ol_close : option_Forall2 im_le (op_close ops) (op_close ops')
}.

Lemma ops_le_refl ops : ops_le ops ops.
Proof.
  destruct ops as [p r w pe a fd c]. split; simpl; try done;
    [destruct p|destruct r|destruct w|destruct pe|destruct a|destruct c];
    constructor; intros; apply im_le_refl.
Qed.

Section strm_fuel.
Variables ops ops' : b6b_strm_ops IM.
Hypothesis Hops : ops_le ops ops'.

Lemma le_strm_peeksz : im_le (b6b_strm_peeksz ops) (b6b_strm_peeksz ops').
Proof. unfold b6b_strm_peeksz. destruct (ol_peeksz _ _ Hops); im_le_tac. Qed.
Hint Resolve le_strm_peeksz : core.

Lemma le_read_loop read read' k k' :
  (∀ size eof again, im_le (read size eof again) (read' size eof again)) →
  ∀ buf len est want eof again, (k ≤ k')%nat →
  im_le (read_loop ops read k buf len est want eof again)
    (read_loop ops' read' k' buf len est want eof again).
Proof.
  intros Hr. revert k'. induction k as [|k IH]; intros [|k'] buf len est want eof again Hk;
    cbn [read_loop]; try lia; im_le_tac.
Qed.

Lemma le_strm_read k k' closed eof want :
  (k ≤ k')%nat → im_le (b6b_strm_read ops k closed eof want) (b6b_strm_read ops' k' closed eof want).
Proof.
  intros Hk. unfold b6b_strm_read. destruct (ol_read _ _ Hops) as [read read' Hr|]; im_le_tac.
  by apply le_read_loop.
Qed.

Lemma le_write_loop write write' k :
  (∀ buf, im_le (write buf) (write' buf)) →
  ∀ buf out, im_le (write_loop write k buf out) (write_loop write' k buf out).
Proof.
  intros Hw. induction k as [|k IH]; intros buf out; cbn [write_loop]; im_le_tac.
Qed.

Lemma le_strm_write closed buf :
  im_le (b6b_strm_write ops closed buf) (b6b_strm_write ops' closed buf).
Proof.
  unfold b6b_strm_write. destruct (ol_write _ _ Hops) as [write write' Hw|]; im_le_tac.
  by apply le_write_loop.
Qed.
End strm_fuel.

Section io_fuel.
Context `{Env}.
Variables n n' : nat.
Hypothesis Hn : (n ≤ n')%nat.

Lemma le_wait_ready k k' : (k ≤ k')%nat → im_le (wait_ready k) (wait_ready k').
Proof.
  revert k'. induction k as [|k IH]; intros [|k'] Hk; simpl; try lia; im_le_tac.
Qed.

Lemma le_wait_done k k' pending : (k ≤ k')%nat → im_le (wait_done k pending) (wait_done k' pending).
Proof.
  revert k' pending. induction k as [|k IH]; intros [|k'] pending Hk; simpl; try lia; im_le_tac.
Qed.

Lemma le_offload {A} (fn fn' : HM A) :
  m_le fn fn' → im_le (b6b_offload n fn) (b6b_offload n' fn').
Proof.
  intros Hf. unfold b6b_offload. im_le_tac;
    [by apply im_le_hp|by apply le_wait_ready|by apply im_le_hp|by apply le_wait_done].
Qed.

Lemma le_offload_same {A} (fn : HM A) : im_le (b6b_offload n fn) (b6b_offload n' fn).
Proof. apply le_offload, m_le_refl. Qed.
Hint Resolve le_offload_same : core.

Lemma le_stdio_seek fp off whence : im_le (stdio_seek n fp off whence) (stdio_seek n' fp off whence).
Proof. unfold stdio_seek. im_le_tac. Qed.
Hint Resolve le_stdio_seek : core.

Lemma le_stdio_peeksz o : im_le (b6b_stdio_peeksz n o) (b6b_stdio_peeksz n' o).
Proof. unfold b6b_stdio_peeksz. im_le_tac. Qed.
Lemma le_stdio_read o size eof again :
  im_le (b6b_stdio_read n o size eof again) (b6b_stdio_read n' o size eof again).
Proof. unfold b6b_stdio_read. im_le_tac. Qed.
Lemma le_stdio_write_loop o k fp copy total :
  im_le (stdio_write_loop n o k fp copy total) (stdio_write_loop n' o k fp copy total).
Proof. revert total. induction k as [|k IH]; intros total; simpl; im_le_tac. Qed.
Hint Resolve le_stdio_write_loop : core.
Lemma le_stdio_write o buf : im_le (b6b_stdio_write n o buf) (b6b_stdio_write n' o buf).
Proof. unfold b6b_stdio_write. im_le_tac. Qed.
Lemma le_stdio_close o : im_le (b6b_stdio_close n o) (b6b_stdio_close n' o).
Proof. unfold b6b_stdio_close. im_le_tac. Qed.
Hint Resolve le_stdio_peeksz le_stdio_read le_stdio_write le_stdio_close : core.

Lemma le_ops_of o s {A} (f f' : b6b_strm_ops IM → IM A) :
  (∀ ops ops', ops_le ops ops' → im_le (f ops) (f' ops')) →
  im_le (ops_of n o s ≫= f) (ops_of n' o s ≫= f').
Proof.
  intros Hf. assert (∀ ops ops', ops_le ops ops' → im_le (mret ops ≫= f) (mret ops' ≫= f')) as Hm.
  { intros ops ops' Hops s0. by apply Hf. }
  unfold ops_of. destruct (strm_ops s), (strm_priv s); try done; apply Hm;
    try apply ops_le_refl; split; simpl; try done; try constructor; intros;
    auto using im_le_refl.
Qed.

(** The bound is gone after [ops_of]. *)
Ltac le_ops := apply le_ops_of; intros ops ops' Hops.

Lemma le_strm_close o : im_le (b6b_strm_close n o) (b6b_strm_close n' o).
Proof.
  unfold b6b_strm_close. apply im_le_bind; [im_le_tac|intros s].
  destruct (strm_closed s); [im_le_tac|]. le_ops. destruct (ol_close _ _ Hops); im_le_tac.
Qed.

Lemma le_accept_loop accept accept' k k' l :
  (k ≤ k')%nat → im_le accept accept' → im_le (accept_loop accept k l) (accept_loop accept' k' l).
Proof.
  intros Hk Ha. revert k' Hk. induction k as [|k IH]; intros [|k'] Hk; simpl; try lia; im_le_tac.
Qed.

Lemma le_strm_accept o : im_le (b6b_strm_accept n o) (b6b_strm_accept n' o).
Proof.
  unfold b6b_strm_accept. apply im_le_bind; [im_le_tac|intros s]. le_ops.
  destruct (ol_accept _ _ Hops); im_le_tac. by apply le_accept_loop.
Qed.

Lemma le_strm_peer o : im_le (b6b_strm_peer n o) (b6b_strm_peer n' o).
Proof.
  unfold b6b_strm_peer. apply im_le_bind; [im_le_tac|intros s]. le_ops.
  destruct (ol_peer _ _ Hops); im_le_tac.
Qed.

Lemma le_strm_fd o : im_le (b6b_strm_fd n o) (b6b_strm_fd n' o).
Proof.
  unfold b6b_strm_fd. apply im_le_bind; [im_le_tac|intros s].
  destruct (strm_closed s); [im_le_tac|]. le_ops. rewrite (ol_fd _ _ Hops). im_le_tac.
Qed.

Lemma le_read o want : im_le (strm_read n o want) (strm_read n' o want).
Proof.
  unfold strm_read. apply im_le_bind; [im_le_tac|intros s]. le_ops. im_le_tac.
  by apply le_strm_read.
Qed.

Lemma le_write write o arg :
  (∀ ops ops' closed buf, ops_le ops ops' → im_le (write ops closed buf) (write ops' closed buf)) →
  im_le (strm_write n write o arg) (strm_write n' write o arg).
Proof.
  intros Hw. unfold strm_write. apply im_le_bind; [im_le_tac|intros ok].
  destruct (negb ok); [im_le_tac|]. apply im_le_bind; [im_le_tac|intros s]. le_ops. im_le_tac.
Qed.
Hint Resolve le_strm_close le_strm_accept le_strm_peer le_strm_fd le_read : core.

Lemma le_strm_proc args : im_le (b6b_strm_proc n args) (b6b_strm_proc n' args).
Proof.
  unfold b6b_strm_proc. im_le_tac; apply le_write; intros; unfold b6b_strm_writeln;
    by apply le_strm_write.
Qed.

Lemma le_open_file path mode : im_le (open_file n path mode) (open_file n' path mode).
Proof. unfold open_file. im_le_tac. Qed.
Lemma le_syscall c : im_le (b6b_syscall n c) (b6b_syscall n' c).
Proof. unfold b6b_syscall. im_le_tac. Qed.
Hint Resolve le_open_file le_syscall : core.
Lemma le_sleep_loop k k' sec nsec :
  (k ≤ k')%nat → im_le (sleep_loop n k sec nsec) (sleep_loop n' k' sec nsec).
Proof.
  revert k' sec nsec. induction k as [|k IH]; intros [|k'] sec nsec Hk; simpl; try lia; im_le_tac.
Qed.
Lemma le_poll_wait p num t : im_le (poll_wait n p num t) (poll_wait n' p num t).
Proof. unfold poll_wait. im_le_tac. Qed.
Lemma le_resolve host service socktype :
  im_le (b6b_socket_resolve n host service socktype) (b6b_socket_resolve n' host service socktype).
Proof. unfold b6b_socket_resolve. im_le_tac. Qed.
Hint Resolve le_sleep_loop le_poll_wait le_resolve : core.

Lemma le_do_deflate k k' src dlen rem s :
  (k ≤ k')%nat → m_le (do_deflate k src dlen rem s) (do_deflate k' src dlen rem s).
Proof.
  revert k' rem s. induction k as [|k IH]; intros [|k'] rem s Hk; simpl; try lia; m_le_tac.
Qed.
Lemma le_do_inflate k k' src dlen s :
  (k ≤ k')%nat → m_le (do_inflate k src dlen s) (do_inflate k' src dlen s).
Proof.
  revert k' dlen s. induction k as [|k IH]; intros [|k'] dlen s Hk; simpl; try lia; m_le_tac.
Qed.
Lemma le_deflate args wbits head foot finish :
  im_le (b6b_zlib_deflate n args wbits head foot finish)
    (b6b_zlib_deflate n' args wbits head foot finish).
Proof.
  unfold b6b_zlib_deflate, deflate_text. im_le_tac; by apply le_offload, le_do_deflate.
Qed.
Lemma le_inflate args wbits head foot get_size :
  im_le (b6b_zlib_inflate n args wbits head foot get_size)
    (b6b_zlib_inflate n' args wbits head foot get_size).
Proof.
  unfold b6b_zlib_inflate, inflate_text. im_le_tac; by apply le_offload, le_do_inflate.
Qed.

Lemma le_io_procs args :
  im_le (b6b_file_proc_open n args) (b6b_file_proc_open n' args) ∧
  im_le (b6b_time_proc_sleep n args) (b6b_time_proc_sleep n' args) ∧
  im_le (b6b_poll_proc n args) (b6b_poll_proc n' args) ∧
  im_le (b6b_socket_proc_nslookup n args) (b6b_socket_proc_nslookup n' args) ∧
  im_le (b6b_socket_proc_inet_client n args) (b6b_socket_proc_inet_client n' args) ∧
  im_le (b6b_socket_proc_inet_server n args) (b6b_socket_proc_inet_server n' args).
Proof.
  unfold b6b_file_proc_open, b6b_time_proc_sleep, b6b_poll_proc, b6b_socket_proc_nslookup,
    b6b_socket_proc_inet_client, b6b_socket_proc_inet_server.
  split_and!; im_le_tac.
Qed.
End io_fuel.

Section fuel.
Context `{Env}.
Variables n n' : nat.
Variables sc sc' : loc → IM b6b_res.
Hypothesis Hn : (n ≤ n')%nat.
Hypothesis Hsc : ∀ stmt, im_le (sc stmt) (sc' stmt).

Lemma le_eval exp : im_le (b6b_eval sc exp) (b6b_eval sc' exp).
Proof. unfold b6b_eval. im_le_tac. Qed.

Lemma le_call_loop k k' stmts li :
  (k ≤ k')%nat → im_le (call_loop sc k stmts li) (call_loop sc' k' stmts li).
Proof.
  revert k' li. induction k as [|k IH]; intros [|k'] [i|] Hk; simpl; try lia; im_le_tac.
Qed.

Lemma le_call stmts : im_le (b6b_call n sc stmts) (b6b_call n' sc' stmts).
Proof. unfold b6b_call. im_le_tac. by apply le_call_loop. Qed.
Hint Resolve le_eval le_call : core.

Lemma le_source path : im_le (b6b_source n sc path) (b6b_source n' sc' path).
Proof. unfold b6b_source. im_le_tac. Qed.
Hint Resolve le_source : core.

Lemma le_map_assign k k' ks l kli li :
  (k ≤ k')%nat → im_le (map_assign k ks l kli li) (map_assign k' ks l kli li).
Proof.
  revert k' kli li. induction k as [|k IH]; intros [|k'] [ki|] [i|] Hk; simpl; try lia;
    im_le_tac.
Qed.

Lemma le_map_loop k k' ks l b r li :
  (k ≤ k')%nat → im_le (map_loop n sc k ks l b r li) (map_loop n' sc' k' ks l b r li).
Proof.
  revert k' li. induction k as [|k IH]; intros [|k'] [i|] Hk; simpl; try lia; im_le_tac;
    by apply le_map_assign.
Qed.

Lemma le_loop_loop k k' b :
  (k ≤ k')%nat → im_le (loop_loop n sc k b) (loop_loop n' sc' k' b).
Proof.
  revert k'. induction k as [|k IH]; intros [|k'] Hk; simpl; try lia; im_le_tac.
Qed.

Lemma le_try args : im_le (b6b_exc_proc_try n sc args) (b6b_exc_proc_try n' sc' args).
Proof. unfold b6b_exc_proc_try, try_except, try_finally. im_le_tac. Qed.

Lemma le_call_proc p args : im_le (call_proc n sc p args) (call_proc n' sc' p args).
Proof.
  pose proof (le_io_procs n n' Hn args). destruct_and!.
  destruct p; cbn [call_proc];
    try match goal with
    | |- im_le (lift ?m) (lift ?m) => apply im_le_refl
    | |- im_le (b6b_strm_proc _ _) _ => by apply le_strm_proc
    | |- im_le (b6b_zlib_proc_deflate _ _) _ => by apply le_deflate
    | |- im_le (b6b_zlib_proc_compress _ _) _ => by apply le_deflate
    | |- im_le (b6b_zlib_proc_gzip _ _) _ => by apply le_deflate
    | |- im_le (b6b_zlib_proc_inflate _ _) _ => by apply le_inflate
    | |- im_le (b6b_zlib_proc_decompress _ _) _ => by apply le_inflate
    | |- im_le (b6b_zlib_proc_gunzip _ _) _ => by apply le_inflate
    | |- im_le ?m ?m => apply im_le_refl
    | _ => assumption
    end.
  - unfold b6b_core_proc_eval. im_le_tac.
  - unfold b6b_core_proc_call. im_le_tac.
  - unfold b6b_core_proc_source. im_le_tac.
  - unfold b6b_logic_proc_if. im_le_tac.
  - unfold b6b_loop_proc_map. im_le_tac; by apply le_map_loop.
  - unfold b6b_loop_proc_loop. im_le_tac; by apply le_loop_loop.
  - apply le_try.
  - unfold b6b_proc_proc. im_le_tac.
Qed.

Lemma le_stmt_loop k k' stmt args li r :
  (k ≤ k')%nat → im_le (stmt_loop sc k stmt args li r) (stmt_loop sc' k' stmt args li r).
Proof.
  revert k' li r. induction k as [|k IH]; intros [|k'] [i|] r Hk; simpl; try lia; im_le_tac.
Qed.

Lemma le_stmt_call_with stmt : im_le (stmt_call_with n sc stmt) (stmt_call_with n' sc' stmt).
Proof.
  unfold stmt_call_with, stmt_body. im_le_tac; [by apply le_stmt_loop|apply le_call_proc].
Qed.
End fuel.

Lemma le_stmt_call `{Env} n n' stmt :
  (n ≤ n')%nat → im_le (b6b_stmt_call n stmt) (b6b_stmt_call n' stmt).
Proof.
  revert n' stmt. induction n as [|n IH]; intros [|n'] stmt Hn; simpl; try lia; [done..|].
  apply le_stmt_call_with; [lia|]. intros s. apply IH. lia.
Qed.

Section machine_fuel.
Context `{Env} {A : Type}.
Variables n n' : nat.
Hypothesis Hn : (n ≤ n')%nat.

Lemma le_call_fuel stmts : im_le (call_fuel n stmts) (call_fuel n' stmts).
Proof. apply le_call; [done|]. intros stmt. by apply le_stmt_call. Qed.

Lemma le_call_copy s :
  im_le (b6b_call_copy n (b6b_stmt_call n) s) (b6b_call_copy n' (b6b_stmt_call n') s).
Proof. unfold b6b_call_copy. im_le_tac. apply le_call_fuel. Qed.

Lemma le_yield_loop k k' : (k ≤ k')%nat → im_le (yield_loop k) (yield_loop k').
Proof.
  revert k'. induction k as [|k IH]; intros [|k'] Hk; simpl; try lia; im_le_tac.
Qed.

Lemma le_interp_destroy : im_le (b6b_interp_destroy n) (b6b_interp_destroy n').
Proof.
  assert (im_le (b6b_join n) (b6b_join n')) as Hj.
  { unfold b6b_join. im_le_tac. by apply le_yield_loop. }
  unfold b6b_interp_destroy. im_le_tac.
Qed.

Lemma le_run_script argv now o cmd :
  im_le (run_script n argv now o cmd) (run_script n' argv now o cmd).
Proof.
  assert (∀ body, im_le (init_body n body) (init_body n' body)) as Hb.
  { unfold init_body. intros body. im_le_tac. apply le_call_copy. }
  pose proof le_interp_destroy as Hd.
  unfold run_script, b6b_interp_new_argv, b6b_inits, run_inits, b6b_evloop_init, b6b_co_init,
    b6b_ffi_init. im_le_tac; [apply le_call_copy..|].
  apply le_source; [done|]. intros stmt. by apply le_stmt_call.
Qed.

Lemma le_main argv now o cmd : im_le (main n argv now o cmd) (main n' argv now o cmd).
Proof.
  pose proof le_interp_destroy as Hd. unfold main. im_le_tac. apply le_run_script.
Qed.

Lemma le_routine t : im_le (b6b_thread_routine n t) (b6b_thread_routine n' t).
Proof. unfold b6b_thread_routine. im_le_tac. apply le_call_fuel. Qed.

(** Machines of which the second has at least the fuel of the first. *)
Definition rest_le (c c' : (st → res A) + (st → res unit)) : Prop :=
  match c, c' with
  | inl k, inl k' => ∀ s, res_le (k s) (k' s)
  | inr k, inr k' => ∀ s, res_le (k s) (k' s)
  | _, _ => False
  end.
Definition run_le (r r' : res A + res unit) : Prop :=
  match r, r' with
  | inl r, inl r' => res_le r r'
  | inr r, inr r' => res_le r r'
  | _, _ => False
  end.
Record machine_le (m m' : machine A) : Prop := {
  ml_run : m_run _ m = m_run _ m';
  ml_res : run_le (m_res _ m) (m_res _ m');
  ml_susp : ∀ u, option_relation rest_le (λ _, False) (λ _, False)
    (m_susp _ m !! u) (m_susp _ m' !! u)
}.

Lemma susp_le_insert t c c' (m m' : gmap N ((st → res A) + (st → res unit))) :
  rest_le c c' →
  (∀ u, option_relation rest_le (λ _, False) (λ _, False) (m !! u) (m' !! u)) →
  ∀ u, option_relation rest_le (λ _, False) (λ _, False) (<[t:=c]> m !! u) (<[t:=c']> m' !! u).
Proof. intros Hc Hm u. rewrite !lookup_insert. case_decide; [done|apply Hm]. Qed.

Lemma resume_le u s (m m' : gmap N ((st → res A) + (st → res unit))) :
  (∀ v, option_relation rest_le (λ _, False) (λ _, False) (m !! v) (m' !! v)) →
  machine_le (resume n u s m) (resume n' u s m').
Proof.
  intros Hm. pose proof (Hm u) as Hu. unfold resume.
  assert (∀ v, option_relation rest_le (λ _, False) (λ _, False)
    (delete u m !! v) (delete u m' !! v)) as Hd.
  { intros v. rewrite !lookup_delete. case_decide; [done|apply Hm]. }
  destruct (m !! u) as [[k|k]|], (m' !! u) as [[k'|k']|]; simpl in Hu; try done; split; simpl; auto.
  apply le_routine.
Qed.

Lemma mrun_le k k' (m m' : machine A) o :
  (k ≤ k')%nat → machine_le m m' → mrun n k m = o → o ≠ Oof → mrun n' k' m' = o.
Proof.
  revert k' m m'. induction k as [|k IH]; intros [|k'] m m' Hk Hm Ho Hne; simpl in *; try lia;
    [by subst o..|].
  destruct Hm as [Hrun Hres Hsusp]. unfold mstep in *.
  destruct (m_res _ m) as [r|r], (m_res _ m') as [r'|r']; simpl in Hres; try done;
    destruct r as [a s| | |t s c], r' as [a' s'| | |t' s' c']; simpl in Hres; try done;
    try (by subst o).
  - by destruct Hres as [-> ->].
  - destruct Hres as (-> & -> & Hc). eapply IH; [lia| |exact Ho|done].
    by apply resume_le, susp_le_insert.
  - destruct Hres as (-> & -> & Hc). eapply IH; [lia| |exact Ho|done].
    by apply resume_le, susp_le_insert.
Qed.
End machine_fuel.

(** ** Property *)

(** The fuel of the model never shows: when the run of a script ends with
    some result (an exit code and a final state, or undefined behaviour)
    within the bounds [n] on loops and calls and [k] on switches of threads,
    it ends with that result for all larger bounds. *)
Theorem main_fuel_irrelevant `{Env} n n' k k' l argv now o cmd r :
  run_main n k l (main n argv now o cmd) = r → r ≠ Oof →
  (n ≤ n')%nat → (k ≤ k')%nat →
  run_main n' k' l (main n' argv now o cmd) = r.
Proof.
  intros Hr Hne Hn Hk. unfold run_main in *.
  eapply mrun_le; [exact Hn|exact Hk| |exact Hr|exact Hne].
  split; simpl; [done|by apply le_main|done].
Qed.

(** *** Witness *)

Definition run_outcome {A} (r : out (A * st)) : option (A * nat) :=
  match r with Done (a, s) => Some (a, size (objs (s_heap s))) | _ => None end.

Lemma main_fuel_irrelevant_witness :
  let run n k := run_main (H := sample_env) n k starts
    (main (H := sample_env) n [lit "{$exit 7}"] 0 (mkOpts false false false false) true) in
  run 100%nat 10%nat ≠ Oof ∧ run 1000%nat 20%nat = run 100%nat 10%nat.
Proof.
  intros run. assert (run 100%nat 10%nat ≠ Oof) as Hne.
  { intros E. assert (run_outcome (run 100%nat 10%nat) = Some (7, O)) as Hr
      by (vm_compute; reflexivity).
    rewrite E in Hr. discriminate Hr. }
  split; [exact Hne|].
  apply (main_fuel_irrelevant (H := sample_env) 100 1000 10 20); [done|exact Hne|lia|lia].
Defined.
