(* ===== verification/Scripts.v ===== *)
(** * Whole runs

    Scripts run from the start of the process to its end by evaluation, among
    them scripts of the repository's own tests: the result of the script, the
    text of its return value, and how many objects are left on the heap when
    the interpreter is destroyed. *)
From Stdlib Require Import ZArith Lia Init.Byte Strings.Byte Strings.String.
From stdpp Require Import base option list numbers gmap.
From S2P Require Import Prelude Sys Float64 Hash Parse Heap Repr ListObj Dict Interp.
From S2P Require Import Switch Streams Eval Sched.
#[local] Open Scope Z_scope.

#[local] Existing Instance sample_env.

(** Runs the text with [b6b_call_copy]; the text of the return value is read
    before the interpreter is destroyed. *)
Definition script_out (n : nat) (o : b6b_opts) (script : bytes) : IM (b6b_res * bytes) :=
  ok ← b6b_interp_new_argv n [] 0 o;
  if negb ok then lift ub else
  res ← b6b_call_copy n (b6b_stmt_call n) script;
  t ← lift fg_thread;
  hp (b6b_as_str (t_ret t));;
  x ← hp (text (t_ret t));
  b6b_interp_destroy n;;
  mret (res, x).

Inductive outcome : Set :=
| Returns (r : b6b_res) (text : string) (objects_left : nat)
| Undefined
| Runs_on.

Definition run_text (n k : nat) (script : string) : outcome :=
  match run_main n k starts (script_out n (mkOpts false false false false) (lit script)) with
  | Done ((r, x), s) => Returns r (string_of_list_byte x) (size (objs (s_heap s)))
  | Ub => Undefined
  | Oof => Runs_on
  end.

#[local] Open Scope string_scope.

(** The interleaving of threads, as tests/b6b_test_spawn.c and
    tests/b6b_test_co.c expect it: [yield] alternates between threads, sixteen
    statements run before a switch otherwise, [exit] in one thread ends all of
    them, and no object is left. *)
Theorem spawn_interleaving :
  run_text 400 400
    "{$global x {}} {$spawn {{$map y [$range 1 3] {{$list.append $x a} {$yield}}}}} {$map y [$range 1 3] {{$list.append $x b} {$yield}}} {$return $x}"
    = Returns B6B_RET "b a b a b a" 0 ∧
  run_text 400 400
    "{$global x {}} {$co {{$map y [$range 1 20] {{$list.append $x a}}}}} {$map y [$range 1 20] {{$list.append $x b}}} {$return $x}"
    = Returns B6B_RET
        "b b b a a a a a a a a a a a a a a b b b b b b b b b b b b b b b b a a a a a a b" 0 ∧
  run_text 400 400
    "{$global x {}} {$spawn {{$yield} {$exit 7}}} {$loop {{$yield}}}"
    = Returns B6B_EXIT "" 0.
Proof. vm_compute. repeat split; reflexivity. Qed.

(** Errors, loops and procedures of whole scripts: [try] catches an error
    and runs its except and finally blocks, unlimited recursion ends with an
    error, a procedure sees its arguments and its private object; [continue]
    leaves [loop] instead of starting its next iteration, and [%] gives a
    positive remainder with a negative divisor too. *)
Theorem control_flow_scripts :
  run_text 400 10 "{$try {{$throw a}} {{$return b}}}" = Returns B6B_RET "b" 0 ∧
  run_text 400 10 "{$try {{$throw a}} {{$throw b}} {{$global c 1}}}" = Returns B6B_ERR "b" 0 ∧
  run_text 400 10 "{$proc f {{$f}}} {$f}" = Returns B6B_ERR "call stack overflow" 0 ∧
  run_text 400 10 "{$proc f {{$return [$* $1 [$list.index $. 0]]}} {3 4}} {$return [$f 5]}"
    = Returns B6B_RET "15" 0 ∧
  run_text 400 10 "{$map x {1 2 3} {{$if [$== $x 2] {{$continue}}} {$* $x 10}}}"
    = Returns B6B_OK "10 30" 0 ∧
  run_text 400 10 "{$return $nope}" = Returns B6B_ERR "no such obj: nope" 0 ∧
  run_text 400 10 "{$loop {{$continue}}}" = Returns B6B_CONT "" 0 ∧
  run_text 400 10 "{$return [$% 1 -3]}" = Returns B6B_RET "1" 0.
Proof. vm_compute. repeat split; reflexivity. Qed.

(** Runs of the program with undefined behaviour or without an end: an
    expression in brackets with a syntax error after its first word (its items
    are destroyed twice), an empty statement (the procedure of no object is
    called), [rtrim] of spaces (reads before the string), a delimiter with a
    NUL at the end ([str.split] runs past its string) or one of three bytes (it
    compares more than is left), [map] over a list its
    body shortens (uses a freed node); [list.extend] of a list with itself
    does not end, and [list.pop] leaves the list's old text behind. *)
Theorem defective_scripts :
  run_text 400 10 "{$eval [$str.expand {\x5ba \x7bb\x5d}]}" = Undefined ∧
  run_text 400 10 "{$eval {[]}}" = Undefined ∧
  run_text 400 10 "{$rtrim { }}" = Undefined ∧
  run_text 400 10 "{$str.split a [$str.expand a\0]}" = Undefined ∧
  run_text 400 10 "{$str.split a===b ===}" = Undefined ∧
  run_text 400 10 "{$global l {1 2 3}} {$map x $l {{$list.pop $l 1}}}" = Undefined ∧
  run_text 400 10 "{$global l {1 2}} {$list.extend $l $l}" = Runs_on ∧
  run_text 400 10 "{$global l [$list.new a b]} {$str.len $l} {$list.pop $l 0} {$str.join {} [$list.new $l [$list.len $l]]}"
    = Returns B6B_OK "a b1" 0.
Proof. vm_compute. repeat split; reflexivity. Qed.
