(* ===== verification/IoScripts.v ===== *)
(** * Whole runs that ask the system

    Scripts run from the start of the process to its end, with the answers of
    the system given: the result of the script, the text of its return value,
    the calls it made in their order, and what was opened and is not closed at
    the end. All objects are gone then. *)
From Stdlib Require Import ZArith Lia Init.Byte Strings.Byte Strings.String.
From stdpp Require Import base option list numbers gmap.
From S2P Require Import Prelude Sys Float64 Hash Parse Heap Repr ListObj Dict Interp Fds.
From S2P Require Import Switch Streams Eval Sched Scripts.
#[local] Open Scope Z_scope.

#[local] Existing Instance sample_env.

Inductive io_outcome : Set :=
| Io_returns (r : b6b_res) (text : string) (calls : list call) (open : list (resource * Z))
| Io_undefined
| Io_runs_on.

(** The resources that are not balanced, out of those that were opened. *)
Definition unbalanced (l : list (call * ans)) : list (resource * Z) :=
  filter (λ p, snd p ≠ 0) ((λ r, (r, balance r l)) <$>
    remove_dups (concat ((λ '(c, a), opens c a) <$> l))).

(** Calls of the script, not of the start and the end of the interpreter. *)
Definition own_call (c : call) : bool :=
  match c with C_pagesize | C_offload_up _ | C_offload_down _ => false | _ => true end.

(** Runs the text with the answers [l], after those for the start. Descriptors of
    objects that are left would be in the last list. *)
Definition run_io (n k : nat) (l : list ans) (script : string) : io_outcome :=
  match run_main n k (starts ++ l) (script_out n (mkOpts false false false false) (lit script)) with
  | Done ((r, x), s) =>
      let log := os_log (h_os (s_heap s)) in
      Io_returns r (string_of_list_byte x) (filter (λ c, own_call c = true) (reverse (fst <$> log))) (unbalanced log)
  | Ub => Io_undefined
  | Oof => Io_runs_on
  end.

(** The exit code of [main], and how many objects are left, for all answers. *)
Definition run_process (n k : nat) (l : list ans) (script : string) : option (Z * nat) :=
  match run_main n k l (main n [lit script] 0 (mkOpts false false false false) true) with
  | Done (code, s) => Some (code, size (objs (s_heap s)))
  | _ => None
  end.

(** Answers: a number, an error, bytes that were read, what [FIONREAD] stores,
    two descriptors. *)
Abbreviation ret := ret_ans.
Abbreviation err := err_ans.
Definition data (s : bytes) : ans := mkAns (Z.of_nat (length s)) 0 s [] [].
Definition size (n : Z) : ans := mkAns 0 0 [] [n] [].
Definition two (a b : Z) : ans := mkAns 0 0 [] [a; b] [].

#[local] Open Scope string_scope.

(** Files, semaphores, the event loop and sleeping threads, with the calls
    they make: a file is read to its end, in pieces whose size comes from its
    length, and closed once though it is closed twice; an event on a semaphore
    reaches its procedure through [evloop], which ends the script; while one
    thread sleeps in an offload thread the other goes on; a process is reaped
    when its last stream is gone; every descriptor is closed at the end; a
    process whose second offload thread does not start fails. *)
Theorem io_scripts :
  run_io 400 400
    [ret 4096; ret 3; ret 0; ret 8192; ret 0;
     ret 0; ret 0; ret 5; ret 0; data (lit "hello");
     ret 5; ret 0; ret 5; data []; ret 0; ret 1]
    "{$local f [$open f]} {$local t [$f read]} {$f close} {$f close} {$return $t}"
    = Io_returns B6B_RET "hello"
        [C_fopen (lit "f") (lit "r"); C_fileno 4096; C_cloexec 3; C_address;
         C_setvbuf 4096 IOLBF; C_ftello 4096; C_fseeko 4096 0 SEEK_END; C_ftello 4096;
         C_fseeko 4096 0 SEEK_SET; C_fread 4096 5; C_ftello 4096; C_fseeko 4096 0 SEEK_END;
         C_ftello 4096; C_fread 4096 65536; C_ferror 4096; C_feof 4096; C_fclose 4096] [] ∧
  run_io 400 400
    [ret 6; ret 5; ret 0; mkAns 1 0 [] [5; 1] []; data (le_bytes 8 3)]
    "{$local e [$evloop]} {$local s [$sem 0]} {$e add $s [$proc _ {{$exit [$1 read]}}] {} {}} {$e wait 0}"
    = Io_returns B6B_EXIT "3"
        [C_epoll_create; C_eventfd 0; C_epoll_add 6 5 1; C_epoll_wait 6 3 0; C_read 5 8;
         C_close 6; C_close 5] [] ∧
  run_io 400 400
    [ret 0; ret 0; ret 0; ret 1; ret 0]
    "{$global x {}} {$spawn {{$sleep 1.5} {$list.append $x a}}} {$yield} {$list.append $x b} {$yield} {$list.append $x c} {$yield} {$list.append $x d} {$yield} {$return $x}"
    = Io_returns B6B_RET "b c a d"
        [C_offload_start; C_nanosleep 1 500000000; C_offload_done; C_offload_done;
         C_offload_finish] [] ∧
  run_io 400 400
    [two 7 8; ret 4096; ret 8192; ret 3; size 3; data (lit "abc"); size 0]
    "{$map {a b} [$un.pair stream] {{$a write abc} {$return [$b read]}}}"
    = Io_returns B6B_RET "abc"
        [C_socketpair 1; C_address; C_address; C_send 7 (lit "abc"); C_fionread 8; C_recv 8 3;
         C_fionread 8; C_close 7; C_close 8] [] ∧
  run_io 400 400
    [two 3 4; ret 0; ret 0; ret 4096; two 5 6; ret 0; ret 0; ret 8192;
     two 7 8; ret 0; ret 0; ret 12288; ret 99]
    "{$map {pid in out err} [$sh ls] {{$return $pid}}}"
    = Io_returns B6B_RET "99"
        [C_pipe2; C_getfl 4; C_setfl 4 2048; C_address; C_pipe2; C_getfl 5; C_setfl 5 2048;
         C_address; C_pipe2; C_getfl 7; C_setfl 7 2048; C_address; C_fork;
         C_close 3; C_close 6; C_close 8; C_close 4; C_close 5; C_close 7; C_waitpid 99] [] ∧
  run_process 400 400 starts "{$exit 7}" = Some (7, 0%nat) ∧
  run_process 400 400 [ret 4096; ret 1; ret 0] "{$exit 7}" = Some (1, 0%nat).
Proof. vm_compute. repeat split; reflexivity. Qed.

(** What the code does wrong when calls fail or objects are closed:
    [open] closes its file twice when [setvbuf] fails; [peer] of a socket that
    was closed reads freed memory; [sh] leaks the ends of the pipes that were
    meant for the process when it cannot start it; [signal] leaves the signals
    blocked when there is no descriptor for them; [remove] of an event loop does
    not find its streams, since [list.range] to the length of a list is an
    error, and [wait] still waits for them. *)
Theorem defective_io :
  run_io 400 400 [ret 4096; ret 3; ret 0; ret 8192; err 12] "{$open f}"
    = Io_returns B6B_ERR ""
        [C_fopen (lit "f") (lit "r"); C_fileno 4096; C_cloexec 3; C_address;
         C_setvbuf 4096 IOLBF; C_fclose 4096; C_fclose 4096] [(R_file 4096, -1)] ∧
  run_io 400 400 [two 7 8; ret 4096; ret 8192]
    "{$map {a b} [$un.pair stream] {{$a close} {$a peer}}}" = Io_undefined ∧
  run_io 400 400
    [two 3 4; ret 0; ret 0; ret 4096; two 5 6; ret 0; ret 0; ret 8192; err 24] "{$sh ls}"
    = Io_returns B6B_ERR "error 24"
        [C_pipe2; C_getfl 4; C_setfl 4 2048; C_address; C_pipe2; C_getfl 5; C_setfl 5 2048;
         C_address; C_pipe2; C_close 5; C_close 4] [(R_fd 6, 1); (R_fd 3, 1)] ∧
  run_io 400 400 [ret 0; ret 0; err 24] "{$signal $SIGINT}"
    = Io_returns B6B_ERR "error 24"
        [C_sigaddset 2; C_sigprocmask true [2]; C_signalfd [2]] [] ∧
  run_text 400 400 "{$list.range {a b c d e} 1 5}" = Returns B6B_ERR "" 0 ∧
  run_io 400 400 [ret 6; ret 5; ret 0; ret 0; err 9]
    "{$local e [$evloop]} {$local s [$sem 0]} {$e add $s nop {} {}} {$e remove $s} {$e wait 0}"
    = Io_returns B6B_ERR "error 9"
        [C_epoll_create; C_eventfd 0; C_epoll_add 6 5 1; C_epoll_del 6 5; C_close 5;
         C_epoll_wait 6 3 0; C_close 6] [].
Proof. vm_compute. repeat split; reflexivity. Qed.
